(** * Exitem: the review store, the text chunker, the vector ranker and the
    prompt assembler

    A shallow embedding of [src/modules/reviewAI.ts] and
    [src/modules/reviewStore.ts].

    Conventions of the embedding.
    - A JavaScript string is a [string]; one [ascii] stands for one character.
      [trim] strips the ASCII white space characters and [toLowerCase] maps
      [A-Z]; characters above 127 are left alone by both.  Literals outside
      ASCII are spelled by their UTF-8 bytes.  Where the lower case of a
      name outside ASCII matters, names are sequences of UTF-16 code units
      ([Wide]).
    - Identifiers are integral JavaScript numbers, hence [Z]; [Number(x)] and
      [Math.floor] are the identity on them.  The sum [current + 1] of
      [allocateID] is a sum of binary64 numbers: it is the integer
      [current + 1] up to [Number.MAX_SAFE_INTEGER], and statements about
      fresh ids are made for stores whose counters are at most that
      ([safeIDs]).
    - Embedding vectors hold IEEE 754 binary64 numbers, hence [float].
      [Array.prototype.sort] is the stable sort [sortBy]; the order it gives
      is that of every stable sort when the comparator is consistent, which
      the comparator by score is when no score is [nan] ([Binary64]).
    - Every [nowISO()] of one store operation reads the same clock value,
      passed as the argument [now]. *)

From Stdlib Require Import List ZArith Bool Ascii String Lia PeanoNat.
From Stdlib Require Import PrimFloat Sorted Permutation DecimalString.
From Stdlib Require SpecFloat FloatOps FloatAxioms.
Import ListNotations.

Local Open Scope string_scope.
Local Open Scope nat_scope.

(** ** JavaScript string primitives *)

Module JS.

Definition LF : ascii := ascii_of_nat 10.
Definition CR : ascii := ascii_of_nat 13.
Definition TAB : ascii := ascii_of_nat 9.
Definition SP : ascii := ascii_of_nat 32.
Definition NUL : ascii := ascii_of_nat 0.

(** White space as [String.prototype.trim] sees it, on the ASCII range. *)
Definition isWhite (c : ascii) : bool :=
  let n := nat_of_ascii c in
  ((9 <=? n) && (n <=? 13)) || (n =? 32).

Definition isEmpty (s : string) : bool :=
  match s with EmptyString => true | String _ _ => false end.

(** Truthiness of a string: [Boolean(s)]. *)
Definition truthy (s : string) : bool := negb (isEmpty s).

Fixpoint trimStart (s : string) : string :=
  match s with
  | EmptyString => EmptyString
  | String c r => if isWhite c then trimStart r else s
  end.

Fixpoint trimEnd (s : string) : string :=
  match s with
  | EmptyString => EmptyString
  | String c r =>
      let t := trimEnd r in
      if isWhite c && isEmpty t then EmptyString else String c t
  end.

Definition trim (s : string) : string := trimEnd (trimStart s).

Definition lowerChar (c : ascii) : ascii :=
  let n := nat_of_ascii c in
  if (65 <=? n) && (n <=? 90) then ascii_of_nat (n + 32) else c.

Fixpoint toLowerCase (s : string) : string :=
  match s with
  | EmptyString => EmptyString
  | String c r => String (lowerChar c) (toLowerCase r)
  end.

(** [s.slice(i, j)] for [0 <= i <= j]. *)
Definition slice (s : string) (i j : nat) : string := substring i (j - i) s.

(** [parts.join(sep)]. *)
Fixpoint join (sep : string) (parts : list string) : string :=
  match parts with
  | [] => EmptyString
  | [p] => p
  | p :: rest => p ++ sep ++ join sep rest
  end.

(** [s.includes(t)]. *)
Fixpoint includes (s t : string) : bool :=
  prefix t s ||
  match s with
  | EmptyString => false
  | String _ r => includes r t
  end.

(** [Array.prototype.sort] is stable; [after x y] holds when the comparator is
    positive on [(x, y)], that is when [x] has to come after [y]. *)
Fixpoint insertBy {A : Type} (after : A -> A -> bool) (x : A) (l : list A)
  : list A :=
  match l with
  | [] => [x]
  | y :: l' => if after x y then y :: insertBy after x l' else x :: l
  end.

Definition sortBy {A : Type} (after : A -> A -> bool) (l : list A) : list A :=
  fold_right (insertBy after) [] l.

Lemma length_trimStart s : String.length (trimStart s) <= String.length s.
Proof.
  induction s as [|c r IH]; simpl; [lia|].
  destruct (isWhite c); simpl; lia.
Qed.

Lemma length_trimEnd s : String.length (trimEnd s) <= String.length s.
Proof.
  induction s as [|c r IH]; simpl; [lia|].
  destruct (isWhite c && isEmpty (trimEnd r)); simpl; lia.
Qed.

Lemma length_trim s : String.length (trim s) <= String.length s.
Proof.
  unfold trim. etransitivity; [apply length_trimEnd | apply length_trimStart].
Qed.

Lemma length_substring_le s : forall i n, String.length (substring i n s) <= n.
Proof.
  induction s as [|c r IH]; intros i n.
  - destruct i, n; simpl; lia.
  - destruct i as [|i].
    + destruct n as [|n]; simpl; [lia|]. specialize (IH 0 n). lia.
    + simpl. apply IH.
Qed.

Lemma length_slice s i j : String.length (slice s i j) <= j - i.
Proof. apply length_substring_le. Qed.

Lemma length_append (s t : string) :
  String.length (s ++ t) = String.length s + String.length t.
Proof. induction s as [|c r IH]; simpl; [reflexivity | now rewrite IH]. Qed.

Lemma isEmpty_true s : isEmpty s = true <-> s = EmptyString.
Proof. destruct s; simpl; split; congruence. Qed.



Lemma trimEnd_idempotent s : trimEnd (trimEnd s) = trimEnd s.
Proof.
  induction s as [|c r IH]; [reflexivity|].
  cbn [trimEnd]. destruct (isWhite c && isEmpty (trimEnd r)) eqn:Hdrop;
    [reflexivity|].
  cbn [trimEnd]. now rewrite IH, Hdrop.
Qed.

(** What [trimStart] returns does not start with white space, and
    [trimEnd] keeps it so. *)
Definition startsBlack (s : string) : bool :=
  match s with
  | EmptyString => true
  | String c _ => negb (isWhite c)
  end.

Lemma trimStart_startsBlack s : startsBlack (trimStart s) = true.
Proof.
  induction s as [|c r IH]; [reflexivity|]. cbn [trimStart].
  destruct (isWhite c) eqn:Hc; [exact IH|]. simpl. now rewrite Hc.
Qed.

Lemma trimEnd_startsBlack s :
  startsBlack s = true -> startsBlack (trimEnd s) = true.
Proof.
  destruct s as [|c r]; [reflexivity|]. cbn [startsBlack trimEnd].
  intros Hc. apply negb_true_iff in Hc. rewrite Hc. simpl. now rewrite Hc.
Qed.

Lemma trimStart_black s : startsBlack s = true -> trimStart s = s.
Proof.
  destruct s as [|c r]; [reflexivity|]. cbn [startsBlack trimStart].
  intros Hc. apply negb_true_iff in Hc. now rewrite Hc.
Qed.



Lemma trim_idempotent s : trim (trim s) = trim s.
Proof.
  unfold trim. rewrite trimStart_black.
  - apply trimEnd_idempotent.
  - apply trimEnd_startsBlack, trimStart_startsBlack.
Qed.

End JS.

(** ** Text chunker ([reviewAI.ts], [chunkTextForEmbedding]) *)

Module Chunker.
Import JS.

Definition EMBEDDING_MAX_CHUNKS : nat := 12.
Definition EMBEDDING_CHUNK_CHARS : nat := 1200.

Definition isLF (c : ascii) : bool := Ascii.eqb c LF.
Definition isBlank (c : ascii) : bool := Ascii.eqb c SP || Ascii.eqb c TAB.

Definition startsWithLF (s : string) : bool :=
  match s with String c _ => isLF c | EmptyString => false end.

(** [.replace(/\r\n/g, "\n")] *)
Fixpoint replaceCRLF (s : string) : string :=
  match s with
  | EmptyString => EmptyString
  | String c tl =>
      match tl with
      | String c' rest =>
          if Ascii.eqb c CR && Ascii.eqb c' LF
          then String LF (replaceCRLF rest)
          else String c (replaceCRLF tl)
      | EmptyString => String c EmptyString
      end
  end.

(** [.replace(/\u0000/g, " ")] *)
Fixpoint replaceNUL (s : string) : string :=
  match s with
  | EmptyString => EmptyString
  | String c r => String (if Ascii.eqb c NUL then SP else c) (replaceNUL r)
  end.

Fixpoint dropBlanks (s : string) : string :=
  match s with
  | EmptyString => EmptyString
  | String c r => if isBlank c then dropBlanks r else s
  end.

(** [.replace(/[ \t]+\n/g, "\n")]: a blank is deleted exactly when the run of
    blanks it starts is followed by a line feed. *)
Fixpoint stripBlanksBeforeLF (s : string) : string :=
  match s with
  | EmptyString => EmptyString
  | String c r =>
      if isBlank c && startsWithLF (dropBlanks r)
      then stripBlanksBeforeLF r
      else String c (stripBlanksBeforeLF r)
  end.

(** [.replace(/\n{3,}/g, "\n\n")]: of a run of line feeds the first two are
    kept; [run] counts the line feeds read just before [s]. *)
Fixpoint collapseLF (run : nat) (s : string) : string :=
  match s with
  | EmptyString => EmptyString
  | String c r =>
      if isLF c
      then if run <? 2 then String c (collapseLF (S run) r)
           else collapseLF (S run) r
      else String c (collapseLF 0 r)
  end.

Definition normalizeAttachmentText (text : string) : string :=
  trim (collapseLF 0 (stripBlanksBeforeLF (replaceNUL (replaceCRLF text)))).

Definition consHead (c : ascii) (pieces : list string) : list string :=
  match pieces with
  | [] => [String c EmptyString]
  | p :: ps => String c p :: ps
  end.

(** [.split(/\n{2,}/)]; [inSep] holds while a separator run is being read.
    The head of the result is the piece that starts at [s]. *)
Fixpoint splitBlankLines (inSep : bool) (s : string) : list string :=
  match s with
  | EmptyString => [EmptyString]
  | String c r =>
      if isLF c then
        if inSep then splitBlankLines true r
        else if startsWithLF r then EmptyString :: splitBlankLines true r
        else consHead c (splitBlankLines false r)
      else consHead c (splitBlankLines false r)
  end.

Definition paragraphsOf (normalized : string) : list string :=
  filter truthy (map trim (splitBlankLines false normalized)).

(** The separator ["\n\n"] put between packed paragraphs. *)
Definition blankLine : string := String LF (String LF EmptyString).

(** The closure [flush]: pushes the trimmed [current] when it is not empty and
    resets [current]. *)
Definition flush (chunks : list string) (current : string)
  : list string * string :=
  let next := trim current in
  ((if truthy next then chunks ++ [next] else chunks)%list, EmptyString).

(** The values of [i] in [for (i = 0; i < len; i += EMBEDDING_CHUNK_CHARS)]. *)
Definition sliceStarts (len : nat) : list nat :=
  map (fun j => j * EMBEDDING_CHUNK_CHARS)
      (seq 0 ((len + EMBEDDING_CHUNK_CHARS - 1) / EMBEDDING_CHUNK_CHARS)).

(** The inner loop of the hard split; the flag tells that the function
    returned from inside the loop. *)
Fixpoint hardSplit (starts : list nat) (paragraph : string)
    (chunks : list string) : list string * bool :=
  match starts with
  | [] => (chunks, false)
  | i :: rest =>
      let chunks :=
        (chunks ++ [trim (slice paragraph i (i + EMBEDDING_CHUNK_CHARS))])%list in
      if EMBEDDING_MAX_CHUNKS <=? List.length chunks then (chunks, true)
      else hardSplit rest paragraph chunks
  end.

(** The code after the paragraph loop. *)
Definition finish (chunks : list string) (current : string) : list string :=
  let chunks :=
    if truthy current && (List.length chunks <? EMBEDDING_MAX_CHUNKS)
    then fst (flush chunks current) else chunks in
  firstn EMBEDDING_MAX_CHUNKS (filter truthy chunks).

(** The paragraph loop. [paragraph.length > EMBEDDING_CHUNK_CHARS * 1.5] is
    compared on integers as [3 * CHARS < 2 * length]. *)
Fixpoint packParagraphs (paragraphs : list string) (chunks : list string)
    (current : string) : list string :=
  match paragraphs with
  | [] => finish chunks current
  | paragraph :: rest =>
      if 3 * EMBEDDING_CHUNK_CHARS <? 2 * String.length paragraph then
        let '(chunks, current) :=
          if truthy current then flush chunks current else (chunks, current) in
        let '(chunks, returned) :=
          hardSplit (sliceStarts (String.length paragraph)) paragraph chunks in
        if returned then filter truthy chunks
        else packParagraphs rest chunks current
      else
        let candidate :=
          if truthy current then (current ++ blankLine ++ paragraph)%string
          else paragraph in
        let '(chunks, current) :=
          if (EMBEDDING_CHUNK_CHARS <? String.length candidate) && truthy current
          then (fst (flush chunks current), paragraph)
          else (chunks, candidate) in
        if EMBEDDING_MAX_CHUNKS <=? List.length chunks
        then finish chunks current
        else packParagraphs rest chunks current
  end.

Definition chunkTextForEmbedding (text : string) : list string :=
  let normalized := normalizeAttachmentText text in
  if isEmpty normalized then []
  else packParagraphs (paragraphsOf normalized) [] EmptyString.

(** A text of [n] copies of one character. *)
Fixpoint repeatChar (c : ascii) (n : nat) : string :=
  match n with O => EmptyString | S k => String c (repeatChar c k) end.

(** *** Length bounds *)

Definition within (bound : nat) (chunks : list string) : Prop :=
  Forall (fun chunk => String.length chunk <= bound) chunks.

Lemma within_filter bound chunks :
  within bound chunks -> within bound (filter truthy chunks).
Proof.
  unfold within. rewrite !Forall_forall. intros H x Hx.
  apply filter_In in Hx. now apply H.
Qed.

Lemma In_firstn (A : Type) (x : A) n : forall l, In x (firstn n l) -> In x l.
Proof.
  induction n as [|n IH]; intros [|y l] Hx; simpl in *; try contradiction.
  destruct Hx as [->|Hx]; [now left | right; now apply IH].
Qed.

Lemma within_firstn bound n chunks :
  within bound chunks -> within bound (firstn n chunks).
Proof.
  unfold within. rewrite !Forall_forall. intros H x Hx.
  apply H. eapply In_firstn; eauto.
Qed.

Lemma within_snoc bound chunks chunk :
  within bound chunks -> String.length chunk <= bound ->
  within bound (chunks ++ [chunk]).
Proof.
  intros H Hc. apply Forall_app. split; [exact H | now constructor].
Qed.

Lemma flush_within bound chunks current :
  within bound chunks -> String.length current <= bound ->
  within bound (fst (flush chunks current)).
Proof.
  intros H Hc. unfold flush; simpl.
  destruct (truthy (trim current)); [|exact H].
  apply within_snoc; [exact H|].
  pose proof (length_trim current). lia.
Qed.

Lemma flush_current chunks current : snd (flush chunks current) = EmptyString.
Proof. reflexivity. Qed.

Lemma hardSplit_within bound starts paragraph :
  EMBEDDING_CHUNK_CHARS <= bound ->
  forall chunks, within bound chunks ->
  within bound (fst (hardSplit starts paragraph chunks)).
Proof.
  intros Hb.
  induction starts as [|i rest IH]; intros chunks H; cbn [hardSplit];
    [exact H|].
  assert (Hnew : within bound
            (chunks ++ [trim (slice paragraph i (i + EMBEDDING_CHUNK_CHARS))])).
  { apply within_snoc; [exact H|].
    pose proof (length_trim (slice paragraph i (i + EMBEDDING_CHUNK_CHARS))).
    pose proof (length_slice paragraph i (i + EMBEDDING_CHUNK_CHARS)). lia. }
  match goal with |- context [if ?c then _ else _] => destruct c end;
    [exact Hnew | now apply IH].
Qed.

Lemma finish_within bound chunks current :
  within bound chunks -> String.length current <= bound ->
  within bound (finish chunks current).
Proof.
  intros H Hc. unfold finish.
  apply within_firstn, within_filter.
  destruct (truthy current && _); [now apply flush_within | exact H].
Qed.

(** Whatever the paragraphs are, no chunk grows beyond one and a half times
    the budget: [current] is either one paragraph that was not hard split or a
    packing that stayed within the budget. *)
Lemma packParagraphs_within paragraphs :
  forall chunks current,
  within (EMBEDDING_CHUNK_CHARS + EMBEDDING_CHUNK_CHARS / 2) chunks ->
  String.length current <= EMBEDDING_CHUNK_CHARS + EMBEDDING_CHUNK_CHARS / 2 ->
  within (EMBEDDING_CHUNK_CHARS + EMBEDDING_CHUNK_CHARS / 2)
         (packParagraphs paragraphs chunks current).
Proof.
  set (bound := EMBEDDING_CHUNK_CHARS + EMBEDDING_CHUNK_CHARS / 2).
  assert (Hb : EMBEDDING_CHUNK_CHARS <= bound) by (unfold bound; lia).
  induction paragraphs as [|paragraph rest IH]; intros chunks current H Hc.
  - now apply finish_within.
  - cbn [packParagraphs].
    destruct (3 * EMBEDDING_CHUNK_CHARS <? 2 * String.length paragraph) eqn:Hbig.
    + assert (Hfl : within bound
                (fst (if truthy current then flush chunks current
                      else (chunks, current))) /\
              String.length
                (snd (if truthy current then flush chunks current
                      else (chunks, current))) <= bound).
      { destruct (truthy current); simpl; split;
          try exact H; try exact Hc; try lia.
        now apply flush_within. }
      destruct (if truthy current then flush chunks current
                else (chunks, current)) as [chunks1 current1].
      simpl in Hfl. destruct Hfl as [H1 Hc1].
      pose proof (hardSplit_within bound
                    (sliceStarts (String.length paragraph)) paragraph Hb
                    chunks1 H1) as Hhs.
      destruct (hardSplit _ paragraph chunks1) as [chunks2 returned].
      simpl in Hhs. destruct returned; [now apply within_filter | now apply IH].
    + apply Nat.ltb_ge in Hbig.
      assert (Hp : String.length paragraph <= bound).
      { unfold bound, EMBEDDING_CHUNK_CHARS in *.
        change (1200 / 2) with 600. lia. }
      match goal with
      | |- context [if ?c then (fst (flush chunks current), paragraph) else _] =>
          destruct c eqn:Hover
      end.
      * assert (H1 : within bound (fst (flush chunks current)))
          by now apply flush_within.
        destruct (EMBEDDING_MAX_CHUNKS <=? _);
          [now apply finish_within | now apply IH].
      * assert (Hcand : String.length
                  (if truthy current
                   then (current ++ blankLine ++ paragraph)%string
                   else paragraph) <= bound).
        { apply andb_false_iff in Hover. destruct (truthy current) eqn:Ht.
          - destruct Hover as [Hover|Hover]; [|discriminate].
            apply Nat.ltb_ge in Hover. lia.
          - exact Hp. }
        destruct (EMBEDDING_MAX_CHUNKS <=? _);
          [now apply finish_within | now apply IH].
Qed.

Lemma chunkTextForEmbedding_within text :
  within (EMBEDDING_CHUNK_CHARS + EMBEDDING_CHUNK_CHARS / 2)
         (chunkTextForEmbedding text).
Proof.
  unfold chunkTextForEmbedding.
  destruct (isEmpty _); [constructor|].
  apply packParagraphs_within; [constructor | simpl; lia].
Qed.

(** *** The hard-split path on a text without white space *)

(** A text in which no character is white space or NUL: normalisation,
    splitting and trimming leave it alone. *)
Fixpoint solid (s : string) : bool :=
  match s with
  | EmptyString => true
  | String c r => negb (isWhite c) && negb (Ascii.eqb c NUL) && solid r
  end.

Lemma solid_cons c r :
  solid (String c r) = true ->
  isWhite c = false /\ Ascii.eqb c NUL = false /\ solid r = true.
Proof.
  simpl. rewrite !andb_true_iff, !negb_true_iff. tauto.
Qed.

Lemma notWhite_notLF c : isWhite c = false -> isLF c = false.
Proof.
  intros H. unfold isLF. destruct (Ascii.eqb_spec c LF) as [->|]; [|reflexivity].
  discriminate H.
Qed.

Lemma notWhite_notCR c : isWhite c = false -> Ascii.eqb c CR = false.
Proof.
  intros H. destruct (Ascii.eqb_spec c CR) as [->|]; [|reflexivity].
  discriminate H.
Qed.

Lemma notWhite_notBlank c : isWhite c = false -> isBlank c = false.
Proof.
  intros H. unfold isBlank.
  destruct (Ascii.eqb_spec c SP) as [->|]; [discriminate H|].
  destruct (Ascii.eqb_spec c TAB) as [->|]; [discriminate H|reflexivity].
Qed.

Lemma solid_replaceCRLF s : solid s = true -> replaceCRLF s = s.
Proof.
  induction s as [|c r IH]; intros H; [reflexivity|].
  apply solid_cons in H. destruct H as (Hw & _ & Hr).
  cbn [replaceCRLF]. destruct r as [|c' r']; [reflexivity|].
  rewrite (notWhite_notCR c Hw). cbn [andb]. now rewrite IH.
Qed.

Lemma solid_replaceNUL s : solid s = true -> replaceNUL s = s.
Proof.
  induction s as [|c r IH]; intros H; [reflexivity|].
  apply solid_cons in H. destruct H as (_ & Hn & Hr).
  cbn [replaceNUL]. now rewrite Hn, IH.
Qed.

Lemma solid_stripBlanksBeforeLF s : solid s = true -> stripBlanksBeforeLF s = s.
Proof.
  induction s as [|c r IH]; intros H; [reflexivity|].
  apply solid_cons in H. destruct H as (Hw & _ & Hr).
  cbn [stripBlanksBeforeLF]. rewrite (notWhite_notBlank c Hw). cbn [andb].
  now rewrite IH.
Qed.

Lemma solid_collapseLF s : solid s = true -> forall run, collapseLF run s = s.
Proof.
  induction s as [|c r IH]; intros H run; [reflexivity|].
  apply solid_cons in H. destruct H as (Hw & _ & Hr).
  cbn [collapseLF]. rewrite (notWhite_notLF c Hw). now rewrite IH.
Qed.

Lemma solid_trimStart s : solid s = true -> trimStart s = s.
Proof.
  destruct s as [|c r]; intros H; [reflexivity|].
  apply solid_cons in H. destruct H as (Hw & _). simpl. now rewrite Hw.
Qed.

Lemma solid_trimEnd s : solid s = true -> trimEnd s = s.
Proof.
  induction s as [|c r IH]; intros H; [reflexivity|].
  apply solid_cons in H. destruct H as (Hw & _ & Hr).
  cbn [trimEnd]. rewrite Hw. cbn [andb]. now rewrite IH.
Qed.

Lemma solid_trim s : solid s = true -> trim s = s.
Proof.
  intros H. unfold trim. rewrite (solid_trimStart s H). now apply solid_trimEnd.
Qed.

Lemma solid_splitBlankLines s :
  solid s = true -> splitBlankLines false s = [s].
Proof.
  induction s as [|c r IH]; intros H; [reflexivity|].
  apply solid_cons in H. destruct H as (Hw & _ & Hr).
  cbn [splitBlankLines]. rewrite (notWhite_notLF c Hw). now rewrite IH.
Qed.

Lemma solid_substring s : solid s = true ->
  forall i n, solid (substring i n s) = true.
Proof.
  induction s as [|c r IH]; intros H i n.
  - destruct i, n; reflexivity.
  - pose proof (solid_cons c r H) as (Hw & Hn & Hr).
    destruct i as [|i]; [|simpl; now apply IH].
    destruct n as [|n]; [reflexivity|].
    cbn [substring solid]. rewrite Hw, Hn. cbn [negb andb]. now apply IH.
Qed.

Lemma length_substring s :
  forall i n, String.length (substring i n s) = Nat.min n (String.length s - i).
Proof.
  induction s as [|c r IH]; intros i n.
  - destruct i, n; reflexivity.
  - destruct i as [|i]; [|simpl; apply IH].
    destruct n as [|n]; [reflexivity|].
    cbn [substring String.length]. rewrite IH. simpl. now rewrite Nat.sub_0_r.
Qed.

Lemma truthy_length s : 0 < String.length s -> truthy s = true.
Proof. destruct s; simpl; [lia | reflexivity]. Qed.

Lemma solid_normalizeAttachmentText s :
  solid s = true -> normalizeAttachmentText s = s.
Proof.
  intros H. unfold normalizeAttachmentText.
  rewrite (solid_replaceCRLF s H), (solid_replaceNUL s H),
    (solid_stripBlanksBeforeLF s H), (solid_collapseLF s H).
  now apply solid_trim.
Qed.

(** A text of 3000 characters without white space is one paragraph beyond one
    and a half budgets: it is cut at 1200 and at 2400. *)
Lemma chunkTextForEmbedding_solid_3000 text :
  String.length text = 3000 -> solid text = true ->
  chunkTextForEmbedding text =
    [slice text 0 1200; slice text 1200 2400; slice text 2400 3600].
Proof.
  intros Hlen Hsolid.
  assert (Htruthy : truthy text = true) by (apply truthy_length; lia).
  assert (Hwindow : forall i j, i < 3000 -> i < j ->
             trim (slice text i j) = slice text i j /\
             truthy (slice text i j) = true).
  { intros i j Hi Hj. unfold slice. split.
    - apply solid_trim, solid_substring, Hsolid.
    - apply truthy_length. rewrite length_substring, Hlen. lia. }
  unfold chunkTextForEmbedding.
  rewrite (solid_normalizeAttachmentText text Hsolid).
  replace (isEmpty text) with false
    by (unfold truthy in Htruthy; now destruct (isEmpty text)).
  unfold paragraphsOf. rewrite (solid_splitBlankLines text Hsolid).
  cbn [map filter]. rewrite (solid_trim text Hsolid), Htruthy.
  cbn [packParagraphs]. rewrite Hlen.
  replace (3 * EMBEDDING_CHUNK_CHARS <? 2 * 3000) with true
    by (vm_compute; reflexivity).
  replace (sliceStarts 3000) with [0; 1200; 2400] by (vm_compute; reflexivity).
  change (truthy EmptyString) with false. cbv iota beta.
  destruct (Hwindow 0 1200) as [T1 N1]; [lia | lia |].
  destruct (Hwindow 1200 2400) as [T2 N2]; [lia | lia |].
  destruct (Hwindow 2400 3600) as [T3 N3]; [lia | lia |].
  unfold hardSplit, EMBEDDING_CHUNK_CHARS.
  change (0 + 1200) with 1200. change (1200 + 1200) with 2400.
  change (2400 + 1200) with 3600.
  rewrite T1, T2, T3. cbn [app List.length].
  change (EMBEDDING_MAX_CHUNKS <=? 1) with false.
  change (EMBEDDING_MAX_CHUNKS <=? 2) with false.
  change (EMBEDDING_MAX_CHUNKS <=? 3) with false.
  cbv iota beta. unfold finish. change (truthy EmptyString) with false.
  cbn [andb filter]. rewrite N1, N2, N3. reflexivity.
Qed.

(** A text that is, once normalised, one paragraph of 3000 characters is cut
    at 1200 and at 2400; the slices are trimmed and the empty ones left
    out. *)
Lemma chunkTextForEmbedding_paragraph_3000 text paragraph :
  paragraphsOf (normalizeAttachmentText text) = [paragraph] ->
  String.length paragraph = 3000 ->
  chunkTextForEmbedding text
  = filter truthy
      [trim (slice paragraph 0 1200); trim (slice paragraph 1200 2400);
       trim (slice paragraph 2400 3600)].
Proof.
  intros Hone Hlen. unfold chunkTextForEmbedding.
  destruct (isEmpty (normalizeAttachmentText text)) eqn:Hempty.
  { apply isEmpty_true in Hempty. rewrite Hempty in Hone. discriminate. }
  rewrite Hone. cbn [packParagraphs]. rewrite Hlen.
  replace (3 * EMBEDDING_CHUNK_CHARS <? 2 * 3000) with true
    by (vm_compute; reflexivity).
  replace (sliceStarts 3000) with [0; 1200; 2400] by (vm_compute; reflexivity).
  change (truthy EmptyString) with false. cbv iota beta.
  unfold hardSplit, EMBEDDING_CHUNK_CHARS.
  change (0 + 1200) with 1200. change (1200 + 1200) with 2400.
  change (2400 + 1200) with 3600.
  cbn [app List.length].
  change (EMBEDDING_MAX_CHUNKS <=? 1) with false.
  change (EMBEDDING_MAX_CHUNKS <=? 2) with false.
  change (EMBEDDING_MAX_CHUNKS <=? 3) with false.
  cbv iota beta. unfold finish. change (truthy EmptyString) with false.
  cbn [andb]. apply firstn_all2.
  etransitivity; [apply filter_length_le|]. vm_compute. lia.
Qed.

(** The trimmed slices of a paragraph are within the budget. *)
Lemma within_trimmed_slices paragraph starts :
  within 1200
    (filter truthy
       (map (fun i => trim (slice paragraph i (i + 1200))) starts)).
Proof.
  apply within_filter. unfold within. apply Forall_forall. intros chunk Hin.
  apply in_map_iff in Hin. destruct Hin as (i & <- & _).
  etransitivity; [apply length_trim|]. unfold slice.
  etransitivity; [apply length_substring_le|]. lia.
Qed.

End Chunker.

(** ** Prompt assembler ([reviewAI.ts], [buildPrompt],
    [buildFolderSummaryPrompt]) *)

Module Prompt.
Import JS.

Definition newline : string := String LF EmptyString.

Definition DEFAULT_REVIEW_PROMPT_TEMPLATE : string :=
  join newline
    [ "请根据以下文献信息生成结构化提炼结果。";
      "要求：";
      "1. 仅返回 JSON 对象，不要代码块。";
      "2. 使用中文输出（title/authors/journal/publicationDate 可保留原文）。";
      "3. 字段必须包含：title, authors, journal, publicationDate, abstract, researchBackground, literatureReview, researchMethods, researchConclusions, keyFindings, classificationTags";
      "4. keyFindings 和 classificationTags 必须是字符串数组。";
      "5. 若信息不足，请明确写出“信息不足”而不是编造。";
      "";
      "文献信息如下：";
      "{{sourceContent}}" ].

Definition DEFAULT_FOLDER_SUMMARY_PROMPT_TEMPLATE : string :=
  join newline
    [ "请基于同一文件夹下的多篇文献提炼记录，生成一份中文综合综述。";
      "要求：";
      "1. 输出结构清晰、便于阅读，可使用分标题。";
      "2. 至少包含：主题概述、研究脉络、方法比较、主要结论、分歧与局限、未来方向。";
      "3. 严格基于提供的记录信息，不要编造文献细节。";
      "4. 如果信息不足，请明确指出不足之处。";
      "";
      "文件夹名称：{{folderName}}";
      "";
      "记录内容如下：";
      "{{recordsContent}}" ].

(** [String.prototype.replace] with a replacement string reads [$$], [$&],
    [$`] and [$'] in it as patterns (ECMAScript GetSubstitution); the regular
    expressions of this module have no capture group, so [$1], [$<] and the
    like stand for themselves. *)
Fixpoint getSubstitution (matched before after replacement : string) : string :=
  match replacement with
  | EmptyString => EmptyString
  | String c tl =>
      if Ascii.eqb c "$" then
        match tl with
        | String c' rest =>
            if Ascii.eqb c' "$" then
              String c' (getSubstitution matched before after rest)
            else if Ascii.eqb c' "&" then
              matched ++ getSubstitution matched before after rest
            else if Ascii.eqb c' "`" then
              before ++ getSubstitution matched before after rest
            else if Ascii.eqb c' "'" then
              after ++ getSubstitution matched before after rest
            else String c (getSubstitution matched before after tl)
        | EmptyString => String c EmptyString
        end
      else String c (getSubstitution matched before after tl)
  end.

Fixpoint drop (n : nat) (s : string) : string :=
  match n, s with
  | S k, String _ r => drop k r
  | _, _ => s
  end.

(** [s.replace(/pattern/g, replacement)] for a literal, non-empty pattern:
    [before] is the text already read, [skip] the characters of the last
    match still to be passed over. *)
Fixpoint replaceAllFrom (pattern replacement before : string) (skip : nat)
    (s : string) : string :=
  match s with
  | EmptyString => EmptyString
  | String c r =>
      let before' := (before ++ String c EmptyString)%string in
      match skip with
      | S k => replaceAllFrom pattern replacement before' k r
      | O =>
          if prefix pattern s then
            (getSubstitution pattern before
               (drop (String.length pattern) s) replacement
             ++ replaceAllFrom pattern replacement before'
                  (String.length pattern - 1) r)%string
          else String c (replaceAllFrom pattern replacement before' 0 r)
      end
  end.

Definition replaceAll (pattern replacement s : string) : string :=
  replaceAllFrom pattern replacement EmptyString 0 s.

(** [/pattern/.test(s)] for a literal pattern. *)
Definition test (pattern s : string) : bool := includes s pattern.

Definition buildPrompt (sourceContent customPromptTemplate : string) : string :=
  let template := trim customPromptTemplate in
  if isEmpty template then
    replaceAll "{{sourceContent}}" sourceContent DEFAULT_REVIEW_PROMPT_TEMPLATE
  else if test "{{sourceContent}}" template || test "{{source_content}}" template
  then
    replaceAll "{{source_content}}" sourceContent
      (replaceAll "{{sourceContent}}" sourceContent template)
  else join newline [template; ""; "文献信息如下："; sourceContent].

Definition buildFolderSummaryPrompt
    (folderName recordsContent customPromptTemplate : string) : string :=
  let template := trim customPromptTemplate in
  if isEmpty template then
    replaceAll "{{recordsContent}}" recordsContent
      (replaceAll "{{folderName}}" folderName
         DEFAULT_FOLDER_SUMMARY_PROMPT_TEMPLATE)
  else
    let hasFolderPlaceholder := test "{{folderName}}" template in
    let hasRecordsPlaceholder := test "{{recordsContent}}" template in
    let prompt :=
      replaceAll "{{recordsContent}}" recordsContent
        (replaceAll "{{folderName}}" folderName template) in
    if negb hasFolderPlaceholder || negb hasRecordsPlaceholder then
      join newline
        (filter truthy
           [ prompt;
             "";
             if hasFolderPlaceholder then ""
             else ("文件夹名称：" ++ folderName)%string;
             if hasRecordsPlaceholder then ""
             else ("记录内容如下：" ++ newline ++ recordsContent)%string ])
    else prompt.

End Prompt.

(** ** The order of binary64 numbers

    The ranker sorts by the sign of a difference, [b.score - a.score].  In
    the arithmetic of the machine the difference of two numbers is positive
    exactly when the first is the greater, also when it is rounded or
    overflows, as long as neither is [nan]; the proof follows the
    specification of the operations in [SpecFloat]. *)

Module Binary64.
Import SpecFloat FloatOps FloatAxioms.
Local Open Scope Z_scope.

(** The exponent of the smallest positive number, 2^-1074. *)
Definition EMIN : Z := -1074.

(** The place of a number on the line of the integers: its value in units of
    2^-1074 when it is finite, and a value beyond every finite one when it is
    infinite. *)
Definition key (x : spec_float) : Z :=
  match x with
  | S754_zero _ => 0
  | S754_nan => 0
  | S754_infinity s => cond_Zopp s (2 ^ 2098)
  | S754_finite s m e => cond_Zopp s (Zpos m * 2 ^ (e - EMIN))
  end.

Definition rankOf (x : float) : Z := key (Prim2SF x).

Lemma digits2_pos_spec m :
  2 ^ (Zpos (digits2_pos m) - 1) <= Zpos m < 2 ^ Zpos (digits2_pos m).
Proof.
  induction m as [m IH|m IH|]; cbn [digits2_pos].
  - rewrite Pos2Z.inj_succ.
    replace (Z.succ (Zpos (digits2_pos m)) - 1) with
      (Z.succ (Zpos (digits2_pos m) - 1)) by lia.
    rewrite !Z.pow_succ_r by lia. lia.
  - rewrite Pos2Z.inj_succ.
    replace (Z.succ (Zpos (digits2_pos m)) - 1) with
      (Z.succ (Zpos (digits2_pos m) - 1)) by lia.
    rewrite !Z.pow_succ_r by lia. lia.
  - cbn. lia.
Qed.

Lemma iter_xO m d : Zpos (Pos.iter xO m d) = Zpos m * 2 ^ Zpos d.
Proof.
  revert m. induction d as [|d IH] using Pos.peano_ind; intros m.
  - cbn. lia.
  - rewrite Pos.iter_succ, Pos2Z.inj_succ, Z.pow_succ_r by lia.
    rewrite Pos2Z.inj_xO, IH. lia.
Qed.

Lemma shl_align_value m e e' :
  e' <= e -> Zpos (fst (shl_align m e e')) = Zpos m * 2 ^ (e - e').
Proof.
  intros Hle. unfold shl_align.
  destruct (e' - e) as [|p|p] eqn:Hd.
  - replace (e - e') with 0 by lia. cbn [fst]. lia.
  - lia.
  - cbn [fst]. rewrite iter_xO. f_equal. f_equal. lia.
Qed.

Lemma shl_align_exponent m e e' :
  snd (shl_align m e e') = Z.min e e'.
Proof.
  unfold shl_align. destruct (e' - e) as [|p|p] eqn:Hd; cbn [snd]; lia.
Qed.

Lemma shr_1_m mrs : 0 <= shr_m mrs -> shr_m (shr_1 mrs) = shr_m mrs / 2.
Proof.
  destruct mrs as [m r s]. cbn [shr_m]. intros Hm.
  destruct m as [|[p|p|]|p]; cbn [shr_1 shr_m]; try lia.
  - reflexivity.
  - apply Z.div_unique with 1; lia.
  - apply Z.div_unique with 0; lia.
  - reflexivity.
Qed.

Lemma iter_shr_1_m p : forall mrs,
  0 <= shr_m mrs ->
  shr_m (iter_pos shr_1 p mrs) = shr_m mrs / 2 ^ Zpos p.
Proof.
  induction p as [p IH|p IH|]; intros mrs Hm; cbn [iter_pos].
  - assert (H1 : 0 <= shr_m (shr_1 mrs)).
    { rewrite shr_1_m by exact Hm. apply Z.div_pos; lia. }
    assert (H2 : 0 <= shr_m (iter_pos shr_1 p (shr_1 mrs))).
    { rewrite IH by exact H1. apply Z.div_pos; [exact H1|].
      apply Z.pow_pos_nonneg; lia. }
    rewrite IH by exact H2. rewrite IH by exact H1.
    rewrite shr_1_m by exact Hm.
    rewrite !Z.div_div by (try apply Z.pow_pos_nonneg; lia).
    f_equal.
    replace (Zpos p~1) with (1 + Zpos p + Zpos p) by lia.
    rewrite !Z.pow_add_r by lia. change (2 ^ 1) with 2. ring.
  - assert (H2 : 0 <= shr_m (iter_pos shr_1 p mrs)).
    { rewrite IH by exact Hm. apply Z.div_pos; [exact Hm|].
      apply Z.pow_pos_nonneg; lia. }
    rewrite IH by exact H2. rewrite IH by exact Hm.
    rewrite !Z.div_div by (try apply Z.pow_pos_nonneg; lia).
    f_equal.
    replace (Zpos p~0) with (Zpos p + Zpos p) by lia.
    rewrite !Z.pow_add_r by lia. ring.
  - now rewrite shr_1_m.
Qed.

Lemma valid_finite s m e :
  valid_binary (S754_finite s m e) = true ->
  EMIN <= e <= 971 /\ Zpos (digits2_pos m) <= 53 /\
  (e = EMIN \/ Zpos (digits2_pos m) = 53).
Proof.
  cbn [SpecFloat.valid_binary]. unfold bounded, canonical_mantissa.
  rewrite andb_true_iff, Z.eqb_eq, Z.leb_le.
  unfold fexp, emin, prec, emax, EMIN. lia.
Qed.

(** The size of a finite number, in units of 2^-1074. *)
Definition magnitude (m : positive) (e : Z) : Z := Zpos m * 2 ^ (e - EMIN).

Lemma magnitude_bounds s m e :
  valid_binary (S754_finite s m e) = true ->
  2 ^ (Zpos (digits2_pos m) - 1 + (e - EMIN)) <= magnitude m e
  /\ magnitude m e < 2 ^ (Zpos (digits2_pos m) + (e - EMIN)).
Proof.
  intros Hv. apply valid_finite in Hv. destruct Hv as (He & _ & _).
  pose proof (digits2_pos_spec m) as [Hlo Hhi]. unfold magnitude.
  assert (Hp : 0 < 2 ^ (e - EMIN)) by (apply Z.pow_pos_nonneg; lia).
  rewrite !Z.pow_add_r by lia. split; nia.
Qed.

Lemma magnitude_pos m e : EMIN <= e -> 0 < magnitude m e.
Proof.
  intros He. unfold magnitude.
  assert (Hp : 0 < 2 ^ (e - EMIN)) by (apply Z.pow_pos_nonneg; lia). lia.
Qed.

Lemma magnitude_finite s m e :
  valid_binary (S754_finite s m e) = true -> magnitude m e < 2 ^ 2098.
Proof.
  intros Hv. destruct (magnitude_bounds s m e Hv) as [_ Hhi].
  apply valid_finite in Hv. destruct Hv as (He & Hd & _).
  eapply Z.lt_le_trans; [exact Hhi|].
  apply Z.pow_le_mono_r; unfold EMIN in *; lia.
Qed.

Lemma magnitude_lt s1 m1 e1 s2 m2 e2 :
  valid_binary (S754_finite s1 m1 e1) = true ->
  valid_binary (S754_finite s2 m2 e2) = true ->
  e1 < e2 -> magnitude m1 e1 < magnitude m2 e2.
Proof.
  intros Hv1 Hv2 Hlt.
  destruct (magnitude_bounds s1 m1 e1 Hv1) as [_ Hhi].
  destruct (magnitude_bounds s2 m2 e2 Hv2) as [Hlo _].
  apply valid_finite in Hv1. apply valid_finite in Hv2.
  destruct Hv1 as (He1 & Hd1 & _). destruct Hv2 as (He2 & _ & Hc2).
  eapply Z.lt_le_trans; [exact Hhi|].
  eapply Z.le_trans; [|exact Hlo].
  apply Z.pow_le_mono_r; lia.
Qed.

Lemma magnitude_compare m1 m2 e :
  EMIN <= e ->
  (magnitude m1 e ?= magnitude m2 e) = Pos.compare_cont Eq m1 m2.
Proof.
  intros He. unfold magnitude.
  assert (Hp : 2 ^ (e - EMIN) > 0)
    by (apply Z.lt_gt, Z.pow_pos_nonneg; lia).
  rewrite <- (Zmult_compare_compat_r _ _ _ Hp). reflexivity.
Qed.

(** [SFcompare] reads the order of the keys. *)
Lemma SFcompare_key x y :
  valid_binary x = true -> valid_binary y = true ->
  x <> S754_nan -> y <> S754_nan ->
  SFcompare x y = Some (key x ?= key y).
Proof.
  intros Hx Hy Hnx Hny.
  destruct x as [sx|sx| |sx mx ex]; [| | now contradiction Hnx |];
    (destruct y as [sy|sy| |sy my ey]; [| | now contradiction Hny |]);
    cbn [SFcompare key]; f_equal.
  - destruct sy; vm_compute; reflexivity.
  - pose proof (magnitude_pos my ey (proj1 (proj1 (valid_finite _ _ _ Hy)))).
    fold (magnitude my ey). destruct sy; cbn [cond_Zopp]; symmetry;
      [apply Z.compare_gt_iff | apply Z.compare_lt_iff]; lia.
  - destruct sx; vm_compute; reflexivity.
  - destruct sx, sy; vm_compute; reflexivity.
  - pose proof (magnitude_pos my ey (proj1 (proj1 (valid_finite _ _ _ Hy)))).
    pose proof (magnitude_finite _ _ _ Hy).
    fold (magnitude my ey). destruct sx, sy; cbn [cond_Zopp]; symmetry;
      try (apply Z.compare_gt_iff; lia); apply Z.compare_lt_iff; lia.
  - pose proof (magnitude_pos mx ex (proj1 (proj1 (valid_finite _ _ _ Hx)))).
    fold (magnitude mx ex). destruct sx; cbn [cond_Zopp]; symmetry;
      [apply Z.compare_lt_iff | apply Z.compare_gt_iff]; lia.
  - pose proof (magnitude_pos mx ex (proj1 (proj1 (valid_finite _ _ _ Hx)))).
    pose proof (magnitude_finite _ _ _ Hx).
    fold (magnitude mx ex). destruct sx, sy; cbn [cond_Zopp]; symmetry;
      try (apply Z.compare_gt_iff; lia); apply Z.compare_lt_iff; lia.
  - pose proof (magnitude_pos mx ex (proj1 (proj1 (valid_finite _ _ _ Hx)))).
    pose proof (magnitude_pos my ey (proj1 (proj1 (valid_finite _ _ _ Hy)))).
    fold (magnitude mx ex). fold (magnitude my ey).
    destruct sx, sy; cbn [cond_Zopp].
    + rewrite Z.compare_opp.
      destruct (Z.compare_spec ex ey) as [->|Hlt|Hgt].
      * rewrite magnitude_compare
          by exact (proj1 (proj1 (valid_finite _ _ _ Hy))).
        rewrite (Pos.compare_cont_spec my mx), (Pos.compare_cont_spec mx my).
        cbn [Pos.switch_Eq]. rewrite (Pos.compare_antisym my mx).
        now destruct (Pos.compare my mx).
      * symmetry. apply Z.compare_gt_iff.
        exact (magnitude_lt _ _ _ _ _ _ Hx Hy Hlt).
      * symmetry. apply Z.compare_lt_iff.
        exact (magnitude_lt _ _ _ _ _ _ Hy Hx Hgt).
    + symmetry. apply Z.compare_lt_iff. lia.
    + symmetry. apply Z.compare_gt_iff. lia.
    + destruct (Z.compare_spec ex ey) as [->|Hlt|Hgt].
      * now rewrite magnitude_compare
          by exact (proj1 (proj1 (valid_finite _ _ _ Hy))).
      * symmetry. apply Z.compare_lt_iff.
        exact (magnitude_lt _ _ _ _ _ _ Hx Hy Hlt).
      * symmetry. apply Z.compare_gt_iff.
        exact (magnitude_lt _ _ _ _ _ _ Hy Hx Hgt).
Qed.

(** *** The sign of a rounded number *)

(** [x] is a number of sign [s] other than a zero. *)
Definition signed (s : bool) (x : spec_float) : Prop :=
  (exists m e, x = S754_finite s m e) \/ x = S754_infinity s.

Lemma shr_record_of_loc_m m l : shr_m (shr_record_of_loc m l) = m.
Proof. now destruct l as [|[]]. Qed.

(** Above the exponent of the subnormal numbers, the shift to the exponent
    of the format leaves a positive mantissa positive. *)
Lemma shr_fexp_positive m e l :
  EMIN <= e ->
  exists q mrs e',
    shr_fexp prec emax (Zpos m) e l = (mrs, e') /\
    shr_m mrs = Zpos q /\ EMIN <= e'.
Proof.
  intros He. unfold shr_fexp, shr. cbn [Zdigits2].
  pose proof (digits2_pos_spec m) as [Hlo _].
  destruct (fexp prec emax (Zpos (digits2_pos m) + e) - e) as [|p|p] eqn:Hn.
  - exists m. eexists. eexists. split; [reflexivity|].
    split; [apply shr_record_of_loc_m | exact He].
  - assert (Hp : Zpos p < Zpos (digits2_pos m))
      by (unfold fexp, emin, prec, emax, EMIN in *; lia).
    assert (Hle : 2 ^ Zpos p <= Zpos m).
    { eapply Z.le_trans; [|exact Hlo]. apply Z.pow_le_mono_r; lia. }
    assert (Hpos : 0 < Zpos m / 2 ^ Zpos p).
    { apply Z.div_str_pos. split; [apply Z.pow_pos_nonneg; lia | exact Hle]. }
    destruct (Zpos m / 2 ^ Zpos p) as [|q|q] eqn:Hq; try lia.
    exists q. eexists. eexists. split; [reflexivity|].
    split; [|lia].
    rewrite iter_shr_1_m by (rewrite shr_record_of_loc_m; lia).
    now rewrite shr_record_of_loc_m.
  - exists m. eexists. eexists. split; [reflexivity|].
    split; [apply shr_record_of_loc_m | exact He].
Qed.

Lemma round_nearest_even_ge m l : m <= round_nearest_even m l.
Proof.
  destruct l as [|[]]; cbn [round_nearest_even]; try lia.
  destruct (Z.even m); lia.
Qed.

Lemma binary_round_aux_signed s m e l :
  EMIN <= e -> signed s (binary_round_aux prec emax s (Zpos m) e l).
Proof.
  intros He. unfold binary_round_aux.
  destruct (shr_fexp_positive m e l He) as (q & mrs & e' & -> & Hq & He').
  rewrite Hq.
  pose proof (round_nearest_even_ge (Zpos q) (loc_of_shr_record mrs)) as Hge.
  destruct (round_nearest_even (Zpos q) (loc_of_shr_record mrs))
    as [|q'|q']; try lia.
  destruct (shr_fexp_positive q' e' loc_Exact He')
    as (q'' & mrs' & e'' & -> & -> & _).
  destruct (e'' <=? emax - prec); [left; now eexists; eexists | now right].
Qed.

Lemma binary_round_signed s m e :
  EMIN <= e -> signed s (binary_round prec emax s m e).
Proof.
  intros He. unfold binary_round.
  pose proof (shl_align_exponent m e
                (fexp prec emax (Zpos (digits2_pos m) + e))) as Hsnd.
  destruct (shl_align m e (fexp prec emax (Zpos (digits2_pos m) + e)))
    as [mz ez].
  cbn [snd] in Hsnd. apply binary_round_aux_signed.
  unfold fexp, emin, prec, emax, EMIN in *. lia.
Qed.

Lemma signed_positive x :
  signed false x -> SFltb (S754_zero false) x = true.
Proof. now intros [(m & e & ->)| ->]. Qed.

Lemma signed_negative x :
  signed true x -> SFltb (S754_zero false) x = false.
Proof. now intros [(m & e & ->)| ->]. Qed.

(** The difference of two numbers is above zero exactly when the first is
    the greater: a difference of two distinct numbers is never rounded to
    zero. *)
Lemma SFsub_positive x y :
  valid_binary x = true -> valid_binary y = true ->
  x <> S754_nan -> y <> S754_nan ->
  SFltb (S754_zero false) (SF64sub x y) = (key y <? key x).
Proof.
  intros Hx Hy Hnx Hny.
  destruct x as [sx|sx| |sx mx ex]; [| | now contradiction Hnx |];
    (destruct y as [sy|sy| |sy my ey]; [| | now contradiction Hny |]);
    unfold SF64sub; cbn [SFsub key].
  - now destruct sx, sy.
  - destruct sy; vm_compute; reflexivity.
  - pose proof (magnitude_pos my ey (proj1 (proj1 (valid_finite _ _ _ Hy)))).
    fold (magnitude my ey).
    destruct sy; cbn [negb cond_Zopp SFltb SFcompare]; symmetry;
      [apply Z.ltb_lt | apply Z.ltb_ge]; lia.
  - destruct sx; vm_compute; reflexivity.
  - destruct sx, sy; vm_compute; reflexivity.
  - pose proof (magnitude_pos my ey (proj1 (proj1 (valid_finite _ _ _ Hy)))).
    pose proof (magnitude_finite _ _ _ Hy).
    fold (magnitude my ey).
    destruct sx, sy; cbn [negb cond_Zopp SFltb SFcompare]; symmetry;
      try (apply Z.ltb_lt; lia); apply Z.ltb_ge; lia.
  - pose proof (magnitude_pos mx ex (proj1 (proj1 (valid_finite _ _ _ Hx)))).
    fold (magnitude mx ex).
    destruct sx; cbn [negb cond_Zopp SFltb SFcompare]; symmetry;
      [apply Z.ltb_ge | apply Z.ltb_lt]; lia.
  - pose proof (magnitude_pos mx ex (proj1 (proj1 (valid_finite _ _ _ Hx)))).
    pose proof (magnitude_finite _ _ _ Hx).
    fold (magnitude mx ex).
    destruct sx, sy; cbn [negb cond_Zopp SFltb SFcompare]; symmetry;
      try (apply Z.ltb_lt; lia); apply Z.ltb_ge; lia.
  - pose proof (proj1 (valid_finite _ _ _ Hx)) as Hex.
    pose proof (proj1 (valid_finite _ _ _ Hy)) as Hey.
    set (ez := Z.min ex ey).
    rewrite (shl_align_value mx ex ez), (shl_align_value my ey ez)
      by (unfold ez; lia).
    fold (magnitude mx ex). fold (magnitude my ey).
    assert (Hez : EMIN <= ez) by (unfold ez; lia).
    assert (Hp : 0 < 2 ^ (ez - EMIN)) by (apply Z.pow_pos_nonneg; lia).
    assert (Hmx : magnitude mx ex
                  = Zpos mx * 2 ^ (ex - ez) * 2 ^ (ez - EMIN)).
    { unfold magnitude. rewrite <- Z.mul_assoc, <- Z.pow_add_r
        by (unfold ez; lia).
      f_equal. f_equal. lia. }
    assert (Hmy : magnitude my ey
                  = Zpos my * 2 ^ (ey - ez) * 2 ^ (ez - EMIN)).
    { unfold magnitude. rewrite <- Z.mul_assoc, <- Z.pow_add_r
        by (unfold ez; lia).
      f_equal. f_equal. lia. }
    set (X := cond_Zopp sx (Zpos mx * 2 ^ (ex - ez))).
    set (Y := cond_Zopp sy (Zpos my * 2 ^ (ey - ez))).
    assert (HX : cond_Zopp sx (magnitude mx ex) = X * 2 ^ (ez - EMIN))
      by (rewrite Hmx; unfold X; destruct sx; cbn [cond_Zopp]; lia).
    assert (HY : cond_Zopp sy (magnitude my ey) = Y * 2 ^ (ez - EMIN))
      by (rewrite Hmy; unfold Y; destruct sy; cbn [cond_Zopp]; lia).
    rewrite HX, HY. unfold binary_normalize.
    destruct (X - Y) as [|d|d] eqn:Hd.
    + symmetry. apply Z.ltb_ge. nia.
    + rewrite (signed_positive _ (binary_round_signed false d ez Hez)).
      symmetry. apply Z.ltb_lt. nia.
    + rewrite (signed_negative _ (binary_round_signed true d ez Hez)).
      symmetry. apply Z.ltb_ge. nia.
Qed.

(** *** The primitive numbers *)

Lemma Prim2SF_not_nan x : is_nan x = false -> Prim2SF x <> S754_nan.
Proof.
  unfold is_nan. rewrite negb_false_iff, eqb_spec. intros H Hn.
  rewrite Hn in H. discriminate.
Qed.

Lemma ltb_rankOf x y :
  is_nan x = false -> is_nan y = false ->
  (x <? y)%float = (rankOf x <? rankOf y).
Proof.
  intros Hx Hy. rewrite ltb_spec. unfold SFltb, rankOf.
  rewrite (SFcompare_key _ _ (Prim2SF_valid x) (Prim2SF_valid y)
             (Prim2SF_not_nan x Hx) (Prim2SF_not_nan y Hy)).
  unfold Z.ltb. now destruct (key (Prim2SF x) ?= key (Prim2SF y)).
Qed.

Lemma leb_rankOf x y :
  is_nan x = false -> is_nan y = false ->
  (x <=? y)%float = (rankOf x <=? rankOf y).
Proof.
  intros Hx Hy. rewrite leb_spec. unfold SFleb, rankOf.
  rewrite (SFcompare_key _ _ (Prim2SF_valid x) (Prim2SF_valid y)
             (Prim2SF_not_nan x Hx) (Prim2SF_not_nan y Hy)).
  unfold Z.leb. now destruct (key (Prim2SF x) ?= key (Prim2SF y)).
Qed.

(** [b - a > 0] in the numbers of the machine is [a < b]: the comparator
    of a sort by difference orders numbers as [<] does, as long as none is
    [nan]. *)
Lemma sub_positive x y :
  is_nan x = false -> is_nan y = false ->
  (0 <? y - x)%float = (rankOf x <? rankOf y).
Proof.
  intros Hx Hy. rewrite ltb_spec, sub_spec.
  change (Prim2SF 0) with (S754_zero false).
  apply (SFsub_positive _ _ (Prim2SF_valid y) (Prim2SF_valid x)
           (Prim2SF_not_nan y Hy) (Prim2SF_not_nan x Hx)).
Qed.
End Binary64.

(** ** Vector ranker ([reviewAI.ts], [toNumericVector], [cosineSimilarity]
    and the selection of [tryBuildPDFEmbeddingContext]) *)

Module Ranker.
Import JS.

Definition EMBEDDING_TOP_K : nat := 4.

(** A value handed over by the embedding provider ([unknown] in the source):
    [None] when it is not an array, else the array, each entry read through
    [Number(v)] ([nan] for what is not a number). *)
Definition RawVector := option (list float).

Definition toNumericVector (value : RawVector) : list float :=
  match value with
  | None => []
  | Some entries => filter is_finite entries
  end.

(** The body of the [for] loop of [cosineSimilarity], over the first
    [Math.min(a.length, b.length)] entries. *)
Fixpoint accumulate (a b : list float) (dot normA normB : float)
  : float * float * float :=
  match a, b with
  | av :: a', bv :: b' =>
      accumulate a' b' (dot + av * bv)%float (normA + av * av)%float
        (normB + bv * bv)%float
  | _, _ => (dot, normA, normB)
  end.

(** [!x] on a number. *)
Definition falsy (x : float) : bool := is_zero x || is_nan x.

Definition cosineSimilarity (a b : list float) : float :=
  let size := Nat.min (List.length a) (List.length b) in
  if size =? 0 then (-1)%float
  else
    let '(dot, normA, normB) := accumulate a b 0%float 0%float 0%float in
    if falsy normA || falsy normB then (-1)%float
    else (dot / (sqrt normA * sqrt normB))%float.

Record Ranked := { index : nat; text : string; score : float }.

(** [chunks.map((text, index) => ...).filter(Boolean)], from [index] on. *)
Fixpoint rankFrom (queryVector : list float) (docVectorsRaw : list RawVector)
    (index : nat) (chunks : list string) : list Ranked :=
  match chunks with
  | [] => []
  | text :: rest =>
      let vector :=
        toNumericVector
          (match nth_error docVectorsRaw index with
           | Some raw => raw
           | None => None
           end) in
      let tail := rankFrom queryVector docVectorsRaw (S index) rest in
      match vector with
      | [] => tail
      | _ :: _ =>
          {| index := index; text := text;
             score := cosineSimilarity queryVector vector |} :: tail
      end
  end.

Definition rankChunks (queryVector : list float) (chunks : list string)
    (docVectorsRaw : list RawVector) : list Ranked :=
  rankFrom queryVector docVectorsRaw 0 chunks.

(** [(a, b) => b.score - a.score] is positive. *)
Definition lowerScore (a b : Ranked) : bool := (0 <? score b - score a)%float.

(** [(a, b) => a.index - b.index] is positive. *)
Definition laterIndex (a b : Ranked) : bool := index b <? index a.

(** [ranked.sort(byScore).slice(0, k).sort(byIndex)]; the source takes
    [k = EMBEDDING_TOP_K]. *)
Definition selectTop (k : nat) (ranked : list Ranked) : list Ranked :=
  sortBy laterIndex (firstn k (sortBy lowerScore ranked)).

(** The chunks selected by [tryBuildPDFEmbeddingContext] once the provider
    has answered: none when the query vector is empty. *)
Definition selectExcerpts (chunks : list string) (docVectorsRaw : list RawVector)
    (queryVectorRaw : RawVector) : list Ranked :=
  if List.length chunks <? 2 then []
  else
    match toNumericVector queryVectorRaw with
    | [] => []
    | queryVector =>
        selectTop EMBEDDING_TOP_K (rankChunks queryVector chunks docVectorsRaw)
    end.

(** *** The stable insertion sort *)

Section Sorting.
Context {A : Type} (after : A -> A -> bool).

(** [x] may stand before [y]. *)
Definition mayPrecede (x y : A) : Prop := after x y = false.

Lemma insertBy_perm x l : Permutation (insertBy after x l) (x :: l).
Proof.
  induction l as [|y l IH]; simpl; [reflexivity|].
  destruct (after x y); [|reflexivity].
  rewrite IH. apply perm_swap.
Qed.

Lemma sortBy_perm l : Permutation (sortBy after l) l.
Proof.
  induction l as [|x l IH]; simpl; [reflexivity|].
  rewrite insertBy_perm. now constructor.
Qed.

Variable dom : A -> Prop.
Hypothesis asym :
  forall a b, dom a -> dom b -> after a b = true -> after b a = false.
Hypothesis trans :
  forall a b c, dom a -> dom b -> dom c ->
  after a b = false -> after b c = false -> after a c = false.

Lemma insertBy_sorted x l :
  dom x -> Forall dom l -> StronglySorted mayPrecede l ->
  StronglySorted mayPrecede (insertBy after x l).
Proof.
  intros Hx Hl Hs. induction Hs as [|y l Hs IH Hy]; simpl.
  - repeat constructor.
  - inversion Hl as [|? ? Hdy Hdl]; subst.
    destruct (after x y) eqn:Hxy.
    + constructor; [now apply IH|].
      rewrite Forall_forall in *. intros z Hz.
      apply (Permutation_in _ (insertBy_perm x l)) in Hz.
      destruct Hz as [<-|Hz]; [now apply asym | now apply Hy].
    + constructor; [now constructor|].
      constructor; [exact Hxy|].
      rewrite Forall_forall in *. intros z Hz.
      apply (trans x y z);
        [exact Hx | exact Hdy | now apply Hdl | exact Hxy | now apply Hy].
Qed.

Lemma sortBy_sorted l :
  Forall dom l -> StronglySorted mayPrecede (sortBy after l).
Proof.
  induction l as [|x l IH]; intros Hl; simpl; [constructor|].
  inversion Hl; subst. apply insertBy_sorted; auto.
  rewrite Forall_forall in *. intros z Hz.
  apply (Permutation_in _ (sortBy_perm l)) in Hz. auto.
Qed.
End Sorting.

Lemma StronglySorted_app_inv {A : Type} (R : A -> A -> Prop) l1 l2 :
  StronglySorted R (l1 ++ l2) ->
  forall x y, In x l1 -> In y l2 -> R x y.
Proof.
  induction l1 as [|a l1 IH]; intros Hs x y Hx Hy; [contradiction|].
  simpl in Hs. inversion Hs as [|? ? Hs' Ha]; subst.
  destruct Hx as [<-|Hx].
  - rewrite Forall_forall in Ha. apply Ha, in_or_app. now right.
  - now apply IH.
Qed.

(** *** Facts on the ranking *)

Lemma rankFrom_index queryVector docVectorsRaw chunks :
  forall from r,
  In r (rankFrom queryVector docVectorsRaw from chunks) ->
  from <= index r /\
  toNumericVector
    (match nth_error docVectorsRaw (index r) with
     | Some raw => raw
     | None => None
     end) <> [].
Proof.
  induction chunks as [|c rest IH]; intros from r Hr; [contradiction|].
  cbn [rankFrom] in Hr.
  destruct (toNumericVector _) eqn:Hv.
  - apply IH in Hr. destruct Hr. split; [lia | assumption].
  - destruct Hr as [<-|Hr].
    + cbn [index]. split; [lia|]. rewrite Hv. discriminate.
    + apply IH in Hr. destruct Hr. split; [lia | assumption].
Qed.

Lemma rankFrom_NoDup queryVector docVectorsRaw chunks :
  forall from,
  NoDup (map index (rankFrom queryVector docVectorsRaw from chunks)).
Proof.
  induction chunks as [|c rest IH]; intros from; [constructor|].
  cbn [rankFrom]. destruct (toNumericVector _); [apply IH|].
  cbn [map index]. constructor; [|apply IH].
  intros Hin. apply in_map_iff in Hin. destruct Hin as (r & Hidx & Hr).
  apply rankFrom_index in Hr. lia.
Qed.

Lemma selectTop_perm k ranked :
  Permutation (selectTop k ranked) (firstn k (sortBy lowerScore ranked)).
Proof. apply sortBy_perm. Qed.

Lemma selectTop_incl k ranked r : In r (selectTop k ranked) -> In r ranked.
Proof.
  intros Hr. apply (Permutation_in _ (selectTop_perm k ranked)) in Hr.
  apply (Permutation_in _ (sortBy_perm lowerScore ranked)).
  rewrite <- (firstn_skipn k). apply in_or_app. now left.
Qed.

Lemma selectTop_length k ranked :
  List.length (selectTop k ranked) = Nat.min k (List.length ranked).
Proof.
  rewrite (Permutation_length (selectTop_perm k ranked)), length_firstn.
  now rewrite (Permutation_length (sortBy_perm lowerScore ranked)).
Qed.

(** The selection comes back in ascending index order. *)
Lemma selectTop_ascending k ranked :
  NoDup (map index ranked) ->
  StronglySorted (fun a b => index a < index b) (selectTop k ranked).
Proof.
  intros Hnd.
  assert (Hs : StronglySorted (mayPrecede laterIndex) (selectTop k ranked)).
  { apply (sortBy_sorted laterIndex (fun _ => True)).
    - intros a b _ _. unfold laterIndex. rewrite Nat.ltb_lt, Nat.ltb_ge. lia.
    - intros a b c _ _ _. unfold laterIndex. rewrite !Nat.ltb_ge. lia.
    - apply Forall_forall. trivial. }
  assert (Hnd' : NoDup (map index (selectTop k ranked))).
  { apply (Permutation_NoDup
             (Permutation_sym (Permutation_map index (selectTop_perm k ranked)))).
    apply (NoDup_app_remove_r _ (map index (skipn k (sortBy lowerScore ranked)))).
    rewrite <- map_app, firstn_skipn.
    apply (Permutation_NoDup
             (Permutation_sym
                (Permutation_map index (sortBy_perm lowerScore ranked)))).
    exact Hnd. }
  induction Hs as [|a l Hs IH Ha]; [constructor|].
  cbn [map] in Hnd'. inversion Hnd' as [|? ? Hnotin Hnd'']; subst.
  constructor; [now apply IH|].
  rewrite Forall_forall in *. intros b Hb. specialize (Ha b Hb).
  unfold mayPrecede, laterIndex in Ha. apply Nat.ltb_ge in Ha.
  assert (index a <> index b).
  { intros Heq. apply Hnotin. rewrite Heq. now apply in_map. }
  lia.
Qed.

(** *** Facts on the validation of vectors *)

Lemma toNumericVector_empty entries :
  toNumericVector (Some entries) = [] <->
  Forall (fun x => is_finite x = false) entries.
Proof.
  cbn [toNumericVector]. induction entries as [|x l IH]; simpl.
  - split; [constructor | reflexivity].
  - destruct (is_finite x) eqn:Hx.
    + split; [discriminate|]. intros H. inversion H; subst. congruence.
    + rewrite IH. split; intros H; [now constructor | now inversion H].
Qed.

Lemma accumulate_zero_norm a : forall b dot normA,
  Forall (fun x => x = zero \/ x = neg_zero) b ->
  snd (accumulate a b dot normA 0%float) = 0%float.
Proof.
  induction a as [|av a IH]; intros b dot normA Hb; [reflexivity|].
  destruct b as [|bv b]; [reflexivity|].
  inversion Hb as [|? ? Hbv Hb']; subst. cbn [accumulate].
  destruct Hbv as [->| ->].
  - change (snd (accumulate a b (dot + av * zero)%float
                   (normA + av * av)%float 0%float) = 0%float).
    now apply IH.
  - change (snd (accumulate a b (dot + av * neg_zero)%float
                   (normA + av * av)%float 0%float) = 0%float).
    now apply IH.
Qed.

(** A vector whose entries are all zero has the lowest score there is. *)
Lemma cosineSimilarity_zero_norm a b :
  Forall (fun x => x = zero \/ x = neg_zero) b ->
  cosineSimilarity a b = (-1)%float.
Proof.
  intros Hb. unfold cosineSimilarity.
  destruct (Nat.min _ _ =? 0); [reflexivity|].
  pose proof (accumulate_zero_norm a b 0%float 0%float Hb) as Hn.
  destruct (accumulate a b 0 0 0) as [[dot normA] normB].
  simpl in Hn. subst normB.
  replace (falsy normA || falsy 0) with true; [reflexivity|].
  change (falsy 0) with true. now rewrite orb_true_r.
Qed.

Lemma accumulate_prefix a : forall b dot normA normB,
  accumulate a b dot normA normB =
  accumulate (firstn (Nat.min (List.length a) (List.length b)) a)
             (firstn (Nat.min (List.length a) (List.length b)) b)
             dot normA normB.
Proof.
  induction a as [|av a IH]; intros b dot normA normB; [reflexivity|].
  destruct b as [|bv b]; [reflexivity|].
  cbn [List.length Nat.min firstn accumulate]. apply IH.
Qed.

(** Vectors of different lengths are compared over their common prefix. *)
Lemma cosineSimilarity_prefix a b :
  cosineSimilarity a b =
  cosineSimilarity (firstn (Nat.min (List.length a) (List.length b)) a)
                   (firstn (Nat.min (List.length a) (List.length b)) b).
Proof.
  unfold cosineSimilarity.
  rewrite !length_firstn.
  replace (Nat.min (Nat.min (Nat.min (List.length a) (List.length b))
                            (List.length a))
                   (Nat.min (Nat.min (List.length a) (List.length b))
                            (List.length b)))
    with (Nat.min (List.length a) (List.length b)) by lia.
  destruct (Nat.min (List.length a) (List.length b) =? 0) eqn:Hsize;
    [reflexivity|].
  now rewrite <- (accumulate_prefix a b).
Qed.

(** *** The cosine as a formula *)

(** [terms] added up from the left, from 0. *)
Definition sumOf (terms : list float) : float :=
  fold_left PrimFloat.add terms 0%float.

(** The cosine of the angle between [a] and [b], over the places both have:
    the sum of the products, over the product of the roots of the sums of
    the squares; -1 when there is no such place or when a sum of squares is
    zero or not a number. *)
Definition cosineFormula (a b : list float) : float :=
  let pairs := combine a b in
  let dot := sumOf (map (fun p => fst p * snd p)%float pairs) in
  let normA := sumOf (map (fun p => fst p * fst p)%float pairs) in
  let normB := sumOf (map (fun p => snd p * snd p)%float pairs) in
  match pairs with
  | [] => (-1)%float
  | _ :: _ =>
      if (is_zero normA || is_nan normA) || (is_zero normB || is_nan normB)
      then (-1)%float
      else (dot / (sqrt normA * sqrt normB))%float
  end.

Lemma accumulate_sums a : forall b dot normA normB,
  accumulate a b dot normA normB
  = (fold_left PrimFloat.add (map (fun p => fst p * snd p)%float (combine a b))
       dot,
     fold_left PrimFloat.add (map (fun p => fst p * fst p)%float (combine a b))
       normA,
     fold_left PrimFloat.add (map (fun p => snd p * snd p)%float (combine a b))
       normB).
Proof.
  induction a as [|av a IH]; intros b dot normA normB; [reflexivity|].
  destruct b as [|bv b]; [reflexivity|].
  cbn [accumulate combine map fold_left fst snd]. apply IH.
Qed.

(** [cosineSimilarity] computes the formula. *)
Lemma cosineSimilarity_formula a b :
  cosineSimilarity a b = cosineFormula a b.
Proof.
  unfold cosineSimilarity, cosineFormula, sumOf, falsy.
  rewrite accumulate_sums.
  destruct a as [|av a]; [reflexivity|].
  destruct b as [|bv b]; reflexivity.
Qed.

(** *** The selection when no score is [nan] *)

Definition numbered (r : Ranked) : Prop := is_nan (score r) = false.

Lemma lowerScore_rankOf a b :
  numbered a -> numbered b ->
  lowerScore a b
  = (Binary64.rankOf (score a) <? Binary64.rankOf (score b))%Z.
Proof. intros Ha Hb. now apply Binary64.sub_positive. Qed.

Lemma sortBy_lowerScore_sorted ranked :
  Forall numbered ranked ->
  StronglySorted (mayPrecede lowerScore) (sortBy lowerScore ranked).
Proof.
  apply (sortBy_sorted lowerScore numbered).
  - intros a b Ha Hb. rewrite !lowerScore_rankOf by assumption.
    rewrite Z.ltb_lt, Z.ltb_ge. lia.
  - intros a b c Ha Hb Hc. rewrite !lowerScore_rankOf by assumption.
    rewrite !Z.ltb_ge. lia.
Qed.

Lemma left_out_in_rest k ranked y :
  In y ranked -> ~ In y (selectTop k ranked) ->
  In y (skipn k (sortBy lowerScore ranked)).
Proof.
  intros Hy Hny.
  apply (Permutation_in _ (Permutation_sym (sortBy_perm lowerScore ranked)))
    in Hy.
  rewrite <- (firstn_skipn k (sortBy lowerScore ranked)) in Hy.
  apply in_app_or in Hy. destruct Hy as [Hy|Hy]; [|exact Hy].
  exfalso. apply Hny.
  exact (Permutation_in _ (Permutation_sym (selectTop_perm k ranked)) Hy).
Qed.

(** In the order of the sort, what comes later has no higher score. *)
Lemma top_above_rest k ranked :
  Forall numbered ranked ->
  forall x y, In x (firstn k (sortBy lowerScore ranked)) ->
  In y (skipn k (sortBy lowerScore ranked)) ->
  (score y <=? score x)%float = true.
Proof.
  intros Hn x y Hx Hy.
  pose proof (sortBy_lowerScore_sorted ranked Hn) as Hs.
  rewrite <- (firstn_skipn k (sortBy lowerScore ranked)) in Hs.
  pose proof (StronglySorted_app_inv _ _ _ Hs x y Hx Hy) as Hxy.
  unfold mayPrecede in Hxy. rewrite Forall_forall in Hn.
  assert (Hsorted : forall z n, In z (firstn n (sortBy lowerScore ranked))
                                \/ In z (skipn n (sortBy lowerScore ranked)) ->
                                numbered z).
  { intros z n Hz. apply Hn.
    apply (Permutation_in _ (sortBy_perm lowerScore ranked)).
    rewrite <- (firstn_skipn n). now apply in_or_app. }
  assert (Hnx : numbered x) by (apply (Hsorted x k); now left).
  assert (Hny : numbered y) by (apply (Hsorted y k); now right).
  rewrite lowerScore_rankOf in Hxy by assumption.
  rewrite Binary64.leb_rankOf by assumption.
  apply Z.leb_le. apply Z.ltb_ge in Hxy. exact Hxy.
Qed.

(** No candidate left out has a higher score than a selected one. *)
Lemma selectTop_highest k ranked :
  Forall numbered ranked ->
  forall x y, In x (selectTop k ranked) -> In y ranked ->
  ~ In y (selectTop k ranked) -> (score y <=? score x)%float = true.
Proof.
  intros Hn x y Hx Hy Hny.
  apply (top_above_rest k ranked Hn).
  - exact (Permutation_in _ (selectTop_perm k ranked) Hx).
  - now apply left_out_in_rest.
Qed.

Lemma length_filter_perm {A : Type} (p : A -> bool) l l' :
  Permutation l l' -> List.length (filter p l) = List.length (filter p l').
Proof.
  induction 1 as [|x l l' _ IH|x y l|l l' l'' _ IH1 _ IH2]; cbn [filter].
  - reflexivity.
  - destruct (p x); cbn [List.length]; now rewrite IH.
  - destruct (p x), (p y); reflexivity.
  - now rewrite IH1.
Qed.

Lemma filter_every {A : Type} (p : A -> bool) l :
  (forall x, In x l -> p x = true) -> filter p l = l.
Proof.
  induction l as [|x l IH]; intros H; [reflexivity|].
  cbn [filter]. rewrite (H x (or_introl eq_refl)). f_equal.
  apply IH. intros z Hz. apply H. now right.
Qed.

Lemma length_filter_In {A : Type} (p : A -> bool) l x :
  In x l -> p x = true -> 1 <= List.length (filter p l).
Proof.
  intros Hin Hp.
  assert (Hx : In x (filter p l)) by (apply filter_In; now split).
  destruct (filter p l); [contradiction | cbn [List.length]; lia].
Qed.

(** A candidate is selected as soon as no more than [k] candidates, itself
    among them, have a score that is not lower than its own. *)
Lemma selectTop_among_best k ranked y :
  Forall numbered ranked -> In y ranked ->
  List.length (filter (fun x => (score y <=? score x)%float) ranked) <= k ->
  In y (selectTop k ranked).
Proof.
  intros Hn Hy Hcount.
  apply (Permutation_in _ (Permutation_sym (selectTop_perm k ranked))).
  set (sorted := sortBy lowerScore ranked) in *.
  set (p := fun x => (score y <=? score x)%float) in *.
  assert (Hsplit : In y (firstn k sorted) \/ In y (skipn k sorted)).
  { apply in_app_or. rewrite firstn_skipn.
    exact (Permutation_in _ (Permutation_sym (sortBy_perm lowerScore ranked))
             Hy). }
  destruct Hsplit as [Htop|Hrest]; [exact Htop | exfalso].
  assert (Hlong : k < List.length sorted).
  { destruct (Nat.lt_ge_cases k (List.length sorted)) as [Hlt|Hge];
      [exact Hlt|].
    rewrite skipn_all2 in Hrest by exact Hge. contradiction. }
  assert (Htop : filter p (firstn k sorted) = firstn k sorted).
  { apply filter_every. intros x Hx. unfold p.
    now apply (top_above_rest k ranked Hn x y). }
  assert (Hself : p y = true).
  { unfold p. rewrite Forall_forall in Hn.
    rewrite Binary64.leb_rankOf by now apply Hn. apply Z.leb_refl. }
  rewrite (length_filter_perm p ranked sorted) in Hcount
    by (apply Permutation_sym, sortBy_perm).
  rewrite <- (firstn_skipn k sorted), filter_app, length_app, Htop in Hcount.
  rewrite length_firstn in Hcount.
  pose proof (length_filter_In p (skipn k sorted) y Hrest Hself). lia.
Qed.

End Ranker.

(** ** Review store ([reviewStore.ts]) *)

Module Store.
Import JS.
Local Open Scope Z_scope.

Definition DEFAULT_FOLDER_NAME : string := "未分类".
Definition STORE_SCHEMA_VERSION : Z := 2.

(** [PROTECTED_FOLDER_NAMES.has(name)] *)
Definition isProtectedName (name : string) : bool :=
  String.eqb name DEFAULT_FOLDER_NAME.

Inductive ReviewRecordType := literature | folderSummary.

Definition isFolderSummary (t : ReviewRecordType) : bool :=
  match t with folderSummary => true | literature => false end.

Record JSONStoreFolder := {
  folder_id : Z;
  folder_name : string;
  folder_createdAt : string;
  folder_updatedAt : string }.

Record JSONStoreRecord := {
  rec_id : Z;
  rec_zoteroItemID : Z;
  rec_recordType : ReviewRecordType;
  rec_title : string;
  rec_authors : string;
  rec_journal : string;
  rec_publicationDate : string;
  rec_abstractText : string;
  rec_pdfAnnotationNotesText : string;
  rec_researchBackground : string;
  rec_literatureReview : string;
  rec_researchMethods : string;
  rec_researchConclusions : string;
  rec_keyFindings : list string;
  rec_classificationTags : list string;
  rec_aiProvider : string;
  rec_aiModel : string;
  rec_rawAIResponse : string;
  rec_sourceRecordIDs : list Z;
  rec_sourceZoteroItemIDs : list Z;
  rec_createdAt : string;
  rec_updatedAt : string }.

Record JSONStoreRecordFolderLink := {
  link_recordID : Z;
  link_folderID : Z;
  link_createdAt : string }.

Record JSONStoreEvent := {
  event_id : Z;
  event_eventName : string;
  event_payloadJSON : string;
  event_createdAt : string }.

Record NextIDs := { next_folder : Z; next_record : Z; next_event : Z }.

Record JSONStoreData := {
  schemaVersion : Z;
  createdAt : string;
  updatedAt : string;
  nextIDs : NextIDs;
  folders : list JSONStoreFolder;
  records : list JSONStoreRecord;
  recordFolderLinks : list JSONStoreRecordFolderLink;
  events : list JSONStoreEvent }.

(** [LiteratureReviewDraft]; an absent [rawAIResponse] is the empty string. *)
Record LiteratureReviewDraft := {
  draft_zoteroItemID : Z;
  draft_title : string;
  draft_authors : string;
  draft_journal : string;
  draft_publicationDate : string;
  draft_abstractText : string;
  draft_pdfAnnotationNotesText : string;
  draft_researchBackground : string;
  draft_literatureReview : string;
  draft_researchMethods : string;
  draft_researchConclusions : string;
  draft_keyFindings : list string;
  draft_classificationTags : list string;
  draft_aiProvider : string;
  draft_aiModel : string;
  draft_rawAIResponse : string }.

(** A folder argument of type [number | null | undefined]. *)
Inductive FolderArg := FolderUndefined | FolderNull | FolderNumber (id : Z).

(** [ReviewRecordRow]: the fields of the record (its raw response blanked
    when it is not asked for) and the folders it is shown in. *)
Record ReviewRecordRow := {
  row_record : JSONStoreRecord;
  row_folderID : option Z;
  row_folderName : option string;
  row_folderIDs : list Z;
  row_folderNames : list string }.

(** *** Field updates *)

Definition withFolders (s : JSONStoreData) (fs : list JSONStoreFolder) :=
  {| schemaVersion := schemaVersion s; createdAt := createdAt s;
     updatedAt := updatedAt s; nextIDs := nextIDs s; folders := fs;
     records := records s; recordFolderLinks := recordFolderLinks s;
     events := events s |}.

Definition withRecords (s : JSONStoreData) (rs : list JSONStoreRecord) :=
  {| schemaVersion := schemaVersion s; createdAt := createdAt s;
     updatedAt := updatedAt s; nextIDs := nextIDs s; folders := folders s;
     records := rs; recordFolderLinks := recordFolderLinks s;
     events := events s |}.

Definition withLinks (s : JSONStoreData)
    (ls : list JSONStoreRecordFolderLink) :=
  {| schemaVersion := schemaVersion s; createdAt := createdAt s;
     updatedAt := updatedAt s; nextIDs := nextIDs s; folders := folders s;
     records := records s; recordFolderLinks := ls; events := events s |}.

Definition withNextIDs (s : JSONStoreData) (n : NextIDs) :=
  {| schemaVersion := schemaVersion s; createdAt := createdAt s;
     updatedAt := updatedAt s; nextIDs := n; folders := folders s;
     records := records s; recordFolderLinks := recordFolderLinks s;
     events := events s |}.

Definition withStamps (s : JSONStoreData) (version : Z) (created updated : string) :=
  {| schemaVersion := version; createdAt := created; updatedAt := updated;
     nextIDs := nextIDs s; folders := folders s; records := records s;
     recordFolderLinks := recordFolderLinks s; events := events s |}.

Definition withUpdatedAt (r : JSONStoreRecord) (timestamp : string) :=
  {| rec_id := rec_id r; rec_zoteroItemID := rec_zoteroItemID r;
     rec_recordType := rec_recordType r; rec_title := rec_title r;
     rec_authors := rec_authors r; rec_journal := rec_journal r;
     rec_publicationDate := rec_publicationDate r;
     rec_abstractText := rec_abstractText r;
     rec_pdfAnnotationNotesText := rec_pdfAnnotationNotesText r;
     rec_researchBackground := rec_researchBackground r;
     rec_literatureReview := rec_literatureReview r;
     rec_researchMethods := rec_researchMethods r;
     rec_researchConclusions := rec_researchConclusions r;
     rec_keyFindings := rec_keyFindings r;
     rec_classificationTags := rec_classificationTags r;
     rec_aiProvider := rec_aiProvider r; rec_aiModel := rec_aiModel r;
     rec_rawAIResponse := rec_rawAIResponse r;
     rec_sourceRecordIDs := rec_sourceRecordIDs r;
     rec_sourceZoteroItemIDs := rec_sourceZoteroItemIDs r;
     rec_createdAt := rec_createdAt r; rec_updatedAt := timestamp |}.

(** *** Helpers *)

(** [a || b] on strings. *)
Definition orElse (a b : string) : string := if isEmpty a then b else a.

Definition memZ (x : Z) (l : list Z) : bool := existsb (Z.eqb x) l.

(** [Array.from(new Set(l))]: the first occurrence of each value, in order. *)
Fixpoint uniqFrom (seen : list Z) (l : list Z) : list Z :=
  match l with
  | [] => []
  | x :: rest =>
      if memZ x seen then uniqFrom seen rest
      else x :: uniqFrom (x :: seen) rest
  end.

Definition uniq (l : list Z) : list Z := uniqFrom [] l.

(** [normalizeIDList] and [normalizePositiveIntegerList]. *)
Definition normalizeIDList (ids : list Z) : list Z :=
  uniq (filter (fun v => 0 <? v) ids).

Definition normalizeStringArray (value : list string) : list string :=
  firstn 200 (filter truthy (map trim value)).

Definition normalizeFolderName (name : string) : string :=
  slice (trim name) 0 100.

(** The key folders are compared by: [name.trim().toLowerCase()]. *)
Definition folderKey (name : string) : string := toLowerCase (trim name).

Definition maxID (values : list Z) : Z :=
  fold_left (fun max value => if max <? value then value else max) values 0.

Definition findFolderByID (store : JSONStoreData) (id : Z)
  : option JSONStoreFolder :=
  find (fun folder => folder_id folder =? id) (folders store).

Definition findFolderByName (store : JSONStoreData) (name : string)
  : option JSONStoreFolder :=
  let target := folderKey name in
  find (fun folder => String.eqb (folderKey (folder_name folder)) target)
       (folders store).

(** *** Identifiers, the default folder, links *)

Inductive IDKey := forFolder | forRecord | forEvent.

Definition getNext (n : NextIDs) (key : IDKey) : Z :=
  match key with
  | forFolder => next_folder n
  | forRecord => next_record n
  | forEvent => next_event n
  end.

Definition setNext (n : NextIDs) (key : IDKey) (v : Z) : NextIDs :=
  match key with
  | forFolder =>
      {| next_folder := v; next_record := next_record n;
         next_event := next_event n |}
  | forRecord =>
      {| next_folder := next_folder n; next_record := v;
         next_event := next_event n |}
  | forEvent =>
      {| next_folder := next_folder n; next_record := next_record n;
         next_event := v |}
  end.

(** [Math.max(1, Math.floor(Number(next) || 1))] is [Z.max 1 next]. *)
Definition allocateID (store : JSONStoreData) (key : IDKey)
  : Z * JSONStoreData :=
  let current := Z.max 1 (getNext (nextIDs store) key) in
  (current, withNextIDs store (setNext (nextIDs store) key (current + 1))).

(** [Number.MAX_SAFE_INTEGER], 2^53 - 1: up to it [current + 1] is exact. *)
Definition MAX_SAFE_INTEGER : Z := 9007199254740991.

(** The counters of [store] are at most [Number.MAX_SAFE_INTEGER]. *)
Definition safeIDs (store : JSONStoreData) : Prop :=
  next_folder (nextIDs store) <= MAX_SAFE_INTEGER /\
  next_record (nextIDs store) <= MAX_SAFE_INTEGER /\
  next_event (nextIDs store) <= MAX_SAFE_INTEGER.

Definition ensureDefaultFolder (now : string) (store : JSONStoreData)
  : JSONStoreFolder * JSONStoreData :=
  match findFolderByName store DEFAULT_FOLDER_NAME with
  | Some folder => (folder, store)
  | None =>
      let '(id, store) := allocateID store forFolder in
      let folder :=
        {| folder_id := id; folder_name := DEFAULT_FOLDER_NAME;
           folder_createdAt := now; folder_updatedAt := now |} in
      (folder, withFolders store (folders store ++ [folder]))
  end.

Definition addRecordFolderLink (store : JSONStoreData) (recordID folderID : Z)
    (timestamp : string) : JSONStoreData :=
  if existsb (fun link => (link_recordID link =? recordID)
                          && (link_folderID link =? folderID))
             (recordFolderLinks store)
  then store
  else withLinks store
         (recordFolderLinks store ++
          [{| link_recordID := recordID; link_folderID := folderID;
              link_createdAt := timestamp |}]).

(** One turn of the loop of [normalizeRecordFolderMemberships]. *)
Definition normalizeMembership (defaultID : Z) (now : string)
    (state : JSONStoreData * bool) (recordID : Z) : JSONStoreData * bool :=
  let '(store, changed) := state in
  let links :=
    filter (fun link => link_recordID link =? recordID)
           (recordFolderLinks store) in
  match links with
  | [] => (addRecordFolderLink store recordID defaultID now, true)
  | _ :: _ =>
      let hasDefault :=
        existsb (fun link => link_folderID link =? defaultID) links in
      let hasNonDefault :=
        existsb (fun link => negb (link_folderID link =? defaultID)) links in
      if hasDefault && hasNonDefault then
        let kept :=
          filter (fun link => negb ((link_recordID link =? recordID)
                                    && (link_folderID link =? defaultID)))
                 (recordFolderLinks store) in
        (withLinks store kept,
         changed || negb (Nat.eqb (List.length kept)
                                  (List.length (recordFolderLinks store))))
      else (store, changed)
  end.

(** [recordIDs] is [None] when the caller passes no list. *)
Definition normalizeRecordFolderMemberships (now : string)
    (store : JSONStoreData) (recordIDs : option (list Z))
  : bool * JSONStoreData :=
  let ids :=
    match recordIDs with
    | Some ((_ :: _) as given) => normalizeIDList given
    | _ => map rec_id (records store)
    end in
  match ids with
  | [] => (false, store)
  | _ :: _ =>
      let '(defaultFolder, store) := ensureDefaultFolder now store in
      let '(store, changed) :=
        fold_left (normalizeMembership (folder_id defaultFolder) now) ids
                  (store, false) in
      (changed, store)
  end.

Definition touchRecords (store : JSONStoreData) (recordIDs : list Z)
    (timestamp : string) : JSONStoreData :=
  match normalizeIDList recordIDs with
  | [] => store
  | idSet =>
      withRecords store
        (map (fun record =>
                if memZ (rec_id record) idSet
                then withUpdatedAt record timestamp else record)
             (records store))
  end.

Definition markStoreUpdated (now : string) (store : JSONStoreData)
  : JSONStoreData :=
  withStamps store (schemaVersion store) (createdAt store) now.

Definition getRecordIDsByFolderIDsInternal (store : JSONStoreData)
    (folderIDs : list Z) : list Z :=
  let idSet := normalizeIDList folderIDs in
  uniq (map link_recordID
          (filter (fun link => memZ (link_folderID link) idSet)
                  (recordFolderLinks store))).

(** *** The integrity-repair pass *)

(** The filter over [recordFolderLinks]; [seen] is [seenLinkKeys]. *)
Fixpoint keepValidLinks (folderIDs recordIDs : list Z) (seen : list (Z * Z))
    (links : list JSONStoreRecordFolderLink)
  : list JSONStoreRecordFolderLink :=
  match links with
  | [] => []
  | link :: rest =>
      if negb (memZ (link_folderID link) folderIDs)
         || negb (memZ (link_recordID link) recordIDs)
      then keepValidLinks folderIDs recordIDs seen rest
      else if existsb (fun key => (fst key =? link_recordID link)
                                  && (snd key =? link_folderID link)) seen
      then keepValidLinks folderIDs recordIDs seen rest
      else link :: keepValidLinks folderIDs recordIDs
                     ((link_recordID link, link_folderID link) :: seen) rest
  end.

(** The filter over [folders]; [seen] is [folderSeen]. *)
Fixpoint keepDistinctFolders (seen : list string)
    (fs : list JSONStoreFolder) : list JSONStoreFolder :=
  match fs with
  | [] => []
  | folder :: rest =>
      let key := folderKey (folder_name folder) in
      if isEmpty key then keepDistinctFolders seen rest
      else if existsb (String.eqb key) seen then keepDistinctFolders seen rest
      else folder :: keepDistinctFolders (key :: seen) rest
  end.

(** [next || 1] *)
Definition orOne (next : Z) : Z := if next =? 0 then 1 else next.

Definition ensureStoreIntegrity (now : string) (store : JSONStoreData)
  : bool * JSONStoreData :=
  let changed := isEmpty (createdAt store) || isEmpty (updatedAt store) in
  let store :=
    withStamps store STORE_SCHEMA_VERSION (orElse (createdAt store) now)
               (orElse (updatedAt store) now) in
  let store := snd (ensureDefaultFolder now store) in
  let folderIDs := map folder_id (folders store) in
  let recordIDs := map rec_id (records store) in
  let beforeLinksLen := List.length (recordFolderLinks store) in
  let store :=
    withLinks store
      (keepValidLinks folderIDs recordIDs [] (recordFolderLinks store)) in
  let changed :=
    changed || negb (Nat.eqb (List.length (recordFolderLinks store))
                             beforeLinksLen) in
  let beforeFolderLen := List.length (folders store) in
  let store := withFolders store (keepDistinctFolders [] (folders store)) in
  let changed :=
    changed || negb (Nat.eqb (List.length (folders store)) beforeFolderLen) in
  let '(normalized, store) := normalizeRecordFolderMemberships now store None in
  let changed := changed || normalized in
  let store :=
    withNextIDs store
      {| next_folder :=
           Z.max (orOne (next_folder (nextIDs store)))
                 (maxID (map folder_id (folders store)) + 1);
         next_record :=
           Z.max (orOne (next_record (nextIDs store)))
                 (maxID (map rec_id (records store)) + 1);
         next_event :=
           Z.max (orOne (next_event (nextIDs store)))
                 (maxID (map event_id (events store)) + 1) |} in
  (changed, store).

(** *** Loading and saving

    The backing file holds the JSON text of a store, or nothing that can be
    read as one ([None]: the file is missing, empty or does not parse).  The
    parsed value is taken to have the shape of [JSONStoreData]; what
    [normalizeStoreData] checks beyond the shape is kept. *)

Definition File := option JSONStoreData.

Fixpoint filterMap {A B : Type} (f : A -> option B) (l : list A) : list B :=
  match l with
  | [] => []
  | x :: rest =>
      match f x with
      | Some y => y :: filterMap f rest
      | None => filterMap f rest
      end
  end.

Definition normalizeFolderRecord (now : string) (value : JSONStoreFolder)
  : option JSONStoreFolder :=
  let name := normalizeFolderName (folder_name value) in
  if (folder_id value <=? 0) || isEmpty name then None
  else Some {| folder_id := folder_id value; folder_name := name;
               folder_createdAt := orElse (folder_createdAt value) now;
               folder_updatedAt :=
                 orElse (folder_updatedAt value)
                        (orElse (folder_createdAt value) now) |}.

Definition normalizeReviewRecord (now : string) (value : JSONStoreRecord)
  : option JSONStoreRecord :=
  if rec_id value <=? 0 then None
  else Some
    {| rec_id := rec_id value; rec_zoteroItemID := rec_zoteroItemID value;
       rec_recordType := rec_recordType value; rec_title := rec_title value;
       rec_authors := rec_authors value; rec_journal := rec_journal value;
       rec_publicationDate := rec_publicationDate value;
       rec_abstractText := rec_abstractText value;
       rec_pdfAnnotationNotesText := rec_pdfAnnotationNotesText value;
       rec_researchBackground := rec_researchBackground value;
       rec_literatureReview := rec_literatureReview value;
       rec_researchMethods := rec_researchMethods value;
       rec_researchConclusions := rec_researchConclusions value;
       rec_keyFindings := normalizeStringArray (rec_keyFindings value);
       rec_classificationTags :=
         normalizeStringArray (rec_classificationTags value);
       rec_aiProvider := rec_aiProvider value;
       rec_aiModel := rec_aiModel value;
       rec_rawAIResponse := rec_rawAIResponse value;
       rec_sourceRecordIDs := normalizeIDList (rec_sourceRecordIDs value);
       rec_sourceZoteroItemIDs :=
         normalizeIDList (rec_sourceZoteroItemIDs value);
       rec_createdAt := orElse (rec_createdAt value) now;
       rec_updatedAt :=
         orElse (rec_updatedAt value) (orElse (rec_createdAt value) now) |}.

Definition normalizeRecordFolderLink (now : string)
    (value : JSONStoreRecordFolderLink) : option JSONStoreRecordFolderLink :=
  if (link_recordID value <=? 0) || (link_folderID value <=? 0) then None
  else Some {| link_recordID := link_recordID value;
               link_folderID := link_folderID value;
               link_createdAt := orElse (link_createdAt value) now |}.

Definition normalizeStoreEvent (now : string) (value : JSONStoreEvent)
  : option JSONStoreEvent :=
  if event_id value <=? 0 then None
  else Some {| event_id := event_id value;
               event_eventName := orElse (event_eventName value) "unknown_event";
               event_payloadJSON := event_payloadJSON value;
               event_createdAt := orElse (event_createdAt value) now |}.

(** [Math.max(1, Number(next) || fallback)] *)
Definition nextOr (next fallback : Z) : Z :=
  Z.max 1 (if next =? 0 then fallback else next).

Definition normalizeStoreData (now : string) (raw : JSONStoreData)
  : JSONStoreData :=
  let folders := filterMap (normalizeFolderRecord now) (folders raw) in
  let records := filterMap (normalizeReviewRecord now) (records raw) in
  let recordFolderLinks :=
    filterMap (normalizeRecordFolderLink now) (recordFolderLinks raw) in
  let events := filterMap (normalizeStoreEvent now) (events raw) in
  {| schemaVersion :=
       if schemaVersion raw =? 0 then STORE_SCHEMA_VERSION
       else schemaVersion raw;
     createdAt := orElse (createdAt raw) now;
     updatedAt := orElse (updatedAt raw) now;
     nextIDs :=
       {| next_folder :=
            nextOr (next_folder (nextIDs raw))
                   (maxID (map folder_id folders) + 1);
          next_record :=
            nextOr (next_record (nextIDs raw))
                   (maxID (map rec_id records) + 1);
          next_event :=
            nextOr (next_event (nextIDs raw))
                   (maxID (map event_id events) + 1) |};
     folders := folders; records := records;
     recordFolderLinks := recordFolderLinks; events := events |}.

Definition createEmptyStoreData (now : string) : JSONStoreData :=
  {| schemaVersion := STORE_SCHEMA_VERSION; createdAt := now;
     updatedAt := now;
     nextIDs := {| next_folder := 1; next_record := 1; next_event := 1 |};
     folders := []; records := []; recordFolderLinks := []; events := [] |}.

(** [saveStoreData]: the file now holds the store, stamped. *)
Definition saveStoreData (now : string) (store : JSONStoreData) : File :=
  Some (markStoreUpdated now store).

(** [loadStoreData]: the store in memory and the file as the load leaves it
    (written when there was nothing to read). *)
Definition loadStoreData (now : string) (file : File) : JSONStoreData * File :=
  match file with
  | None =>
      let initial := snd (ensureStoreIntegrity now (createEmptyStoreData now)) in
      (markStoreUpdated now initial, saveStoreData now initial)
  | Some raw =>
      (snd (ensureStoreIntegrity now (normalizeStoreData now raw)), file)
  end.

(** *** Operations

    An operation ends by returning or by throwing; [memory] is the store
    object it was working on when it ended and [disk] the backing file it
    leaves. *)

Inductive Result (A : Type) : Type :=
  | Returned (value : A)
  | Thrown (message : string).
Arguments Returned {A} value.
Arguments Thrown {A} message.

Record Outcome (A : Type) : Type := {
  result : Result A;
  memory : JSONStoreData;
  disk : File }.
Arguments result {A} _.
Arguments memory {A} _.
Arguments disk {A} _.

(** The operation returns without writing. *)
Definition leave {A : Type} (value : A) (store : JSONStoreData) (file : File)
  : Outcome A :=
  {| result := Returned value; memory := store; disk := file |}.

(** [throw new Error(message)]: nothing is written. *)
Definition throw {A : Type} (message : string) (store : JSONStoreData)
    (file : File) : Outcome A :=
  {| result := Thrown message; memory := store; disk := file |}.

(** [markStoreUpdated(store); await saveStoreData(store); return value]. *)
Definition commit {A : Type} (now : string) (value : A)
    (store : JSONStoreData) : Outcome A :=
  let store := markStoreUpdated now store in
  {| result := Returned value; memory := markStoreUpdated now store;
     disk := saveStoreData now store |}.

(** [loadStoreData()] followed by [ensureStoreIntegrity(store)], the opening
    of every operation. *)
Definition openStore (now : string) (file : File) : JSONStoreData * File :=
  let '(store, file) := loadStoreData now file in
  (snd (ensureStoreIntegrity now store), file).

Definition resolveTargetFolderID (now : string) (store : JSONStoreData)
    (folderID : FolderArg) : Result Z * JSONStoreData :=
  match folderID with
  | FolderNumber id =>
      match findFolderByID store id with
      | None => (Thrown "目标文件夹不存在", store)
      | Some folder => (Returned (folder_id folder), store)
      end
  | _ =>
      let '(folder, store) := ensureDefaultFolder now store in
      (Returned (folder_id folder), store)
  end.

(** The comparator of [sortFolders] is positive on [(a, b)]. *)
Definition sortsAfter (a b : JSONStoreFolder) : bool :=
  let aDefault := String.eqb (folder_name a) DEFAULT_FOLDER_NAME in
  let bDefault := String.eqb (folder_name b) DEFAULT_FOLDER_NAME in
  if Bool.eqb aDefault bDefault then
    match String.compare (toLowerCase (folder_name a))
                         (toLowerCase (folder_name b)) with
    | Lt => false
    | Gt => true
    | Eq => folder_id b <? folder_id a
    end
  else bDefault.

Definition sortFolders (fs : list JSONStoreFolder) : list JSONStoreFolder :=
  sortBy sortsAfter fs.

Definition withRawAIResponse (r : JSONStoreRecord) (raw : string) :=
  {| rec_id := rec_id r; rec_zoteroItemID := rec_zoteroItemID r;
     rec_recordType := rec_recordType r; rec_title := rec_title r;
     rec_authors := rec_authors r; rec_journal := rec_journal r;
     rec_publicationDate := rec_publicationDate r;
     rec_abstractText := rec_abstractText r;
     rec_pdfAnnotationNotesText := rec_pdfAnnotationNotesText r;
     rec_researchBackground := rec_researchBackground r;
     rec_literatureReview := rec_literatureReview r;
     rec_researchMethods := rec_researchMethods r;
     rec_researchConclusions := rec_researchConclusions r;
     rec_keyFindings := rec_keyFindings r;
     rec_classificationTags := rec_classificationTags r;
     rec_aiProvider := rec_aiProvider r; rec_aiModel := rec_aiModel r;
     rec_rawAIResponse := raw;
     rec_sourceRecordIDs := rec_sourceRecordIDs r;
     rec_sourceZoteroItemIDs := rec_sourceZoteroItemIDs r;
     rec_createdAt := rec_createdAt r; rec_updatedAt := rec_updatedAt r |}.

(** [mapRecordWithFolders]; where it is called the default folder exists,
    so its [ensureDefaultFolder] leaves the store as it is. *)
Definition mapRecordWithFolders (now : string) (store : JSONStoreData)
    (record : JSONStoreRecord) (includeRawAIResponse : bool)
  : ReviewRecordRow :=
  let defaultFolder := fst (ensureDefaultFolder now store) in
  let found :=
    sortFolders
      (filterMap (fun link => findFolderByID store (link_folderID link))
         (filter (fun link => link_recordID link =? rec_id record)
                 (recordFolderLinks store))) in
  let finalFolders :=
    match found with [] => [defaultFolder] | _ :: _ => found end in
  let folderIDs := map folder_id finalFolders in
  let folderNames := map folder_name finalFolders in
  {| row_record :=
       if includeRawAIResponse then record
       else withRawAIResponse record EmptyString;
     row_folderID := hd_error folderIDs;
     row_folderName := hd_error folderNames;
     row_folderIDs := folderIDs;
     row_folderNames := folderNames |}.

Definition initReviewStore (now : string) (file : File) : Outcome unit :=
  let '(store, file) := loadStoreData now file in
  let '(changed, store) := ensureStoreIntegrity now store in
  if changed then
    {| result := Returned tt; memory := markStoreUpdated now store;
       disk := saveStoreData now store |}
  else leave tt store file.

Definition createReviewFolder (now name : string) (file : File)
  : Outcome JSONStoreFolder :=
  let '(store, file) := openStore now file in
  let normalized := normalizeFolderName name in
  if isEmpty normalized then throw "文件夹名称不能为空" store file
  else
    match findFolderByName store normalized with
    | Some existing => leave existing store file
    | None =>
        let '(id, store) := allocateID store forFolder in
        let folder :=
          {| folder_id := id; folder_name := normalized;
             folder_createdAt := now; folder_updatedAt := now |} in
        let store := withFolders store (folders store ++ [folder]) in
        commit now folder store
    end.

Definition deleteReviewFolder (now : string) (folderID : Z) (file : File)
  : Outcome unit :=
  let '(store, file) := openStore now file in
  let id := folderID in
  match findFolderByID store id with
  | None => leave tt store file
  | Some folder =>
      if isProtectedName (folder_name folder) then
        throw ("系统文件夹不可删除：" ++ folder_name folder) store file
      else
        let affectedRecordIDs := getRecordIDsByFolderIDsInternal store [id] in
        let store :=
          withLinks store
            (filter (fun link => negb (link_folderID link =? id))
                    (recordFolderLinks store)) in
        let store :=
          withFolders store
            (filter (fun f => negb (folder_id f =? id)) (folders store)) in
        let store :=
          snd (normalizeRecordFolderMemberships now store
                 (Some affectedRecordIDs)) in
        let store := touchRecords store affectedRecordIDs now in
        commit now tt store
  end.

Definition mergeReviewFolders (now : string) (folderIDs : list Z)
    (newFolderName : string) (file : File) : Outcome JSONStoreFolder :=
  let '(store, file) := openStore now file in
  let validIDs := uniq (filter (fun id => negb (id =? 0)) folderIDs) in
  if (List.length validIDs <? 2)%nat then
    throw "至少选择两个文件夹进行合并" store file
  else
    let found := filterMap (findFolderByID store) validIDs in
    let protectedFolders :=
      filter (fun f => isProtectedName (folder_name f)) found in
    match protectedFolders with
    | _ :: _ =>
        throw ("系统文件夹不可合并："
               ++ join "、" (map folder_name protectedFolders)) store file
    | [] =>
        let normalizedName := normalizeFolderName newFolderName in
        if isEmpty normalizedName then
          throw "合并后的文件夹名称不能为空" store file
        else
          let '(newFolder, store) :=
            match findFolderByName store normalizedName with
            | Some folder => (folder, store)
            | None =>
                let '(id, store) := allocateID store forFolder in
                let folder :=
                  {| folder_id := id; folder_name := normalizedName;
                     folder_createdAt := now; folder_updatedAt := now |} in
                (folder, withFolders store (folders store ++ [folder]))
            end in
          let affectedRecordIDs :=
            getRecordIDsByFolderIDsInternal store validIDs in
          let store :=
            fold_left
              (fun store recordID =>
                 addRecordFolderLink store recordID (folder_id newFolder) now)
              affectedRecordIDs store in
          let sourceFolderIDs :=
            filter (fun id => negb (id =? folder_id newFolder)) validIDs in
          let store :=
            match sourceFolderIDs with
            | [] => store
            | _ :: _ =>
                let store :=
                  withLinks store
                    (filter (fun link =>
                               negb (memZ (link_folderID link) sourceFolderIDs))
                            (recordFolderLinks store)) in
                withFolders store
                  (filter (fun folder =>
                             negb (memZ (folder_id folder) sourceFolderIDs)
                             || isProtectedName (folder_name folder))
                          (folders store))
            end in
          let store :=
            snd (normalizeRecordFolderMemberships now store
                   (Some affectedRecordIDs)) in
          let store := touchRecords store affectedRecordIDs now in
          commit now newFolder store
    end.

(** The record [upsertReviewRecord] writes for [draft]. *)
Definition recordOfDraft (id zoteroItemID : Z) (draft : LiteratureReviewDraft)
    (created timestamp : string) : JSONStoreRecord :=
  {| rec_id := id; rec_zoteroItemID := zoteroItemID;
     rec_recordType := literature;
     rec_title := draft_title draft; rec_authors := draft_authors draft;
     rec_journal := draft_journal draft;
     rec_publicationDate := draft_publicationDate draft;
     rec_abstractText := draft_abstractText draft;
     rec_pdfAnnotationNotesText := draft_pdfAnnotationNotesText draft;
     rec_researchBackground := draft_researchBackground draft;
     rec_literatureReview := draft_literatureReview draft;
     rec_researchMethods := draft_researchMethods draft;
     rec_researchConclusions := draft_researchConclusions draft;
     rec_keyFindings := normalizeStringArray (draft_keyFindings draft);
     rec_classificationTags :=
       normalizeStringArray (draft_classificationTags draft);
     rec_aiProvider := draft_aiProvider draft;
     rec_aiModel := draft_aiModel draft;
     rec_rawAIResponse := draft_rawAIResponse draft;
     rec_sourceRecordIDs := []; rec_sourceZoteroItemIDs := [];
     rec_createdAt := created; rec_updatedAt := timestamp |}.

(** The test of [store.records.find] in [upsertReviewRecord]. *)
Definition isLiteratureOf (zoteroItemID : Z) (record : JSONStoreRecord) : bool :=
  negb (isFolderSummary (rec_recordType record))
  && (rec_zoteroItemID record =? zoteroItemID).

(** The record [find] returned is an element of the array: assigning to its
    fields changes the first record that passes the test. *)
Fixpoint updateFirst (test : JSONStoreRecord -> bool)
    (change : JSONStoreRecord -> JSONStoreRecord)
    (rs : list JSONStoreRecord) : list JSONStoreRecord :=
  match rs with
  | [] => []
  | r :: rest =>
      if test r then change r :: rest
      else r :: updateFirst test change rest
  end.

Definition upsertReviewRecord (now : string) (draft : LiteratureReviewDraft)
    (folderID : FolderArg) (file : File) : Outcome ReviewRecordRow :=
  let '(store, file) := openStore now file in
  let test := isLiteratureOf (draft_zoteroItemID draft) in
  let change existing :=
    recordOfDraft (rec_id existing) (rec_zoteroItemID existing) draft
                  (rec_createdAt existing) now in
  let '(record, store) :=
    match find test (records store) with
    | Some existing =>
        (change existing,
         withRecords store (updateFirst test change (records store)))
    | None =>
        let '(id, store) := allocateID store forRecord in
        let record :=
          recordOfDraft id (draft_zoteroItemID draft) draft now now in
        (record, withRecords store (records store ++ [record]))
    end in
  let linked :=
    match folderID with
    | FolderUndefined => (Returned tt, store)
    | _ =>
        match resolveTargetFolderID now store folderID with
        | (Returned actualFolderID, store) =>
            (Returned tt,
             addRecordFolderLink store (rec_id record) actualFolderID now)
        | (Thrown message, store) => (Thrown message, store)
        end
    end in
  match linked with
  | (Thrown message, store) => throw message store file
  | (Returned _, store) =>
      let store :=
        snd (normalizeRecordFolderMemberships now store
               (Some [rec_id record])) in
      let done := commit now tt store in
      {| result := Returned (mapRecordWithFolders now (memory done) record true);
         memory := memory done; disk := disk done |}
  end.

Definition decimal (n : nat) : string := NilEmpty.string_of_uint (Nat.to_uint n).

Definition createFolderSummaryRecord (now : string) (folderID : FolderArg)
    (folderName summaryText : string) (sourceRows : list (Z * Z))
    (aiProvider aiModel : string) (file : File) : Outcome ReviewRecordRow :=
  let '(store, file) := openStore now file in
  let normalizedFolderName := orElse (trim folderName) "未命名文件夹" in
  let sourceRecordIDs := normalizeIDList (map fst sourceRows) in
  let sourceZoteroItemIDs := normalizeIDList (map snd sourceRows) in
  let publicationDate := slice now 0 10 in
  let '(id, store) := allocateID store forRecord in
  let record :=
    {| rec_id := id; rec_zoteroItemID := 0; rec_recordType := folderSummary;
       rec_title :=
         "合并综述：" ++ normalizedFolderName ++ "（" ++ publicationDate ++ "）";
       rec_authors :=
         "基于 " ++ decimal (List.length sourceRecordIDs) ++ " 篇文献";
       rec_journal := "文件夹合并综述";
       rec_publicationDate := publicationDate;
       rec_abstractText := ""; rec_pdfAnnotationNotesText := "";
       rec_researchBackground := "";
       rec_literatureReview := trim summaryText;
       rec_researchMethods := ""; rec_researchConclusions := "";
       rec_keyFindings := [];
       rec_classificationTags :=
         normalizeStringArray ["合并综述"; normalizedFolderName];
       rec_aiProvider := aiProvider; rec_aiModel := aiModel;
       rec_rawAIResponse := trim summaryText;
       rec_sourceRecordIDs := sourceRecordIDs;
       rec_sourceZoteroItemIDs := sourceZoteroItemIDs;
       rec_createdAt := now; rec_updatedAt := now |} in
  let store := withRecords store (records store ++ [record]) in
  let target :=
    match folderID with FolderUndefined => FolderNull | given => given end in
  match resolveTargetFolderID now store target with
  | (Thrown message, store) => throw message store file
  | (Returned actualFolderID, store) =>
      let store := addRecordFolderLink store (rec_id record) actualFolderID now in
      let store :=
        snd (normalizeRecordFolderMemberships now store
               (Some [rec_id record])) in
      let done := commit now tt store in
      {| result := Returned (mapRecordWithFolders now (memory done) record true);
         memory := memory done; disk := disk done |}
  end.

(** [folderID] is [number | null] here. *)
Definition assignReviewRecordsFolder (now : string) (recordIDs : list Z)
    (folderID : FolderArg) (file : File) : Outcome unit :=
  let '(store, file) := openStore now file in
  match normalizeIDList recordIDs with
  | [] => leave tt store file
  | ids =>
      match resolveTargetFolderID now store folderID with
      | (Thrown message, store) => throw message store file
      | (Returned actualFolderID, store) =>
          let store :=
            fold_left
              (fun store id =>
                 if existsb (fun record => rec_id record =? id) (records store)
                 then addRecordFolderLink store id actualFolderID now
                 else store)
              ids store in
          let store :=
            snd (normalizeRecordFolderMemberships now store (Some ids)) in
          let store := touchRecords store ids now in
          commit now tt store
      end
  end.

Definition removeReviewRecordsFromFolder (now : string) (recordIDs : list Z)
    (folderID : Z) (file : File) : Outcome unit :=
  let '(store, file) := openStore now file in
  match normalizeIDList recordIDs with
  | [] => leave tt store file
  | ids =>
      match findFolderByID store folderID with
      | None => throw "目标文件夹不存在" store file
      | Some folder =>
          if isProtectedName (folder_name folder) then
            throw ("系统文件夹不可直接移出：" ++ folder_name folder) store file
          else
            let store :=
              withLinks store
                (filter (fun link =>
                           negb ((link_folderID link =? folder_id folder)
                                 && memZ (link_recordID link) ids))
                        (recordFolderLinks store)) in
            let store :=
              snd (normalizeRecordFolderMemberships now store (Some ids)) in
            let store := touchRecords store ids now in
            commit now tt store
      end
  end.

(** The pruning of the source lists in [deleteReviewRecords]. *)
Definition pruneSources (effectiveIDs removedZoteroItemIDs : list Z)
    (timestamp : string) (record : JSONStoreRecord) : JSONStoreRecord :=
  let nextSourceRecordIDs :=
    filter (fun id => negb (memZ id effectiveIDs)) (rec_sourceRecordIDs record) in
  let nextSourceItemIDs :=
    filter (fun id => negb (memZ id removedZoteroItemIDs))
           (rec_sourceZoteroItemIDs record) in
  if negb (Nat.eqb (List.length nextSourceRecordIDs)
                   (List.length (rec_sourceRecordIDs record)))
     || negb (Nat.eqb (List.length nextSourceItemIDs)
                      (List.length (rec_sourceZoteroItemIDs record)))
  then
    {| rec_id := rec_id record; rec_zoteroItemID := rec_zoteroItemID record;
       rec_recordType := rec_recordType record; rec_title := rec_title record;
       rec_authors := rec_authors record; rec_journal := rec_journal record;
       rec_publicationDate := rec_publicationDate record;
       rec_abstractText := rec_abstractText record;
       rec_pdfAnnotationNotesText := rec_pdfAnnotationNotesText record;
       rec_researchBackground := rec_researchBackground record;
       rec_literatureReview := rec_literatureReview record;
       rec_researchMethods := rec_researchMethods record;
       rec_researchConclusions := rec_researchConclusions record;
       rec_keyFindings := rec_keyFindings record;
       rec_classificationTags := rec_classificationTags record;
       rec_aiProvider := rec_aiProvider record;
       rec_aiModel := rec_aiModel record;
       rec_rawAIResponse := rec_rawAIResponse record;
       rec_sourceRecordIDs := nextSourceRecordIDs;
       rec_sourceZoteroItemIDs := nextSourceItemIDs;
       rec_createdAt := rec_createdAt record; rec_updatedAt := timestamp |}
  else record.

Definition deleteReviewRecords (now : string) (recordIDs : list Z)
    (file : File) : Outcome Z :=
  let '(store, file) := openStore now file in
  let ids := normalizeIDList recordIDs in
  let existingIDs := map rec_id (records store) in
  let effectiveIDs := filter (fun id => memZ id existingIDs) ids in
  match effectiveIDs with
  | [] => leave 0 store file
  | _ :: _ =>
      let removedZoteroItemIDs :=
        map rec_zoteroItemID
          (filter (fun record => memZ (rec_id record) effectiveIDs
                                 && (0 <? rec_zoteroItemID record))
                  (records store)) in
      let store :=
        withRecords store
          (filter (fun record => negb (memZ (rec_id record) effectiveIDs))
                  (records store)) in
      let store :=
        withLinks store
          (filter (fun link => negb (memZ (link_recordID link) effectiveIDs))
                  (recordFolderLinks store)) in
      let store :=
        withRecords store
          (map (pruneSources effectiveIDs removedZoteroItemIDs now)
               (records store)) in
      commit now (Z.of_nat (List.length effectiveIDs)) store
  end.

(** *** Sets of identifiers *)

Lemma memZ_In x l : memZ x l = true <-> In x l.
Proof.
  unfold memZ. rewrite existsb_exists. split.
  - intros (y & Hy & Heq). apply Z.eqb_eq in Heq. now subst.
  - intros H. exists x. split; [exact H | apply Z.eqb_refl].
Qed.

Lemma memZ_false x l : memZ x l = false <-> ~ In x l.
Proof.
  rewrite <- memZ_In. destruct (memZ x l); split; congruence.
Qed.

Lemma uniqFrom_In seen l x :
  In x (uniqFrom seen l) <-> In x l /\ ~ In x seen.
Proof.
  revert seen. induction l as [|y l IH]; intros seen; simpl; [tauto|].
  destruct (memZ y seen) eqn:Hy.
  - apply memZ_In in Hy. rewrite IH. split.
    + tauto.
    + intros [[->|H] Hn]; [contradiction | tauto].
  - apply memZ_false in Hy. simpl. rewrite IH. simpl. split.
    + intros [->|[H Hn]]; [tauto|]. split; [tauto|]. intros Hs. apply Hn. tauto.
    + intros [[->|H] Hn]; [tauto|].
      destruct (Z.eq_dec y x) as [->|Hne]; [tauto|]. right. split; [exact H|].
      intros [Heq|Hs]; [congruence | contradiction].
Qed.

Lemma uniq_In l x : In x (uniq l) <-> In x l.
Proof. unfold uniq. rewrite uniqFrom_In. simpl. tauto. Qed.

Lemma normalizeIDList_In ids x : In x (normalizeIDList ids) <-> In x ids /\ 0 < x.
Proof.
  unfold normalizeIDList. rewrite uniq_In, filter_In, Z.ltb_lt. tauto.
Qed.

Lemma normalizeIDList_nil ids :
  normalizeIDList ids = [] -> forall x, In x ids -> x <= 0.
Proof.
  intros H x Hx. destruct (Z_lt_le_dec 0 x) as [Hpos|Hle]; [|exact Hle].
  assert (Hin : In x (normalizeIDList ids)) by (apply normalizeIDList_In; tauto).
  rewrite H in Hin. contradiction.
Qed.

Lemma maxID_ge_from values : forall start,
  start <= fold_left (fun max value => if max <? value then value else max)
             values start /\
  forall v, In v values ->
    v <= fold_left (fun max value => if max <? value then value else max)
           values start.
Proof.
  induction values as [|x l IH]; intros start; simpl.
  - split; [lia | contradiction].
  - destruct (IH (if start <? x then x else start)) as [H1 H2].
    destruct (Z.ltb_spec start x); split; try lia.
    + intros v [->|Hv]; [lia | now apply H2].
    + intros v [->|Hv]; [lia | now apply H2].
Qed.

Lemma maxID_ge values v : In v values -> v <= maxID values.
Proof. intros Hv. now apply (maxID_ge_from values 0). Qed.

(** *** Looking folders up *)

Lemma find_app_found {A : Type} (test : A -> bool) l l' x :
  find test l = Some x -> find test (l ++ l') = Some x.
Proof.
  induction l as [|y l IH]; simpl; [discriminate|].
  destruct (test y); [trivial | exact IH].
Qed.

Lemma find_app_none {A : Type} (test : A -> bool) l l' :
  find test l = None -> find test (l ++ l') = find test l'.
Proof.
  induction l as [|y l IH]; simpl; [trivial|].
  destruct (test y); [discriminate | exact IH].
Qed.

Lemma find_filter_kept {A : Type} (test keep : A -> bool) l x :
  find test l = Some x -> keep x = true ->
  find test (filter keep l) = Some x.
Proof.
  induction l as [|y l IH]; simpl; [discriminate|].
  destruct (test y) eqn:Hy.
  - intros [= ->] Hk. rewrite Hk. simpl. now rewrite Hy.
  - intros Hf Hk. destruct (keep y); [|now apply IH].
    simpl. rewrite Hy. now apply IH.
Qed.

Definition keyOf (folder : JSONStoreFolder) : string :=
  folderKey (folder_name folder).

Definition hasKey (key : string) (folder : JSONStoreFolder) : bool :=
  String.eqb (keyOf folder) key.

Lemma findFolderByName_find store name :
  findFolderByName store name = find (hasKey (folderKey name)) (folders store).
Proof. reflexivity. Qed.

Lemma find_hasKey_In key fs folder :
  find (hasKey key) fs = Some folder -> In folder fs /\ keyOf folder = key.
Proof.
  intros H. apply find_some in H. destruct H as [Hin Hk].
  split; [exact Hin | now apply String.eqb_eq].
Qed.


Lemma find_hasKey_none key fs :
  (forall folder, In folder fs -> keyOf folder <> key) ->
  find (hasKey key) fs = None.
Proof.
  intros H. destruct (find (hasKey key) fs) as [folder|] eqn:Hf; [|reflexivity].
  apply find_hasKey_In in Hf. destruct Hf as [Hin Hk]. now apply H in Hin.
Qed.

Lemma NoDup_map_filter {A B : Type} (g : A -> B) (keep : A -> bool) l :
  NoDup (map g l) -> NoDup (map g (filter keep l)).
Proof.
  induction l as [|x l IH]; simpl; intros H; [constructor|].
  inversion H as [|? ? Hnotin Hnd]; subst.
  destruct (keep x); [|now apply IH]. simpl. constructor; [|now apply IH].
  intros Hin. apply Hnotin. apply in_map_iff in Hin.
  destruct Hin as (y & Hy & Hyin). apply filter_In in Hyin.
  apply in_map_iff. exists y. tauto.
Qed.

(** *** The folders the repair pass keeps *)

Definition memKey (key : string) (seen : list string) : bool :=
  existsb (String.eqb key) seen.

Lemma memKey_In key seen : memKey key seen = true <-> In key seen.
Proof.
  unfold memKey. rewrite existsb_exists. split.
  - intros (y & Hy & Heq). apply String.eqb_eq in Heq. now subst.
  - intros H. exists key. split; [exact H | apply String.eqb_refl].
Qed.

Lemma keepDistinctFolders_In seen fs folder :
  In folder (keepDistinctFolders seen fs) ->
  In folder fs /\ keyOf folder <> EmptyString /\ ~ In (keyOf folder) seen.
Proof.
  revert seen. induction fs as [|g fs IH]; intros seen; simpl; [tauto|].
  fold (keyOf g). destruct (isEmpty (keyOf g)) eqn:Hempty.
  - intros H. apply IH in H. tauto.
  - fold (memKey (keyOf g) seen). destruct (memKey (keyOf g) seen) eqn:Hseen.
    + intros H. apply IH in H. tauto.
    + intros [<-|H].
      * split; [now left|]. split.
        -- intros Hk. rewrite Hk in Hempty. discriminate.
        -- rewrite <- memKey_In. congruence.
      * apply IH in H. simpl in H. tauto.
Qed.

Lemma keepDistinctFolders_NoDup seen fs :
  NoDup (map keyOf (keepDistinctFolders seen fs)).
Proof.
  revert seen. induction fs as [|g fs IH]; intros seen; simpl; [constructor|].
  fold (keyOf g). destruct (isEmpty (keyOf g)); [apply IH|].
  fold (memKey (keyOf g) seen). destruct (memKey (keyOf g) seen); [apply IH|].
  simpl. constructor; [|apply IH].
  intros Hin. apply in_map_iff in Hin. destruct Hin as (h & Hk & Hh).
  apply keepDistinctFolders_In in Hh. destruct Hh as (_ & _ & Hns).
  apply Hns. rewrite Hk. now left.
Qed.

(** Folders whose keys are distinct and not empty are all kept. *)
Lemma keepDistinctFolders_id fs : forall seen,
  NoDup (map keyOf fs) ->
  (forall folder, In folder fs ->
     keyOf folder <> EmptyString /\ ~ In (keyOf folder) seen) ->
  keepDistinctFolders seen fs = fs.
Proof.
  induction fs as [|g fs IH]; intros seen Hnd Hk; [reflexivity|].
  cbn [map] in Hnd. inversion Hnd as [|? ? Hnotin Hnd']; subst. simpl.
  fold (keyOf g). destruct (Hk g (or_introl eq_refl)) as [Hne Hns].
  destruct (isEmpty (keyOf g)) eqn:Hempty.
  { destruct (keyOf g); [congruence | discriminate]. }
  fold (memKey (keyOf g) seen). destruct (memKey (keyOf g) seen) eqn:Hseen.
  { apply memKey_In in Hseen. contradiction. }
  f_equal. apply IH; [exact Hnd'|].
  intros folder Hin. destruct (Hk folder (or_intror Hin)) as [H1 H2].
  split; [exact H1|]. intros [Heq|Hs]; [|contradiction].
  apply Hnotin. rewrite Heq. now apply in_map.
Qed.

(** The first folder of a key that is not empty survives the pass. *)
Lemma keepDistinctFolders_find key fs : forall seen,
  key <> EmptyString -> ~ In key seen ->
  find (hasKey key) (keepDistinctFolders seen fs) = find (hasKey key) fs.
Proof.
  induction fs as [|g fs IH]; intros seen Hne Hns; [reflexivity|].
  simpl. fold (keyOf g). unfold hasKey at 2.
  destruct (String.eqb_spec (keyOf g) key) as [Heq|Hdiff].
  - destruct (isEmpty (keyOf g)) eqn:Hempty.
    { rewrite Heq in Hempty. destruct key; [congruence | discriminate]. }
    fold (memKey (keyOf g) seen). destruct (memKey (keyOf g) seen) eqn:Hseen.
    { apply memKey_In in Hseen. rewrite Heq in Hseen. contradiction. }
    simpl. unfold hasKey at 1. rewrite Heq, String.eqb_refl. reflexivity.
  - destruct (isEmpty (keyOf g)); [now apply IH|].
    fold (memKey (keyOf g) seen). destruct (memKey (keyOf g) seen);
      [now apply IH|].
    simpl. unfold hasKey at 1.
    destruct (String.eqb_spec (keyOf g) key); [contradiction|].
    apply IH; [exact Hne|]. intros [Heq|Hs]; [congruence | contradiction].
Qed.

(** *** Memberships *)

(** [links] holds a link of the record to the folder. *)
Definition linkedIn (links : list JSONStoreRecordFolderLink)
    (recordID folderID : Z) : Prop :=
  exists link, In link links /\ link_recordID link = recordID
               /\ link_folderID link = folderID.

(** The record has a link, and if it is linked to the folder [d] it is
    linked to no other folder. *)
Definition settledIn (d : Z) (links : list JSONStoreRecordFolderLink)
    (recordID : Z) : Prop :=
  (exists folderID, linkedIn links recordID folderID) /\
  (forall folderID, linkedIn links recordID d ->
     linkedIn links recordID folderID -> folderID = d).

Lemma settledIn_same_links d links links' recordID :
  (forall link, link_recordID link = recordID ->
     (In link links' <-> In link links)) ->
  settledIn d links recordID -> settledIn d links' recordID.
Proof.
  intros Hsame [[f (l & Hl & Hr & Hf)] Hex]. split.
  - exists f, l. split; [now apply Hsame | tauto].
  - intros g (l1 & H1 & Hr1 & Hf1) (l2 & H2 & Hr2 & Hf2).
    apply Hex; [exists l1 | exists l2]; (split; [now apply Hsame | tauto]).
Qed.

Lemma settledIn_fresh d links recordID :
  (exists folderID, linkedIn links recordID folderID) ->
  ~ linkedIn links recordID d ->
  settledIn d links recordID.
Proof. intros H Hn. split; [exact H | intros f Hd; contradiction]. Qed.

Lemma addRecordFolderLink_frame store recordID folderID timestamp :
  folders (addRecordFolderLink store recordID folderID timestamp)
    = folders store /\
  records (addRecordFolderLink store recordID folderID timestamp)
    = records store /\
  nextIDs (addRecordFolderLink store recordID folderID timestamp)
    = nextIDs store.
Proof.
  unfold addRecordFolderLink. destruct (existsb _ _); simpl; auto.
Qed.

Lemma addRecordFolderLink_In store recordID folderID timestamp link :
  In link (recordFolderLinks
             (addRecordFolderLink store recordID folderID timestamp)) ->
  In link (recordFolderLinks store) \/
  (link_recordID link = recordID /\ link_folderID link = folderID).
Proof.
  unfold addRecordFolderLink. destruct (existsb _ _); simpl; [tauto|].
  intros H. apply in_app_or in H. destruct H as [H|[<-|[]]]; simpl; tauto.
Qed.

Lemma addRecordFolderLink_keeps store recordID folderID timestamp link :
  In link (recordFolderLinks store) ->
  In link (recordFolderLinks
             (addRecordFolderLink store recordID folderID timestamp)).
Proof.
  unfold addRecordFolderLink. destruct (existsb _ _); simpl; [tauto|].
  intros H. apply in_or_app. now left.
Qed.

Lemma addRecordFolderLink_linked store recordID folderID timestamp :
  linkedIn (recordFolderLinks
              (addRecordFolderLink store recordID folderID timestamp))
           recordID folderID.
Proof.
  unfold addRecordFolderLink.
  destruct (existsb _ _) eqn:Hex; simpl.
  - apply existsb_exists in Hex. destruct Hex as (link & Hin & Hb).
    apply andb_true_iff in Hb. rewrite !Z.eqb_eq in Hb. exists link. tauto.
  - eexists. split; [apply in_or_app; right; left; reflexivity|]. simpl. tauto.
Qed.

Section NormalizeMembership.
Variables (d : Z) (now : string).

Lemma normalizeMembership_frame store changed recordID :
  folders (fst (normalizeMembership d now (store, changed) recordID))
    = folders store /\
  records (fst (normalizeMembership d now (store, changed) recordID))
    = records store /\
  nextIDs (fst (normalizeMembership d now (store, changed) recordID))
    = nextIDs store.
Proof.
  unfold normalizeMembership.
  destruct (filter _ (recordFolderLinks store)).
  - apply addRecordFolderLink_frame.
  - destruct (_ && _); simpl; auto.
Qed.

Lemma normalizeMembership_others store changed recordID link :
  link_recordID link <> recordID ->
  (In link (recordFolderLinks
              (fst (normalizeMembership d now (store, changed) recordID)))
   <-> In link (recordFolderLinks store)).
Proof.
  intros Hne. unfold normalizeMembership.
  destruct (filter _ (recordFolderLinks store)).
  - cbn [fst]. split.
    + intros H. apply addRecordFolderLink_In in H. tauto.
    + apply addRecordFolderLink_keeps.
  - destruct (_ && _); cbn [fst]; [|tauto].
    cbn [recordFolderLinks withLinks]. rewrite filter_In.
    apply Z.eqb_neq in Hne. rewrite Hne. simpl. tauto.
Qed.

Lemma normalizeMembership_In store changed recordID link :
  In link (recordFolderLinks
             (fst (normalizeMembership d now (store, changed) recordID))) ->
  In link (recordFolderLinks store) \/
  (link_recordID link = recordID /\ link_folderID link = d).
Proof.
  unfold normalizeMembership.
  destruct (filter _ (recordFolderLinks store)).
  - cbn [fst]. apply addRecordFolderLink_In.
  - destruct (_ && _); cbn [fst]; [|tauto].
    cbn [recordFolderLinks withLinks]. rewrite filter_In. tauto.
Qed.

Lemma normalizeMembership_settles store changed recordID :
  settledIn d
    (recordFolderLinks
       (fst (normalizeMembership d now (store, changed) recordID)))
    recordID.
Proof.
  unfold normalizeMembership.
  destruct (filter (fun link => link_recordID link =? recordID)
                   (recordFolderLinks store)) as [|l0 ls] eqn:Hmine.
  - cbn [fst]. split.
    + exists d. apply addRecordFolderLink_linked.
    + intros f _ (link & Hin & Hr & Hf).
      apply addRecordFolderLink_In in Hin. destruct Hin as [Hin|[_ Hd]].
      * exfalso.
        assert (Hm : In link (filter (fun link => link_recordID link =? recordID)
                                (recordFolderLinks store))).
        { apply filter_In. split; [exact Hin | now apply Z.eqb_eq]. }
        rewrite Hmine in Hm. contradiction.
      * congruence.
  - cbv beta iota zeta. set (mine := l0 :: ls) in *.
    assert (Hmem : forall link, In link mine <->
              In link (recordFolderLinks store) /\ link_recordID link = recordID).
    { intros link. rewrite <- Hmine, filter_In, Z.eqb_eq. tauto. }
    destruct (existsb (fun link => link_folderID link =? d) mine) eqn:Hdef;
    destruct (existsb (fun link => negb (link_folderID link =? d)) mine)
      eqn:Hnon; cbn [andb fst].
    + apply existsb_exists in Hnon. destruct Hnon as (other & Ho & Hne).
      apply Hmem in Ho. destruct Ho as [Ho Hor].
      apply negb_true_iff, Z.eqb_neq in Hne.
      cbn [recordFolderLinks withLinks]. split.
      * exists (link_folderID other), other.
        split; [|tauto]. apply filter_In. split; [exact Ho|].
        apply negb_true_iff, andb_false_iff. right. now apply Z.eqb_neq.
      * intros f (link & Hin & Hr & Hf) _. exfalso.
        apply filter_In in Hin. destruct Hin as [_ Hin].
        apply negb_true_iff, andb_false_iff in Hin.
        rewrite !Z.eqb_neq in Hin. tauto.
    + split.
      * exists (link_folderID l0), l0.
        assert (In l0 mine) by now left. apply Hmem in H. tauto.
      * intros f _ (link & Hin & Hr & Hf).
        destruct (Z.eq_dec f d) as [Heq|Hne]; [exact Heq|]. exfalso.
        assert (Hex : existsb (fun link => negb (link_folderID link =? d)) mine
                      = true).
        { apply existsb_exists. exists link. split.
          - apply Hmem. tauto.
          - apply negb_true_iff, Z.eqb_neq. congruence. }
        congruence.
    + split.
      * exists (link_folderID l0), l0.
        assert (In l0 mine) by now left. apply Hmem in H. tauto.
      * intros f (link & Hin & Hr & Hf) _. exfalso.
        assert (Hex : existsb (fun link => link_folderID link =? d) mine = true).
        { apply existsb_exists. exists link. split.
          - apply Hmem. tauto.
          - now apply Z.eqb_eq. }
        congruence.
    + split.
      * exists (link_folderID l0), l0.
        assert (In l0 mine) by now left. apply Hmem in H. tauto.
      * intros f (link & Hin & Hr & Hf) _. exfalso.
        assert (Hex : existsb (fun link => link_folderID link =? d) mine = true).
        { apply existsb_exists. exists link. split.
          - apply Hmem. tauto.
          - now apply Z.eqb_eq. }
        congruence.
Qed.

(** A turn of the loop keeps the record of the turn settled and leaves
    the links of the other records alone. *)
Lemma normalizeMembership_keeps store changed recordID other :
  settledIn d (recordFolderLinks store) other ->
  settledIn d
    (recordFolderLinks
       (fst (normalizeMembership d now (store, changed) recordID)))
    other.
Proof.
  intros H. destruct (Z.eq_dec other recordID) as [->|Hne].
  - apply normalizeMembership_settles.
  - revert H. apply settledIn_same_links. intros link Hl.
    apply normalizeMembership_others. congruence.
Qed.

(** The loop of [normalizeRecordFolderMemberships]. *)
Lemma normalizeLoop ids : forall store changed,
  let store' :=
    fst (fold_left (normalizeMembership d now) ids (store, changed)) in
  folders store' = folders store /\
  records store' = records store /\
  nextIDs store' = nextIDs store /\
  (forall recordID, In recordID ids ->
     settledIn d (recordFolderLinks store') recordID) /\
  (forall recordID, settledIn d (recordFolderLinks store) recordID ->
     settledIn d (recordFolderLinks store') recordID) /\
  (forall link, In link (recordFolderLinks store') ->
     In link (recordFolderLinks store) \/
     (In (link_recordID link) ids /\ link_folderID link = d)) /\
  (forall link, ~ In (link_recordID link) ids ->
     In link (recordFolderLinks store) -> In link (recordFolderLinks store')).
Proof.
  induction ids as [|recordID ids IH]; intros store changed; cbn zeta.
  - cbn [fold_left fst].
    split; [reflexivity|]. split; [reflexivity|]. split; [reflexivity|].
    split; [intros r []|]. split; [trivial|]. split; [now left | trivial].
  - cbn [fold_left].
    destruct (normalizeMembership d now (store, changed) recordID)
      as [store1 changed1] eqn:Hstep.
    assert (Hs1 : store1
              = fst (normalizeMembership d now (store, changed) recordID))
      by now rewrite Hstep.
    specialize (IH store1 changed1). cbn zeta in IH.
    destruct IH as (Hf & Hr & Hn & Hin & Hkeep & Hfrom & Hstay).
    destruct (normalizeMembership_frame store changed recordID)
      as (Hf1 & Hr1 & Hn1).
    rewrite <- Hs1 in Hf1, Hr1, Hn1.
    split; [congruence|]. split; [congruence|]. split; [congruence|].
    split; [|split; [|split]].
    + intros r [<-|Hr']; [|now apply Hin].
      apply Hkeep. rewrite Hs1. apply normalizeMembership_settles.
    + intros r Hr'. apply Hkeep. rewrite Hs1.
      now apply normalizeMembership_keeps.
    + intros link Hl. apply Hfrom in Hl. destruct Hl as [Hl|[Hl Hd]].
      * rewrite Hs1 in Hl. apply normalizeMembership_In in Hl.
        destruct Hl as [Hl|[Hl Hd]]; [now left|].
        right. split; [now left | exact Hd].
      * right. split; [now right | exact Hd].
    + intros link Hni Hl. apply Hstay.
      * intros Hi. apply Hni. now right.
      * rewrite Hs1. apply normalizeMembership_others; [|exact Hl].
        intros Heq. apply Hni. now left.
Qed.
End NormalizeMembership.

(** *** The default folder *)

Lemma folderKey_default : folderKey DEFAULT_FOLDER_NAME = DEFAULT_FOLDER_NAME.
Proof. reflexivity. Qed.

Lemma ensureDefaultFolder_spec now store :
  let defaultFolder := fst (ensureDefaultFolder now store) in
  let store' := snd (ensureDefaultFolder now store) in
  findFolderByName store' DEFAULT_FOLDER_NAME = Some defaultFolder /\
  records store' = records store /\
  recordFolderLinks store' = recordFolderLinks store /\
  events store' = events store /\
  ((findFolderByName store DEFAULT_FOLDER_NAME = Some defaultFolder /\
    store' = store) \/
   (findFolderByName store DEFAULT_FOLDER_NAME = None /\
    folders store' = (folders store ++ [defaultFolder])%list /\
    folder_id defaultFolder = Z.max 1 (next_folder (nextIDs store)) /\
    folder_name defaultFolder = DEFAULT_FOLDER_NAME /\
    nextIDs store' =
      setNext (nextIDs store) forFolder (folder_id defaultFolder + 1))).
Proof.
  unfold ensureDefaultFolder.
  destruct (findFolderByName store DEFAULT_FOLDER_NAME) as [folder|] eqn:Hfind;
    cbn [fst snd allocateID].
  - repeat split; auto.
  - cbn [records recordFolderLinks events folders nextIDs withFolders
         withNextIDs folder_id folder_name getNext].
    split; [|repeat split; auto].
    + rewrite findFolderByName_find in *.
      cbn [folders withFolders withNextIDs].
      rewrite (find_app_none _ _ _ Hfind). reflexivity.
    + right. repeat split; auto.
Qed.

(** The identifiers [normalizeRecordFolderMemberships] goes through. *)
Definition effectiveIDs (store : JSONStoreData) (recordIDs : option (list Z))
  : list Z :=
  match recordIDs with
  | Some ((_ :: _) as given) => normalizeIDList given
  | _ => map rec_id (records store)
  end.

Lemma normalizeRecordFolderMemberships_idle now store recordIDs :
  effectiveIDs store recordIDs = [] ->
  snd (normalizeRecordFolderMemberships now store recordIDs) = store.
Proof.
  unfold normalizeRecordFolderMemberships. fold (effectiveIDs store recordIDs).
  now intros ->.
Qed.

Lemma normalizeRecordFolderMemberships_spec now store recordIDs :
  effectiveIDs store recordIDs <> [] ->
  let ids := effectiveIDs store recordIDs in
  let defaultFolder := fst (ensureDefaultFolder now store) in
  let d := folder_id defaultFolder in
  let store1 := snd (ensureDefaultFolder now store) in
  let store' := snd (normalizeRecordFolderMemberships now store recordIDs) in
  folders store' = folders store1 /\
  records store' = records store /\
  nextIDs store' = nextIDs store1 /\
  findFolderByName store' DEFAULT_FOLDER_NAME = Some defaultFolder /\
  (forall recordID, In recordID ids ->
     settledIn d (recordFolderLinks store') recordID) /\
  (forall recordID, settledIn d (recordFolderLinks store) recordID ->
     settledIn d (recordFolderLinks store') recordID) /\
  (forall link, In link (recordFolderLinks store') ->
     In link (recordFolderLinks store) \/
     (In (link_recordID link) ids /\ link_folderID link = d)) /\
  (forall link, ~ In (link_recordID link) ids ->
     In link (recordFolderLinks store) -> In link (recordFolderLinks store')).
Proof.
  intros Hne. cbn zeta.
  unfold normalizeRecordFolderMemberships. fold (effectiveIDs store recordIDs).
  destruct (effectiveIDs store recordIDs) as [|i ids] eqn:Hids; [congruence|].
  destruct (ensureDefaultFolder_spec now store)
    as (Hfind & Hrec & Hlinks & _ & _).
  destruct (ensureDefaultFolder now store) as [defaultFolder store1].
  cbn [fst snd] in *.
  pose proof (normalizeLoop (folder_id defaultFolder) now (i :: ids) store1 false)
    as Hloop. cbn zeta in Hloop.
  destruct (fold_left _ (i :: ids) (store1, false)) as [store' changed].
  cbn [fst snd] in *.
  destruct Hloop as (Hf & Hr & Hn & Hin & Hkeep & Hfrom & Hstay).
  rewrite Hlinks in *.
  split; [exact Hf|]. split; [congruence|]. split; [exact Hn|].
  split; [rewrite findFolderByName_find in *; now rewrite Hf|].
  split; [exact Hin|]. split; [exact Hkeep|]. split; [exact Hfrom | exact Hstay].
Qed.

(** *** One repair pass *)

Lemma keepValidLinks_In folderIDs recordIDs links : forall seen link,
  In link (keepValidLinks folderIDs recordIDs seen links) ->
  In link links /\ In (link_folderID link) folderIDs
  /\ In (link_recordID link) recordIDs.
Proof.
  induction links as [|l links IH]; intros seen link; simpl; [tauto|].
  destruct (memZ (link_folderID l) folderIDs) eqn:Hf;
  destruct (memZ (link_recordID l) recordIDs) eqn:Hr; cbn [negb orb];
    try (intros H; apply IH in H; tauto).
  destruct (existsb _ seen); [intros H; apply IH in H; tauto|].
  intros [<-|H]; [|apply IH in H; tauto].
  apply memZ_In in Hf, Hr. tauto.
Qed.

(** The store after the time stamps have been filled in. *)
Definition stamped (now : string) (store : JSONStoreData) : JSONStoreData :=
  withStamps store STORE_SCHEMA_VERSION (orElse (createdAt store) now)
             (orElse (updatedAt store) now).

(** What one pass of [ensureStoreIntegrity] leaves, whatever it starts
    from. *)
Lemma ensureStoreIntegrity_shape now store :
  let defaultFolder := fst (ensureDefaultFolder now (stamped now store)) in
  let store1 := snd (ensureDefaultFolder now (stamped now store)) in
  let store' := snd (ensureStoreIntegrity now store) in
  folders store' = keepDistinctFolders [] (folders store1) /\
  records store' = records store /\
  findFolderByName store' DEFAULT_FOLDER_NAME = Some defaultFolder /\
  (forall record, In record (records store) ->
     settledIn (folder_id defaultFolder) (recordFolderLinks store')
               (rec_id record)) /\
  (forall link, In link (recordFolderLinks store') ->
     In (link_folderID link) (map folder_id (folders store1)) /\
     In (link_recordID link) (map rec_id (records store))) /\
  next_folder (nextIDs store') =
    Z.max (orOne (next_folder (nextIDs store1)))
          (maxID (map folder_id (folders store')) + 1) /\
  next_record (nextIDs store') =
    Z.max (orOne (next_record (nextIDs store1)))
          (maxID (map rec_id (records store')) + 1).
Proof.
  cbn zeta. unfold ensureStoreIntegrity. fold (stamped now store).
  destruct (ensureDefaultFolder_spec now (stamped now store))
    as (Hfind & Hrec & Hlinks & _ & _).
  destruct (ensureDefaultFolder now (stamped now store))
    as [defaultFolder store1].
  cbn [fst snd] in *. cbn [records stamped withStamps] in Hrec.
  set (store2 := withLinks store1 _).
  set (store3 := withFolders store2 _).
  assert (Hfind3 : findFolderByName store3 DEFAULT_FOLDER_NAME
                   = Some defaultFolder).
  { rewrite findFolderByName_find in *. unfold store3, store2.
    cbn [folders withFolders withLinks].
    rewrite keepDistinctFolders_find; [exact Hfind | discriminate | tauto]. }
  assert (Hdef3 : ensureDefaultFolder now store3 = (defaultFolder, store3)).
  { unfold ensureDefaultFolder. now rewrite Hfind3. }
  assert (Hlinks3 : forall link, In link (recordFolderLinks store3) ->
            In (link_folderID link) (map folder_id (folders store1)) /\
            In (link_recordID link) (map rec_id (records store))).
  { intros link Hl. unfold store3, store2 in Hl.
    cbn [recordFolderLinks withFolders withLinks] in Hl.
    apply keepValidLinks_In in Hl. rewrite Hrec in Hl. tauto. }
  assert (Hrec3 : records store3 = records store) by exact Hrec.
  assert (Hfold3 : folders store3 = keepDistinctFolders [] (folders store1))
    by reflexivity.
  assert (Hn3 : nextIDs store3 = nextIDs store1) by reflexivity.
  clearbody store3.
  assert (Hnorm :
    let store4 := snd (normalizeRecordFolderMemberships now store3 None) in
    folders store4 = folders store3 /\ records store4 = records store3 /\
    nextIDs store4 = nextIDs store3 /\
    findFolderByName store4 DEFAULT_FOLDER_NAME = Some defaultFolder /\
    (forall record, In record (records store) ->
       settledIn (folder_id defaultFolder) (recordFolderLinks store4)
                 (rec_id record)) /\
    (forall link, In link (recordFolderLinks store4) ->
       In link (recordFolderLinks store3) \/
       (In (link_recordID link) (map rec_id (records store)) /\
        link_folderID link = folder_id defaultFolder))).
  { cbn zeta.
    destruct (effectiveIDs store3 None) as [|i ids] eqn:Hids.
    - rewrite (normalizeRecordFolderMemberships_idle now store3 None Hids).
      split; [reflexivity|]. split; [reflexivity|]. split; [reflexivity|].
      split; [exact Hfind3|]. split; [|now left].
      intros record Hin. exfalso. cbn [effectiveIDs] in Hids.
      rewrite Hrec3 in Hids. apply (in_map rec_id) in Hin.
      rewrite Hids in Hin. contradiction.
    - assert (Hne : effectiveIDs store3 None <> []) by (rewrite Hids; discriminate).
      pose proof (normalizeRecordFolderMemberships_spec now store3 None Hne)
        as Hspec.
      cbn zeta in Hspec. rewrite Hdef3 in Hspec. cbn [fst snd] in Hspec.
      destruct Hspec as (Hf & Hr & Hn & Hfd & Hin & _ & Hfrom & _).
      split; [exact Hf|]. split; [exact Hr|]. split; [exact Hn|].
      split; [exact Hfd|]. split.
      + intros record Hrin. apply Hin. cbn [effectiveIDs]. rewrite Hrec3.
        now apply in_map.
      + intros link Hl. apply Hfrom in Hl. cbn [effectiveIDs] in Hl.
        rewrite Hrec3 in Hl. exact Hl. }
  cbn zeta in Hnorm.
  destruct (normalizeRecordFolderMemberships now store3 None)
    as [normalized store4].
  cbn [snd] in *.
  destruct Hnorm as (Hf4 & Hr4 & Hn4 & Hfd4 & Hset4 & Hfrom4).
  cbn [folders records recordFolderLinks nextIDs withNextIDs
       next_folder next_record].
  split; [congruence|]. split; [congruence|].
  split; [exact Hfd4|]. split; [exact Hset4|]. split.
  - intros link Hl. apply Hfrom4 in Hl. destruct Hl as [Hl|[Hl Hd]].
    + now apply Hlinks3.
    + split; [|exact Hl]. rewrite Hd. apply in_map.
      rewrite findFolderByName_find in Hfind.
      now apply find_some in Hfind.
  - rewrite Hn4, Hn3. split; reflexivity.
Qed.

(** *** The store an operation works on *)

(** Identifiers are positive and folder names fit in 100 characters: so it
    is for what [normalizeStoreData] returns. *)
Definition sane (store : JSONStoreData) : Prop :=
  (forall folder, In folder (folders store) ->
     0 < folder_id folder /\ (String.length (folder_name folder) <= 100)%nat) /\
  (forall record, In record (records store) -> 0 < rec_id record).

(** Moreover the folders have distinct keys, none empty. *)
Definition tidy (store : JSONStoreData) : Prop :=
  sane store /\
  NoDup (map keyOf (folders store)) /\
  (forall folder, In folder (folders store) -> keyOf folder <> EmptyString).

(** What holds of the store once an operation has loaded and repaired it. *)
Record ready (defaultFolder : JSONStoreFolder) (store : JSONStoreData)
  : Prop := {
  ready_default :
    findFolderByName store DEFAULT_FOLDER_NAME = Some defaultFolder;
  ready_tidy : tidy store;
  ready_settled :
    forall record, In record (records store) ->
    settledIn (folder_id defaultFolder) (recordFolderLinks store)
              (rec_id record);
  ready_link_folder :
    forall link, In link (recordFolderLinks store) ->
    In (link_folderID link) (map folder_id (folders store));
  ready_link_record :
    forall link, In link (recordFolderLinks store) ->
    In (link_recordID link) (map rec_id (records store));
  ready_next_folder :
    forall folder, In folder (folders store) ->
    folder_id folder < next_folder (nextIDs store);
  ready_next_record :
    forall record, In record (records store) ->
    rec_id record < next_record (nextIDs store) }.
Arguments ready_default {defaultFolder store} _.
Arguments ready_tidy {defaultFolder store} _.
Arguments ready_settled {defaultFolder store} _ _ _.
Arguments ready_link_folder {defaultFolder store} _ _ _.
Arguments ready_link_record {defaultFolder store} _ _ _.
Arguments ready_next_folder {defaultFolder store} _ _ _.
Arguments ready_next_record {defaultFolder store} _ _ _.

Lemma filterMap_In {A B : Type} (f : A -> option B) l y :
  In y (filterMap f l) <-> exists x, In x l /\ f x = Some y.
Proof.
  induction l as [|a l IH]; simpl.
  - split; [contradiction | intros (x & [] & _)].
  - destruct (f a) as [b|] eqn:Hfa; simpl; rewrite IH; split.
    + intros [<-|(x & Hx & Hf)]; [exists a; tauto | exists x; tauto].
    + intros (x & [->|Hx] & Hf); [left; congruence | right; exists x; tauto].
    + intros (x & Hx & Hf). exists x. tauto.
    + intros (x & [->|Hx] & Hf); [congruence | exists x; tauto].
Qed.

Lemma length_normalizeFolderName name :
  (String.length (normalizeFolderName name) <= 100)%nat.
Proof.
  unfold normalizeFolderName.
  pose proof (length_slice (trim name) 0 100). lia.
Qed.

Lemma sane_normalizeStoreData now raw : sane (normalizeStoreData now raw).
Proof.
  split; cbn [folders records normalizeStoreData].
  - intros folder Hin. apply filterMap_In in Hin.
    destruct Hin as (value & _ & Hv). unfold normalizeFolderRecord in Hv.
    destruct (folder_id value <=? 0) eqn:Hid; [discriminate|].
    destruct (isEmpty _); [discriminate|]. cbn [orb] in Hv.
    injection Hv as <-. cbn [folder_id folder_name].
    apply Z.leb_gt in Hid. split; [exact Hid | apply length_normalizeFolderName].
  - intros record Hin. apply filterMap_In in Hin.
    destruct Hin as (value & _ & Hv). unfold normalizeReviewRecord in Hv.
    destruct (rec_id value <=? 0) eqn:Hid; [discriminate|].
    injection Hv as <-. cbn [rec_id]. now apply Z.leb_gt in Hid.
Qed.

Lemma sane_createEmptyStoreData now : sane (createEmptyStoreData now).
Proof. split; intros x []. Qed.

(** The folders after [ensureDefaultFolder]. *)
Lemma ensureDefaultFolder_sane now store :
  sane store -> sane (snd (ensureDefaultFolder now store)).
Proof.
  intros [Hf Hr].
  destruct (ensureDefaultFolder_spec now store)
    as (_ & Hrec & _ & _ & [[_ ->]|(_ & Hfs & Hid & Hname & _)]);
    [now split|].
  split; [|now rewrite Hrec].
  intros folder Hin. rewrite Hfs in Hin. apply in_app_or in Hin.
  destruct Hin as [Hin|[<-|[]]]; [now apply Hf|].
  rewrite Hid, Hname. split; [lia | cbn; lia].
Qed.

Lemma ensureDefaultFolder_tidy now store :
  tidy store -> tidy (snd (ensureDefaultFolder now store)).
Proof.
  intros (Hsane & Hnd & Hkeys).
  split; [now apply ensureDefaultFolder_sane|].
  destruct (ensureDefaultFolder_spec now store)
    as (_ & _ & _ & _ & [[_ ->]|(Hnone & Hfs & _ & Hname & _)]);
    [now split|].
  rewrite Hfs. split.
  - rewrite map_app. apply NoDup_app; [exact Hnd | repeat constructor; tauto|].
    intros key Hin [<-|[]].
    apply in_map_iff in Hin. destruct Hin as (folder & Hk & Hin).
    rewrite findFolderByName_find in Hnone.
    apply (find_none _ _ Hnone) in Hin. unfold hasKey, keyOf in *.
    cbn [map] in *. rewrite Hname in Hk. rewrite Hk in Hin.
    now rewrite String.eqb_refl in Hin.
  - intros folder Hin. apply in_app_or in Hin.
    destruct Hin as [Hin|[<-|[]]]; [now apply Hkeys|].
    unfold keyOf. rewrite Hname. discriminate.
Qed.

Lemma ensureStoreIntegrity_tidy now store :
  sane store -> tidy (snd (ensureStoreIntegrity now store)).
Proof.
  intros Hsane.
  destruct (ensureStoreIntegrity_shape now store) as (Hf & Hr & _).
  assert (Hsane1 : sane (snd (ensureDefaultFolder now (stamped now store))))
    by now apply ensureDefaultFolder_sane.
  destruct Hsane as [_ Hrs]. destruct Hsane1 as [Hfs1 _].
  split; [split|split].
  - intros folder Hin. rewrite Hf in Hin.
    apply keepDistinctFolders_In in Hin. now apply Hfs1.
  - now rewrite Hr.
  - rewrite Hf. apply keepDistinctFolders_NoDup.
  - intros folder Hin. rewrite Hf in Hin.
    apply keepDistinctFolders_In in Hin. tauto.
Qed.

Lemma ensureStoreIntegrity_ready now store :
  tidy store ->
  ready (fst (ensureDefaultFolder now (stamped now store)))
        (snd (ensureStoreIntegrity now store)).
Proof.
  intros Htidy.
  assert (Htidy1 : tidy (snd (ensureDefaultFolder now (stamped now store))))
    by now apply ensureDefaultFolder_tidy.
  destruct (ensureStoreIntegrity_shape now store)
    as (Hf & Hr & Hfd & Hset & Hlinks & Hnf & Hnr).
  assert (Hsame : folders (snd (ensureStoreIntegrity now store))
                  = folders (snd (ensureDefaultFolder now (stamped now store)))).
  { rewrite Hf. destruct Htidy1 as (_ & Hnd & Hkeys).
    apply keepDistinctFolders_id; [exact Hnd|].
    intros folder Hin. split; [now apply Hkeys | tauto]. }
  constructor.
  - exact Hfd.
  - destruct Htidy1 as ([Hfs Hrs] & Hnd & Hkeys).
    destruct Htidy as ([_ Hrs0] & _).
    split; [split|split]; rewrite ?Hsame, ?Hr; assumption.
  - intros record Hin. rewrite Hr in Hin. now apply Hset.
  - intros link Hin. rewrite Hsame. now apply Hlinks.
  - intros link Hin. rewrite Hr. now apply Hlinks.
  - intros folder Hin. rewrite Hnf.
    pose proof (maxID_ge _ _ (in_map folder_id _ _ Hin)). lia.
  - intros record Hin. rewrite Hnr.
    pose proof (maxID_ge _ _ (in_map rec_id _ _ Hin)). lia.
Qed.

(** Every operation starts from a ready store. *)
Lemma openStore_ready now file :
  exists defaultFolder, ready defaultFolder (fst (openStore now file)).
Proof.
  unfold openStore, loadStoreData. destruct file as [raw|]; cbn [fst].
  - eexists. apply ensureStoreIntegrity_ready.
    apply ensureStoreIntegrity_tidy, sane_normalizeStoreData.
  - eexists. apply ensureStoreIntegrity_ready.
    exact (ensureStoreIntegrity_tidy now _ (sane_createEmptyStoreData now)).
Qed.

(** *** The two membership invariants *)

(** Every record has a link, and a record linked to the default folder is
    linked to no other folder. *)
Definition wellLinked (store : JSONStoreData) : Prop :=
  forall recordID, In recordID (map rec_id (records store)) ->
  (exists folderID, linkedIn (recordFolderLinks store) recordID folderID) /\
  (forall defaultFolder,
     findFolderByName store DEFAULT_FOLDER_NAME = Some defaultFolder ->
     forall folderID,
     linkedIn (recordFolderLinks store) recordID (folder_id defaultFolder) ->
     linkedIn (recordFolderLinks store) recordID folderID ->
     folderID = folder_id defaultFolder).

Lemma wellLinked_settled store defaultFolder :
  findFolderByName store DEFAULT_FOLDER_NAME = Some defaultFolder ->
  (forall recordID, In recordID (map rec_id (records store)) ->
     settledIn (folder_id defaultFolder) (recordFolderLinks store) recordID) ->
  wellLinked store.
Proof.
  intros Hfind Hall recordID Hin. destruct (Hall recordID Hin) as [Hex Honly].
  split; [exact Hex|]. intros d Hd. rewrite Hfind in Hd. injection Hd as <-.
  exact Honly.
Qed.

Lemma ready_settled_id defaultFolder store :
  ready defaultFolder store ->
  forall recordID, In recordID (map rec_id (records store)) ->
  settledIn (folder_id defaultFolder) (recordFolderLinks store) recordID.
Proof.
  intros Hready recordID Hin. apply in_map_iff in Hin.
  destruct Hin as (record & <- & Hin). now apply (ready_settled Hready).
Qed.

Lemma ready_wellLinked defaultFolder store :
  ready defaultFolder store -> wellLinked store.
Proof.
  intros Hready. apply (wellLinked_settled store defaultFolder).
  - apply (ready_default Hready).
  - now apply ready_settled_id.
Qed.

Lemma ready_record_positive defaultFolder store recordID :
  ready defaultFolder store -> In recordID (map rec_id (records store)) ->
  0 < recordID.
Proof.
  intros Hready Hin. apply in_map_iff in Hin.
  destruct Hin as (record & <- & Hin).
  destruct (ready_tidy Hready) as ([_ Hrs] & _). now apply Hrs.
Qed.

Lemma ready_link_bounds defaultFolder store link :
  ready defaultFolder store -> In link (recordFolderLinks store) ->
  0 < link_folderID link < next_folder (nextIDs store) /\
  0 < link_recordID link.
Proof.
  intros Hready Hin. split.
  - pose proof (ready_link_folder Hready link Hin) as Hf.
    apply in_map_iff in Hf. destruct Hf as (folder & <- & Hf).
    destruct (ready_tidy Hready) as ([Hfs _] & _).
    pose proof (ready_next_folder Hready folder Hf). apply Hfs in Hf. lia.
  - apply (ready_record_positive defaultFolder store _ Hready).
    now apply (ready_link_record Hready).
Qed.

Lemma effectiveIDs_In store given recordID :
  In recordID (map rec_id (records store)) ->
  0 < recordID -> (given <> [] -> In recordID given) ->
  In recordID (effectiveIDs store (Some given)).
Proof.
  intros Hrec Hpos Hin. destruct given as [|g given]; [exact Hrec|].
  cbn [effectiveIDs]. apply normalizeIDList_In. split; [|exact Hpos].
  apply Hin. discriminate.
Qed.

(** After [normalizeRecordFolderMemberships] the store is well linked as
    soon as the records it does not go through were settled before. *)
Lemma normalizeRecordFolderMemberships_wellLinked now store recordIDs :
  (forall recordID, In recordID (map rec_id (records store)) ->
     In recordID (effectiveIDs store recordIDs) \/
     settledIn (folder_id (fst (ensureDefaultFolder now store)))
               (recordFolderLinks store) recordID) ->
  wellLinked (snd (normalizeRecordFolderMemberships now store recordIDs)).
Proof.
  intros Hpre.
  destruct (effectiveIDs store recordIDs) as [|i ids] eqn:Hids.
  - rewrite (normalizeRecordFolderMemberships_idle now store recordIDs Hids).
    intros recordID Hin. destruct (Hpre recordID Hin) as [[]|[Hex Honly]].
    split; [exact Hex|]. intros d Hd.
    unfold ensureDefaultFolder in Honly. rewrite Hd in Honly. exact Honly.
  - assert (Hne : effectiveIDs store recordIDs <> [])
      by (rewrite Hids; discriminate).
    destruct (normalizeRecordFolderMemberships_spec now store recordIDs Hne)
      as (_ & Hr & _ & Hfd & Hin & Hkeep & _).
    apply (wellLinked_settled _ _ Hfd). rewrite Hr. intros recordID Hrin.
    destruct (Hpre recordID Hrin) as [Hi|Hs].
    + apply Hin. now rewrite Hids.
    + now apply Hkeep.
Qed.

Lemma touchRecords_ids store recordIDs timestamp :
  map rec_id (records (touchRecords store recordIDs timestamp))
  = map rec_id (records store).
Proof.
  unfold touchRecords. destruct (normalizeIDList recordIDs); [reflexivity|].
  cbn [records withRecords]. rewrite map_map. apply map_ext.
  intros record. now destruct (memZ _ _).
Qed.

Lemma touchRecords_wellLinked store recordIDs timestamp :
  wellLinked store -> wellLinked (touchRecords store recordIDs timestamp).
Proof.
  intros H recordID Hin. rewrite touchRecords_ids in Hin.
  unfold touchRecords. destruct (normalizeIDList recordIDs); now apply H.
Qed.

Lemma commit_memory {A : Type} now (value : A) store :
  wellLinked store -> wellLinked (memory (commit now value store)).
Proof. intros H. exact H. Qed.

(** Among folders with distinct keys, the default folder is [d] when [d] is
    still there and is missing otherwise. *)
Lemma default_cases fs d :
  NoDup (map keyOf fs) ->
  (forall g, In g fs -> keyOf g = folderKey DEFAULT_FOLDER_NAME -> g = d) ->
  keyOf d = folderKey DEFAULT_FOLDER_NAME ->
  (In d fs /\ find (hasKey (folderKey DEFAULT_FOLDER_NAME)) fs = Some d) \/
  (~ In d fs /\ find (hasKey (folderKey DEFAULT_FOLDER_NAME)) fs = None).
Proof.
  intros Hnd Honly Hkey.
  destruct (find (hasKey (folderKey DEFAULT_FOLDER_NAME)) fs) as [g|] eqn:Hf.
  - left. apply find_hasKey_In in Hf. destruct Hf as [Hin Hk].
    assert (g = d) by now apply Honly. subst g. split; [exact Hin | reflexivity].
  - right. split; [|reflexivity]. intros Hin.
    apply (find_none _ _ Hf) in Hin. unfold hasKey in Hin.
    rewrite Hkey, String.eqb_refl in Hin. discriminate.
Qed.

Lemma NoDup_map_inj {A B : Type} (g : A -> B) l x y :
  NoDup (map g l) -> In x l -> In y l -> g x = g y -> x = y.
Proof.
  induction l as [|a l IH]; intros Hnd Hx Hy Heq; [contradiction|].
  cbn [map] in Hnd. inversion Hnd as [|? ? Hnotin Hnd']; subst.
  destruct Hx as [->|Hx], Hy as [->|Hy]; auto.
  - exfalso. apply Hnotin. rewrite Heq. now apply in_map.
  - exfalso. apply Hnotin. rewrite <- Heq. now apply in_map.
Qed.

Lemma ready_default_key defaultFolder store :
  ready defaultFolder store ->
  In defaultFolder (folders store) /\
  keyOf defaultFolder = folderKey DEFAULT_FOLDER_NAME.
Proof.
  intros Hready. pose proof (ready_default Hready) as Hfd.
  rewrite findFolderByName_find in Hfd. now apply find_hasKey_In in Hfd.
Qed.

(** The links added by a loop of [addRecordFolderLink]. *)
Lemma addLinks_spec (pick : JSONStoreData -> Z -> bool) folderID timestamp ids :
  forall store,
  (forall store recordID,
     records (addRecordFolderLink store recordID folderID timestamp)
     = records store ->
     pick (addRecordFolderLink store recordID folderID timestamp) = pick store) ->
  let store' :=
    fold_left (fun store recordID =>
                 if pick store recordID
                 then addRecordFolderLink store recordID folderID timestamp
                 else store) ids store in
  folders store' = folders store /\ records store' = records store /\
  nextIDs store' = nextIDs store /\
  (forall link, In link (recordFolderLinks store) ->
     In link (recordFolderLinks store')) /\
  (forall link, In link (recordFolderLinks store') ->
     In link (recordFolderLinks store) \/
     (In (link_recordID link) ids /\ link_folderID link = folderID)) /\
  (forall recordID, In recordID ids -> pick store recordID = true ->
     linkedIn (recordFolderLinks store') recordID folderID).
Proof.
  induction ids as [|i ids IH]; intros store Hpick; cbn zeta; cbn [fold_left].
  - repeat split; auto. intros r [].
  - set (store1 := if pick store i
                   then addRecordFolderLink store i folderID timestamp
                   else store).
    assert (H1 : folders store1 = folders store /\ records store1 = records store
                 /\ nextIDs store1 = nextIDs store).
    { unfold store1. destruct (pick store i); [|auto].
      apply addRecordFolderLink_frame. }
    destruct H1 as (Hf1 & Hr1 & Hn1).
    assert (Hp1 : pick store1 = pick store).
    { unfold store1. destruct (pick store i); [|reflexivity].
      apply Hpick. apply addRecordFolderLink_frame. }
    specialize (IH store1 Hpick). cbn zeta in IH.
    destruct IH as (Hf & Hr & Hn & Hkeep & Hfrom & Hadd).
    split; [congruence|]. split; [congruence|]. split; [congruence|].
    split; [|split].
    + intros link Hl. apply Hkeep. unfold store1.
      destruct (pick store i); [now apply addRecordFolderLink_keeps | exact Hl].
    + intros link Hl. apply Hfrom in Hl. destruct Hl as [Hl|[Hl Hd]].
      * unfold store1 in Hl. destruct (pick store i); [|now left].
        apply addRecordFolderLink_In in Hl. destruct Hl as [Hl|[Hl Hd]];
          [now left|]. right. split; [now left | exact Hd].
      * right. split; [now right | exact Hd].
    + intros r [<-|Hr'] Hp.
      * assert (Hl : linkedIn (recordFolderLinks store1) i folderID).
        { unfold store1. rewrite Hp. apply addRecordFolderLink_linked. }
        destruct Hl as (link & Hl & Hlr & Hlf). exists link. auto.
      * apply Hadd; [exact Hr'|]. now rewrite Hp1.
Qed.

Lemma getRecordIDsByFolderIDsInternal_In store folderIDs recordID :
  In recordID (getRecordIDsByFolderIDsInternal store folderIDs) <->
  exists link, In link (recordFolderLinks store) /\
               link_recordID link = recordID /\
               In (link_folderID link) folderIDs /\ 0 < link_folderID link.
Proof.
  unfold getRecordIDsByFolderIDsInternal. rewrite uniq_In, in_map_iff. split.
  - intros (link & Hr & Hin). apply filter_In in Hin. destruct Hin as [Hin Hm].
    apply memZ_In, normalizeIDList_In in Hm. exists link. tauto.
  - intros (link & Hin & Hr & Hf & Hpos). exists link. split; [exact Hr|].
    apply filter_In. split; [exact Hin|].
    apply memZ_In, normalizeIDList_In. tauto.
Qed.

(** The step shared by the operations that change links or folders and then
    call [normalizeRecordFolderMemberships]: a record outside the
    identifiers given to it must have kept its links, and the folder found
    by the default name, if any, must be the one the operation started
    with; a default folder made anew has an identifier no link carries. *)
Lemma relink_wellLinked now defaultFolder store store1 recordIDs :
  ready defaultFolder store ->
  NoDup (map keyOf (folders store1)) ->
  (forall g, In g (folders store1) ->
     keyOf g = folderKey DEFAULT_FOLDER_NAME -> g = defaultFolder) ->
  next_folder (nextIDs store) <= next_folder (nextIDs store1) ->
  (forall recordID, In recordID (map rec_id (records store1)) ->
     In recordID (effectiveIDs store1 recordIDs) \/
     (In recordID (map rec_id (records store)) /\
      forall link, link_recordID link = recordID ->
        (In link (recordFolderLinks store1) <->
         In link (recordFolderLinks store)))) ->
  wellLinked (snd (normalizeRecordFolderMemberships now store1 recordIDs)).
Proof.
  intros Hready Hnd Honly Hnext Hpre.
  apply normalizeRecordFolderMemberships_wellLinked.
  intros recordID Hin. destruct (Hpre recordID Hin) as [Hi|[Hold Hsame]];
    [now left | right].
  pose proof (ready_settled_id defaultFolder store Hready recordID Hold)
    as Hsettled.
  destruct (ready_default_key defaultFolder store Hready) as [_ Hkey].
  destruct (default_cases (folders store1) defaultFolder Hnd Honly Hkey)
    as [[_ Hfound]|[_ Hnone]].
  - unfold ensureDefaultFolder. rewrite findFolderByName_find, Hfound.
    cbn [fst]. revert Hsettled. now apply settledIn_same_links.
  - destruct (ensureDefaultFolder_spec now store1)
      as (_ & _ & _ & _ & [[Hfd _]|(_ & _ & Hid & _)]).
    { rewrite findFolderByName_find, Hnone in Hfd. discriminate. }
    rewrite Hid. apply settledIn_fresh.
    + destruct Hsettled as [[f (link & Hl & Hr & Hf)] _].
      exists f, link. split; [now apply Hsame | tauto].
    + intros (link & Hl & Hr & Hf). apply Hsame in Hl; [|exact Hr].
      pose proof (ready_link_bounds defaultFolder store link Hready Hl). lia.
Qed.

(** *** The operations keep the store well linked *)

Lemma initReviewStore_wellLinked now file :
  wellLinked (memory (initReviewStore now file)).
Proof.
  unfold initReviewStore.
  destruct (openStore_ready now file) as [d Hready].
  unfold openStore in Hready.
  destruct (loadStoreData now file) as [store file'].
  cbn [fst] in Hready.
  destruct (ensureStoreIntegrity now store) as [changed store'].
  cbn [snd] in Hready.
  destruct changed; exact (ready_wellLinked d store' Hready).
Qed.

Lemma createReviewFolder_wellLinked now name file :
  wellLinked (memory (createReviewFolder now name file)).
Proof.
  unfold createReviewFolder.
  destruct (openStore_ready now file) as [d Hready].
  destruct (openStore now file) as [store file']. cbn [fst] in Hready.
  pose proof (ready_wellLinked d store Hready) as Hwl.
  destruct (isEmpty _); [exact Hwl|].
  destruct (findFolderByName store (normalizeFolderName name)); [exact Hwl|].
  cbn [allocateID]. apply commit_memory.
  apply (wellLinked_settled _ d).
  - rewrite findFolderByName_find. cbn [folders withFolders withNextIDs].
    apply find_app_found. exact (ready_default Hready).
  - exact (ready_settled_id d store Hready).
Qed.

Lemma findFolderByID_In store id folder :
  findFolderByID store id = Some folder ->
  In folder (folders store) /\ folder_id folder = id.
Proof.
  intros H. apply find_some in H. now rewrite Z.eqb_eq in H.
Qed.

Lemma deleteReviewFolder_wellLinked now folderID file :
  wellLinked (memory (deleteReviewFolder now folderID file)).
Proof.
  unfold deleteReviewFolder.
  destruct (openStore_ready now file) as [d Hready].
  destruct (openStore now file) as [store file']. cbn [fst] in Hready.
  pose proof (ready_wellLinked d store Hready) as Hwl.
  destruct (findFolderByID store folderID) as [folder|] eqn:Hfound;
    [|exact Hwl].
  destruct (isProtectedName _); [exact Hwl|].
  apply findFolderByID_In in Hfound. destruct Hfound as [Hfin Hfid].
  destruct (ready_tidy Hready) as ([Hfs Hrs] & Hnd & Hkeys).
  assert (Hpos : 0 < folderID) by (rewrite <- Hfid; now apply Hfs).
  apply commit_memory, touchRecords_wellLinked.
  apply (relink_wellLinked now d store); try assumption.
  - cbn [folders withFolders withLinks]. now apply NoDup_map_filter.
  - cbn [folders withFolders withLinks]. intros g Hg Hk.
    apply filter_In in Hg. destruct Hg as [Hg _].
    destruct (ready_default_key d store Hready) as [Hd Hdk].
    apply (NoDup_map_inj keyOf (folders store)); auto. congruence.
  - cbn [nextIDs withFolders withLinks]. lia.
  - cbn [records recordFolderLinks withFolders withLinks].
    intros recordID Hin.
    destruct (existsb (fun link => (link_recordID link =? recordID)
                                   && (link_folderID link =? folderID))
                      (recordFolderLinks store)) eqn:Hlinked.
    + left. apply effectiveIDs_In; [exact Hin | |].
      * now apply (ready_record_positive d store).
      * intros _. apply getRecordIDsByFolderIDsInternal_In.
        apply existsb_exists in Hlinked. destruct Hlinked as (link & Hl & Hb).
        apply andb_true_iff in Hb. rewrite !Z.eqb_eq in Hb.
        exists link. destruct Hb as [Hb1 Hb2]. rewrite Hb2.
        split; [exact Hl|]. split; [exact Hb1|]. split; [now left | exact Hpos].
    + right. split; [exact Hin|]. intros link Hr. rewrite filter_In.
      split; [tauto|]. intros Hl. split; [exact Hl|].
      apply negb_true_iff, Z.eqb_neq. intros Hf.
      assert (Hex : existsb (fun link => (link_recordID link =? recordID)
                                         && (link_folderID link =? folderID))
                            (recordFolderLinks store) = true).
      { apply existsb_exists. exists link. split; [exact Hl|].
        apply andb_true_iff. now rewrite !Z.eqb_eq. }
      congruence.
Qed.

Lemma mergeReviewFolders_wellLinked now folderIDs newFolderName file :
  wellLinked (memory (mergeReviewFolders now folderIDs newFolderName file)).
Proof.
  unfold mergeReviewFolders.
  destruct (openStore_ready now file) as [d Hready].
  destruct (openStore now file) as [store file']. cbn [fst] in Hready.
  pose proof (ready_wellLinked d store Hready) as Hwl.
  set (validIDs := uniq (filter (fun id => negb (id =? 0)) folderIDs)).
  destruct (_ <? 2)%nat; [exact Hwl|].
  destruct (filter _ (filterMap (findFolderByID store) validIDs));
    [|exact Hwl].
  destruct (isEmpty (normalizeFolderName newFolderName)); [exact Hwl|].
  destruct (ready_tidy Hready) as ([Hfs Hrs] & Hnd & Hkeys).
  destruct (ready_default_key d store Hready) as [Hdin Hdkey].
  (* the destination folder *)
  assert (Hdest :
    let dest :=
      match findFolderByName store (normalizeFolderName newFolderName) with
      | Some folder => (folder, store)
      | None =>
          let '(id, store0) := allocateID store forFolder in
          let folder :=
            {| folder_id := id;
               folder_name := normalizeFolderName newFolderName;
               folder_createdAt := now; folder_updatedAt := now |} in
          (folder, withFolders store0 (folders store0 ++ [folder]))
      end in
    records (snd dest) = records store /\
    recordFolderLinks (snd dest) = recordFolderLinks store /\
    NoDup (map keyOf (folders (snd dest))) /\
    (forall g, In g (folders (snd dest)) ->
       keyOf g = folderKey DEFAULT_FOLDER_NAME -> g = d) /\
    next_folder (nextIDs store) <= next_folder (nextIDs (snd dest))).
  { cbn zeta.
    destruct (findFolderByName store (normalizeFolderName newFolderName))
      as [existing|] eqn:Hname; cbn [snd allocateID].
    - split; [reflexivity|]. split; [reflexivity|]. split; [exact Hnd|].
      split; [|lia]. intros g Hg Hk.
      apply (NoDup_map_inj keyOf (folders store)); auto. congruence.
    - cbn [records recordFolderLinks folders nextIDs withFolders withNextIDs
           setNext next_folder getNext].
      rewrite findFolderByName_find in Hname.
      split; [reflexivity|]. split; [reflexivity|]. split; [|split; [|lia]].
      + rewrite map_app. apply NoDup_app; [exact Hnd | repeat constructor; tauto|].
        intros key Hin [<-|[]]. apply in_map_iff in Hin.
        destruct Hin as (g & Hk & Hg). apply (find_none _ _ Hname) in Hg.
        unfold hasKey in Hg. apply String.eqb_neq in Hg. apply Hg. exact Hk.
      + intros g Hg Hk. apply in_app_or in Hg. destruct Hg as [Hg|[<-|[]]].
        * apply (NoDup_map_inj keyOf (folders store)); auto. congruence.
        * exfalso. apply (find_none _ _ Hname) in Hdin.
          unfold hasKey in Hdin. apply String.eqb_neq in Hdin. apply Hdin.
          rewrite Hdkey. symmetry. exact Hk. }
  cbn zeta in Hdest.
  destruct (match findFolderByName store (normalizeFolderName newFolderName)
            with Some folder => _ | None => _ end) as [newFolder storeA].
  cbn [snd] in Hdest. destruct Hdest as (HrA & HlA & HndA & HonlyA & HnextA).
  set (affected := getRecordIDsByFolderIDsInternal storeA validIDs).
  pose proof (addLinks_spec (fun _ _ => true) (folder_id newFolder) now
                affected storeA (fun _ _ _ => eq_refl)) as Hadd.
  cbv beta iota zeta in Hadd.
  set (storeB := fold_left _ affected storeA) in *.
  destruct Hadd as (HfB & HrB & HnB & HkeepB & HfromB & _).
  set (sources := filter (fun id => negb (id =? folder_id newFolder)) validIDs).
  apply commit_memory, touchRecords_wellLinked.
  apply (relink_wellLinked now d store); try assumption.
  - destruct sources; [now rewrite HfB|].
    cbn [folders withFolders withLinks]. apply NoDup_map_filter.
    now rewrite HfB.
  - intros g Hg. apply HonlyA. rewrite <- HfB.
    destruct sources; [exact Hg|].
    cbn [folders withFolders withLinks] in Hg. now apply filter_In in Hg.
  - assert (Hn : nextIDs (match sources with
                          | [] => storeB
                          | _ :: _ =>
                              withFolders
                                (withLinks storeB
                                   (filter (fun link =>
                                      negb (memZ (link_folderID link) sources))
                                      (recordFolderLinks storeB)))
                                (filter (fun folder =>
                                   negb (memZ (folder_id folder) sources)
                                   || isProtectedName (folder_name folder))
                                   (folders (withLinks storeB
                                      (filter (fun link =>
                                         negb (memZ (link_folderID link) sources))
                                         (recordFolderLinks storeB)))))
                          end) = nextIDs storeB)
      by now destruct sources.
    rewrite Hn, HnB. exact HnextA.
  - intros recordID Hin.
    assert (Hrec : In recordID (map rec_id (records store))).
    { rewrite <- HrA, <- HrB. now destruct sources. }
    destruct (in_dec Z.eq_dec recordID affected) as [Haff|Hnaff].
    + left. apply effectiveIDs_In; [exact Hin | | tauto].
      now apply (ready_record_positive d store).
    + right. split; [exact Hrec|]. intros link Hr.
      assert (HinB : In link (recordFolderLinks storeB) <->
                     In link (recordFolderLinks store)).
      { split.
        - intros Hl. apply HfromB in Hl. destruct Hl as [Hl|[Hl _]].
          + now rewrite <- HlA.
          + rewrite Hr in Hl. contradiction.
        - intros Hl. apply HkeepB. now rewrite HlA. }
      destruct sources eqn:Hsrc; [exact HinB|].
      cbn [recordFolderLinks withFolders withLinks]. rewrite filter_In, HinB.
      split; [tauto|]. intros Hl. split; [exact Hl|].
      apply negb_true_iff, memZ_false. intros Hsource. apply Hnaff.
      apply getRecordIDsByFolderIDsInternal_In. exists link.
      rewrite HlA. split; [exact Hl|]. split; [exact Hr|]. split.
      * rewrite <- Hsrc in Hsource. unfold sources in Hsource.
        now apply filter_In in Hsource.
      * now apply (ready_link_bounds d store link Hready).
Qed.

Lemma ensureDefaultFolder_found now store defaultFolder :
  findFolderByName store DEFAULT_FOLDER_NAME = Some defaultFolder ->
  ensureDefaultFolder now store = (defaultFolder, store).
Proof. intros H. unfold ensureDefaultFolder. now rewrite H. Qed.

Lemma updateFirst_ids test change rs :
  (forall r, rec_id (change r) = rec_id r) ->
  map rec_id (updateFirst test change rs) = map rec_id rs.
Proof.
  intros Hid. induction rs as [|r rs IH]; [reflexivity|].
  cbn [updateFirst]. destruct (test r); cbn [map]; [now rewrite Hid|].
  now rewrite IH.
Qed.

(** The step shared by the operations that link one record, of identifier
    [rid], and then normalise its memberships. *)
Lemma linkOne_wellLinked now defaultFolder store storeB rid :
  ready defaultFolder store ->
  folders storeB = folders store ->
  next_folder (nextIDs storeB) = next_folder (nextIDs store) ->
  0 < rid ->
  (forall recordID, In recordID (map rec_id (records storeB)) ->
     recordID = rid \/ In recordID (map rec_id (records store))) ->
  (forall link, link_recordID link <> rid ->
     (In link (recordFolderLinks storeB) <->
      In link (recordFolderLinks store))) ->
  wellLinked (snd (normalizeRecordFolderMemberships now storeB (Some [rid]))).
Proof.
  intros Hready Hf Hn Hpos Hrecs Hlinks.
  destruct (ready_tidy Hready) as (_ & Hnd & _).
  destruct (ready_default_key defaultFolder store Hready) as [Hdin Hdkey].
  apply (relink_wellLinked now defaultFolder store); try assumption.
  - now rewrite Hf.
  - rewrite Hf. intros g Hg Hk.
    apply (NoDup_map_inj keyOf (folders store)); auto. congruence.
  - rewrite Hn. lia.
  - intros recordID Hin. destruct (Z.eq_dec recordID rid) as [->|Hne].
    + left. cbn [effectiveIDs]. apply normalizeIDList_In.
      split; [now left | exact Hpos].
    + right. destruct (Hrecs recordID Hin) as [?|Hold]; [contradiction|].
      split; [exact Hold|]. intros link Hr. apply Hlinks. congruence.
Qed.

Lemma addRecordFolderLink_others store recordID folderID timestamp link :
  link_recordID link <> recordID ->
  (In link (recordFolderLinks
              (addRecordFolderLink store recordID folderID timestamp))
   <-> In link (recordFolderLinks store)).
Proof.
  intros Hne. split.
  - intros H. apply addRecordFolderLink_In in H. tauto.
  - apply addRecordFolderLink_keeps.
Qed.

Lemma upsertReviewRecord_wellLinked now draft folderID file row :
  result (upsertReviewRecord now draft folderID file) = Returned row ->
  wellLinked (memory (upsertReviewRecord now draft folderID file)).
Proof.
  unfold upsertReviewRecord.
  destruct (openStore_ready now file) as [d Hready].
  destruct (openStore now file) as [store file']. cbn [fst] in Hready.
  set (test := isLiteratureOf (draft_zoteroItemID draft)).
  set (change := fun existing =>
         recordOfDraft (rec_id existing) (rec_zoteroItemID existing) draft
                       (rec_createdAt existing) now).
  assert (Hupsert :
    let upserted :=
      match find test (records store) with
      | Some existing =>
          (change existing,
           withRecords store (updateFirst test change (records store)))
      | None =>
          let '(id, store0) := allocateID store forRecord in
          let record :=
            recordOfDraft id (draft_zoteroItemID draft) draft now now in
          (record, withRecords store0 (records store0 ++ [record]))
      end in
    folders (snd upserted) = folders store /\
    recordFolderLinks (snd upserted) = recordFolderLinks store /\
    next_folder (nextIDs (snd upserted)) = next_folder (nextIDs store) /\
    0 < rec_id (fst upserted) /\
    (forall recordID, In recordID (map rec_id (records (snd upserted))) ->
       recordID = rec_id (fst upserted) \/
       In recordID (map rec_id (records store)))).
  { cbn zeta. destruct (find test (records store)) as [existing|] eqn:Hfind;
      cbn [fst snd allocateID].
    - cbn [folders recordFolderLinks nextIDs records withRecords].
      split; [reflexivity|]. split; [reflexivity|]. split; [reflexivity|].
      apply find_some in Hfind. destruct Hfind as [Hin _].
      split.
      + destruct (ready_tidy Hready) as ([_ Hrs] & _).
        unfold change. cbn [rec_id recordOfDraft]. now apply Hrs.
      + intros recordID Hr. right.
        now rewrite updateFirst_ids in Hr by reflexivity.
    - cbn [folders recordFolderLinks nextIDs records withRecords withNextIDs
           setNext next_folder getNext rec_id recordOfDraft].
      split; [reflexivity|]. split; [reflexivity|]. split; [reflexivity|].
      split; [lia|]. intros recordID Hr. rewrite map_app in Hr.
      apply in_app_or in Hr. destruct Hr as [Hr|[<-|[]]]; [now right|].
      now left. }
  cbn zeta in Hupsert.
  destruct (match find test (records store) with
            | Some existing => _ | None => _ end) as [record storeA].
  cbn [fst snd] in Hupsert.
  destruct Hupsert as (HfA & HlA & HnA & Hpos & HrecsA).
  assert (HdefA : ensureDefaultFolder now storeA = (d, storeA)).
  { apply ensureDefaultFolder_found. rewrite findFolderByName_find, HfA.
    exact (ready_default Hready). }
  assert (Hfinish : forall storeB (value : unit),
    folders storeB = folders storeA -> nextIDs storeB = nextIDs storeA ->
    records storeB = records storeA ->
    (forall link, link_recordID link <> rec_id record ->
       (In link (recordFolderLinks storeB) <->
        In link (recordFolderLinks storeA))) ->
    wellLinked
      (memory
         (commit now value
            (snd (normalizeRecordFolderMemberships now storeB
                    (Some [rec_id record])))))).
  { intros storeB value HfB HnB HrB HlB. apply commit_memory.
    apply (relink_wellLinked now d store).
    - exact Hready.
    - rewrite HfB, HfA. destruct (ready_tidy Hready) as (_ & Hnd & _).
      exact Hnd.
    - rewrite HfB, HfA. intros g Hg Hk.
      destruct (ready_tidy Hready) as (_ & Hnd & _).
      destruct (ready_default_key d store Hready) as [Hdin Hdkey].
      apply (NoDup_map_inj keyOf (folders store)); auto. congruence.
    - rewrite HnB, HnA. lia.
    - intros recordID Hin. rewrite HrB in Hin.
      destruct (Z.eq_dec recordID (rec_id record)) as [->|Hne].
      + left. cbn [effectiveIDs]. apply normalizeIDList_In.
        split; [now left | exact Hpos].
      + right. destruct (HrecsA recordID Hin) as [?|Hold]; [contradiction|].
        split; [exact Hold|]. intros link Hr. rewrite <- HlA.
        apply HlB. congruence. }
  destruct folderID as [| |id].
  - intros _. cbn [memory]. apply (Hfinish storeA tt); tauto.
  - unfold resolveTargetFolderID. rewrite HdefA. intros _. cbn [memory].
    apply (Hfinish _ tt); try apply addRecordFolderLink_frame.
    intros link Hne. now apply addRecordFolderLink_others.
  - unfold resolveTargetFolderID.
    destruct (findFolderByID storeA id) as [folder|]; [|discriminate].
    intros _. cbn [memory].
    apply (Hfinish _ tt); try apply addRecordFolderLink_frame.
    intros link Hne. now apply addRecordFolderLink_others.
Qed.

Lemma createFolderSummaryRecord_wellLinked now folderID folderName
    summaryText sourceRows aiProvider aiModel file row :
  result (createFolderSummaryRecord now folderID folderName summaryText
            sourceRows aiProvider aiModel file) = Returned row ->
  wellLinked (memory (createFolderSummaryRecord now folderID folderName
                        summaryText sourceRows aiProvider aiModel file)).
Proof.
  unfold createFolderSummaryRecord.
  destruct (openStore_ready now file) as [d Hready].
  destruct (openStore now file) as [store file']. cbn [fst] in Hready.
  cbn [allocateID].
  set (record := {| rec_id := Z.max 1 (getNext (nextIDs store) forRecord) |}).
  set (storeA := withRecords _ (_ ++ [record])).
  assert (HdefA : ensureDefaultFolder now storeA = (d, storeA)).
  { apply ensureDefaultFolder_found. exact (ready_default Hready). }
  assert (Hfinish : forall folder (value : unit),
    wellLinked
      (memory
         (commit now value
            (snd (normalizeRecordFolderMemberships now
                    (addRecordFolderLink storeA (rec_id record) folder now)
                    (Some [rec_id record])))))).
  { intros folder value. apply commit_memory.
    destruct (addRecordFolderLink_frame storeA (rec_id record) folder now)
      as (HfB & HrB & HnB).
    apply (linkOne_wellLinked now d store); try assumption.
    - now rewrite HnB.
    - cbn [rec_id record]. lia.
    - intros recordID Hin. rewrite HrB in Hin.
      unfold storeA in Hin. cbn [records withRecords withNextIDs] in Hin.
      rewrite map_app in Hin. apply in_app_or in Hin.
      destruct Hin as [Hin|[<-|[]]]; [now right | now left].
    - intros link Hne.
      exact (addRecordFolderLink_others storeA _ folder now link Hne). }
  destruct folderID as [| |id]; unfold resolveTargetFolderID.
  - rewrite HdefA. intros _. apply Hfinish.
  - rewrite HdefA. intros _. apply Hfinish.
  - destruct (findFolderByID storeA id); [|discriminate].
    intros _. apply Hfinish.
Qed.

Lemma assignReviewRecordsFolder_wellLinked now recordIDs folderID file :
  wellLinked (memory (assignReviewRecordsFolder now recordIDs folderID file)).
Proof.
  unfold assignReviewRecordsFolder.
  destruct (openStore_ready now file) as [d Hready].
  destruct (openStore now file) as [store file']. cbn [fst] in Hready.
  pose proof (ready_wellLinked d store Hready) as Hwl.
  destruct (normalizeIDList recordIDs) as [|i rest] eqn:Hids; [exact Hwl|].
  set (ids := i :: rest) in *.
  assert (Hfinish : forall actualFolderID,
    wellLinked
      (memory
         (commit now tt
            (touchRecords
               (snd (normalizeRecordFolderMemberships now
                       (fold_left
                          (fun store id =>
                             if existsb (fun record => rec_id record =? id)
                                        (records store)
                             then addRecordFolderLink store id actualFolderID now
                             else store) ids store)
                       (Some ids))) ids now)))).
  { intros actual. apply commit_memory, touchRecords_wellLinked.
    pose proof (addLinks_spec
                  (fun store id =>
                     existsb (fun record => rec_id record =? id) (records store))
                  actual now ids store) as Hadd.
    cbn zeta in Hadd.
    destruct Hadd as (HfB & HrB & HnB & HkeepB & HfromB & _).
    { intros s0 r0 H. now rewrite H. }
    destruct (ready_tidy Hready) as (_ & Hnd & _).
    destruct (ready_default_key d store Hready) as [Hdin Hdkey].
    apply (relink_wellLinked now d store); try assumption.
    - now rewrite HfB.
    - rewrite HfB. intros g Hg Hk.
      apply (NoDup_map_inj keyOf (folders store)); auto. congruence.
    - rewrite HnB. lia.
    - intros recordID Hin. rewrite HrB in Hin.
      destruct (in_dec Z.eq_dec recordID ids) as [Hi|Hni].
      + left. unfold ids. cbn [effectiveIDs]. fold ids.
        apply normalizeIDList_In. split; [exact Hi|].
        now apply (ready_record_positive d store).
      + right. split; [exact Hin|]. intros link Hr. split.
        * intros Hl. apply HfromB in Hl. destruct Hl as [Hl|[Hl _]];
            [exact Hl|]. rewrite Hr in Hl. contradiction.
        * apply HkeepB. }
  unfold resolveTargetFolderID. destruct folderID as [| |id].
  - rewrite (ensureDefaultFolder_found now store d (ready_default Hready)).
    apply Hfinish.
  - rewrite (ensureDefaultFolder_found now store d (ready_default Hready)).
    apply Hfinish.
  - destruct (findFolderByID store id); [apply Hfinish | exact Hwl].
Qed.

Lemma removeReviewRecordsFromFolder_wellLinked now recordIDs folderID file :
  wellLinked
    (memory (removeReviewRecordsFromFolder now recordIDs folderID file)).
Proof.
  unfold removeReviewRecordsFromFolder.
  destruct (openStore_ready now file) as [d Hready].
  destruct (openStore now file) as [store file']. cbn [fst] in Hready.
  pose proof (ready_wellLinked d store Hready) as Hwl.
  destruct (normalizeIDList recordIDs) as [|i rest] eqn:Hids; [exact Hwl|].
  set (ids := i :: rest) in *.
  destruct (findFolderByID store folderID) as [folder|]; [|exact Hwl].
  destruct (isProtectedName _); [exact Hwl|].
  apply commit_memory, touchRecords_wellLinked.
  destruct (ready_tidy Hready) as (_ & Hnd & _).
  destruct (ready_default_key d store Hready) as [Hdin Hdkey].
  apply (relink_wellLinked now d store); try assumption.
  - intros g Hg Hk.
    apply (NoDup_map_inj keyOf (folders store)); auto. congruence.
  - cbn [nextIDs withLinks]. lia.
  - cbn [records recordFolderLinks withLinks]. intros recordID Hin.
    destruct (in_dec Z.eq_dec recordID ids) as [Hi|Hni].
    + left. unfold ids. cbn [effectiveIDs]. fold ids.
      apply normalizeIDList_In. split; [exact Hi|].
      now apply (ready_record_positive d store).
    + right. split; [exact Hin|]. intros link Hr. rewrite filter_In.
      split; [tauto|]. intros Hl. split; [exact Hl|].
      apply negb_true_iff, andb_false_iff. right.
      apply memZ_false. now rewrite Hr.
Qed.

Lemma deleteReviewRecords_wellLinked now recordIDs file :
  wellLinked (memory (deleteReviewRecords now recordIDs file)).
Proof.
  unfold deleteReviewRecords.
  destruct (openStore_ready now file) as [d Hready].
  destruct (openStore now file) as [store file']. cbn [fst] in Hready.
  pose proof (ready_wellLinked d store Hready) as Hwl.
  destruct (filter _ (normalizeIDList recordIDs)) as [|i rest] eqn:Heff;
    [exact Hwl|].
  set (effectiveIDs := i :: rest) in *.
  apply commit_memory. apply (wellLinked_settled _ d).
  - exact (ready_default Hready).
  - cbn [records recordFolderLinks withRecords withLinks].
    intros recordID Hin. rewrite map_map in Hin. apply in_map_iff in Hin.
    destruct Hin as (record & Hid & Hin). apply filter_In in Hin.
    destruct Hin as [Hin Hkept].
    assert (Hsame : rec_id record = recordID).
    { rewrite <- Hid. unfold pruneSources. now destruct (_ || _). }
    apply negb_true_iff, memZ_false in Hkept. rewrite Hsame in Hkept.
    pose proof (ready_settled Hready record Hin) as Hsettled.
    rewrite Hsame in Hsettled. revert Hsettled.
    apply settledIn_same_links. intros link Hr. rewrite filter_In.
    split; [tauto|]. intros Hl. split; [exact Hl|].
    apply negb_true_iff, memZ_false. now rewrite Hr.
Qed.

(** *** Failures leave the backing file alone *)

(** The backing file once the store has been loaded: a file that could be
    read is not written, a missing one has been initialised. *)
Definition afterLoad (now : string) (file : File) : File :=
  match file with
  | Some raw => Some raw
  | None =>
      saveStoreData now
        (snd (ensureStoreIntegrity now (createEmptyStoreData now)))
  end.

Lemma openStore_disk now file : snd (openStore now file) = afterLoad now file.
Proof.
  unfold openStore, loadStoreData, afterLoad. now destruct file.
Qed.

(** The store an operation works on, as a function of the file. *)
Definition opened (now : string) (file : File) : JSONStoreData :=
  fst (openStore now file).

Lemma openStore_eq now file :
  openStore now file = (opened now file, afterLoad now file).
Proof.
  rewrite <- openStore_disk. unfold opened. now destruct (openStore now file).
Qed.

Lemma opened_ready now file :
  exists defaultFolder, ready defaultFolder (opened now file).
Proof. apply openStore_ready. Qed.

Lemma deleteReviewFolder_protected now folderID file folder :
  findFolderByID (opened now file) folderID = Some folder ->
  folder_name folder = DEFAULT_FOLDER_NAME ->
  exists message,
    result (deleteReviewFolder now folderID file) = Thrown message /\
    disk (deleteReviewFolder now folderID file) = afterLoad now file.
Proof.
  intros Hfound Hname. unfold deleteReviewFolder.
  rewrite openStore_eq, Hfound. unfold isProtectedName.
  rewrite Hname, String.eqb_refl. eexists. split; reflexivity.
Qed.

Lemma deleteReviewFolder_missing now folderID file :
  findFolderByID (opened now file) folderID = None ->
  result (deleteReviewFolder now folderID file) = Returned tt /\
  memory (deleteReviewFolder now folderID file) = opened now file /\
  disk (deleteReviewFolder now folderID file) = afterLoad now file.
Proof.
  intros Hfound. unfold deleteReviewFolder.
  rewrite openStore_eq, Hfound. repeat split.
Qed.

Lemma mergeReviewFolders_protected now folderIDs newFolderName file id folder :
  In id folderIDs ->
  findFolderByID (opened now file) id = Some folder ->
  folder_name folder = DEFAULT_FOLDER_NAME ->
  exists message,
    result (mergeReviewFolders now folderIDs newFolderName file)
      = Thrown message /\
    disk (mergeReviewFolders now folderIDs newFolderName file)
      = afterLoad now file.
Proof.
  intros Hin Hfound Hname. unfold mergeReviewFolders.
  rewrite openStore_eq.
  destruct (_ <? 2)%nat; [eexists; split; reflexivity|].
  destruct (opened_ready now file) as [d Hready].
  assert (Hvalid : In id (uniq (filter (fun id => negb (id =? 0)) folderIDs))).
  { apply uniq_In, filter_In. split; [exact Hin|].
    apply negb_true_iff, Z.eqb_neq.
    apply findFolderByID_In in Hfound. destruct Hfound as [Hf Hid].
    destruct (ready_tidy Hready) as ([Hfs _] & _). apply Hfs in Hf. lia. }
  assert (Hprot : In folder
            (filter (fun f => isProtectedName (folder_name f))
               (filterMap (findFolderByID (opened now file))
                  (uniq (filter (fun id => negb (id =? 0)) folderIDs))))).
  { apply filter_In. split.
    - apply filterMap_In. exists id. tauto.
    - unfold isProtectedName. rewrite Hname. apply String.eqb_refl. }
  destruct (filter _ (filterMap _ _)); [contradiction|].
  eexists. split; reflexivity.
Qed.

Lemma removeReviewRecordsFromFolder_protected now recordIDs folderID file
    folder :
  normalizeIDList recordIDs <> [] ->
  findFolderByID (opened now file) folderID = Some folder ->
  folder_name folder = DEFAULT_FOLDER_NAME ->
  exists message,
    result (removeReviewRecordsFromFolder now recordIDs folderID file)
      = Thrown message /\
    disk (removeReviewRecordsFromFolder now recordIDs folderID file)
      = afterLoad now file.
Proof.
  intros Hids Hfound Hname. unfold removeReviewRecordsFromFolder.
  rewrite openStore_eq.
  destruct (normalizeIDList recordIDs); [congruence|].
  rewrite Hfound. unfold isProtectedName. rewrite Hname, String.eqb_refl.
  eexists. split; reflexivity.
Qed.

(** Without a valid record identifier [removeReviewRecordsFromFolder] and
    [assignReviewRecordsFolder] return before they look at the folder. *)
Lemma removeReviewRecordsFromFolder_idle now recordIDs folderID file :
  normalizeIDList recordIDs = [] ->
  result (removeReviewRecordsFromFolder now recordIDs folderID file)
    = Returned tt /\
  disk (removeReviewRecordsFromFolder now recordIDs folderID file)
    = afterLoad now file.
Proof.
  intros Hids. unfold removeReviewRecordsFromFolder.
  rewrite openStore_eq, Hids. split; reflexivity.
Qed.

Lemma assignReviewRecordsFolder_idle now recordIDs folderID file :
  normalizeIDList recordIDs = [] ->
  result (assignReviewRecordsFolder now recordIDs folderID file)
    = Returned tt /\
  disk (assignReviewRecordsFolder now recordIDs folderID file)
    = afterLoad now file.
Proof.
  intros Hids. unfold assignReviewRecordsFolder.
  rewrite openStore_eq, Hids. split; reflexivity.
Qed.

Definition missingFolder : string := "目标文件夹不存在".

Lemma removeReviewRecordsFromFolder_missing now recordIDs folderID file :
  normalizeIDList recordIDs <> [] ->
  findFolderByID (opened now file) folderID = None ->
  result (removeReviewRecordsFromFolder now recordIDs folderID file)
    = Thrown missingFolder /\
  disk (removeReviewRecordsFromFolder now recordIDs folderID file)
    = afterLoad now file.
Proof.
  intros Hids Hfound. unfold removeReviewRecordsFromFolder.
  rewrite openStore_eq.
  destruct (normalizeIDList recordIDs); [congruence|].
  rewrite Hfound. split; reflexivity.
Qed.

Lemma assignReviewRecordsFolder_missing now recordIDs folderID file :
  normalizeIDList recordIDs <> [] ->
  findFolderByID (opened now file) folderID = None ->
  result (assignReviewRecordsFolder now recordIDs (FolderNumber folderID) file)
    = Thrown missingFolder /\
  disk (assignReviewRecordsFolder now recordIDs (FolderNumber folderID) file)
    = afterLoad now file.
Proof.
  intros Hids Hfound. unfold assignReviewRecordsFolder.
  rewrite openStore_eq.
  destruct (normalizeIDList recordIDs); [congruence|].
  unfold resolveTargetFolderID. rewrite Hfound. split; reflexivity.
Qed.

Lemma upsertReviewRecord_missing now draft folderID file :
  findFolderByID (opened now file) folderID = None ->
  result (upsertReviewRecord now draft (FolderNumber folderID) file)
    = Thrown missingFolder /\
  disk (upsertReviewRecord now draft (FolderNumber folderID) file)
    = afterLoad now file.
Proof.
  intros Hfound. unfold upsertReviewRecord. rewrite openStore_eq.
  destruct (find _ (records (opened now file))); cbn [allocateID];
    unfold resolveTargetFolderID, findFolderByID in *;
    cbn [folders withRecords withNextIDs]; rewrite Hfound;
    split; reflexivity.
Qed.

Lemma createFolderSummaryRecord_missing now folderID folderName summaryText
    sourceRows aiProvider aiModel file :
  findFolderByID (opened now file) folderID = None ->
  result (createFolderSummaryRecord now (FolderNumber folderID) folderName
            summaryText sourceRows aiProvider aiModel file)
    = Thrown missingFolder /\
  disk (createFolderSummaryRecord now (FolderNumber folderID) folderName
          summaryText sourceRows aiProvider aiModel file)
    = afterLoad now file.
Proof.
  intros Hfound. unfold createFolderSummaryRecord. rewrite openStore_eq.
  cbn [allocateID]. unfold resolveTargetFolderID, findFolderByID in *.
  cbn [folders withRecords withNextIDs]. rewrite Hfound. split; reflexivity.
Qed.

(** *** Folder names and keys *)





Definition idKey (folder : JSONStoreFolder) : Z * string :=
  (folder_id folder, keyOf folder).




Lemma idKey_ids fs fs' :
  map idKey fs = map idKey fs' -> map folder_id fs = map folder_id fs'.
Proof.
  intros H.
  assert (Hk : forall l, map folder_id l = map fst (map idKey l)).
  { intros l. rewrite map_map. reflexivity. }
  now rewrite !Hk, H.
Qed.


(** A store in order that has its default folder. *)
Definition stable (store : JSONStoreData) : Prop :=
  tidy store /\ In (folderKey DEFAULT_FOLDER_NAME) (map keyOf (folders store)).

Lemma ready_stable defaultFolder store : ready defaultFolder store -> stable store.
Proof.
  intros Hready. split; [exact (ready_tidy Hready)|].
  destruct (ready_default_key defaultFolder store Hready) as [Hin Hk].
  rewrite <- Hk. now apply in_map.
Qed.



Lemma opened_some now raw :
  opened now (Some raw)
  = snd (ensureStoreIntegrity now
           (snd (ensureStoreIntegrity now (normalizeStoreData now raw)))).
Proof. reflexivity. Qed.


(** *** The folders a load finds do not depend on the clock *)








(** *** [createReviewFolder] finds the folder it made *)







(** *** [upsertReviewRecord] finds the record it wrote *)

Lemma normalizeRecordFolderMemberships_records now store recordIDs :
  records (snd (normalizeRecordFolderMemberships now store recordIDs))
  = records store.
Proof.
  destruct (effectiveIDs store recordIDs) as [|i ids] eqn:Hids.
  - now rewrite normalizeRecordFolderMemberships_idle.
  - assert (Hne : effectiveIDs store recordIDs <> [])
      by (rewrite Hids; discriminate).
    now destruct (normalizeRecordFolderMemberships_spec now store recordIDs Hne)
      as (_ & Hr & _).
Qed.

Lemma ensureStoreIntegrity_records now store :
  records (snd (ensureStoreIntegrity now store)) = records store.
Proof. now destruct (ensureStoreIntegrity_shape now store) as (_ & Hr & _). Qed.

Lemma opened_records now file :
  records (opened now file)
  = match file with
    | Some raw => filterMap (normalizeReviewRecord now) (records raw)
    | None => []
    end.
Proof.
  destruct file as [raw|].
  - rewrite opened_some. now rewrite !ensureStoreIntegrity_records.
  - change (opened now None)
      with (snd (ensureStoreIntegrity now
                   (markStoreUpdated now
                      (snd (ensureStoreIntegrity now
                              (createEmptyStoreData now)))))).
    now rewrite !ensureStoreIntegrity_records.
Qed.

Lemma orElse_nonempty a b : b <> EmptyString -> orElse a b <> EmptyString.
Proof.
  intros Hb. unfold orElse. destruct (isEmpty a) eqn:Ha; [exact Hb|].
  intros ->. discriminate.
Qed.

Lemma orElse_keeps a b : a <> EmptyString -> orElse a b = a.
Proof.
  intros Ha. unfold orElse. destruct (isEmpty a) eqn:He; [|reflexivity].
  apply isEmpty_true in He. contradiction.
Qed.

(** A clock reading is never the empty string; under it every loaded record
    carries a creation time. *)
Lemma opened_created now file record :
  now <> EmptyString -> In record (records (opened now file)) ->
  rec_createdAt record <> EmptyString.
Proof.
  intros Hnow. rewrite opened_records. destruct file as [raw|]; [|intros []].
  intros Hin. apply filterMap_In in Hin. destruct Hin as (value & _ & Hv).
  unfold normalizeReviewRecord in Hv. destruct (_ <=? 0); [discriminate|].
  injection Hv as <-. cbn [rec_createdAt]. now apply orElse_nonempty.
Qed.

Lemma length_updateFirst test change rs :
  List.length (updateFirst test change rs) = List.length rs.
Proof.
  induction rs as [|r rs IH]; [reflexivity|]. cbn [updateFirst].
  destruct (test r); cbn [List.length]; [reflexivity | now rewrite IH].
Qed.

Lemma find_updateFirst test change rs existing :
  find test rs = Some existing -> test (change existing) = true ->
  find test (updateFirst test change rs) = Some (change existing).
Proof.
  induction rs as [|r rs IH]; [discriminate|]. cbn [find updateFirst].
  destruct (test r) eqn:Hr.
  - intros [= ->] Hc. cbn [find]. now rewrite Hc.
  - intros Hf Hc. cbn [find]. rewrite Hr. now apply IH.
Qed.

Lemma updateFirst_In test change rs existing record :
  find test rs = Some existing ->
  In record (updateFirst test change rs) ->
  In record rs \/ record = change existing.
Proof.
  induction rs as [|r rs IH]; [discriminate|]. cbn [find updateFirst].
  destruct (test r) eqn:Hr.
  - intros [= ->] [<-|Hin]; [now right | left; now right].
  - intros Hf [<-|Hin]; [left; now left|].
    destruct (IH Hf Hin); [left; now right | now right].
Qed.

(** What a call of [upsertReviewRecord] that returned has written. *)
Lemma upsertReviewRecord_returned now draft folderID file row :
  result (upsertReviewRecord now draft folderID file) = Returned row ->
  let store := opened now file in
  let test := isLiteratureOf (draft_zoteroItemID draft) in
  let change := fun existing =>
    recordOfDraft (rec_id existing) (rec_zoteroItemID existing) draft
                  (rec_createdAt existing) now in
  let made :=
    recordOfDraft (Z.max 1 (next_record (nextIDs store)))
                  (draft_zoteroItemID draft) draft now now in
  disk (upsertReviewRecord now draft folderID file)
    = Some (memory (upsertReviewRecord now draft folderID file)) /\
  match find test (records store) with
  | Some existing =>
      row_record row = change existing /\
      records (memory (upsertReviewRecord now draft folderID file))
        = updateFirst test change (records store)
  | None =>
      row_record row = made /\
      records (memory (upsertReviewRecord now draft folderID file))
        = (records store ++ [made])%list
  end.
Proof.
  cbn zeta. unfold upsertReviewRecord. rewrite openStore_eq.
  destruct (opened_ready now file) as [d Hready].
  set (store := opened now file) in *.
  set (test := isLiteratureOf (draft_zoteroItemID draft)).
  assert (Hdone : forall (record : JSONStoreRecord) storeB,
    let done :=
      commit now tt
        (snd (normalizeRecordFolderMemberships now storeB
                (Some [rec_id record]))) in
    disk done = Some (memory done) /\
    row_record (mapRecordWithFolders now (memory done) record true) = record /\
    records (memory done) = records storeB).
  { intros record storeB. cbn zeta. split; [reflexivity|].
    split; [reflexivity|].
    cbn [memory commit]. unfold markStoreUpdated. cbn [records withStamps].
    apply normalizeRecordFolderMemberships_records. }
  assert (Hadd : forall storeA recordID folderID,
            records (addRecordFolderLink storeA recordID folderID now)
            = records storeA).
  { intros. apply addRecordFolderLink_frame. }
  destruct (find test (records store)) as [existing|] eqn:Hfind;
    cbn [allocateID].
  - set (storeA := withRecords store _).
    assert (HdefA : ensureDefaultFolder now storeA = (d, storeA)).
    { apply ensureDefaultFolder_found. exact (ready_default Hready). }
    destruct folderID as [| |id]; unfold resolveTargetFolderID.
    + intros [= <-]. cbn [result memory disk].
      destruct (Hdone
                  (recordOfDraft (rec_id existing) (rec_zoteroItemID existing)
                     draft (rec_createdAt existing) now) storeA)
        as (H1 & H2 & H3).
      split; [exact H1|]. split; [exact H2|]. exact H3.
    + rewrite HdefA. intros [= <-]. cbn [result memory disk].
      destruct (Hdone
                  (recordOfDraft (rec_id existing) (rec_zoteroItemID existing)
                     draft (rec_createdAt existing) now)
                  (addRecordFolderLink storeA (rec_id existing)
                     (folder_id d) now))
        as (H1 & H2 & H3).
      split; [exact H1|]. split; [exact H2|]. rewrite Hadd in H3. exact H3.
    + destruct (findFolderByID storeA id) as [folder|]; [|discriminate].
      intros [= <-]. cbn [result memory disk].
      destruct (Hdone
                  (recordOfDraft (rec_id existing) (rec_zoteroItemID existing)
                     draft (rec_createdAt existing) now)
                  (addRecordFolderLink storeA (rec_id existing)
                     (folder_id folder) now))
        as (H1 & H2 & H3).
      split; [exact H1|]. split; [exact H2|]. rewrite Hadd in H3. exact H3.
  - set (made := recordOfDraft _ (draft_zoteroItemID draft) draft now now).
    set (storeA := withRecords _ (_ ++ [made])).
    assert (HdefA : ensureDefaultFolder now storeA = (d, storeA)).
    { apply ensureDefaultFolder_found. exact (ready_default Hready). }
    destruct folderID as [| |id]; unfold resolveTargetFolderID.
    + intros [= <-]. cbn [result memory disk].
      destruct (Hdone made storeA) as (H1 & H2 & H3).
      split; [exact H1|]. split; [exact H2|]. exact H3.
    + rewrite HdefA. intros [= <-]. cbn [result memory disk].
      destruct (Hdone made
                  (addRecordFolderLink storeA (rec_id made) (folder_id d) now))
        as (H1 & H2 & H3).
      split; [exact H1|]. split; [exact H2|]. rewrite Hadd in H3. exact H3.
    + destruct (findFolderByID storeA id) as [folder|]; [|discriminate].
      intros [= <-]. cbn [result memory disk].
      destruct (Hdone made
                  (addRecordFolderLink storeA (rec_id made)
                     (folder_id folder) now))
        as (H1 & H2 & H3).
      split; [exact H1|]. split; [exact H2|]. rewrite Hadd in H3. exact H3.
Qed.

Lemma filterMap_all {A B : Type} (f : A -> option B) (g : A -> B) l :
  (forall x, In x l -> f x = Some (g x)) -> filterMap f l = map g l.
Proof.
  induction l as [|x l IH]; intros H; [reflexivity|]. cbn [filterMap map].
  rewrite (H x (or_introl eq_refl)). f_equal. apply IH.
  intros y Hy. apply H. now right.
Qed.

Lemma find_map {A : Type} (test : A -> bool) (g : A -> A) l :
  (forall x, test (g x) = test x) ->
  find test (map g l) = option_map g (find test l).
Proof.
  intros H. induction l as [|x l IH]; [reflexivity|]. cbn [map find].
  rewrite H. destruct (test x); [reflexivity | exact IH].
Qed.

(** A record as a reload returns it. *)
Definition reloaded (now : string) (value : JSONStoreRecord) : JSONStoreRecord :=
  match normalizeReviewRecord now value with
  | Some record => record
  | None => value
  end.

Lemma normalizeReviewRecord_positive now value :
  0 < rec_id value ->
  normalizeReviewRecord now value = Some (reloaded now value).
Proof.
  intros Hid. unfold reloaded, normalizeReviewRecord.
  now replace (rec_id value <=? 0) with false by (symmetry; now apply Z.leb_gt).
Qed.

Lemma reloaded_fields now value :
  0 < rec_id value ->
  rec_id (reloaded now value) = rec_id value /\
  rec_zoteroItemID (reloaded now value) = rec_zoteroItemID value /\
  rec_recordType (reloaded now value) = rec_recordType value /\
  rec_createdAt (reloaded now value) = orElse (rec_createdAt value) now.
Proof.
  intros Hid. unfold reloaded, normalizeReviewRecord.
  replace (rec_id value <=? 0) with false by (symmetry; now apply Z.leb_gt).
  repeat split.
Qed.

Lemma length_filter_updateFirst test change rs :
  (forall e, test e = true -> test (change e) = true) ->
  List.length (filter test (updateFirst test change rs))
  = List.length (filter test rs).
Proof.
  intros Hc. induction rs as [|r rs IH]; [reflexivity|]. cbn [updateFirst].
  destruct (test r) eqn:Hr; cbn [filter].
  - now rewrite (Hc r Hr), Hr.
  - now rewrite Hr.
Qed.

Lemma length_filter_map {A : Type} (test : A -> bool) (g : A -> A) l :
  (forall x, In x l -> test (g x) = test x) ->
  List.length (filter test (map g l)) = List.length (filter test l).
Proof.
  induction l as [|x l IH]; intros H; [reflexivity|]. cbn [map filter].
  rewrite (H x (or_introl eq_refl)).
  assert (IH' : List.length (filter test (map g l))
                = List.length (filter test l))
    by (apply IH; intros y Hy; apply H; now right).
  destruct (test x); cbn [List.length]; now rewrite IH'.
Qed.

Lemma find_none_filter {A : Type} (test : A -> bool) l :
  find test l = None -> filter test l = [].
Proof.
  induction l as [|x l IH]; [reflexivity|]. cbn [find filter].
  destruct (test x); [discriminate | exact IH].
Qed.

Lemma find_some_filter {A : Type} (test : A -> bool) l x :
  find test l = Some x -> (1 <= List.length (filter test l))%nat.
Proof.
  intros Hf. apply find_some in Hf.
  assert (Hin : In x (filter test l)) by now apply filter_In.
  destruct (filter test l); [destruct Hin | cbn [List.length]; lia].
Qed.

Lemma isLiteratureOf_recordOfDraft item existing draft created timestamp :
  isLiteratureOf item existing = true ->
  isLiteratureOf item
    (recordOfDraft (rec_id existing) (rec_zoteroItemID existing) draft
       created timestamp) = true.
Proof.
  unfold isLiteratureOf. intros H. apply andb_true_iff in H.
  cbn [rec_recordType rec_zoteroItemID recordOfDraft isFolderSummary negb andb].
  tauto.
Qed.

(** A second [upsertReviewRecord] for the same item rewrites the record the
    first one returned, where it stands. *)
Lemma upsertReviewRecord_twice now now' draft draft' folderID folderID'
    file row row' :
  now <> EmptyString ->
  draft_zoteroItemID draft' = draft_zoteroItemID draft ->
  result (upsertReviewRecord now draft folderID file) = Returned row ->
  result (upsertReviewRecord now' draft' folderID'
            (disk (upsertReviewRecord now draft folderID file)))
    = Returned row' ->
  row_record row'
    = recordOfDraft (rec_id (row_record row)) (draft_zoteroItemID draft)
        draft' (rec_createdAt (row_record row)) now' /\
  In (row_record row')
     (records (memory (upsertReviewRecord now' draft' folderID'
                         (disk (upsertReviewRecord now draft folderID file)))))
  /\
  map rec_id
    (records (memory (upsertReviewRecord now' draft' folderID'
                        (disk (upsertReviewRecord now draft folderID file)))))
  = map rec_id (records (memory (upsertReviewRecord now draft folderID file)))
  /\
  disk (upsertReviewRecord now' draft' folderID'
          (disk (upsertReviewRecord now draft folderID file)))
  = Some (memory (upsertReviewRecord now' draft' folderID'
                    (disk (upsertReviewRecord now draft folderID file)))) /\
  List.length
    (filter (isLiteratureOf (draft_zoteroItemID draft))
       (records (memory (upsertReviewRecord now' draft' folderID'
                           (disk (upsertReviewRecord now draft folderID
                                    file))))))
  = List.length
      (filter (isLiteratureOf (draft_zoteroItemID draft))
         (records (memory (upsertReviewRecord now draft folderID file)))) /\
  ((List.length
      (filter (isLiteratureOf (draft_zoteroItemID draft))
         (records (opened now file))) <= 1)%nat ->
   List.length
     (filter (isLiteratureOf (draft_zoteroItemID draft))
        (records (memory (upsertReviewRecord now draft folderID file))))
   = 1%nat).
Proof.
  intros Hnow Hzid Hfirst Hsecond.
  pose proof (upsertReviewRecord_returned now draft folderID file row Hfirst)
    as H1. cbn zeta in H1. destruct H1 as [Hdisk1 H1].
  destruct (opened_ready now file) as [d Hready].
  destruct (ready_tidy Hready) as ([_ Hrs] & _).
  set (first := upsertReviewRecord now draft folderID file) in *.
  set (test := isLiteratureOf (draft_zoteroItemID draft)) in *.
  (* the record of the first call is the one [find] meets in what it wrote *)
  assert (Hwritten :
    find test (records (memory first)) = Some (row_record row) /\
    (forall record, In record (records (memory first)) -> 0 < rec_id record) /\
    rec_zoteroItemID (row_record row) = draft_zoteroItemID draft /\
    rec_createdAt (row_record row) <> EmptyString).
  { destruct (find test (records (opened now file))) as [existing|] eqn:Hfind.
    - destruct H1 as [Hrow Hrecs]. rewrite Hrow, Hrecs.
      pose proof (find_some _ _ Hfind) as [Hin Htest].
      assert (Hz : rec_zoteroItemID existing = draft_zoteroItemID draft).
      { unfold test, isLiteratureOf in Htest.
        apply andb_true_iff in Htest. now apply Z.eqb_eq. }
      split; [|split; [|split]].
      + refine (find_updateFirst test
                  (fun e => recordOfDraft (rec_id e) (rec_zoteroItemID e) draft
                              (rec_createdAt e) now) _ existing Hfind _).
        unfold test, isLiteratureOf. cbn [rec_recordType rec_zoteroItemID
          recordOfDraft isFolderSummary negb andb]. now apply Z.eqb_eq.
      + intros record Hr.
        destruct (updateFirst_In _ _ _ _ _ Hfind Hr) as [Hold| ->].
        * now apply Hrs.
        * cbn [rec_id recordOfDraft]. now apply Hrs.
      + exact Hz.
      + cbn [rec_createdAt recordOfDraft].
        now apply (opened_created now file).
    - destruct H1 as [Hrow Hrecs]. rewrite Hrow, Hrecs.
      split; [|split; [|split]].
      + rewrite (find_app_none _ _ _ Hfind). cbn [find].
        unfold test at 1, isLiteratureOf.
        cbn [rec_recordType rec_zoteroItemID recordOfDraft isFolderSummary
             negb andb]. now rewrite Z.eqb_refl.
      + intros record Hr. apply in_app_or in Hr.
        destruct Hr as [Hr|[<-|[]]]; [now apply Hrs|].
        cbn [rec_id recordOfDraft]. lia.
      + reflexivity.
      + exact Hnow. }
  destruct Hwritten as (Hfound & Hpos & Hz1 & Hcreated).
  (* the second call *)
  pose proof (upsertReviewRecord_returned now' draft' folderID' (disk first)
                row' Hsecond) as H2.
  cbn zeta in H2. destruct H2 as [Hdisk2 H2].
  rewrite Hzid in H2. fold test in H2.
  assert (Hrecords : records (opened now' (disk first))
                     = map (reloaded now') (records (memory first))).
  { rewrite Hdisk1, opened_records. apply filterMap_all.
    intros value Hv. apply normalizeReviewRecord_positive. now apply Hpos. }
  assert (Hfind2 : find test (records (opened now' (disk first)))
                   = Some (reloaded now' (row_record row))).
  { rewrite Hrecords.
    assert (Hkeep : forall record, In record (records (memory first)) ->
              test (reloaded now' record) = test record).
    { intros record Hr. unfold test, isLiteratureOf.
      destruct (reloaded_fields now' record (Hpos record Hr))
        as (_ & -> & -> & _). reflexivity. }
    clear - Hfound Hkeep.
    induction (records (memory first)) as [|r rs IH]; [discriminate|].
    cbn [map find] in *. rewrite (Hkeep r (or_introl eq_refl)).
    destruct (test r); [congruence|].
    apply IH; [exact Hfound|]. intros record Hr. apply Hkeep. now right. }
  rewrite Hfind2 in H2. destruct H2 as [Hrow2 Hrecs2].
  assert (Hin1 : In (row_record row) (records (memory first)))
    by (apply find_some in Hfound; tauto).
  destruct (reloaded_fields now' (row_record row) (Hpos _ Hin1))
    as (Hid & Hzid2 & _ & Hc).
  pose proof Hrow2 as Hraw.
  rewrite Hid, Hzid2, Hc, (orElse_keeps _ _ Hcreated), Hz1 in Hrow2.
  split; [exact Hrow2|]. split; [|split; [|split; [exact Hdisk2|split]]].
  - rewrite Hrecs2. apply find_some with (f := test). rewrite Hraw.
    refine (find_updateFirst test
              (fun e => recordOfDraft (rec_id e) (rec_zoteroItemID e) draft'
                          (rec_createdAt e) now') _
              (reloaded now' (row_record row)) Hfind2 _).
    unfold test, isLiteratureOf.
    cbn [rec_recordType rec_zoteroItemID recordOfDraft isFolderSummary
         negb andb]. rewrite Hzid2, Hz1. apply Z.eqb_refl.
  - rewrite Hrecs2, updateFirst_ids by reflexivity.
    rewrite Hrecords, map_map. apply map_ext_in.
    intros record Hr. now destruct (reloaded_fields now' record (Hpos _ Hr)).
  - fold test. rewrite Hrecs2, length_filter_updateFirst, Hrecords.
    + apply length_filter_map. intros record Hr. unfold test, isLiteratureOf.
      destruct (reloaded_fields now' record (Hpos record Hr))
        as (_ & -> & -> & _). reflexivity.
    + intros e He. now apply isLiteratureOf_recordOfDraft.
  - fold test. intros Hle.
    destruct (find test (records (opened now file))) as [existing|] eqn:Hfind;
      destruct H1 as [_ Hrecs]; rewrite Hrecs.
    + rewrite length_filter_updateFirst
        by (intros e He; now apply isLiteratureOf_recordOfDraft).
      apply find_some_filter in Hfind. lia.
    + rewrite filter_app, (find_none_filter _ _ Hfind). cbn [filter app].
      unfold test at 1, isLiteratureOf.
      cbn [rec_recordType rec_zoteroItemID recordOfDraft isFolderSummary
           negb andb]. now rewrite Z.eqb_refl.
Qed.

(** *** Which links the normalisation adds and which it drops *)

Lemma normalizeMembership_keeps_other d now store changed recordID link :
  In link (recordFolderLinks store) -> link_folderID link <> d ->
  In link (recordFolderLinks
             (fst (normalizeMembership d now (store, changed) recordID))).
Proof.
  intros Hin Hne. unfold normalizeMembership.
  destruct (filter _ (recordFolderLinks store)).
  - cbn [fst]. now apply addRecordFolderLink_keeps.
  - destruct (_ && _); cbn [fst]; [|exact Hin].
    cbn [recordFolderLinks withLinks]. apply filter_In. split; [exact Hin|].
    apply negb_true_iff, andb_false_iff. right. now apply Z.eqb_neq.
Qed.

Lemma normalizeLoop_keeps_other d now ids : forall store changed link,
  In link (recordFolderLinks store) -> link_folderID link <> d ->
  In link (recordFolderLinks
             (fst (fold_left (normalizeMembership d now) ids (store, changed)))).
Proof.
  induction ids as [|i ids IH]; intros store changed link Hin Hne;
    [exact Hin|].
  cbn [fold_left].
  pose proof (normalizeMembership_keeps_other d now store changed i link Hin Hne)
    as Hstep.
  destruct (normalizeMembership d now (store, changed) i) as [store1 changed1].
  now apply IH.
Qed.

(** Only links to the default folder are dropped. *)
Lemma normalizeRecordFolderMemberships_keeps now store recordIDs link :
  In link (recordFolderLinks store) ->
  link_folderID link <> folder_id (fst (ensureDefaultFolder now store)) ->
  In link (recordFolderLinks
             (snd (normalizeRecordFolderMemberships now store recordIDs))).
Proof.
  intros Hin Hne. unfold normalizeRecordFolderMemberships.
  fold (effectiveIDs store recordIDs).
  destruct (effectiveIDs store recordIDs) as [|i ids]; [exact Hin|].
  destruct (ensureDefaultFolder_spec now store) as (_ & _ & Hlinks & _).
  destruct (ensureDefaultFolder now store) as [defaultFolder store1].
  cbn [fst snd] in *. rewrite <- Hlinks in Hin.
  pose proof (normalizeLoop_keeps_other (folder_id defaultFolder) now (i :: ids)
                store1 false link Hin Hne) as Hloop.
  now destruct (fold_left _ (i :: ids) (store1, false)).
Qed.

(** Only links to the default folder are added. *)
Lemma normalizeRecordFolderMemberships_from now store recordIDs link :
  In link (recordFolderLinks
             (snd (normalizeRecordFolderMemberships now store recordIDs))) ->
  In link (recordFolderLinks store) \/
  exists defaultFolder,
    findFolderByName (snd (normalizeRecordFolderMemberships now store recordIDs))
                     DEFAULT_FOLDER_NAME = Some defaultFolder /\
    link_folderID link = folder_id defaultFolder.
Proof.
  destruct (effectiveIDs store recordIDs) as [|i ids] eqn:Hids.
  - rewrite normalizeRecordFolderMemberships_idle by exact Hids. now left.
  - assert (Hne : effectiveIDs store recordIDs <> [])
      by (rewrite Hids; discriminate).
    destruct (normalizeRecordFolderMemberships_spec now store recordIDs Hne)
      as (_ & _ & _ & Hfd & _ & _ & Hfrom & _).
    intros Hin. apply Hfrom in Hin. destruct Hin as [Hin|[_ Hd]]; [now left|].
    right. eexists. split; [exact Hfd | exact Hd].
Qed.

Lemma touchRecords_frame store recordIDs timestamp :
  folders (touchRecords store recordIDs timestamp) = folders store /\
  recordFolderLinks (touchRecords store recordIDs timestamp)
    = recordFolderLinks store.
Proof. unfold touchRecords. now destruct (normalizeIDList recordIDs). Qed.

(** A record that loses all its links with the folder comes out linked to
    the default folder. *)
Lemma deleteReviewFolder_relinks now folderID file folder record :
  findFolderByID (opened now file) folderID = Some folder ->
  folder_name folder <> DEFAULT_FOLDER_NAME ->
  In record (records (opened now file)) ->
  (forall link, In link (recordFolderLinks (opened now file)) ->
     link_recordID link = rec_id record -> link_folderID link = folderID) ->
  exists defaultFolder,
    findFolderByName (memory (deleteReviewFolder now folderID file))
                     DEFAULT_FOLDER_NAME = Some defaultFolder /\
    linkedIn (recordFolderLinks (memory (deleteReviewFolder now folderID file)))
             (rec_id record) (folder_id defaultFolder).
Proof.
  intros Hfound Hname Hrec Hall.
  pose proof (deleteReviewFolder_wellLinked now folderID file) as Hwl.
  revert Hwl. unfold deleteReviewFolder. rewrite openStore_eq, Hfound.
  unfold isProtectedName. apply String.eqb_neq in Hname. rewrite Hname.
  set (store := opened now file) in *.
  set (store1 := withFolders (withLinks store _) _).
  set (affected := getRecordIDsByFolderIDsInternal store [folderID]).
  intros Hwl.
  destruct (Hwl (rec_id record)) as [[f (link & Hl & Hr & Hf)] _].
  { cbn [memory commit]. unfold markStoreUpdated. cbn [records withStamps].
    rewrite touchRecords_ids, normalizeRecordFolderMemberships_records.
    now apply in_map. }
  cbn [memory commit] in *. unfold markStoreUpdated in *.
  cbn [recordFolderLinks folders withStamps] in *.
  rewrite findFolderByName_find. cbn [folders withStamps].
  destruct (touchRecords_frame
              (snd (normalizeRecordFolderMemberships now store1 (Some affected)))
              affected now) as [Hfs Hls].
  rewrite Hfs. rewrite Hls in *.
  destruct (normalizeRecordFolderMemberships_from _ _ _ _ Hl)
    as [Hold|(d & Hd & Hfd)].
  - exfalso. unfold store1 in Hold.
    cbn [recordFolderLinks withFolders withLinks] in Hold.
    apply filter_In in Hold. destruct Hold as [Hold Hne].
    apply negb_true_iff, Z.eqb_neq in Hne. apply Hne. now apply Hall.
  - exists d. split; [exact Hd|]. exists link. rewrite <- Hfd. tauto.
Qed.

Lemma removeReviewRecordsFromFolder_relinks now recordIDs folderID file
    folder record :
  findFolderByID (opened now file) folderID = Some folder ->
  folder_name folder <> DEFAULT_FOLDER_NAME ->
  In record (records (opened now file)) ->
  In (rec_id record) recordIDs ->
  (forall link, In link (recordFolderLinks (opened now file)) ->
     link_recordID link = rec_id record -> link_folderID link = folderID) ->
  exists defaultFolder,
    findFolderByName
      (memory (removeReviewRecordsFromFolder now recordIDs folderID file))
      DEFAULT_FOLDER_NAME = Some defaultFolder /\
    linkedIn
      (recordFolderLinks
         (memory (removeReviewRecordsFromFolder now recordIDs folderID file)))
      (rec_id record) (folder_id defaultFolder).
Proof.
  intros Hfound Hname Hrec Hgiven Hall.
  pose proof (removeReviewRecordsFromFolder_wellLinked now recordIDs folderID
                file) as Hwl.
  destruct (opened_ready now file) as [d0 Hready].
  assert (Hpos : 0 < rec_id record).
  { apply (ready_record_positive d0 (opened now file)); [exact Hready|].
    now apply in_map. }
  assert (Hnorm : In (rec_id record) (normalizeIDList recordIDs))
    by (apply normalizeIDList_In; tauto).
  revert Hwl. unfold removeReviewRecordsFromFolder. rewrite openStore_eq.
  destruct (normalizeIDList recordIDs) as [|i rest] eqn:Hids; [contradiction|].
  set (ids := i :: rest) in *. rewrite Hfound.
  unfold isProtectedName. apply String.eqb_neq in Hname. rewrite Hname.
  set (store := opened now file) in *.
  set (store1 := withLinks store _).
  intros Hwl.
  destruct (Hwl (rec_id record)) as [[f (link & Hl & Hr & Hf)] _].
  { cbn [memory commit]. unfold markStoreUpdated. cbn [records withStamps].
    rewrite touchRecords_ids, normalizeRecordFolderMemberships_records.
    now apply in_map. }
  cbn [memory commit] in *. unfold markStoreUpdated in *.
  cbn [recordFolderLinks folders withStamps] in *.
  rewrite findFolderByName_find. cbn [folders withStamps].
  destruct (touchRecords_frame
              (snd (normalizeRecordFolderMemberships now store1 (Some ids)))
              ids now) as [Hfs Hls].
  rewrite Hfs. rewrite Hls in *.
  destruct (normalizeRecordFolderMemberships_from _ _ _ _ Hl)
    as [Hold|(d & Hd & Hfd)].
  - exfalso. unfold store1 in Hold. cbn [recordFolderLinks withLinks] in Hold.
    apply filter_In in Hold. destruct Hold as [Hold Hne].
    apply negb_true_iff, andb_false_iff in Hne.
    apply findFolderByID_In in Hfound. destruct Hfound as [_ Hfid].
    destruct Hne as [Hne|Hne].
    + apply Z.eqb_neq in Hne. apply Hne. rewrite Hfid. now apply Hall.
    + apply memZ_false in Hne. apply Hne. now rewrite Hr.
  - exists d. split; [exact Hd|]. exists link. rewrite <- Hfd. tauto.
Qed.

(** A record assigned to a folder other than the default one comes out
    linked to it and not to the default folder. *)
Lemma assignReviewRecordsFolder_moves now recordIDs folderID file folder
    defaultFolder record :
  findFolderByID (opened now file) folderID = Some folder ->
  findFolderByName (opened now file) DEFAULT_FOLDER_NAME = Some defaultFolder ->
  folderID <> folder_id defaultFolder ->
  In record (records (opened now file)) ->
  In (rec_id record) recordIDs ->
  let after :=
    memory (assignReviewRecordsFolder now recordIDs (FolderNumber folderID)
              file) in
  findFolderByName after DEFAULT_FOLDER_NAME = Some defaultFolder /\
  linkedIn (recordFolderLinks after) (rec_id record) folderID /\
  ~ linkedIn (recordFolderLinks after) (rec_id record)
             (folder_id defaultFolder).
Proof.
  intros Hfound Hdef Hother Hrec Hgiven. cbn zeta.
  pose proof (assignReviewRecordsFolder_wellLinked now recordIDs
                (FolderNumber folderID) file) as Hwl.
  destruct (opened_ready now file) as [d0 Hready].
  assert (Hpos : 0 < rec_id record).
  { apply (ready_record_positive d0 (opened now file)); [exact Hready|].
    now apply in_map. }
  assert (Hnorm : In (rec_id record) (normalizeIDList recordIDs))
    by (apply normalizeIDList_In; tauto).
  pose proof (findFolderByID_In _ _ _ Hfound) as [_ Hfid].
  revert Hwl. unfold assignReviewRecordsFolder. rewrite openStore_eq.
  destruct (normalizeIDList recordIDs) as [|i rest] eqn:Hids; [contradiction|].
  set (ids := i :: rest) in *. unfold resolveTargetFolderID. rewrite Hfound.
  set (store := opened now file) in *.
  pose proof (addLinks_spec
                (fun store id =>
                   existsb (fun record => rec_id record =? id) (records store))
                (folder_id folder) now ids store) as Hadd.
  cbn zeta in Hadd.
  destruct Hadd as (HfB & HrB & HnB & HkeepB & HfromB & HaddB).
  { intros s0 r0 H. now rewrite H. }
  set (storeB := fold_left _ ids store) in *.
  assert (HdefB : ensureDefaultFolder now storeB = (defaultFolder, storeB)).
  { apply ensureDefaultFolder_found. rewrite findFolderByName_find, HfB.
    exact Hdef. }
  intros Hwl. cbn [memory commit] in *. unfold markStoreUpdated in *.
  destruct (touchRecords_frame
              (snd (normalizeRecordFolderMemberships now storeB (Some ids)))
              ids now) as [Hfs Hls].
  set (final := withStamps (withStamps _ _ _ _) _ _ _) in *.
  assert (Hff : folders final
                = folders (snd (normalizeRecordFolderMemberships now storeB
                                  (Some ids))))
    by (unfold final; cbn [folders withStamps]; exact Hfs).
  assert (Hfl : recordFolderLinks final
                = recordFolderLinks
                    (snd (normalizeRecordFolderMemberships now storeB
                            (Some ids))))
    by (unfold final; cbn [recordFolderLinks withStamps]; exact Hls).
  assert (Hfr : map rec_id (records final) = map rec_id (records store)).
  { unfold final. cbn [records withStamps].
    now rewrite touchRecords_ids, normalizeRecordFolderMemberships_records,
      HrB. }
  clearbody final.
  assert (Hfinal : findFolderByName final DEFAULT_FOLDER_NAME
                   = Some defaultFolder).
  { rewrite findFolderByName_find, Hff.
    assert (Hne : effectiveIDs storeB (Some ids) <> []).
    { unfold ids. cbn [effectiveIDs]. fold ids. intros Hnil.
      apply (normalizeIDList_nil _ Hnil) in Hnorm. lia. }
    destruct (normalizeRecordFolderMemberships_spec now storeB (Some ids) Hne)
      as (_ & _ & _ & Hfd & _).
    rewrite HdefB in Hfd. cbn [fst] in Hfd.
    now rewrite findFolderByName_find in Hfd. }
  split; [exact Hfinal|].
  assert (Hlinked : linkedIn (recordFolderLinks final) (rec_id record)
                             folderID).
  { rewrite Hfl.
    destruct (HaddB (rec_id record) Hnorm) as (link & Hl & Hr & Hf).
    - apply existsb_exists. exists record. split; [exact Hrec|].
      apply Z.eqb_refl.
    - exists link. split; [|split; [exact Hr | congruence]].
      apply normalizeRecordFolderMemberships_keeps; [exact Hl|].
      rewrite HdefB. cbn [fst]. congruence. }
  split; [exact Hlinked|].
  intros Hdflt.
  destruct (Hwl (rec_id record)) as [_ Honly].
  { rewrite Hfr. now apply in_map. }
  apply Hother. exact (Honly defaultFolder Hfinal folderID Hdflt Hlinked).
Qed.

End Store.

(** ** The operations of the review store, taken together *)

Module Operations.
Import JS Store.
Local Open Scope Z_scope.

Inductive Operation :=
| InitReviewStore
| CreateReviewFolder (name : string)
| DeleteReviewFolder (folderID : Z)
| MergeReviewFolders (folderIDs : list Z) (newFolderName : string)
| UpsertReviewRecord (draft : LiteratureReviewDraft) (folderID : FolderArg)
| CreateFolderSummaryRecord (folderID : FolderArg)
    (folderName summaryText : string) (sourceRows : list (Z * Z))
    (aiProvider aiModel : string)
| AssignReviewRecordsFolder (recordIDs : list Z) (folderID : FolderArg)
| RemoveReviewRecordsFromFolder (recordIDs : list Z) (folderID : Z)
| DeleteReviewRecords (recordIDs : list Z).

(** The outcome of an operation without the value it returned. *)
Definition forget {A : Type} (outcome : Outcome A) : Outcome unit :=
  {| result :=
       match result outcome with
       | Returned _ => Returned tt
       | Thrown message => Thrown message
       end;
     memory := memory outcome;
     disk := disk outcome |}.

Definition run (now : string) (op : Operation) (file : File) : Outcome unit :=
  match op with
  | InitReviewStore => initReviewStore now file
  | CreateReviewFolder name => forget (createReviewFolder now name file)
  | DeleteReviewFolder folderID => deleteReviewFolder now folderID file
  | MergeReviewFolders folderIDs newFolderName =>
      forget (mergeReviewFolders now folderIDs newFolderName file)
  | UpsertReviewRecord draft folderID =>
      forget (upsertReviewRecord now draft folderID file)
  | CreateFolderSummaryRecord folderID folderName summaryText sourceRows
      aiProvider aiModel =>
      forget (createFolderSummaryRecord now folderID folderName summaryText
                sourceRows aiProvider aiModel file)
  | AssignReviewRecordsFolder recordIDs folderID =>
      assignReviewRecordsFolder now recordIDs folderID file
  | RemoveReviewRecordsFromFolder recordIDs folderID =>
      removeReviewRecordsFromFolder now recordIDs folderID file
  | DeleteReviewRecords recordIDs =>
      forget (deleteReviewRecords now recordIDs file)
  end.

(** The operation returned: it did not throw. *)
Definition completed {A : Type} (outcome : Outcome A) : bool :=
  match result outcome with
  | Returned _ => true
  | Thrown _ => false
  end.

(** *** Sample data *)

Definition paper : LiteratureReviewDraft :=
  {| draft_zoteroItemID := 7;
     draft_title := "Grasp planning";
     draft_authors := "A. Author";
     draft_journal := "Journal of Robots";
     draft_publicationDate := "2021";
     draft_abstractText := "An abstract.";
     draft_pdfAnnotationNotesText := "";
     draft_researchBackground := "Background.";
     draft_literatureReview := "Review.";
     draft_researchMethods := "Methods.";
     draft_researchConclusions := "Conclusions.";
     draft_keyFindings := ["one"; "two"];
     draft_classificationTags := ["robotics"];
     draft_aiProvider := "provider";
     draft_aiModel := "model";
     draft_rawAIResponse := "{}" |}.

Definition revised : LiteratureReviewDraft :=
  {| draft_zoteroItemID := 7;
     draft_title := "Grasp planning, revised";
     draft_authors := "A. Author";
     draft_journal := "Journal of Robots";
     draft_publicationDate := "2022";
     draft_abstractText := "Another abstract.";
     draft_pdfAnnotationNotesText := "";
     draft_researchBackground := "Background.";
     draft_literatureReview := "Review.";
     draft_researchMethods := "Other methods.";
     draft_researchConclusions := "Conclusions.";
     draft_keyFindings := ["three"];
     draft_classificationTags := [];
     draft_aiProvider := "provider";
     draft_aiModel := "model";
     draft_rawAIResponse := "{}" |}.

Definition monday : string := "2024-01-01T09:00:00.000Z".
Definition tuesday : string := "2024-01-02T09:00:00.000Z".
Definition wednesday : string := "2024-01-03T09:00:00.000Z".

(** A file with the folder "Robotics" (after the default folder). *)
Definition shelved : File := disk (createReviewFolder monday "Robotics" None).

(** The paper filed under "Robotics" alone. *)
Definition filed : File :=
  disk (upsertReviewRecord tuesday paper (FolderNumber 2) shelved).

(** The paper filed under no folder of the user's, hence under the default
    one. *)
Definition unfiled : File :=
  disk (upsertReviewRecord tuesday paper FolderUndefined shelved).

(** *** What every completed operation leaves *)

Lemma completed_forget {A : Type} (outcome : Outcome A) :
  completed (forget outcome) = true ->
  exists value, result outcome = Returned value.
Proof.
  unfold completed, forget. cbn [result].
  destruct (result outcome) as [value|]; [now exists value | discriminate].
Qed.

Lemma completed_thrown {A : Type} (outcome : Outcome A) message :
  result outcome = Thrown message -> completed outcome = false.
Proof. unfold completed. now intros ->. Qed.

Lemma run_wellLinked now op file :
  completed (run now op file) = true -> wellLinked (memory (run now op file)).
Proof.
  destruct op; cbn [run forget memory]; intros Hdone.
  - apply initReviewStore_wellLinked.
  - apply createReviewFolder_wellLinked.
  - apply deleteReviewFolder_wellLinked.
  - apply mergeReviewFolders_wellLinked.
  - apply completed_forget in Hdone. destruct Hdone as [row Hrow].
    now apply (upsertReviewRecord_wellLinked now draft folderID file row).
  - apply completed_forget in Hdone. destruct Hdone as [row Hrow].
    now apply (createFolderSummaryRecord_wellLinked now folderID folderName
                 summaryText sourceRows aiProvider aiModel file row).
  - apply assignReviewRecordsFolder_wellLinked.
  - apply removeReviewRecordsFromFolder_wellLinked.
  - apply deleteReviewRecords_wellLinked.
Qed.

Lemma findFolderByID_exists store id :
  In id (map folder_id (folders store)) ->
  exists folder, findFolderByID store id = Some folder.
Proof.
  intros Hin. apply in_map_iff in Hin. destruct Hin as (folder & Hid & Hin).
  unfold findFolderByID.
  destruct (find (fun folder => folder_id folder =? id) (folders store))
    as [found|] eqn:Hfind; [now exists found|].
  apply (find_none _ _ Hfind) in Hin. apply Z.eqb_neq in Hin. contradiction.
Qed.

(** The folder all the links of a record point to is a folder of the
    store. *)
Lemma opened_only_folder now file record folderID :
  In record (records (opened now file)) ->
  (forall link, In link (recordFolderLinks (opened now file)) ->
     link_recordID link = rec_id record -> link_folderID link = folderID) ->
  exists folder, findFolderByID (opened now file) folderID = Some folder.
Proof.
  intros Hrec Hall. destruct (opened_ready now file) as [d Hready].
  destruct (ready_settled Hready record Hrec)
    as [[f (link & Hl & Hr & Hf)] _].
  apply findFolderByID_exists. rewrite <- (Hall link Hl Hr).
  exact (ready_link_folder Hready link Hl).
Qed.

Lemma opened_normalized now file record recordIDs :
  In record (records (opened now file)) -> In (rec_id record) recordIDs ->
  normalizeIDList recordIDs <> [].
Proof.
  intros Hrec Hin Hnil. destruct (opened_ready now file) as [d Hready].
  assert (Hpos : 0 < rec_id record).
  { apply (ready_record_positive d (opened now file)); [exact Hready|].
    now apply in_map. }
  pose proof (normalizeIDList_nil _ Hnil _ Hin). lia.
Qed.

End Operations.

(** ** Folder names outside ASCII

    [createReviewFolder] once more, from the store loaded on, with names as
    JavaScript has them: sequences of UTF-16 code units, a unit being written
    as its number.  [toLowerCase] follows Unicode, where the lower case of
    one unit can be two: U+0130, the capital I with a dot, becomes U+0069
    U+0307.  Of the letters outside ASCII this one is in the table; on a
    text of ASCII characters and U+0130 the function is that of
    JavaScript.  On names of ASCII characters this [createReviewFolder] is
    the one of the review store ([createReviewFolder_ofStore]). *)

Module Wide.
Import Store.

Definition Text := list N.

(** White space and line terminators of ECMAScript, which [trim] strips. *)
Definition isWhite (u : N) : bool :=
  ((9 <=? u) && (u <=? 13) || (u =? 32) || (u =? 160) || (u =? 5760)
   || (8192 <=? u) && (u <=? 8202) || (u =? 8232) || (u =? 8233)
   || (u =? 8239) || (u =? 8287) || (u =? 12288) || (u =? 65279))%N.

Fixpoint trimStart (s : Text) : Text :=
  match s with
  | [] => []
  | u :: r => if isWhite u then trimStart r else s
  end.

Fixpoint trimEnd (s : Text) : Text :=
  match s with
  | [] => []
  | u :: r =>
      match trimEnd r with
      | [] => if isWhite u then [] else [u]
      | t => u :: t
      end
  end.

Definition trim (s : Text) : Text := trimEnd (trimStart s).

Definition lowerUnit (u : N) : Text :=
  if ((65 <=? u) && (u <=? 90))%N then [(u + 32)%N]
  else if (u =? 304)%N then [105%N; 775%N]
  else [u].

Definition toLowerCase (s : Text) : Text := flat_map lowerUnit s.

(** [s.slice(i, j)] for [0 <= i <= j]. *)
Definition slice (s : Text) (i j : nat) : Text := firstn (j - i) (skipn i s).

Fixpoint sameText (s t : Text) : bool :=
  match s, t with
  | [], [] => true
  | u :: s', v :: t' => (u =? v)%N && sameText s' t'
  | _, _ => false
  end.

Definition normalizeFolderName (name : Text) : Text := slice (trim name) 0 100.

Record Folder := {
  id : Z;
  name : Text;
  createdAt : string;
  updatedAt : string }.

(** The part of the store that [createReviewFolder] reads and writes. *)
Record Folders := { nextFolder : Z; folders : list Folder }.

Definition findFolderByName (store : Folders) (name : Text) : option Folder :=
  let target := toLowerCase (trim name) in
  find (fun folder => sameText (toLowerCase (trim (Wide.name folder))) target)
       (folders store).

Definition createReviewFolder (now : string) (name : Text) (store : Folders)
  : Result Folder * Folders :=
  let normalized := normalizeFolderName name in
  match normalized with
  | [] => (Thrown "文件夹名称不能为空", store)
  | _ :: _ =>
      match findFolderByName store normalized with
      | Some existing => (Returned existing, store)
      | None =>
          let current := Z.max 1 (nextFolder store) in
          let folder :=
            {| id := current; name := normalized;
               createdAt := now; updatedAt := now |} in
          (Returned folder,
           {| nextFolder := (current + 1)%Z;
              folders := (folders store ++ [folder])%list |})
      end
  end.




(** *** Agreement with the strings of one byte a character

    On names of ASCII characters the functions on code units are those on
    [string]. *)

(** The code units of a [string] of ASCII characters. *)
Fixpoint ofString (s : string) : Text :=
  match s with
  | EmptyString => []
  | String c r => N_of_ascii c :: ofString r
  end.

Definition isASCII (c : ascii) : bool := (N_of_ascii c <? 128)%N.

Fixpoint plain (s : string) : bool :=
  match s with
  | EmptyString => true
  | String c r => isASCII c && plain r
  end.

Lemma isWhite_ofChar c :
  isASCII c = true -> isWhite (N_of_ascii c) = JS.isWhite c.
Proof.
  destruct c as [b0 b1 b2 b3 b4 b5 b6 b7].
  destruct b0, b1, b2, b3, b4, b5, b6, b7; intros H;
    try discriminate H; vm_compute; reflexivity.
Qed.

Lemma lowerUnit_ofChar c :
  lowerUnit (N_of_ascii c) = [N_of_ascii (JS.lowerChar c)].
Proof.
  destruct c as [b0 b1 b2 b3 b4 b5 b6 b7].
  destruct b0, b1, b2, b3, b4, b5, b6, b7; vm_compute; reflexivity.
Qed.

Lemma toLowerCase_ofString s :
  toLowerCase (ofString s) = ofString (JS.toLowerCase s).
Proof.
  induction s as [|c r IH]; [reflexivity|].
  cbn [ofString JS.toLowerCase]. unfold toLowerCase in *.
  cbn [flat_map]. now rewrite lowerUnit_ofChar, IH.
Qed.

Lemma plain_trimStart s : plain s = true -> plain (JS.trimStart s) = true.
Proof.
  induction s as [|c r IH]; [trivial|]. cbn [plain JS.trimStart].
  intros H. destruct (JS.isWhite c); [|exact H].
  apply andb_true_iff in H. now apply IH.
Qed.

Lemma plain_trimEnd s : plain s = true -> plain (JS.trimEnd s) = true.
Proof.
  induction s as [|c r IH]; [trivial|]. cbn [plain JS.trimEnd].
  intros H. apply andb_true_iff in H. destruct H as [Hc Hr].
  destruct (JS.isWhite c && JS.isEmpty (JS.trimEnd r)); [reflexivity|].
  cbn [plain]. now rewrite Hc, IH.
Qed.

Lemma trimStart_ofString s :
  plain s = true -> trimStart (ofString s) = ofString (JS.trimStart s).
Proof.
  induction s as [|c r IH]; [reflexivity|]. cbn [plain]. intros H.
  apply andb_true_iff in H. destruct H as [Hc Hr].
  cbn [ofString trimStart JS.trimStart]. rewrite (isWhite_ofChar c Hc).
  destruct (JS.isWhite c); [now apply IH | reflexivity].
Qed.

Lemma trimEnd_ofString s :
  plain s = true -> trimEnd (ofString s) = ofString (JS.trimEnd s).
Proof.
  induction s as [|c r IH]; [reflexivity|]. cbn [plain]. intros H.
  apply andb_true_iff in H. destruct H as [Hc Hr].
  cbn [ofString trimEnd JS.trimEnd]. rewrite (IH Hr), (isWhite_ofChar c Hc).
  destruct (JS.trimEnd r) as [|c' r']; cbn [ofString JS.isEmpty].
  - rewrite andb_true_r. now destruct (JS.isWhite c).
  - now rewrite andb_false_r.
Qed.

Lemma trim_ofString s :
  plain s = true -> trim (ofString s) = ofString (JS.trim s).
Proof.
  intros H. unfold trim, JS.trim.
  rewrite (trimStart_ofString s H). apply trimEnd_ofString.
  now apply plain_trimStart.
Qed.

Lemma firstn_ofString n : forall s,
  firstn n (ofString s) = ofString (substring 0 n s).
Proof.
  induction n as [|n IH]; intros [|c r]; try reflexivity.
  cbn [ofString firstn substring]. now rewrite IH.
Qed.

Lemma normalizeFolderName_ofString s :
  plain s = true ->
  Wide.normalizeFolderName (ofString s)
  = ofString (Store.normalizeFolderName s).
Proof.
  intros H. unfold Wide.normalizeFolderName, Store.normalizeFolderName.
  unfold slice, JS.slice. cbn [skipn Nat.sub].
  rewrite (trim_ofString s H). apply firstn_ofString.
Qed.

Lemma ofString_inj s : forall t, ofString s = ofString t -> s = t.
Proof.
  induction s as [|c r IH]; intros [|d t] H; try discriminate; [reflexivity|].
  cbn [ofString] in H. injection H as Hc Hr.
  f_equal; [|now apply IH].
  rewrite <- (ascii_N_embedding c), <- (ascii_N_embedding d). now rewrite Hc.
Qed.

Lemma sameText_eq s : forall t, sameText s t = true <-> s = t.
Proof.
  induction s as [|u s IH]; intros [|v t]; cbn [sameText];
    try (split; [discriminate | discriminate]); [tauto|].
  rewrite andb_true_iff, N.eqb_eq, IH. split.
  - now intros [-> ->].
  - now intros [= -> ->].
Qed.

(** The key of a name of ASCII characters is the key the store compares. *)
Lemma key_ofString s :
  plain s = true ->
  toLowerCase (trim (ofString s)) = ofString (folderKey s).
Proof.
  intros H. unfold folderKey.
  now rewrite (trim_ofString s H), toLowerCase_ofString.
Qed.


Lemma plain_substring n : forall s,
  plain s = true -> plain (substring 0 n s) = true.
Proof.
  induction n as [|n IH]; intros [|c r] H; try reflexivity.
  cbn [plain substring] in *. apply andb_true_iff in H.
  destruct H as [Hc Hr]. now rewrite Hc, IH.
Qed.

Lemma plain_normalizeFolderName s :
  plain s = true -> plain (Store.normalizeFolderName s) = true.
Proof.
  intros H. unfold Store.normalizeFolderName, JS.slice.
  apply plain_substring. unfold JS.trim.
  now apply plain_trimEnd, plain_trimStart.
Qed.

(** A folder and a store of the review store, in code units. *)
Definition ofFolder (folder : JSONStoreFolder) : Folder :=
  {| id := folder_id folder; name := ofString (folder_name folder);
     createdAt := folder_createdAt folder;
     updatedAt := folder_updatedAt folder |}.

Definition ofStore (store : JSONStoreData) : Folders :=
  {| nextFolder := next_folder (nextIDs store);
     folders := map ofFolder (Store.folders store) |}.

Definition ofResult (r : Result JSONStoreFolder) : Result Folder :=
  match r with
  | Returned folder => Returned (ofFolder folder)
  | Thrown message => Thrown message
  end.

Definition plainStore (store : JSONStoreData) : Prop :=
  forall folder, In folder (Store.folders store) ->
  plain (folder_name folder) = true.

Lemma find_ofFolder key (fs : list JSONStoreFolder) :
  plain key = true ->
  (forall folder, In folder fs -> plain (folder_name folder) = true) ->
  find (fun folder =>
          sameText (toLowerCase (trim (name folder)))
                   (toLowerCase (trim (ofString key))))
       (map ofFolder fs)
  = option_map ofFolder (find (hasKey (folderKey key)) fs).
Proof.
  intros Hkey. rewrite (key_ofString _ Hkey).
  induction fs as [|f fs IH]; intros Hfs; [reflexivity|].
  cbn [map find]. cbn [ofFolder name].
  rewrite (key_ofString _ (Hfs f (or_introl eq_refl))).
  unfold hasKey at 1, keyOf.
  destruct (String.eqb (folderKey (folder_name f)) (folderKey key)) eqn:He.
  - apply String.eqb_eq in He. rewrite He.
    now rewrite (proj2 (sameText_eq _ _) eq_refl).
  - destruct (sameText _ _) eqn:Hs.
    + apply sameText_eq, ofString_inj in Hs. apply String.eqb_neq in He.
      now contradiction He.
    + apply IH. intros g Hg. apply Hfs. now right.
Qed.

Lemma findFolderByName_ofStore store name :
  plainStore store -> plain name = true ->
  Wide.findFolderByName (ofStore store) (ofString name)
  = option_map ofFolder (Store.findFolderByName store name).
Proof.
  intros Hstore Hname. unfold Wide.findFolderByName.
  cbn [folders ofStore]. rewrite findFolderByName_find.
  now apply find_ofFolder.
Qed.

(** On a store and a name of ASCII characters, [createReviewFolder] on code
    units returns what [createReviewFolder] on the store loaded returns, and
    leaves the same folders. *)
Lemma createReviewFolder_ofStore now name file :
  plainStore (opened now file) -> plain name = true ->
  let wide :=
    Wide.createReviewFolder now (ofString name) (ofStore (opened now file)) in
  fst wide = ofResult (result (Store.createReviewFolder now name file)) /\
  folders (snd wide)
  = map ofFolder
      (Store.folders (memory (Store.createReviewFolder now name file))).
Proof.
  intros Hstore Hname. cbv zeta.
  unfold Wide.createReviewFolder, Store.createReviewFolder.
  rewrite openStore_eq.
  rewrite (normalizeFolderName_ofString name Hname).
  pose proof (plain_normalizeFolderName name Hname) as Hp.
  rewrite (findFolderByName_ofStore _ _ Hstore Hp).
  destruct (Store.normalizeFolderName name) as [|c r] eqn:Hn.
  - cbn [ofString JS.isEmpty]. split; reflexivity.
  - cbn [JS.isEmpty].
    destruct (Store.findFolderByName (opened now file) (String c r))
      as [existing|]; cbn [option_map].
    + split; reflexivity.
    + cbn [allocateID]. cbn [fst snd result memory commit ofResult].
      unfold markStoreUpdated.
      cbn [Store.folders withStamps withFolders withNextIDs getNext folders
           ofStore nextFolder].
      split; [reflexivity|]. now rewrite map_app.
Qed.

(** *** Idempotence on code units *)

(** The key folders are compared by. *)
Definition keyOf (folder : Folder) : Text := toLowerCase (trim (name folder)).




End Wide.

(** ** Properties of the review store *)

Section StoreProperties.
Import JS Store Operations.
Local Open Scope Z_scope.

(** C1 (link completeness).  When an operation of the store has completed,
    every record of the store it leaves has at least one membership link.
    Moreover, when the operation is [deleteReviewFolder] of a folder, or
    [removeReviewRecordsFromFolder] of a record from a folder, and all the
    links the record had pointed to that folder, the record comes out linked
    to the default folder. *)
Theorem records_stay_linked now op file :
  completed (run now op file) = true ->
  (forall record, In record (records (memory (run now op file))) ->
     exists folderID,
       linkedIn (recordFolderLinks (memory (run now op file)))
                (rec_id record) folderID) /\
  (forall folderID record,
     op = DeleteReviewFolder folderID \/
     (exists recordIDs,
        op = RemoveReviewRecordsFromFolder recordIDs folderID /\
        In (rec_id record) recordIDs) ->
     In record (records (opened now file)) ->
     (forall link, In link (recordFolderLinks (opened now file)) ->
        link_recordID link = rec_id record -> link_folderID link = folderID) ->
     exists defaultFolder,
       findFolderByName (memory (run now op file)) DEFAULT_FOLDER_NAME
         = Some defaultFolder /\
       linkedIn (recordFolderLinks (memory (run now op file)))
                (rec_id record) (folder_id defaultFolder)).
Proof.
  intros Hdone. split.
  - intros record Hrec.
    apply (run_wellLinked now op file Hdone (rec_id record)).
    now apply in_map.
  - intros folderID record Hop Hrec Hall.
    destruct (opened_only_folder now file record folderID Hrec Hall)
      as [folder Hfound].
    destruct Hop as [->|(recordIDs & -> & Hgiven)]; cbn [run] in *.
    + apply (deleteReviewFolder_relinks now folderID file folder record);
        try assumption.
      intros Heq.
      destruct (deleteReviewFolder_protected now folderID file folder Hfound
                  Heq) as (message & Hthrown & _).
      now rewrite (completed_thrown _ _ Hthrown) in Hdone.
    + apply (removeReviewRecordsFromFolder_relinks now recordIDs folderID file
               folder record); try assumption.
      intros Heq.
      destruct (removeReviewRecordsFromFolder_protected now recordIDs folderID
                  file folder
                  (opened_normalized now file record recordIDs Hrec Hgiven)
                  Hfound Heq) as (message & Hthrown & _).
      now rewrite (completed_thrown _ _ Hthrown) in Hdone.
Qed.

(** Deleting the only folder of the paper leaves it in the default folder. *)
Lemma records_stay_linked_witness :
  completed (run wednesday (DeleteReviewFolder 2) filed) = true /\
  exists defaultFolder,
    findFolderByName (memory (run wednesday (DeleteReviewFolder 2) filed))
                     DEFAULT_FOLDER_NAME = Some defaultFolder /\
    linkedIn
      (recordFolderLinks (memory (run wednesday (DeleteReviewFolder 2) filed)))
      1 (folder_id defaultFolder).
Proof.
  assert (Hdone : completed (run wednesday (DeleteReviewFolder 2) filed) = true)
    by (vm_compute; reflexivity).
  split; [exact Hdone|].
  destruct (records_stay_linked wednesday (DeleteReviewFolder 2) filed Hdone)
    as [_ Hrelinked].
  apply (Hrelinked 2 (recordOfDraft 1 7 paper tuesday tuesday)).
  - left. reflexivity.
  - vm_compute. left. reflexivity.
  - vm_compute. intros link [<-|[]] _. reflexivity.
Defined.

(** C2 (default exclusivity).  When an operation of the store has completed,
    no record of the store it leaves is linked to the default folder and to
    another folder.  Moreover, when the operation is
    [assignReviewRecordsFolder] of a record to a folder other than the
    default one, the record comes out linked to that folder and not to the
    default folder: of the two kinds of links, the link to the default folder
    is the one dropped. *)
Theorem default_folder_is_exclusive now op file :
  completed (run now op file) = true ->
  (forall record defaultFolder folderID,
     In record (records (memory (run now op file))) ->
     findFolderByName (memory (run now op file)) DEFAULT_FOLDER_NAME
       = Some defaultFolder ->
     linkedIn (recordFolderLinks (memory (run now op file)))
              (rec_id record) (folder_id defaultFolder) ->
     linkedIn (recordFolderLinks (memory (run now op file)))
              (rec_id record) folderID ->
     folderID = folder_id defaultFolder) /\
  (forall recordIDs folderID defaultFolder record,
     op = AssignReviewRecordsFolder recordIDs (FolderNumber folderID) ->
     findFolderByName (opened now file) DEFAULT_FOLDER_NAME
       = Some defaultFolder ->
     folderID <> folder_id defaultFolder ->
     In record (records (opened now file)) ->
     In (rec_id record) recordIDs ->
     findFolderByName (memory (run now op file)) DEFAULT_FOLDER_NAME
       = Some defaultFolder /\
     linkedIn (recordFolderLinks (memory (run now op file)))
              (rec_id record) folderID /\
     ~ linkedIn (recordFolderLinks (memory (run now op file)))
                (rec_id record) (folder_id defaultFolder)).
Proof.
  intros Hdone. split.
  - intros record defaultFolder folderID Hrec Hdefault Hd Hf.
    destruct (run_wellLinked now op file Hdone (rec_id record)) as [_ Honly];
      [now apply in_map|].
    exact (Honly defaultFolder Hdefault folderID Hd Hf).
  - intros recordIDs folderID defaultFolder record -> Hdefault Hother Hrec
      Hgiven. cbn [run] in *.
    destruct (findFolderByID (opened now file) folderID) as [folder|]
      eqn:Hfound.
    + exact (assignReviewRecordsFolder_moves now recordIDs folderID file folder
               defaultFolder record Hfound Hdefault Hother Hrec Hgiven).
    + destruct (assignReviewRecordsFolder_missing now recordIDs folderID file
                  (opened_normalized now file record recordIDs Hrec Hgiven)
                  Hfound) as [Hthrown _].
      now rewrite (completed_thrown _ _ Hthrown) in Hdone.
Qed.

(** Assigning the unfiled paper to "Robotics" takes it out of the default
    folder. *)
Lemma default_folder_is_exclusive_witness :
  completed
    (run wednesday (AssignReviewRecordsFolder [1] (FolderNumber 2)) unfiled)
    = true /\
  linkedIn
    (recordFolderLinks
       (memory (run wednesday (AssignReviewRecordsFolder [1] (FolderNumber 2))
                  unfiled))) 1 2 /\
  ~ linkedIn
      (recordFolderLinks
         (memory (run wednesday (AssignReviewRecordsFolder [1] (FolderNumber 2))
                    unfiled))) 1 1.
Proof.
  assert (Hdone : completed
                    (run wednesday
                       (AssignReviewRecordsFolder [1] (FolderNumber 2)) unfiled)
                  = true) by (vm_compute; reflexivity).
  split; [exact Hdone|].
  destruct (default_folder_is_exclusive wednesday
              (AssignReviewRecordsFolder [1] (FolderNumber 2)) unfiled Hdone)
    as [_ Hmoves].
  apply (Hmoves [1] 2
           {| folder_id := 1; folder_name := DEFAULT_FOLDER_NAME;
              folder_createdAt := monday; folder_updatedAt := monday |}
           (recordOfDraft 1 7 paper tuesday tuesday)).
  - reflexivity.
  - vm_compute. reflexivity.
  - cbn [folder_id]. lia.
  - vm_compute. left. reflexivity.
  - left. reflexivity.
Defined.

(** C3 (upsert semantics).  Two calls of [upsertReviewRecord] for the same
    item, the second on the file the first has written: the second call
    rewrites the record of the first in place.  The record keeps its [id]
    and its [createdAt]; it is a literature record of the item; each of its
    content fields is the field of the second draft (the key findings and the
    tags trimmed, without the empty ones, 200 at most), its [updatedAt] is the
    time of the second call; its [sourceRecordIDs] and [sourceZoteroItemIDs]
    are empty; and the store holds the same records, by [id] and in number,
    as after the first call; in particular it holds as many literature records
    of the item, which is one when the store held at most one before. *)
Theorem upsert_twice_updates_in_place now now' draft draft' folderID folderID'
    file row row' :
  now <> EmptyString ->
  draft_zoteroItemID draft' = draft_zoteroItemID draft ->
  result (upsertReviewRecord now draft folderID file) = Returned row ->
  result (upsertReviewRecord now' draft' folderID'
            (disk (upsertReviewRecord now draft folderID file)))
    = Returned row' ->
  let first := upsertReviewRecord now draft folderID file in
  let second := upsertReviewRecord now' draft' folderID' (disk first) in
  let ofItem := isLiteratureOf (draft_zoteroItemID draft) in
  let record := row_record row in
  let record' := row_record row' in
  (rec_id record' = rec_id record /\
   rec_createdAt record' = rec_createdAt record /\
   rec_zoteroItemID record' = draft_zoteroItemID draft /\
   rec_recordType record' = literature) /\
  (rec_title record' = draft_title draft' /\
   rec_authors record' = draft_authors draft' /\
   rec_journal record' = draft_journal draft' /\
   rec_publicationDate record' = draft_publicationDate draft' /\
   rec_abstractText record' = draft_abstractText draft' /\
   rec_pdfAnnotationNotesText record' = draft_pdfAnnotationNotesText draft' /\
   rec_researchBackground record' = draft_researchBackground draft' /\
   rec_literatureReview record' = draft_literatureReview draft' /\
   rec_researchMethods record' = draft_researchMethods draft' /\
   rec_researchConclusions record' = draft_researchConclusions draft' /\
   rec_keyFindings record'
     = firstn 200 (filter truthy (map trim (draft_keyFindings draft'))) /\
   rec_classificationTags record'
     = firstn 200
         (filter truthy (map trim (draft_classificationTags draft'))) /\
   rec_aiProvider record' = draft_aiProvider draft' /\
   rec_aiModel record' = draft_aiModel draft' /\
   rec_rawAIResponse record' = draft_rawAIResponse draft' /\
   rec_updatedAt record' = now') /\
  (rec_sourceRecordIDs record' = [] /\
   rec_sourceZoteroItemIDs record' = []) /\
  In record' (records (memory second)) /\
  map rec_id (records (memory second)) = map rec_id (records (memory first)) /\
  List.length (records (memory second)) = List.length (records (memory first))
  /\
  List.length (filter ofItem (records (memory second)))
    = List.length (filter ofItem (records (memory first))) /\
  ((List.length (filter ofItem (records (opened now file))) <= 1)%nat ->
   List.length (filter ofItem (records (memory second))) = 1%nat) /\
  disk second = Some (memory second).
Proof.
  intros Hnow Hitem Hfirst Hsecond first second ofItem record record'.
  destruct (upsertReviewRecord_twice now now' draft draft' folderID folderID'
              file row row' Hnow Hitem Hfirst Hsecond)
    as (Hrow & Hin & Hids & Hdisk & Hcount & Hone).
  fold first in Hin, Hids, Hdisk, Hcount, Hone.
  fold second in Hin, Hids, Hdisk, Hcount. fold ofItem in Hcount, Hone.
  fold record in Hrow. fold record' in Hrow, Hin.
  split; [rewrite Hrow; cbn; repeat split|].
  split; [rewrite Hrow; cbn; repeat split|].
  split; [rewrite Hrow; cbn; repeat split|].
  split; [exact Hin|]. split; [exact Hids|].
  split; [now rewrite <- (length_map rec_id), Hids, length_map|].
  split; [exact Hcount|]. split; [|exact Hdisk].
  intros Hle. rewrite Hcount. now apply Hone.
Qed.

(** The paper, then its revision, on an empty store. *)
Lemma upsert_twice_updates_in_place_witness :
  List.length
    (records
       (memory (upsertReviewRecord tuesday revised FolderNull
                  (disk (upsertReviewRecord monday paper FolderUndefined
                           None))))) = 1%nat /\
  exists row',
    result (upsertReviewRecord tuesday revised FolderNull
              (disk (upsertReviewRecord monday paper FolderUndefined None)))
      = Returned row' /\
    rec_id (row_record row') = 1%Z /\
    rec_createdAt (row_record row') = monday /\
    rec_updatedAt (row_record row') = tuesday /\
    rec_title (row_record row') = draft_title revised /\
    rec_authors (row_record row') = draft_authors revised /\
    rec_rawAIResponse (row_record row') = draft_rawAIResponse revised.
Proof.
  destruct (result (upsertReviewRecord monday paper FolderUndefined None))
    as [row|] eqn:Hfirst; [|vm_compute in Hfirst; discriminate].
  destruct (result (upsertReviewRecord tuesday revised FolderNull
                      (disk (upsertReviewRecord monday paper FolderUndefined
                               None))))
    as [row'|] eqn:Hsecond; [|vm_compute in Hsecond; discriminate].
  assert (Hnow : monday <> EmptyString) by discriminate.
  assert (Hitem : draft_zoteroItemID revised = draft_zoteroItemID paper)
    by reflexivity.
  destruct (upsert_twice_updates_in_place monday tuesday paper revised
              FolderUndefined FolderNull None row row' Hnow Hitem Hfirst
              Hsecond)
    as ((Hid & Hcreated & _) & Hcontent & _ & _ & _ & Hlength & _).
  destruct Hcontent as (Htitle & Hauthors & _ & _ & _ & _ & _ & _ & _ & _ & _
                        & _ & _ & _ & Hraw & Hupdated).
  assert (Hr : row_record row = recordOfDraft 1 7 paper monday monday)
    by (vm_compute in Hfirst; now injection Hfirst as <-).
  split.
  - rewrite Hlength. vm_compute. reflexivity.
  - exists row'. split; [reflexivity|].
    rewrite Hid, Hcreated, Hr. repeat split; assumption.
Defined.




(** C4 (protected folder), as the code has it.  When a folder of the store
    is the default folder, [deleteReviewFolder] of it throws,
    [mergeReviewFolders] of folders among which it is throws, and
    [removeReviewRecordsFromFolder] from it throws when at least one positive
    record id is given; with no such id it returns without an error.  After
    each of these calls the file is as the load made at the start of the call
    left it: unchanged when there was a store to read. *)
Theorem protected_folder_is_kept now file folderID folder :
  findFolderByID (opened now file) folderID = Some folder ->
  folder_name folder = DEFAULT_FOLDER_NAME ->
  (exists message,
     result (deleteReviewFolder now folderID file) = Thrown message /\
     disk (deleteReviewFolder now folderID file) = afterLoad now file) /\
  (forall folderIDs newFolderName,
     In folderID folderIDs ->
     exists message,
       result (mergeReviewFolders now folderIDs newFolderName file)
         = Thrown message /\
       disk (mergeReviewFolders now folderIDs newFolderName file)
         = afterLoad now file) /\
  (forall recordIDs,
     normalizeIDList recordIDs <> [] ->
     exists message,
       result (removeReviewRecordsFromFolder now recordIDs folderID file)
         = Thrown message /\
       disk (removeReviewRecordsFromFolder now recordIDs folderID file)
         = afterLoad now file) /\
  (forall recordIDs,
     normalizeIDList recordIDs = [] ->
     result (removeReviewRecordsFromFolder now recordIDs folderID file)
       = Returned tt /\
     disk (removeReviewRecordsFromFolder now recordIDs folderID file)
       = afterLoad now file) /\
  (forall raw, file = Some raw -> afterLoad now file = file).
Proof.
  intros Hfound Hname. split; [|split; [|split; [|split]]].
  - exact (deleteReviewFolder_protected now folderID file folder Hfound Hname).
  - intros folderIDs newFolderName Hin.
    exact (mergeReviewFolders_protected now folderIDs newFolderName file
             folderID folder Hin Hfound Hname).
  - intros recordIDs Hids.
    exact (removeReviewRecordsFromFolder_protected now recordIDs folderID file
             folder Hids Hfound Hname).
  - intros recordIDs Hids.
    exact (removeReviewRecordsFromFolder_idle now recordIDs folderID file Hids).
  - now intros raw ->.
Qed.

(** The default folder of the filed paper. *)
Lemma protected_folder_is_kept_witness :
  (exists message,
     result (deleteReviewFolder wednesday 1 filed) = Thrown message /\
     disk (deleteReviewFolder wednesday 1 filed) = filed) /\
  (exists message,
     result (mergeReviewFolders wednesday [2; 1] "All" filed)
       = Thrown message) /\
  (exists message,
     result (removeReviewRecordsFromFolder wednesday [1] 1 filed)
       = Thrown message).
Proof.
  assert (Hfound : findFolderByID (opened wednesday filed) 1
                   = Some {| folder_id := 1;
                             folder_name := DEFAULT_FOLDER_NAME;
                             folder_createdAt := monday;
                             folder_updatedAt := monday |})
    by (vm_compute; reflexivity).
  destruct (protected_folder_is_kept wednesday filed 1 _ Hfound eq_refl)
    as ((message & Hthrown & Hdisk) & Hmerge & Hremove & _).
  split; [|split].
  - exists message. split; [exact Hthrown|]. rewrite Hdisk.
    vm_compute. reflexivity.
  - destruct (Hmerge [2; 1] "All") as (m & Hm & _); [right; now left|].
    now exists m.
  - destruct (Hremove [1]) as (m & Hm & _); [vm_compute; discriminate|].
    now exists m.
Defined.

(** Removing no record from the default folder returns without an error, and
    a call on a missing file leaves the initial store written. *)
Lemma removing_nothing_from_default_returns :
  (exists folder,
     findFolderByID (opened monday None) 1 = Some folder /\
     folder_name folder = DEFAULT_FOLDER_NAME) /\
  result (removeReviewRecordsFromFolder monday [] 1 None) = Returned tt /\
  (exists message,
     result (deleteReviewFolder monday 1 None) = Thrown message) /\
  disk (deleteReviewFolder monday 1 None) <> None.
Proof.
  split; [|split; [|split]].
  - exists {| folder_id := 1; folder_name := DEFAULT_FOLDER_NAME;
              folder_createdAt := monday; folder_updatedAt := monday |}.
    split; [vm_compute|]; reflexivity.
  - vm_compute. reflexivity.
  - exists ("系统文件夹不可删除：" ++ DEFAULT_FOLDER_NAME)%string.
    vm_compute. reflexivity.
  - vm_compute. discriminate.
Qed.

Lemma length_uniq_two l a b :
  In a l -> In b l -> a <> b -> (2 <= List.length (uniq l))%nat.
Proof.
  intros Ha Hb Hab.
  apply (uniq_In l) in Ha. apply (uniq_In l) in Hb.
  destruct (uniq l) as [|x [|y rest]]; cbn [List.length]; [easy | | lia].
  destruct Ha as [<-|[]]. destruct Hb as [<-|[]]. now contradiction Hab.
Qed.

Lemma filter_filterMap_nil {A B : Type} (f : A -> option B) (p : B -> bool) l :
  (forall x y, In x l -> f x = Some y -> p y = false) ->
  filter p (filterMap f l) = [].
Proof.
  induction l as [|x l IH]; intros H; [reflexivity|].
  cbn [filterMap]. destruct (f x) as [y|] eqn:Hfx.
  - cbn [filter]. rewrite (H x y (or_introl eq_refl) Hfx).
    apply IH. intros x' y' Hin. apply H. now right.
  - apply IH. intros x' y' Hin. apply H. now right.
Qed.

(** [mergeReviewFolders] looks no id up before it merges: the ids that are
    ids of no folder are dropped. *)
Lemma mergeReviewFolders_returns now folderIDs newFolderName file a b :
  In a folderIDs -> In b folderIDs -> a <> 0 -> b <> 0 -> a <> b ->
  (forall id folder,
     In id folderIDs -> findFolderByID (opened now file) id = Some folder ->
     folder_name folder <> DEFAULT_FOLDER_NAME) ->
  isEmpty (normalizeFolderName newFolderName) = false ->
  exists target,
    result (mergeReviewFolders now folderIDs newFolderName file)
    = Returned target /\
    (findFolderByName (opened now file) (normalizeFolderName newFolderName)
     = Some target \/
     folder_name target = normalizeFolderName newFolderName) /\
    disk (mergeReviewFolders now folderIDs newFolderName file)
    = Some (memory (mergeReviewFolders now folderIDs newFolderName file)).
Proof.
  intros Ha Hb Ha0 Hb0 Hab Hplain Hname.
  unfold mergeReviewFolders. rewrite openStore_eq.
  set (validIDs := uniq _).
  assert (Hlen : (List.length validIDs <? 2)%nat = false).
  { apply Nat.ltb_ge. apply (length_uniq_two _ a b); [| |exact Hab];
      apply filter_In; (split; [assumption|]);
      now apply negb_true_iff, Z.eqb_neq. }
  rewrite Hlen.
  rewrite filter_filterMap_nil.
  2:{ intros id folder Hin Hfound. unfold isProtectedName.
      apply String.eqb_neq. apply (Hplain id folder); [|exact Hfound].
      apply uniq_In, filter_In in Hin. tauto. }
  rewrite Hname.
  destruct (findFolderByName (opened now file)
              (normalizeFolderName newFolderName)) as [folder|].
  - eexists. split; [reflexivity|]. split; [now left | reflexivity].
  - cbn [allocateID]. eexists. split; [reflexivity|].
    split; [now right | reflexivity].
Qed.

(** C5 (nonexistent folder), as the code has it.  With an id that is the id
    of no folder of the store, [upsertReviewRecord] and
    [createFolderSummaryRecord] into it throw, and so do
    [assignReviewRecordsFolder] and [removeReviewRecordsFromFolder] when at
    least one positive record id is given; with no such id both return
    without an error, and [deleteReviewFolder] returns without an error and
    leaves the store as loaded.  [mergeReviewFolders] of ids among which it
    is does not fail for it: given another id, neither being 0, no folder
    found under the ids given being named as the default folder, and a name
    that is not empty once trimmed, it returns the folder of that name, which
    it has found or made, and writes the store. *)
Theorem missing_folder_outcomes now file folderID :
  findFolderByID (opened now file) folderID = None ->
  (forall draft,
     result (upsertReviewRecord now draft (FolderNumber folderID) file)
       = Thrown missingFolder) /\
  (forall folderName summaryText sourceRows aiProvider aiModel,
     result (createFolderSummaryRecord now (FolderNumber folderID) folderName
               summaryText sourceRows aiProvider aiModel file)
       = Thrown missingFolder) /\
  (forall recordIDs,
     normalizeIDList recordIDs <> [] ->
     result (assignReviewRecordsFolder now recordIDs (FolderNumber folderID)
               file) = Thrown missingFolder /\
     result (removeReviewRecordsFromFolder now recordIDs folderID file)
       = Thrown missingFolder) /\
  (forall recordIDs,
     normalizeIDList recordIDs = [] ->
     result (assignReviewRecordsFolder now recordIDs (FolderNumber folderID)
               file) = Returned tt /\
     result (removeReviewRecordsFromFolder now recordIDs folderID file)
       = Returned tt) /\
  (result (deleteReviewFolder now folderID file) = Returned tt /\
   memory (deleteReviewFolder now folderID file) = opened now file /\
   disk (deleteReviewFolder now folderID file) = afterLoad now file) /\
  (forall folderIDs newFolderName other,
     In folderID folderIDs -> In other folderIDs ->
     folderID <> 0 -> other <> 0 -> folderID <> other ->
     (forall id folder,
        In id folderIDs -> findFolderByID (opened now file) id = Some folder ->
        folder_name folder <> DEFAULT_FOLDER_NAME) ->
     isEmpty (normalizeFolderName newFolderName) = false ->
     exists target,
       result (mergeReviewFolders now folderIDs newFolderName file)
       = Returned target /\
       (findFolderByName (opened now file) (normalizeFolderName newFolderName)
        = Some target \/
        folder_name target = normalizeFolderName newFolderName) /\
       disk (mergeReviewFolders now folderIDs newFolderName file)
       = Some (memory (mergeReviewFolders now folderIDs newFolderName file))).
Proof.
  intros Hnone. split; [|split; [|split; [|split; [|split]]]].
  - intros draft. apply upsertReviewRecord_missing. exact Hnone.
  - intros folderName summaryText sourceRows aiProvider aiModel.
    apply createFolderSummaryRecord_missing. exact Hnone.
  - intros recordIDs Hids. split.
    + now apply assignReviewRecordsFolder_missing.
    + now apply removeReviewRecordsFromFolder_missing.
  - intros recordIDs Hids. split.
    + now apply assignReviewRecordsFolder_idle.
    + now apply removeReviewRecordsFromFolder_idle.
  - exact (deleteReviewFolder_missing now folderID file Hnone).
  - intros folderIDs newFolderName other Hin Hother Hid Hoid Hne.
    intros Hplain Hname.
    now apply (mergeReviewFolders_returns now folderIDs newFolderName file
                 folderID other).
Qed.

(** Folder 99 of the filed paper's store. *)
Lemma missing_folder_outcomes_witness :
  result (upsertReviewRecord wednesday revised (FolderNumber 99) filed)
    = Thrown missingFolder /\
  result (assignReviewRecordsFolder wednesday [1] (FolderNumber 99) filed)
    = Thrown missingFolder /\
  result (deleteReviewFolder wednesday 99 filed) = Returned tt.
Proof.
  assert (Hnone : findFolderByID (opened wednesday filed) 99 = None)
    by (vm_compute; reflexivity).
  destruct (missing_folder_outcomes wednesday filed 99 Hnone)
    as (Hupsert & _ & Hgiven & _ & (Hdelete & _) & _).
  destruct (Hgiven [1]) as [Hassign _]; [vm_compute; discriminate|].
  split; [apply Hupsert|]. split; [exact Hassign | exact Hdelete].
Defined.

(** Deleting a folder that does not exist returns without an error, and so
    do removing no record from one and merging one with the folder
    "Robotics". *)
Lemma deleting_a_missing_folder_returns :
  findFolderByID (opened wednesday filed) 99 = None /\
  result (deleteReviewFolder wednesday 99 filed) = Returned tt /\
  result (removeReviewRecordsFromFolder wednesday [] 99 filed) = Returned tt /\
  result (assignReviewRecordsFolder wednesday [] (FolderNumber 99) filed)
    = Returned tt /\
  result (mergeReviewFolders wednesday [2; 99] "Merged" filed)
    = Returned {| folder_id := 3; folder_name := "Merged";
                  folder_createdAt := wednesday;
                  folder_updatedAt := wednesday |}.
Proof.
  split; [|split; [|split; [|split]]]; vm_compute; reflexivity.
Qed.

End StoreProperties.

(** ** Properties of the text chunker *)

Section ChunkerProperties.
Import JS Chunker.

(** C6 (chunk lengths), as the code has it.  A paragraph is cut only when it
    is longer than one and a half times the budget of 1200 characters, so
    every chunk has at most 1800 characters.  A text that is, once
    normalised, a single paragraph of 3000 characters gives the three slices
    of 1200 characters of the paragraph, trimmed, without those that are
    empty: at most three chunks, of at most 1200 characters.  A text of 3000
    characters, none of which is a white space character or the NUL
    character (which the normalisation turns into a space), is its three
    slices of 1200, 1200 and 600 characters. *)
Theorem chunks_within_one_and_a_half_budgets text :
  within 1800 (chunkTextForEmbedding text) /\
  (forall paragraph,
     paragraphsOf (normalizeAttachmentText text) = [paragraph] ->
     String.length paragraph = 3000 ->
     chunkTextForEmbedding text
     = filter truthy
         [trim (slice paragraph 0 1200); trim (slice paragraph 1200 2400);
          trim (slice paragraph 2400 3600)] /\
     List.length (chunkTextForEmbedding text) <= 3 /\
     within 1200 (chunkTextForEmbedding text)) /\
  (String.length text = 3000 -> solid text = true ->
   chunkTextForEmbedding text
     = [slice text 0 1200; slice text 1200 2400; slice text 2400 3600] /\
   map String.length (chunkTextForEmbedding text) = [1200; 1200; 600]).
Proof.
  split; [exact (chunkTextForEmbedding_within text)|]. split.
  - intros paragraph Hone Hlen.
    pose proof (chunkTextForEmbedding_paragraph_3000 text paragraph Hone Hlen)
      as Hchunks.
    split; [exact Hchunks|]. rewrite Hchunks. split.
    + etransitivity; [apply filter_length_le|]. cbn [List.length]. lia.
    + exact (within_trimmed_slices paragraph [0; 1200; 2400]).
  - intros Hlength Hsolid.
    pose proof (chunkTextForEmbedding_solid_3000 text Hlength Hsolid)
      as Hchunks.
    split; [exact Hchunks|]. rewrite Hchunks. cbn [map]. unfold slice.
    rewrite !length_substring, Hlength. reflexivity.
Qed.

(** 3000 times the letter a. *)
Lemma chunks_within_one_and_a_half_budgets_witness :
  map String.length (chunkTextForEmbedding (repeatChar "a" 3000))
  = [1200; 1200; 600].
Proof.
  destruct (chunks_within_one_and_a_half_budgets (repeatChar "a" 3000))
    as (_ & _ & Hsolid).
  apply Hsolid; vm_compute; reflexivity.
Defined.

(** A paragraph of 1500 characters is one chunk of 1500 characters; a
    paragraph of 1200 letters, 1200 spaces and 600 letters is two chunks. *)
Lemma paragraph_of_1500_is_one_chunk :
  map String.length (chunkTextForEmbedding (repeatChar "a" 1500)) = [1500] /\
  map String.length
    (chunkTextForEmbedding
       (repeatChar "a" 1200 ++ repeatChar " " 1200 ++ repeatChar "a" 600))
  = [1200; 600].
Proof. split; vm_compute; reflexivity. Qed.

End ChunkerProperties.

(** ** Properties of the vector ranker *)

Section RankerProperties.
Import JS Ranker.

(** The query and the candidates of the scenario; 0.7 is the binary64 number
    nearest to it. *)
Definition scenarioQuery : list float := [1%float; 0%float].

Definition scenarioChunks : list string := ["first"; "second"; "third"].

Definition scenarioVectors : list RawVector :=
  [ Some [1%float; 0%float];
    Some [0%float; 1%float];
    Some [0x1.6666666666666p-1%float; 0x1.6666666666666p-1%float] ].

Definition vectorAt (docVectorsRaw : list RawVector) (index : nat)
  : RawVector :=
  match nth_error docVectorsRaw index with
  | Some raw => raw
  | None => None
  end.

(** What a ranked candidate is: a chunk, at its place, with the cosine of
    the query and its vector. *)
Lemma rankFrom_entry queryVector docVectorsRaw chunks :
  forall from r,
  In r (rankFrom queryVector docVectorsRaw from chunks) ->
  from <= index r /\
  nth_error chunks (index r - from) = Some (text r) /\
  score r
  = cosineSimilarity queryVector
      (toNumericVector (vectorAt docVectorsRaw (index r))).
Proof.
  induction chunks as [|c rest IH]; intros from r Hr; [contradiction|].
  cbn [rankFrom] in Hr. fold (vectorAt docVectorsRaw from) in Hr.
  assert (Hrest : In r (rankFrom queryVector docVectorsRaw (S from) rest) ->
                  from <= index r /\
                  nth_error (c :: rest) (index r - from) = Some (text r) /\
                  score r
                  = cosineSimilarity queryVector
                      (toNumericVector (vectorAt docVectorsRaw (index r)))).
  { intros Hin. apply IH in Hin. destruct Hin as (Hle & Hnth & Hscore).
    split; [lia|]. split; [|exact Hscore].
    replace (index r - from) with (S (index r - S from)) by lia.
    exact Hnth. }
  destruct (toNumericVector (vectorAt docVectorsRaw from)) eqn:Hv;
    [now apply Hrest|].
  destruct Hr as [<-|Hr]; [|now apply Hrest].
  cbn [index text score]. rewrite Nat.sub_diag, Hv.
  split; [lia|]. split; reflexivity.
Qed.

Lemma toNumericVector_app (l1 l2 : list float) :
  toNumericVector (Some (l1 ++ l2)%list)
  = (toNumericVector (Some l1) ++ toNumericVector (Some l2))%list.
Proof. apply filter_app. Qed.

(** Every chunk whose vector keeps an entry is ranked. *)
Lemma rankFrom_complete queryVector docVectorsRaw chunks :
  forall from offset chunk,
  nth_error chunks offset = Some chunk ->
  toNumericVector (vectorAt docVectorsRaw (from + offset)) <> [] ->
  In {| index := from + offset; text := chunk;
        score := cosineSimilarity queryVector
                   (toNumericVector (vectorAt docVectorsRaw (from + offset))) |}
     (rankFrom queryVector docVectorsRaw from chunks).
Proof.
  induction chunks as [|first rest IH]; intros from offset chunk Hnth Hvector.
  - now destruct offset.
  - cbn [rankFrom]. fold (vectorAt docVectorsRaw from).
    destruct offset as [|offset]; cbn [nth_error] in Hnth.
    + injection Hnth as ->. rewrite Nat.add_0_r in *.
      destruct (toNumericVector (vectorAt docVectorsRaw from));
        [now destruct Hvector | now left].
    + rewrite <- Nat.add_succ_comm in *.
      pose proof (IH (S from) offset chunk Hnth Hvector) as Hin.
      destruct (toNumericVector (vectorAt docVectorsRaw from));
        [exact Hin | now right].
Qed.

(** Four candidates that point away from the query, then one that points
    as the query does.  For the first four the dot product overflows to
    minus infinity and the norm to infinity: their cosine is computed as
    [nan].  Every difference of two scores is then [nan], which the sort
    takes as 0: it moves nothing. *)
Definition hugeQuery : list float := [0x1p500%float; 0%float].
Definition hugeVectors : list RawVector :=
  [ Some [(-0x1p700)%float; 0%float]; Some [(-0x1p700)%float; 0%float];
    Some [(-0x1p700)%float; 0%float]; Some [(-0x1p700)%float; 0%float];
    Some [1%float; 0%float] ].
Definition fiveChunks : list string :=
  ["first"; "second"; "third"; "fourth"; "fifth"].

(** C7 (top-k in index order).  The candidates are the chunks whose vector
    keeps an entry, each at its place in the document and scored by the
    cosine of the query and its vector.  When the score of no candidate is
    [nan], [selectTop k] returns [k] of the candidates (all of them when
    there are fewer), in ascending order of their index in the document, and
    the score of every candidate left out is less than or equal to the score
    of every candidate selected.  For the query [1, 0], the candidates
    [1, 0], [0, 1] and [0.7, 0.7], and [k = 2], the selection is the
    candidates 0 and 2, in this order.  For the query [hugeQuery] and the
    candidates [hugeVectors] the scores are [nan] four times and then 1, no
    difference of two scores is other than [nan] or 0, and the selection of
    [EMBEDDING_TOP_K = 4] is the candidates 0 to 3: the candidate of score
    1 is left out. *)
Theorem selection_is_top_k_in_index_order :
  (forall k queryVector chunks docVectorsRaw,
     (forall r, In r (rankChunks queryVector chunks docVectorsRaw) ->
        is_nan (score r) = false) ->
     let ranked := rankChunks queryVector chunks docVectorsRaw in
     let selected := selectTop k ranked in
     (forall position chunk,
        nth_error chunks position = Some chunk ->
        toNumericVector (vectorAt docVectorsRaw position) <> [] ->
        In {| index := position; text := chunk;
              score := cosineFormula queryVector
                         (toNumericVector (vectorAt docVectorsRaw position)) |}
           ranked) /\
     (forall r, In r ranked ->
        nth_error chunks (index r) = Some (text r) /\
        toNumericVector (vectorAt docVectorsRaw (index r)) <> [] /\
        score r
        = cosineFormula queryVector
            (toNumericVector (vectorAt docVectorsRaw (index r)))) /\
     List.length selected = Nat.min k (List.length ranked) /\
     (forall r, In r selected -> In r ranked) /\
     StronglySorted (fun a b => index a < index b) selected /\
     (forall x y, In x selected -> In y ranked -> ~ In y selected ->
        (score y <=? score x)%float = true)) /\
  map index
    (selectTop 2 (rankChunks scenarioQuery scenarioChunks scenarioVectors))
  = [0; 2] /\
  (let ranked := rankChunks hugeQuery fiveChunks hugeVectors in
   let selected := selectExcerpts fiveChunks hugeVectors (Some hugeQuery) in
   map index ranked = [0; 1; 2; 3; 4] /\
   map (fun r => is_nan (score r)) ranked = [true; true; true; true; false] /\
   map score (skipn 4 ranked) = [1%float] /\
   forallb
     (fun a =>
        forallb
          (fun b =>
             is_nan (score b - score a) || is_zero (score b - score a))
          ranked)
     ranked = true /\
   map index selected = [0; 1; 2; 3] /\
   map (fun r => (1 <=? score r)%float) selected
   = [false; false; false; false]).
Proof.
  split; [|split; [vm_compute; reflexivity|]].
  2:{ cbv zeta. repeat split; vm_compute; reflexivity. }
  intros k queryVector chunks docVectorsRaw Hnumbers ranked selected.
  split.
  { intros position chunk Hnth Hvector.
    rewrite <- cosineSimilarity_formula.
    exact (rankFrom_complete queryVector docVectorsRaw chunks 0 position
             chunk Hnth Hvector). }
  split.
  { intros r Hr.
    destruct (rankFrom_entry queryVector docVectorsRaw chunks 0 r Hr)
      as (_ & Hnth & Hscore).
    rewrite Nat.sub_0_r in Hnth. split; [exact Hnth|].
    split; [|now rewrite <- cosineSimilarity_formula].
    exact (proj2 (rankFrom_index queryVector docVectorsRaw chunks 0 r Hr)). }
  split; [apply selectTop_length|]. split; [apply selectTop_incl|].
  split.
  - apply selectTop_ascending. apply rankFrom_NoDup.
  - apply selectTop_highest. apply Forall_forall. exact Hnumbers.
Qed.

(** The scenario: no score is [nan]; two candidates are selected, in the
    order of the document. *)
Lemma selection_is_top_k_in_index_order_witness :
  (forall r, In r (rankChunks scenarioQuery scenarioChunks scenarioVectors) ->
     is_nan (score r) = false) /\
  List.length
    (selectTop 2 (rankChunks scenarioQuery scenarioChunks scenarioVectors)) = 2
  /\
  StronglySorted (fun a b => index a < index b)
    (selectTop 2 (rankChunks scenarioQuery scenarioChunks scenarioVectors)).
Proof.
  assert (Hnumbers :
            forall r,
              In r (rankChunks scenarioQuery scenarioChunks scenarioVectors) ->
              is_nan (score r) = false).
  { intros r Hr. vm_compute in Hr.
    destruct Hr as [<-|[<-|[<-|[]]]]; vm_compute; reflexivity. }
  split; [exact Hnumbers|].
  destruct (proj1 selection_is_top_k_in_index_order 2 scenarioQuery
              scenarioChunks scenarioVectors Hnumbers)
    as (_ & _ & Hlength & _ & Hsorted & _).
  split; [exact Hlength | exact Hsorted].
Defined.

Lemma length_rankFrom queryVector docVectorsRaw chunks :
  forall from,
  List.length (rankFrom queryVector docVectorsRaw from chunks)
  <= List.length chunks.
Proof.
  induction chunks as [|first rest IH]; intros from; [apply Nat.le_refl|].
  cbn [rankFrom List.length]. specialize (IH (S from)).
  destruct (toNumericVector _); cbn [List.length]; lia.
Qed.

Lemma selectTop_all k ranked r :
  List.length ranked <= k -> In r ranked -> In r (selectTop k ranked).
Proof.
  intros Hk Hin.
  apply (Permutation_in r (Permutation_sym (selectTop_perm k ranked))).
  rewrite firstn_all2.
  - now apply (Permutation_in r (Permutation_sym (sortBy_perm lowerScore ranked))).
  - now rewrite (Permutation_length (sortBy_perm lowerScore ranked)).
Qed.

(** C8 (degenerate vectors), as the code has it.  [toNumericVector] takes
    what is not an array as the empty vector and removes from an array the
    entries that are not finite, keeping the others in order: the vector is
    empty only when no entry is finite.  A chunk is a candidate of the
    ranking exactly when that vector is not empty; its score is the cosine
    of the query and the vector, which is -1 when all entries of the vector
    are zero and is taken over the places both vectors have when their
    lengths differ.  Only candidates are selected; all of them are when
    there are at most [k]; and when no score is [nan], a candidate is
    selected as soon as at most [k] candidates, itself among them, have a
    score greater than or equal to its own. *)
Theorem candidates_without_finite_entry_are_excluded k queryVector chunks
    docVectorsRaw :
  let ranked := rankChunks queryVector chunks docVectorsRaw in
  let selected := selectTop k ranked in
  (toNumericVector None = [] /\
   (forall x,
      toNumericVector (Some [x]) = if is_finite x then [x] else []) /\
   (forall l1 l2 : list float,
      toNumericVector (Some (l1 ++ l2)%list)
      = (toNumericVector (Some l1) ++ toNumericVector (Some l2))%list) /\
   (forall entries x,
      In x (toNumericVector (Some entries)) <->
      In x entries /\ is_finite x = true) /\
   (forall entries,
      Forall (fun x => is_finite x = true) entries ->
      toNumericVector (Some entries) = entries) /\
   (forall entries,
      toNumericVector (Some entries) = [] <->
      Forall (fun x => is_finite x = false) entries)) /\
  (forall position chunk,
     nth_error chunks position = Some chunk ->
     toNumericVector (vectorAt docVectorsRaw position) <> [] ->
     In {| index := position; text := chunk;
           score := cosineFormula queryVector
                      (toNumericVector (vectorAt docVectorsRaw position)) |}
        ranked) /\
  (forall r, In r ranked ->
     nth_error chunks (index r) = Some (text r) /\
     toNumericVector (vectorAt docVectorsRaw (index r)) <> [] /\
     score r
     = cosineFormula queryVector
         (toNumericVector (vectorAt docVectorsRaw (index r)))) /\
  (forall r, In r selected -> In r ranked) /\
  (List.length ranked <= k -> forall r, In r ranked -> In r selected) /\
  ((forall r, In r ranked -> is_nan (score r) = false) ->
   forall r, In r ranked ->
   List.length (filter (fun x => (score r <=? score x)%float) ranked) <= k ->
   In r selected) /\
  (forall a b,
     Forall (fun x => x = zero \/ x = neg_zero) b ->
     cosineFormula a b = (-1)%float) /\
  (forall a b,
     cosineFormula a b
     = cosineFormula
         (firstn (Nat.min (List.length a) (List.length b)) a)
         (firstn (Nat.min (List.length a) (List.length b)) b)).
Proof.
  intros ranked selected.
  split.
  { split; [reflexivity|]. split; [reflexivity|].
    split; [exact toNumericVector_app|].
    split; [intros entries x; apply filter_In|].
    split; [|exact toNumericVector_empty].
    intros entries Hfinite. apply filter_every.
    now apply Forall_forall. }
  split.
  { intros position chunk Hnth Hvector.
    rewrite <- cosineSimilarity_formula.
    exact (rankFrom_complete queryVector docVectorsRaw chunks 0 position
             chunk Hnth Hvector). }
  split.
  { intros r Hr.
    destruct (rankFrom_entry queryVector docVectorsRaw chunks 0 r Hr)
      as (_ & Hnth & Hscore).
    rewrite Nat.sub_0_r in Hnth. split; [exact Hnth|].
    split; [|now rewrite <- cosineSimilarity_formula].
    exact (proj2 (rankFrom_index queryVector docVectorsRaw chunks 0 r Hr)). }
  split; [apply selectTop_incl|].
  split; [intros Hk r Hr; now apply selectTop_all|].
  split.
  { intros Hnumbers r Hr Hcount.
    apply selectTop_among_best; [|exact Hr | exact Hcount].
    apply Forall_forall. exact Hnumbers. }
  split.
  - intros a b Hb. rewrite <- cosineSimilarity_formula.
    now apply cosineSimilarity_zero_norm.
  - intros a b. rewrite <- !cosineSimilarity_formula.
    apply cosineSimilarity_prefix.
Qed.

(** The first candidate of the scenario, whose score 1 is the highest, is
    selected for [k = 2]. *)
Lemma candidates_without_finite_entry_are_excluded_witness :
  In {| index := 0; text := "first"; score := 1%float |}
     (selectTop 2 (rankChunks scenarioQuery scenarioChunks scenarioVectors)).
Proof.
  destruct (candidates_without_finite_entry_are_excluded 2 scenarioQuery
              scenarioChunks scenarioVectors)
    as (_ & _ & _ & _ & _ & Hbest & _).
  apply Hbest.
  - intros r Hr. vm_compute in Hr.
    destruct Hr as [<-|[<-|[<-|[]]]]; vm_compute; reflexivity.
  - vm_compute. left. reflexivity.
  - vm_compute. lia.
Defined.

(** A candidate of zero norm is returned when fewer than [EMBEDDING_TOP_K]
    others are there; a candidate longer than the query is selected on the
    entries both have; a vector with an entry that is not a number keeps its
    other entries and is selected. *)
Lemma degenerate_candidates_are_selected :
  map index
    (selectExcerpts ["first"; "second"]
       [Some [1%float; 0%float]; Some [0%float; 0%float]]
       (Some [1%float; 0%float])) = [0; 1] /\
  map index
    (selectTop 1
       (rankChunks [1%float; 0%float] ["first"; "second"]
          [Some [0%float; 1%float]; Some [1%float; 0%float; 9%float]]))
  = [1] /\
  toNumericVector (Some [1%float; nan]) = [1%float] /\
  map index
    (selectTop 1
       (rankChunks [1%float; 0%float] ["first"; "second"]
          [Some [0%float; 1%float]; Some [1%float; nan]])) = [1].
Proof.
  split; [|split; [|split]]; vm_compute; reflexivity.
Qed.

End RankerProperties.

(** ** Properties of the prompt assembler *)

Section PromptProperties.
Import JS Prompt.

(** No character of the string is a dollar sign. *)
Fixpoint plain (s : string) : bool :=
  match s with
  | EmptyString => true
  | String c r => negb (Ascii.eqb c "$") && plain r
  end.

Lemma getSubstitution_plain matched before after replacement :
  plain replacement = true ->
  getSubstitution matched before after replacement = replacement.
Proof.
  induction replacement as [|c r IH]; [reflexivity|]. cbn [plain].
  intros H. apply andb_true_iff in H. destruct H as [Hc Hr].
  apply negb_true_iff in Hc. cbn [getSubstitution]. rewrite Hc.
  now rewrite (IH Hr).
Qed.

Lemma prefix_append r x : prefix r (r ++ x) = true.
Proof.
  induction r as [|c r IH]; [now destruct x|]. simpl.
  destruct (ascii_dec c c) as [_|Hne]; [exact IH | now destruct Hne].
Qed.

Lemma includes_unfold s t :
  includes s t
  = prefix t s
    || match s with
       | EmptyString => false
       | String _ r => includes r t
       end.
Proof. now destruct s. Qed.

Lemma includes_cons c s t : includes s t = true -> includes (String c s) t = true.
Proof. intros H. rewrite includes_unfold, H. apply orb_true_r. Qed.

Lemma includes_prefix s t : prefix t s = true -> includes s t = true.
Proof. intros H. now rewrite includes_unfold, H. Qed.

Lemma includes_append a b t : includes b t = true -> includes (a ++ b) t = true.
Proof.
  intros H. induction a as [|c a IH]; [exact H|]. cbn [append].
  now apply includes_cons.
Qed.

Lemma append_empty s : (s ++ EmptyString)%string = s.
Proof.
  induction s as [|c s IH]; [reflexivity|]. cbn [append]. now rewrite IH.
Qed.

Lemma includes_self s : includes s s = true.
Proof.
  apply includes_prefix. pose proof (prefix_append s EmptyString) as H.
  now rewrite append_empty in H.
Qed.

(** Where the pattern occurs, the result of the replacement holds a plain
    replacement in full. *)
Lemma replaceAllFrom_includes pattern replacement :
  pattern <> EmptyString -> plain replacement = true ->
  forall s before,
  includes s pattern = true ->
  includes (replaceAllFrom pattern replacement before 0 s) replacement = true.
Proof.
  intros Hpattern Hplain. induction s as [|c r IH]; intros before Hs.
  - rewrite includes_unfold in Hs. destruct pattern; [now destruct Hpattern|].
    discriminate.
  - cbn [replaceAllFrom]. rewrite includes_unfold in Hs.
    destruct (prefix pattern (String c r)).
    + rewrite getSubstitution_plain by exact Hplain.
      apply includes_prefix, prefix_append.
    + cbn [orb] in Hs. apply includes_cons. now apply IH.
Qed.

(** Where the pattern does not occur, the replacement changes nothing. *)
Lemma replaceAllFrom_absent pattern replacement :
  forall s before,
  includes s pattern = false ->
  replaceAllFrom pattern replacement before 0 s = s.
Proof.
  induction s as [|c r IH]; intros before Hs; [reflexivity|].
  cbn [replaceAllFrom]. rewrite includes_unfold in Hs.
  apply orb_false_iff in Hs. destruct Hs as [Hp Hr]. rewrite Hp.
  now rewrite IH.
Qed.

Lemma replaceAll_keeps pattern replacement s :
  pattern <> EmptyString -> plain replacement = true ->
  includes s replacement = true ->
  includes (replaceAll pattern replacement s) replacement = true.
Proof.
  intros Hpattern Hplain Hs. unfold replaceAll.
  destruct (includes s pattern) eqn:Hp.
  - now apply replaceAllFrom_includes.
  - now rewrite replaceAllFrom_absent.
Qed.

(** C10 (the prompt holds the source content).  [String.prototype.replace]
    reads the dollar patterns of the content it inserts, so the content is
    inserted in full only when it has no dollar sign: for such content the
    prompt of [buildPrompt] holds it whatever the template, and a template
    without placeholder is followed by the content, with or without dollar
    signs.  The content [US$$5] is inserted as [US$5] by [buildPrompt] and
    [buildFolderSummaryPrompt] alike. *)
Theorem prompt_holds_plain_content :
  (forall sourceContent customPromptTemplate,
     plain sourceContent = true ->
     includes (buildPrompt sourceContent customPromptTemplate) sourceContent
     = true) /\
  (forall sourceContent customPromptTemplate,
     isEmpty (trim customPromptTemplate) = false ->
     includes (trim customPromptTemplate) "{{sourceContent}}" = false ->
     includes (trim customPromptTemplate) "{{source_content}}" = false ->
     buildPrompt sourceContent customPromptTemplate
     = join newline
         [trim customPromptTemplate; ""; "文献信息如下："; sourceContent] /\
     includes (buildPrompt sourceContent customPromptTemplate) sourceContent
     = true) /\
  buildPrompt "US$$5" "Summarise: {{sourceContent}}" = "Summarise: US$5" /\
  includes (buildPrompt "US$$5" "Summarise: {{sourceContent}}") "US$$5" = false
  /\
  includes (buildPrompt "US$$5" "") "US$$5" = false /\
  buildFolderSummaryPrompt "Robotics" "US$$5"
    "{{folderName}}: {{recordsContent}}" = "Robotics: US$5".
Proof.
  assert (Hjoin : forall template sourceContent,
            includes
              (join newline [template; ""; "文献信息如下："; sourceContent])
              sourceContent = true).
  { intros template sourceContent. cbn [join].
    repeat apply includes_append. apply includes_self. }
  split; [|split; [|split; [|split; [|split]]]];
    try (vm_compute; reflexivity).
  - intros sourceContent customPromptTemplate Hplain. unfold buildPrompt.
    cbv zeta. destruct (isEmpty (trim customPromptTemplate)).
    + apply replaceAllFrom_includes;
        [discriminate | exact Hplain | vm_compute; reflexivity].
    + unfold test.
      destruct (includes (trim customPromptTemplate) "{{sourceContent}}")
        eqn:Hfirst; cbn [orb].
      * apply replaceAll_keeps; [discriminate | exact Hplain|].
        apply replaceAllFrom_includes; [discriminate | exact Hplain|].
        exact Hfirst.
      * destruct (includes (trim customPromptTemplate) "{{source_content}}")
          eqn:Hsecond.
        -- unfold replaceAll at 2. rewrite replaceAllFrom_absent by exact Hfirst.
           apply replaceAllFrom_includes; [discriminate | exact Hplain|].
           exact Hsecond.
        -- apply Hjoin.
  - intros sourceContent customPromptTemplate Hempty Hfirst Hsecond.
    unfold buildPrompt, test. cbv zeta. rewrite Hempty, Hfirst, Hsecond.
    cbn [orb]. split; [reflexivity | apply Hjoin].
Qed.

(** A template with the placeholder and a content without dollar sign. *)
Lemma prompt_holds_plain_content_witness :
  includes (buildPrompt "Title: Grasp planning" "Summarise: {{sourceContent}}")
           "Title: Grasp planning" = true.
Proof.
  apply (proj1 prompt_holds_plain_content). vm_compute. reflexivity.
Defined.

End PromptProperties.

(** ** Further properties *)

Section FurtherProperties.
Import JS Ranker Store.

(** The store an operation works on, once loaded and repaired, has a default
    folder, folders of distinct keys, a link for every record, no record in
    the default folder and in another one, and only links between a folder
    and a record it holds. *)
Theorem loaded_store_is_repaired now file :
  (exists defaultFolder,
     findFolderByName (opened now file) DEFAULT_FOLDER_NAME
     = Some defaultFolder) /\
  NoDup (map keyOf (folders (opened now file))) /\
  wellLinked (opened now file) /\
  (forall link, In link (recordFolderLinks (opened now file)) ->
     In (link_folderID link) (map folder_id (folders (opened now file))) /\
     In (link_recordID link) (map rec_id (records (opened now file)))).
Proof.
  destruct (opened_ready now file) as [defaultFolder Hready].
  split; [exists defaultFolder; exact (ready_default Hready)|].
  split; [exact (proj1 (proj2 (ready_tidy Hready)))|].
  split; [exact (ready_wellLinked defaultFolder _ Hready)|].
  intros link Hin. split.
  - exact (ready_link_folder Hready link Hin).
  - exact (ready_link_record Hready link Hin).
Qed.

(** At most [EMBEDDING_TOP_K] excerpts are selected, in the order of the
    document, each with a vector that has a finite entry. *)
Theorem excerpts_are_few_and_in_document_order chunks docVectorsRaw
    queryVectorRaw :
  List.length (selectExcerpts chunks docVectorsRaw queryVectorRaw)
    <= EMBEDDING_TOP_K /\
  StronglySorted (fun a b => index a < index b)
    (selectExcerpts chunks docVectorsRaw queryVectorRaw) /\
  (forall r, In r (selectExcerpts chunks docVectorsRaw queryVectorRaw) ->
     toNumericVector (vectorAt docVectorsRaw (index r)) <> []).
Proof.
  unfold selectExcerpts.
  destruct (List.length chunks <? 2);
    [split; [apply Nat.le_0_l | split; [constructor | intros r []]]|].
  destruct (toNumericVector queryVectorRaw) as [|q queryVector];
    [split; [apply Nat.le_0_l | split; [constructor | intros r []]]|].
  split; [rewrite selectTop_length; apply Nat.le_min_l|].
  split; [apply selectTop_ascending, rankFrom_NoDup|].
  intros r Hin. apply selectTop_incl in Hin.
  exact (proj2 (rankFrom_index (q :: queryVector) docVectorsRaw chunks 0 r Hin)).
Qed.

Lemma filter_same_length {A : Type} (keep : A -> bool) l x :
  List.length (filter keep l) = List.length l -> In x l -> keep x = true.
Proof.
  induction l as [|y l IH]; [intros _ []|]. cbn [filter].
  pose proof (filter_length_le keep l) as Hle.
  destruct (keep y) eqn:Hy; cbn [List.length]; intros Hlen [<-|Hin].
  - exact Hy.
  - apply IH; [lia | exact Hin].
  - lia.
  - lia.
Qed.

Local Open Scope Z_scope.

(** [deleteReviewRecords] of a record of the store removes it, and removes
    its id from the source lists of the records that stay. *)
Theorem deleted_records_leave_no_trace now recordIDs file id record :
  In id recordIDs ->
  In id (map rec_id (records (opened now file))) ->
  In record (records (memory (deleteReviewRecords now recordIDs file))) ->
  rec_id record <> id /\ ~ In id (rec_sourceRecordIDs record).
Proof.
  intros Hgiven Hexists. destruct (opened_ready now file) as [d Hready].
  pose proof (ready_record_positive d _ id Hready Hexists) as Hpos.
  unfold deleteReviewRecords. rewrite openStore_eq.
  set (effective := filter _ (normalizeIDList recordIDs)).
  assert (Heff : In id effective).
  { apply filter_In. split; [apply normalizeIDList_In; tauto|].
    now apply memZ_In. }
  destruct effective as [|e rest] eqn:Heq; [destruct Heff|].
  rewrite <- Heq in *. clear Heq. cbn [memory commit].
  unfold markStoreUpdated.
  cbn [records withStamps withRecords withLinks recordFolderLinks].
  intros Hin. apply in_map_iff in Hin. destruct Hin as (kept & <- & Hkept).
  apply filter_In in Hkept. destruct Hkept as [_ Hne].
  apply negb_true_iff, memZ_false in Hne.
  assert (Hid : forall removed,
            rec_id (pruneSources effective removed now kept) = rec_id kept).
  { intros removed. unfold pruneSources. now destruct (_ || _). }
  split; [rewrite Hid; intros Heq; apply Hne; now rewrite Heq|].
  unfold pruneSources. cbv zeta.
  match goal with |- context [if ?c then _ else _] => destruct c eqn:Hc end.
  - cbn [rec_sourceRecordIDs]. intros Hsrc. apply filter_In in Hsrc.
    destruct Hsrc as [_ Hout]. apply negb_true_iff, memZ_false in Hout.
    contradiction.
  - apply orb_false_iff in Hc. destruct Hc as [Hc _].
    apply negb_false_iff, Nat.eqb_eq in Hc. intros Hsrc.
    pose proof (filter_same_length _ _ id Hc Hsrc) as Hout.
    apply negb_true_iff, memZ_false in Hout. contradiction.
Qed.

(** The paper and a summary of its folder that names it as a source; then
    the paper is deleted. *)
Lemma deleted_records_leave_no_trace_witness :
  exists record,
    In record
       (records
          (memory
             (deleteReviewRecords "2024-01-04T09:00:00.000Z" [1]
                (disk (createFolderSummaryRecord Operations.wednesday
                         (FolderNumber 2) "Robotics" "A summary." [(1, 7)]
                         "provider" "model" Operations.filed))))) /\
    rec_id record = 2 /\ ~ In 1 (rec_sourceRecordIDs record).
Proof.
  destruct (records
              (memory
                 (deleteReviewRecords "2024-01-04T09:00:00.000Z" [1]
                    (disk (createFolderSummaryRecord Operations.wednesday
                             (FolderNumber 2) "Robotics" "A summary." [(1, 7)]
                             "provider" "model" Operations.filed)))))
    as [|record rest] eqn:Hrecords; [vm_compute in Hrecords; discriminate|].
  exists record. split; [now left|]. split.
  - vm_compute in Hrecords. now injection Hrecords as <- _.
  - apply (deleted_records_leave_no_trace "2024-01-04T09:00:00.000Z" [1]
             (disk (createFolderSummaryRecord Operations.wednesday
                      (FolderNumber 2) "Robotics" "A summary." [(1, 7)]
                      "provider" "model" Operations.filed)) 1 record).
    + now left.
    + vm_compute. left. reflexivity.
    + rewrite Hrecords. now left.
Defined.

(** On a store that does not exist yet the default folder takes the id 1 and
    the first folder created the id 2. *)
Theorem first_folder_has_id_2 :
  result (createReviewFolder "2024-01-01T09:00:00.000Z" "Robotics" None)
  = Returned {| folder_id := 2; folder_name := "Robotics";
                folder_createdAt := "2024-01-01T09:00:00.000Z";
                folder_updatedAt := "2024-01-01T09:00:00.000Z" |} /\
  map folder_id
    (folders
       (memory (createReviewFolder "2024-01-01T09:00:00.000Z" "Robotics" None)))
  = [1; 2].
Proof. split; vm_compute; reflexivity. Qed.

End FurtherProperties.

(** ** Queries and edits of the review store ([reviewStore.ts]) *)

Module Queries.
Import JS Store.
Local Open Scope Z_scope.

(** [ReviewListFilters], as [applyRecordFilters], [sortRecords] and
    [paginateRecords] read it.  An absent field is [None]; [search] absent
    is the empty string; [sortDir] is ["asc"] or not. *)
Inductive SortKey := byUpdatedAt | byTitle | byPublicationDate | byJournal.

Record ReviewListFilters := {
  filter_recordType : option ReviewRecordType;
  filter_folderID : option Z;
  filter_search : string;
  filter_sortKey : option SortKey;
  filter_ascending : bool;
  filter_limit : option Z;
  filter_offset : option Z }.

(** [String(n)] on an integer. *)
Definition showZ (z : Z) : string :=
  if z <? 0 then ("-" ++ decimal (Z.to_nat (- z)))%string
  else decimal (Z.to_nat z).

Definition recordTypeName (t : ReviewRecordType) : string :=
  match t with
  | literature => "literature"
  | folderSummary => "folderSummary"
  end.

Definition sameType (a b : ReviewRecordType) : bool :=
  Bool.eqb (isFolderSummary a) (isFolderSummary b).

(** [new Set(l)] on strings: the first occurrence of each, in order. *)
Fixpoint uniqStringsFrom (seen l : list string) : list string :=
  match l with
  | [] => []
  | x :: rest =>
      if existsb (String.eqb x) seen then uniqStringsFrom seen rest
      else x :: uniqStringsFrom (x :: seen) rest
  end.

(** [folderByID.get(id)] for the [Map] built from the folders in order: the
    last folder with the id wins. *)
Definition lastFolderName (store : JSONStoreData) (id : Z) : option string :=
  option_map folder_name
    (find (fun folder => folder_id folder =? id) (rev (folders store))).

Section Locale.

(** [a.localeCompare(b, "zh-CN")], left to the platform. *)
Variable localeCompare : string -> string -> Z.

(** The comparator of [sortFolderNames] is positive on [(a, b)]. *)
Definition namesAfter (a b : string) : bool :=
  let aDefault := String.eqb a DEFAULT_FOLDER_NAME in
  let bDefault := String.eqb b DEFAULT_FOLDER_NAME in
  if Bool.eqb aDefault bDefault then 0 <? localeCompare a b else bDefault.

Definition sortFolderNames (names : list string) : list string :=
  sortBy namesAfter (uniqStringsFrom [] (filter truthy (map trim names))).

(** [buildFolderNamesByRecordMap(store).get(recordID) || []] *)
Definition folderNamesOf (store : JSONStoreData) (recordID : Z)
  : list string :=
  match
    filterMap
      (fun link =>
         match lastFolderName store (link_folderID link) with
         | Some name => if isEmpty name then None else Some name
         | None => None
         end)
      (filter (fun link => link_recordID link =? recordID)
              (recordFolderLinks store))
  with
  | [] => []
  | names => sortFolderNames names
  end.

(** The text a search looks into. *)
Definition haystack (store : JSONStoreData) (row : JSONStoreRecord) : string :=
  toLowerCase
    (join (String LF EmptyString)
       [ rec_title row; rec_authors row; rec_journal row;
         rec_publicationDate row; rec_abstractText row;
         rec_pdfAnnotationNotesText row; rec_researchBackground row;
         rec_literatureReview row; rec_researchMethods row;
         rec_researchConclusions row;
         join "," (rec_keyFindings row);
         join "," (rec_classificationTags row);
         recordTypeName (rec_recordType row);
         join "," (map showZ (rec_sourceRecordIDs row));
         join "," (map showZ (rec_sourceZoteroItemIDs row));
         join "," (folderNamesOf store (rec_id row)) ]).

Definition applyRecordFilters (store : JSONStoreData)
    (records : list JSONStoreRecord) (filters : ReviewListFilters)
  : list JSONStoreRecord :=
  let rows := records in
  let rows :=
    match filter_recordType filters with
    | None => rows
    | Some wanted =>
        filter (fun row => sameType (rec_recordType row) wanted) rows
    end in
  let rows :=
    match filter_folderID filters with
    | None => rows
    | Some targetFolderID =>
        let allowed :=
          map link_recordID
            (filter (fun link => link_folderID link =? targetFolderID)
                    (recordFolderLinks store)) in
        filter (fun row => memZ (rec_id row) allowed) rows
    end in
  let q := toLowerCase (trim (filter_search filters)) in
  if isEmpty q then rows
  else filter (fun row => includes (haystack store row) q) rows.

End Locale.

Definition sortField (key : SortKey) (record : JSONStoreRecord) : string :=
  match key with
  | byUpdatedAt => rec_updatedAt record
  | byTitle => rec_title record
  | byPublicationDate => rec_publicationDate record
  | byJournal => rec_journal record
  end.

(** The comparator of [sortRecords] is positive on [(a, b)]. *)
Definition recordsAfter (key : SortKey) (ascending : bool)
    (a b : JSONStoreRecord) : bool :=
  match String.compare (toLowerCase (sortField key a))
                       (toLowerCase (sortField key b)) with
  | Lt => negb ascending
  | Gt => ascending
  | Eq => 0 <? rec_id b - rec_id a
  end.

Definition sortRecords (records : list JSONStoreRecord)
    (filters : ReviewListFilters) : list JSONStoreRecord :=
  let sortKey :=
    match filter_sortKey filters with Some key => key | None => byUpdatedAt end in
  sortBy (recordsAfter sortKey (filter_ascending filters)) records.

Definition normalizePositiveInteger (value : option Z) : option Z :=
  match value with
  | Some v => if 0 <? v then Some v else None
  | None => None
  end.

Definition normalizeNonNegativeInteger (value : option Z) : option Z :=
  match value with
  | Some v => if 0 <=? v then Some v else None
  | None => None
  end.

Definition paginateRecords {A : Type} (records : list A)
    (filters : ReviewListFilters) : list A :=
  let limit := normalizePositiveInteger (filter_limit filters) in
  let offset :=
    match normalizeNonNegativeInteger (filter_offset filters) with
    | Some v => v
    | None => 0
    end in
  match limit with
  | None => if 0 <? offset then skipn (Z.to_nat offset) records else records
  | Some limit =>
      firstn (Z.to_nat limit) (skipn (Z.to_nat offset) records)
  end.

Definition listReviewRecords (localeCompare : string -> string -> Z)
    (now : string) (filters : ReviewListFilters) (file : File)
  : Outcome (list ReviewRecordRow) :=
  let '(store, file) := openStore now file in
  let rows := applyRecordFilters localeCompare store (records store) filters in
  let rows := sortRecords rows filters in
  let rows := paginateRecords rows filters in
  leave (map (fun record => mapRecordWithFolders now store record false) rows)
        store file.

Definition countReviewRecords (localeCompare : string -> string -> Z)
    (now : string) (filters : ReviewListFilters) (file : File) : Outcome Z :=
  let '(store, file) := openStore now file in
  leave (Z.of_nat
           (List.length
              (applyRecordFilters localeCompare store (records store) filters)))
        store file.

Definition getReviewRecordByItemID (now : string) (zoteroItemID : Z)
    (file : File) : Outcome (option ReviewRecordRow) :=
  let '(store, file) := openStore now file in
  match find (isLiteratureOf zoteroItemID) (records store) with
  | None => leave None store file
  | Some record =>
      leave (Some (mapRecordWithFolders now store record true)) store file
  end.

Definition getReviewRecordByID (now : string) (id : Z) (file : File)
  : Outcome (option ReviewRecordRow) :=
  let '(store, file) := openStore now file in
  match find (fun row => rec_id row =? id) (records store) with
  | None => leave None store file
  | Some record =>
      leave (Some (mapRecordWithFolders now store record true)) store file
  end.

Definition listReviewFolders (now : string) (file : File)
  : Outcome (list JSONStoreFolder) :=
  let '(store, file) := openStore now file in
  leave (sortFolders (folders store)) store file.

(** The record with its raw response replaced; the body of a folder summary
    follows it. *)
Definition withEditedResponse (nextRaw timestamp : string)
    (r : JSONStoreRecord) : JSONStoreRecord :=
  {| rec_id := rec_id r; rec_zoteroItemID := rec_zoteroItemID r;
     rec_recordType := rec_recordType r; rec_title := rec_title r;
     rec_authors := rec_authors r; rec_journal := rec_journal r;
     rec_publicationDate := rec_publicationDate r;
     rec_abstractText := rec_abstractText r;
     rec_pdfAnnotationNotesText := rec_pdfAnnotationNotesText r;
     rec_researchBackground := rec_researchBackground r;
     rec_literatureReview :=
       if isFolderSummary (rec_recordType r) then nextRaw
       else rec_literatureReview r;
     rec_researchMethods := rec_researchMethods r;
     rec_researchConclusions := rec_researchConclusions r;
     rec_keyFindings := rec_keyFindings r;
     rec_classificationTags := rec_classificationTags r;
     rec_aiProvider := rec_aiProvider r; rec_aiModel := rec_aiModel r;
     rec_rawAIResponse := nextRaw;
     rec_sourceRecordIDs := rec_sourceRecordIDs r;
     rec_sourceZoteroItemIDs := rec_sourceZoteroItemIDs r;
     rec_createdAt := rec_createdAt r; rec_updatedAt := timestamp |}.

Definition updateReviewRecordRawResponse (now : string) (recordID : Z)
    (rawAIResponse : string) (file : File)
  : Outcome (option ReviewRecordRow) :=
  let '(store, file) := openStore now file in
  let test := fun row => rec_id row =? recordID in
  match find test (records store) with
  | None => leave None store file
  | Some record =>
      let change := withEditedResponse rawAIResponse now in
      let store :=
        withRecords store (updateFirst test change (records store)) in
      let done := commit now tt store in
      {| result :=
           Returned
             (Some (mapRecordWithFolders now (memory done) (change record)
                      true));
         memory := memory done; disk := disk done |}
  end.

Definition withEvents (s : JSONStoreData) (es : list JSONStoreEvent) :=
  {| schemaVersion := schemaVersion s; createdAt := createdAt s;
     updatedAt := updatedAt s; nextIDs := nextIDs s; folders := folders s;
     records := records s; recordFolderLinks := recordFolderLinks s;
     events := es |}.

(** [payloadJSON] is the text [safeJSONStringify(payload)] gave. *)
Definition trackReviewEvent (now eventName payloadJSON : string) (file : File)
  : Outcome unit :=
  let '(store, file) := openStore now file in
  let '(id, store) := allocateID store forEvent in
  let store :=
    withEvents store
      (events store ++
       [{| event_id := id;
           event_eventName := orElse (trim eventName) "unknown_event";
           event_payloadJSON := payloadJSON;
           event_createdAt := now |}]) in
  commit now tt store.

(** The test of the filter in [getTodayAIExtractionCount]. *)
Definition isExtractionOn (today : string) (e : JSONStoreEvent) : bool :=
  (String.eqb (event_eventName e) "ai_extraction_success"
   || String.eqb (event_eventName e) "ai_extraction_fail")
  && String.eqb (slice (event_createdAt e) 0 10) today.

Definition getTodayAIExtractionCount (now : string) (file : File)
  : Outcome Z :=
  let '(store, file) := openStore now file in
  let today := slice now 0 10 in
  leave (Z.of_nat (List.length (filter (isExtractionOn today) (events store))))
        store file.

End Queries.

Module StringOrder.

Lemma ascii_compare_refl c : Ascii.compare c c = Eq.
Proof. unfold Ascii.compare. apply N.compare_refl. Qed.

Lemma ascii_compare_trans a b c :
  Ascii.compare a b = Lt -> Ascii.compare b c = Lt -> Ascii.compare a c = Lt.
Proof.
  unfold Ascii.compare. rewrite !N.compare_lt_iff. apply N.lt_trans.
Qed.

Lemma compare_refl s : String.compare s s = Eq.
Proof.
  induction s as [|c s IH]; [reflexivity|]. cbn [String.compare].
  now rewrite ascii_compare_refl.
Qed.

Lemma compare_trans : forall a b c,
  String.compare a b = Lt -> String.compare b c = Lt ->
  String.compare a c = Lt.
Proof.
  induction a as [|x a IH]; intros [|y b] [|z c]; cbn [String.compare];
    try discriminate; try reflexivity.
  destruct (Ascii.compare x y) eqn:Hxy; try discriminate;
    destruct (Ascii.compare y z) eqn:Hyz; try discriminate; intros Hab Hbc.
  - apply Ascii.compare_eq_iff in Hxy, Hyz. subst.
    rewrite ascii_compare_refl. now apply (IH b c).
  - apply Ascii.compare_eq_iff in Hxy. subst. now rewrite Hyz.
  - apply Ascii.compare_eq_iff in Hyz. subst. now rewrite Hxy.
  - now rewrite (ascii_compare_trans x y z Hxy Hyz).
Qed.

Lemma compare_Gt a b : String.compare a b = Gt <-> String.compare b a = Lt.
Proof.
  rewrite (String.compare_antisym b a). destruct (String.compare a b);
    cbn [CompOpp]; split; congruence.
Qed.

Lemma compare_Eq a b : String.compare a b = Eq <-> a = b.
Proof.
  split; [apply String.compare_eq_iff | intros ->; apply compare_refl].
Qed.

End StringOrder.

Section RecordOrder.
Import JS Store Queries StringOrder.
Local Open Scope Z_scope.

(** [a] may stand before [b] under the key and the direction. *)
Definition inOrder (key : SortKey) (ascending : bool)
    (a b : JSONStoreRecord) : Prop :=
  match String.compare (toLowerCase (sortField key a))
                       (toLowerCase (sortField key b)) with
  | Lt => ascending = true
  | Gt => ascending = false
  | Eq => rec_id b <= rec_id a
  end.

Lemma recordsAfter_inOrder key ascending a b :
  recordsAfter key ascending a b = false <-> inOrder key ascending a b.
Proof.
  unfold recordsAfter, inOrder.
  destruct (String.compare _ _); destruct ascending; cbn [negb];
    rewrite ?Z.ltb_ge; split; intros; try congruence; try lia.
Qed.

Lemma inOrder_trans key ascending a b c :
  inOrder key ascending a b -> inOrder key ascending b c ->
  inOrder key ascending a c.
Proof.
  unfold inOrder.
  set (ka := toLowerCase (sortField key a)).
  set (kb := toLowerCase (sortField key b)).
  set (kc := toLowerCase (sortField key c)).
  destruct (String.compare ka kb) eqn:Hab;
    destruct (String.compare kb kc) eqn:Hbc; intros H1 H2;
    try (apply compare_Eq in Hab; rewrite Hab in *);
    try (apply compare_Eq in Hbc; rewrite <- Hbc in *);
    rewrite ?Hab, ?Hbc, ?compare_refl; try assumption; try lia;
    try congruence.
  - now rewrite (compare_trans ka kb kc Hab Hbc).
  - apply compare_Gt in Hab, Hbc.
    pose proof (compare_trans kc kb ka Hbc Hab) as H.
    apply compare_Gt in H. now rewrite H.
Qed.

Lemma inOrder_asym key ascending a b :
  ~ inOrder key ascending a b -> inOrder key ascending b a.
Proof.
  unfold inOrder.
  rewrite (String.compare_antisym (toLowerCase (sortField key a))).
  destruct (String.compare (toLowerCase (sortField key b)) _);
    cbn [CompOpp]; destruct ascending; intros H; try reflexivity;
    try lia; try (exfalso; apply H; reflexivity).
Qed.

(** [sortRecords] returns the records it is given, in the order of the key
    and the direction asked for; records with the same key stand by
    descending id. *)
Theorem sortRecords_sorts records filters :
  Permutation (sortRecords records filters) records /\
  StronglySorted
    (inOrder
       (match filter_sortKey filters with
        | Some key => key
        | None => byUpdatedAt
        end)
       (filter_ascending filters))
    (sortRecords records filters).
Proof.
  unfold sortRecords.
  set (key := match filter_sortKey filters with
              | Some key => key
              | None => byUpdatedAt
              end).
  set (ascending := filter_ascending filters).
  split; [apply Ranker.sortBy_perm|].
  assert (Hsorted : StronglySorted
            (Ranker.mayPrecede (recordsAfter key ascending))
            (sortBy (recordsAfter key ascending) records)).
  { apply (Ranker.sortBy_sorted (recordsAfter key ascending) (fun _ => True)).
    - intros a b _ _ Hab. apply recordsAfter_inOrder.
      apply inOrder_asym. intros H. apply recordsAfter_inOrder in H.
      congruence.
    - intros a b c _ _ _ Hab Hbc. apply recordsAfter_inOrder.
      apply recordsAfter_inOrder in Hab, Hbc.
      exact (inOrder_trans key ascending a b c Hab Hbc).
    - apply Forall_forall. intros; exact I. }
  clear - Hsorted. induction Hsorted as [|x l Hs IH Hx]; constructor.
  - exact IH.
  - apply Forall_forall. intros y Hy. rewrite Forall_forall in Hx.
    apply recordsAfter_inOrder. exact (Hx y Hy).
Qed.

End RecordOrder.

Section Pagination.
Import JS Store Queries StringOrder.
Local Open Scope Z_scope.

(** The filters that ask for a page and nothing else. *)
Definition pageOf (limit offset : option Z) : ReviewListFilters :=
  {| filter_recordType := None;
     filter_folderID := None;
     filter_search := EmptyString;
     filter_sortKey := None;
     filter_ascending := false;
     filter_limit := limit;
     filter_offset := offset |}.

(** A page of [limit] rows from [offset] on, followed by the rows from
    [offset + limit] on, is the rows from [offset] on; a page has at most
    [limit] rows; a limit that is not positive is no limit. *)
Theorem pages_tile_the_rows {A : Type} (rows : list A) page rest whole
    limit offset :
  0 < limit -> 0 <= offset ->
  filter_limit page = Some limit -> filter_offset page = Some offset ->
  filter_limit rest = None -> filter_offset rest = Some (offset + limit) ->
  filter_limit whole = None -> filter_offset whole = Some offset ->
  (paginateRecords rows page ++ paginateRecords rows rest)%list
    = paginateRecords rows whole /\
  Z.of_nat (List.length (paginateRecords rows page)) <= limit /\
  (forall unlimited,
     filter_offset unlimited = Some offset ->
     (exists given, filter_limit unlimited = Some given /\ given <= 0) ->
     paginateRecords rows unlimited = paginateRecords rows whole).
Proof.
  intros Hlimit Hoffset Hpl Hpo Hrl Hro Hwl Hwo.
  assert (Hfrom : forall filters from,
            0 <= from ->
            normalizePositiveInteger (filter_limit filters) = None ->
            filter_offset filters = Some from ->
            paginateRecords rows filters = skipn (Z.to_nat from) rows).
  { intros filters from Hfrom Hnone Hoff. unfold paginateRecords.
    rewrite Hnone, Hoff. cbn [normalizeNonNegativeInteger].
    destruct (0 <=? from) eqn:Hle; [|apply Z.leb_gt in Hle; lia].
    destruct (0 <? from) eqn:Hlt; [reflexivity|].
    apply Z.ltb_ge in Hlt. now replace from with 0 by lia. }
  assert (Hpage : paginateRecords rows page
                  = firstn (Z.to_nat limit) (skipn (Z.to_nat offset) rows)).
  { unfold paginateRecords. rewrite Hpl, Hpo.
    cbn [normalizePositiveInteger normalizeNonNegativeInteger].
    destruct (0 <? limit) eqn:Hlt; [|apply Z.ltb_ge in Hlt; lia].
    destruct (0 <=? offset) eqn:Hle; [reflexivity|].
    apply Z.leb_gt in Hle. lia. }
  assert (Hwhole : paginateRecords rows whole = skipn (Z.to_nat offset) rows).
  { apply Hfrom; [exact Hoffset | now rewrite Hwl | exact Hwo]. }
  assert (Hrest : paginateRecords rows rest
                  = skipn (Z.to_nat (offset + limit)) rows).
  { apply Hfrom; [lia | now rewrite Hrl | exact Hro]. }
  split; [|split].
  - rewrite Hpage, Hrest, Hwhole. rewrite Z2Nat.inj_add by lia.
    replace (skipn (Z.to_nat offset + Z.to_nat limit) rows)
      with (skipn (Z.to_nat limit) (skipn (Z.to_nat offset) rows))
      by (rewrite skipn_skipn; f_equal; lia).
    apply firstn_skipn.
  - rewrite Hpage, length_firstn. lia.
  - intros unlimited Hoff (given & Hgiven & Hle). rewrite Hwhole.
    apply Hfrom; [exact Hoffset | | exact Hoff].
    rewrite Hgiven. cbn [normalizePositiveInteger].
    destruct (0 <? given) eqn:Hlt; [apply Z.ltb_lt in Hlt; lia | reflexivity].
Qed.

(** Five rows: the page of two rows after the first, then the rest. *)
Lemma pages_tile_the_rows_witness :
  (paginateRecords [10; 20; 30; 40; 50] (pageOf (Some 2) (Some 1))
   ++ paginateRecords [10; 20; 30; 40; 50] (pageOf None (Some 3)))%list
  = paginateRecords [10; 20; 30; 40; 50] (pageOf None (Some 1)).
Proof.
  apply (pages_tile_the_rows [10; 20; 30; 40; 50] (pageOf (Some 2) (Some 1))
           (pageOf None (Some 3)) (pageOf None (Some 1)) 2 1);
    solve [lia | reflexivity].
Defined.

End Pagination.

Section FolderOrder.
Import JS Store Queries StringOrder.
Local Open Scope Z_scope.

(** [a] may stand before [b] in the list of folders: the folders named as
    the default folder first, then by name in lower case, then by id. *)
Definition folderOrder (a b : JSONStoreFolder) : Prop :=
  let aDefault := String.eqb (folder_name a) DEFAULT_FOLDER_NAME in
  let bDefault := String.eqb (folder_name b) DEFAULT_FOLDER_NAME in
  if Bool.eqb aDefault bDefault then
    match String.compare (toLowerCase (folder_name a))
                         (toLowerCase (folder_name b)) with
    | Lt => True
    | Gt => False
    | Eq => folder_id a <= folder_id b
    end
  else aDefault = true.

Lemma sortsAfter_folderOrder a b :
  sortsAfter a b = false <-> folderOrder a b.
Proof.
  unfold sortsAfter, folderOrder. cbv zeta.
  destruct (String.eqb (folder_name a) DEFAULT_FOLDER_NAME),
           (String.eqb (folder_name b) DEFAULT_FOLDER_NAME); cbn [Bool.eqb];
    try (split; congruence);
    destruct (String.compare _ _); rewrite ?Z.ltb_ge;
    split; intros; try congruence; try lia; try exact I; try contradiction.
Qed.

Lemma folderOrder_trans a b c :
  folderOrder a b -> folderOrder b c -> folderOrder a c.
Proof.
  unfold folderOrder. cbv zeta.
  set (ka := toLowerCase (folder_name a)).
  set (kb := toLowerCase (folder_name b)).
  set (kc := toLowerCase (folder_name c)).
  destruct (String.eqb (folder_name a) DEFAULT_FOLDER_NAME),
           (String.eqb (folder_name b) DEFAULT_FOLDER_NAME),
           (String.eqb (folder_name c) DEFAULT_FOLDER_NAME); cbn [Bool.eqb];
    try congruence; try (intros; reflexivity);
    (destruct (String.compare ka kb) eqn:Hab;
     destruct (String.compare kb kc) eqn:Hbc; intros H1 H2;
     try contradiction;
     try (apply compare_Eq in Hab; rewrite Hab in * );
     try (apply compare_Eq in Hbc; rewrite <- Hbc in * );
     rewrite ?Hab, ?Hbc, ?compare_refl; try exact I; try lia;
     try (now rewrite (compare_trans ka kb kc Hab Hbc))).
Qed.

Lemma folderOrder_asym a b : ~ folderOrder a b -> folderOrder b a.
Proof.
  unfold folderOrder. cbv zeta.
  rewrite (String.compare_antisym (toLowerCase (folder_name a))).
  destruct (String.eqb (folder_name a) DEFAULT_FOLDER_NAME),
           (String.eqb (folder_name b) DEFAULT_FOLDER_NAME); cbn [Bool.eqb];
    try (intros H; try reflexivity; exfalso; apply H; reflexivity);
    destruct (String.compare (toLowerCase (folder_name b)) _);
    cbn [CompOpp]; intros H; try exact I; try lia;
    try (exfalso; apply H; exact I).
Qed.

Lemma sortFolders_sorted fs : StronglySorted folderOrder (sortFolders fs).
Proof.
  assert (Hsorted : StronglySorted (Ranker.mayPrecede sortsAfter)
                      (sortBy sortsAfter fs)).
  { apply (Ranker.sortBy_sorted sortsAfter (fun _ => True)).
    - intros a b _ _ Hab. apply sortsAfter_folderOrder.
      apply folderOrder_asym. intros H. apply sortsAfter_folderOrder in H.
      congruence.
    - intros a b c _ _ _ Hab Hbc. apply sortsAfter_folderOrder.
      apply sortsAfter_folderOrder in Hab, Hbc.
      exact (folderOrder_trans a b c Hab Hbc).
    - apply Forall_forall. intros; exact I. }
  unfold sortFolders. clear - Hsorted.
  induction Hsorted as [|x l Hs IH Hx]; constructor; [exact IH|].
  apply Forall_forall. intros y Hy. rewrite Forall_forall in Hx.
  apply sortsAfter_folderOrder. exact (Hx y Hy).
Qed.

(** [listReviewFolders] returns the folders of the store, the folders named
    as the default folder first, the others by name in lower case and then
    by id; there is always at least one; nothing is written beyond what the
    load writes. *)
Theorem folders_are_listed_default_first now file :
  exists rows,
    result (listReviewFolders now file) = Returned rows /\
    Permutation rows (folders (opened now file)) /\
    StronglySorted folderOrder rows /\
    (exists first others, rows = first :: others /\
       forall g, In g rows -> folder_name g = DEFAULT_FOLDER_NAME ->
       folder_name first = DEFAULT_FOLDER_NAME) /\
    disk (listReviewFolders now file) = afterLoad now file.
Proof.
  unfold listReviewFolders. rewrite openStore_eq. cbn [result disk leave].
  exists (sortFolders (folders (opened now file))).
  pose proof (sortFolders_sorted (folders (opened now file))) as Hsorted.
  assert (Hperm : Permutation (sortFolders (folders (opened now file)))
                              (folders (opened now file)))
    by apply Ranker.sortBy_perm.
  split; [reflexivity|]. split; [exact Hperm|]. split; [exact Hsorted|].
  split; [|reflexivity].
  destruct (sortFolders (folders (opened now file))) as [|first others]
    eqn:Hrows.
  - destruct (opened_ready now file) as [d Hready].
    destruct (ready_default_key d _ Hready) as [Hin _].
    apply (Permutation_in _ (Permutation_sym Hperm)) in Hin. destruct Hin.
  - exists first, others. split; [reflexivity|].
    intros g [<-|Hin] Hg; [exact Hg|].
    inversion Hsorted as [|? ? _ Hfirst]; subst.
    rewrite Forall_forall in Hfirst. specialize (Hfirst g Hin).
    unfold folderOrder in Hfirst. cbv zeta in Hfirst.
    apply String.eqb_eq in Hg. rewrite Hg in Hfirst.
    destruct (String.eqb (folder_name first) DEFAULT_FOLDER_NAME) eqn:Hf;
      cbn [Bool.eqb] in Hfirst; [now apply String.eqb_eq | discriminate].
Qed.

End FolderOrder.

Module Reload.
Import JS Store Queries.
Local Open Scope Z_scope.

Lemma filter_all {A : Type} (keep : A -> bool) l :
  (forall x, In x l -> keep x = true) -> filter keep l = l.
Proof.
  induction l as [|x l IH]; intros H; [reflexivity|]. cbn [filter].
  rewrite (H x (or_introl eq_refl)). f_equal. apply IH.
  intros y Hy. apply H. now right.
Qed.

Lemma map_fixed {A : Type} (f : A -> A) l :
  (forall x, In x l -> f x = x) -> map f l = l.
Proof.
  induction l as [|x l IH]; intros H; [reflexivity|]. cbn [map].
  rewrite (H x (or_introl eq_refl)). f_equal. apply IH.
  intros y Hy. apply H. now right.
Qed.

Lemma In_firstn_list {A : Type} (x : A) n l : In x (firstn n l) -> In x l.
Proof.
  revert l. induction n as [|n IH]; intros [|y l]; cbn [firstn];
    try contradiction.
  intros [<-|H]; [now left | right; now apply IH].
Qed.

Lemma normalizeStringArray_idempotent value :
  normalizeStringArray (normalizeStringArray value)
  = normalizeStringArray value.
Proof.
  unfold normalizeStringArray.
  set (kept := filter truthy (map trim value)).
  assert (Hkept : forall y, In y (firstn 200 kept) ->
            trim y = y /\ truthy y = true).
  { intros y Hy. apply In_firstn_list in Hy. apply filter_In in Hy.
    destruct Hy as [Hy Ht]. apply in_map_iff in Hy.
    destruct Hy as (x & <- & _). split; [apply trim_idempotent | exact Ht]. }
  rewrite (map_fixed trim) by (intros y Hy; now apply Hkept).
  rewrite (filter_all truthy) by (intros y Hy; now apply Hkept).
  rewrite firstn_firstn. f_equal.
Qed.

Lemma uniqFrom_NoDup l : forall seen, NoDup (uniqFrom seen l).
Proof.
  induction l as [|x l IH]; intros seen; cbn [uniqFrom]; [constructor|].
  destruct (memZ x seen); [apply IH|]. constructor; [|apply IH].
  rewrite uniqFrom_In. intros [_ H]. apply H. now left.
Qed.

Lemma uniqFrom_fixed l : forall seen,
  NoDup l -> (forall x, In x l -> ~ In x seen) -> uniqFrom seen l = l.
Proof.
  induction l as [|x l IH]; intros seen Hnd Hseen; [reflexivity|].
  cbn [uniqFrom]. inversion Hnd as [|? ? Hx Hl]; subst.
  replace (memZ x seen) with false
    by (symmetry; apply memZ_false, Hseen; now left).
  f_equal. apply IH; [exact Hl|].
  intros y Hy [<-|Hin]; [contradiction|].
  apply (Hseen y); [now right | exact Hin].
Qed.

Lemma normalizeIDList_idempotent ids :
  normalizeIDList (normalizeIDList ids) = normalizeIDList ids.
Proof.
  unfold normalizeIDList at 1.
  rewrite filter_all.
  - unfold uniq. apply uniqFrom_fixed; [apply uniqFrom_NoDup|].
    intros x _ [].
  - intros x Hx. apply normalizeIDList_In in Hx. now apply Z.ltb_lt.
Qed.

(** A record as [normalizeReviewRecord] leaves it. *)
Definition normalized (r : JSONStoreRecord) : Prop :=
  0 < rec_id r /\
  normalizeStringArray (rec_keyFindings r) = rec_keyFindings r /\
  normalizeStringArray (rec_classificationTags r) = rec_classificationTags r /\
  normalizeIDList (rec_sourceRecordIDs r) = rec_sourceRecordIDs r /\
  normalizeIDList (rec_sourceZoteroItemIDs r) = rec_sourceZoteroItemIDs r /\
  rec_createdAt r <> EmptyString /\ rec_updatedAt r <> EmptyString.

Lemma normalizeReviewRecord_fixed now r :
  normalized r -> normalizeReviewRecord now r = Some r.
Proof.
  intros (Hid & Hk & Ht & Hs & Hz & Hc & Hu). unfold normalizeReviewRecord.
  replace (rec_id r <=? 0) with false by (symmetry; now apply Z.leb_gt).
  rewrite Hk, Ht, Hs, Hz, (orElse_keeps _ _ Hc), (orElse_keeps _ _ Hu).
  now destruct r.
Qed.

Lemma normalizeReviewRecord_normalized now value r :
  now <> EmptyString -> normalizeReviewRecord now value = Some r ->
  normalized r.
Proof.
  intros Hnow. unfold normalizeReviewRecord.
  destruct (rec_id value <=? 0) eqn:Hid; [discriminate|].
  apply Z.leb_gt in Hid. intros [= <-]. unfold normalized.
  cbn [rec_id rec_keyFindings rec_classificationTags rec_sourceRecordIDs
       rec_sourceZoteroItemIDs rec_createdAt rec_updatedAt].
  rewrite !normalizeStringArray_idempotent, !normalizeIDList_idempotent.
  repeat (split; [assumption || reflexivity|]).
  split; apply orElse_nonempty; [exact Hnow|].
  now apply orElse_nonempty.
Qed.

Lemma opened_normalized_records now file r :
  now <> EmptyString -> In r (records (opened now file)) -> normalized r.
Proof.
  intros Hnow. rewrite opened_records. destruct file as [raw|]; [|intros []].
  intros Hin. apply filterMap_In in Hin. destruct Hin as (value & _ & Hv).
  exact (normalizeReviewRecord_normalized now value r Hnow Hv).
Qed.

Lemma recordOfDraft_normalized id item draft created timestamp :
  0 < id -> created <> EmptyString -> timestamp <> EmptyString ->
  normalized (recordOfDraft id item draft created timestamp).
Proof.
  intros Hid Hc Ht. unfold normalized.
  cbn [rec_id rec_keyFindings rec_classificationTags rec_sourceRecordIDs
       rec_sourceZoteroItemIDs rec_createdAt rec_updatedAt recordOfDraft].
  rewrite !normalizeStringArray_idempotent.
  repeat (split; [assumption || reflexivity|]). exact Ht.
Qed.

Lemma withEditedResponse_normalized raw timestamp r :
  timestamp <> EmptyString -> normalized r ->
  normalized (withEditedResponse raw timestamp r).
Proof.
  intros Ht (Hid & Hk & Htags & Hs & Hz & Hc & _). unfold normalized.
  cbn [rec_id rec_keyFindings rec_classificationTags rec_sourceRecordIDs
       rec_sourceZoteroItemIDs rec_createdAt rec_updatedAt
       withEditedResponse].
  repeat (split; [assumption|]). exact Ht.
Qed.

(** What is read back of records that were written normalised. *)
Lemma reopened_records now store :
  (forall r, In r (records store) -> normalized r) ->
  records (opened now (Some store)) = records store.
Proof.
  intros H. rewrite opened_records.
  rewrite (filterMap_all (normalizeReviewRecord now) (fun r => r)).
  - apply map_id.
  - intros r Hr. now apply normalizeReviewRecord_fixed, H.
Qed.

End Reload.

Section RoundTrips.
Import JS Store Queries Reload Operations.
Local Open Scope Z_scope.

Lemma updateFirst_all (P : JSONStoreRecord -> Prop) test change rs :
  (forall r, In r rs -> P r) ->
  (forall r, In r rs -> test r = true -> P (change r)) ->
  forall r, In r (updateFirst test change rs) -> P r.
Proof.
  induction rs as [|x rs IH]; intros Hall Hchange r; [intros []|].
  cbn [updateFirst]. destruct (test x) eqn:Hx.
  - intros [<-|Hin]; [apply Hchange; [now left | exact Hx]|].
    apply Hall. now right.
  - intros [<-|Hin]; [apply Hall; now left|].
    apply IH; [| |exact Hin].
    + intros y Hy. apply Hall. now right.
    + intros y Hy. apply Hchange. now right.
Qed.

(** What [upsertReviewRecord] has written, as the next operation reads it. *)
Lemma upsertReviewRecord_read_back now now' draft folderID file row :
  now <> EmptyString ->
  result (upsertReviewRecord now draft folderID file) = Returned row ->
  normalized (row_record row) /\
  records (opened now' (disk (upsertReviewRecord now draft folderID file)))
  = records (memory (upsertReviewRecord now draft folderID file)) /\
  find (isLiteratureOf (draft_zoteroItemID draft))
       (records (memory (upsertReviewRecord now draft folderID file)))
  = Some (row_record row).
Proof.
  intros Hnow Hfirst.
  pose proof (upsertReviewRecord_returned now draft folderID file row Hfirst)
    as H1. cbn zeta in H1. destruct H1 as [Hdisk H1].
  set (first := upsertReviewRecord now draft folderID file) in *.
  set (test := isLiteratureOf (draft_zoteroItemID draft)) in *.
  pose proof (opened_normalized_records now file) as Hnorm.
  assert (Hall : (forall r, In r (records (memory first)) -> normalized r) /\
                 normalized (row_record row) /\
                 find test (records (memory first)) = Some (row_record row)).
  { destruct (find test (records (opened now file))) as [existing|] eqn:Hfind.
    - destruct H1 as [Hrow Hrecs]. rewrite Hrow, Hrecs.
      pose proof (find_some _ _ Hfind) as [Hin Htest].
      destruct (Hnorm existing Hnow Hin) as (Hid & _ & _ & _ & _ & Hc & _).
      assert (Hchanged : forall e, In e (records (opened now file)) ->
                normalized
                  (recordOfDraft (rec_id e) (rec_zoteroItemID e) draft
                     (rec_createdAt e) now)).
      { intros e He.
        destruct (Hnorm e Hnow He) as (Hide & _ & _ & _ & _ & Hce & _).
        now apply recordOfDraft_normalized. }
      split; [|split].
      + apply updateFirst_all; [intros r Hr; now apply Hnorm|].
        intros r Hr _. now apply Hchanged.
      + now apply Hchanged.
      + refine (find_updateFirst test
                  (fun e => recordOfDraft (rec_id e) (rec_zoteroItemID e) draft
                              (rec_createdAt e) now) _ existing Hfind _).
        now apply isLiteratureOf_recordOfDraft.
    - destruct H1 as [Hrow Hrecs]. rewrite Hrow, Hrecs.
      assert (Hmade : normalized
                (recordOfDraft (Z.max 1 (next_record (nextIDs (opened now file))))
                   (draft_zoteroItemID draft) draft now now))
        by (apply recordOfDraft_normalized; [lia | exact Hnow | exact Hnow]).
      split; [|split].
      + intros r Hr. apply in_app_or in Hr.
        destruct Hr as [Hr|[<-|[]]]; [now apply Hnorm | exact Hmade].
      + exact Hmade.
      + rewrite (find_app_none _ _ _ Hfind). cbn [find].
        unfold test at 1, isLiteratureOf.
        cbn [rec_recordType rec_zoteroItemID recordOfDraft isFolderSummary
             negb andb]. now rewrite Z.eqb_refl. }
  destruct Hall as (Hall & Hrow & Hfound).
  split; [exact Hrow|]. split; [|exact Hfound].
  rewrite Hdisk. now apply reopened_records.
Qed.

(** A record written by [upsertReviewRecord] is the record
    [getReviewRecordByItemID] returns for its item from then on, as it was
    written. *)
Theorem upserted_record_is_found now now' draft folderID file row :
  now <> EmptyString ->
  result (upsertReviewRecord now draft folderID file) = Returned row ->
  exists row',
    result (getReviewRecordByItemID now' (draft_zoteroItemID draft)
              (disk (upsertReviewRecord now draft folderID file)))
    = Returned (Some row') /\
    row_record row' = row_record row /\
    rec_zoteroItemID (row_record row) = draft_zoteroItemID draft /\
    rec_title (row_record row) = draft_title draft /\
    rec_rawAIResponse (row_record row) = draft_rawAIResponse draft /\
    disk (getReviewRecordByItemID now' (draft_zoteroItemID draft)
            (disk (upsertReviewRecord now draft folderID file)))
    = disk (upsertReviewRecord now draft folderID file).
Proof.
  intros Hnow Hfirst.
  destruct (upsertReviewRecord_read_back now now' draft folderID file row Hnow
              Hfirst) as (_ & Hrecords & Hfound).
  pose proof (upsertReviewRecord_returned now draft folderID file row Hfirst)
    as H1. cbn zeta in H1. destruct H1 as [Hdisk H1].
  unfold getReviewRecordByItemID. rewrite openStore_eq, Hrecords, Hfound.
  eexists. split; [reflexivity|]. cbn [row_record mapRecordWithFolders].
  split; [reflexivity|].
  assert (Hfields : rec_zoteroItemID (row_record row) = draft_zoteroItemID draft
                    /\ rec_title (row_record row) = draft_title draft
                    /\ rec_rawAIResponse (row_record row)
                       = draft_rawAIResponse draft).
  { destruct (find (isLiteratureOf (draft_zoteroItemID draft))
                (records (opened now file))) as [existing|] eqn:Hfind;
      destruct H1 as [-> _];
      cbn [rec_zoteroItemID rec_title rec_rawAIResponse recordOfDraft];
      [|now repeat split].
    apply find_some in Hfind. destruct Hfind as [_ Htest].
    unfold isLiteratureOf in Htest. apply andb_true_iff in Htest.
    destruct Htest as [_ Hz]. apply Z.eqb_eq in Hz. now repeat split. }
  destruct Hfields as (Hz & Ht & Hr).
  split; [exact Hz|]. split; [exact Ht|]. split; [exact Hr|].
  cbn [disk leave]. rewrite Hdisk. reflexivity.
Qed.

(** The paper, written on Monday, is found on Tuesday. *)
Lemma upserted_record_is_found_witness :
  exists row',
    result (getReviewRecordByItemID tuesday (draft_zoteroItemID paper)
              (disk (upsertReviewRecord monday paper FolderUndefined None)))
    = Returned (Some row') /\
    rec_title (row_record row') = draft_title paper.
Proof.
  destruct (result (upsertReviewRecord monday paper FolderUndefined None))
    as [row|] eqn:Hfirst; [|vm_compute in Hfirst; discriminate].
  assert (Hnow : monday <> EmptyString) by discriminate.
  destruct (upserted_record_is_found monday tuesday paper FolderUndefined None
              row Hnow Hfirst)
    as (row' & Hfound & Hsame & _ & Htitle & _).
  exists row'. split; [exact Hfound|]. now rewrite Hsame.
Defined.

End RoundTrips.

Section Edits.
Import JS Store Queries Reload Operations.
Local Open Scope Z_scope.

(** [updateReviewRecordRawResponse] on an id no record has returns [null]
    and writes nothing.  Otherwise it rewrites the raw response of the first
    record with the id (and the body of a folder summary with it), leaves
    the other records, the folders and the links as they are, and
    [getReviewRecordByID] returns the edited record from then on. *)
Theorem edited_response_is_read_back now now' recordID raw file :
  now <> EmptyString ->
  let test := fun row => rec_id row =? recordID in
  let edit := updateReviewRecordRawResponse now recordID raw file in
  (find test (records (opened now file)) = None ->
   result edit = Returned None /\ memory edit = opened now file /\
   disk edit = afterLoad now file) /\
  (forall existing,
     find test (records (opened now file)) = Some existing ->
     let edited := withEditedResponse raw now existing in
     (exists row, result edit = Returned (Some row) /\ row_record row = edited)
     /\
     rec_rawAIResponse edited = raw /\
     (rec_recordType existing = folderSummary ->
      rec_literatureReview edited = raw) /\
     records (memory edit)
     = updateFirst test (withEditedResponse raw now)
         (records (opened now file)) /\
     folders (memory edit) = folders (opened now file) /\
     recordFolderLinks (memory edit) = recordFolderLinks (opened now file) /\
     exists row',
       result (getReviewRecordByID now' recordID (disk edit))
       = Returned (Some row') /\
       row_record row' = edited).
Proof.
  intros Hnow test edit. unfold edit, updateReviewRecordRawResponse.
  rewrite openStore_eq. fold test. split.
  - intros ->. now cbn [result memory disk leave].
  - intros existing Hfind. rewrite Hfind.
    set (edited := withEditedResponse raw now existing).
    cbn [result memory disk commit]. unfold markStoreUpdated, saveStoreData.
    unfold markStoreUpdated.
    cbn [records folders recordFolderLinks withStamps withRecords].
    split; [eexists; split; [reflexivity|reflexivity]|].
    split; [reflexivity|].
    split; [intros Htype; unfold edited; cbn [rec_literatureReview
              withEditedResponse]; now rewrite Htype|].
    split; [reflexivity|]. split; [reflexivity|]. split; [reflexivity|].
    set (written := withStamps _ _ _ _).
    assert (Hrecords : records written
                       = updateFirst test (withEditedResponse raw now)
                           (records (opened now file))) by reflexivity.
    assert (Hread : records (opened now' (Some written)) = records written).
    { apply reopened_records. rewrite Hrecords.
      apply updateFirst_all.
      - intros r Hr. now apply (opened_normalized_records now file).
      - intros r Hr _. apply withEditedResponse_normalized; [exact Hnow|].
        now apply (opened_normalized_records now file). }
    unfold getReviewRecordByID. rewrite openStore_eq, Hread, Hrecords.
    fold test.
    rewrite (find_updateFirst test (withEditedResponse raw now) _ existing
               Hfind).
    + eexists. split; [reflexivity|]. reflexivity.
    + apply find_some in Hfind. destruct Hfind as [_ Ht]. exact Ht.
Qed.

(** The raw response of the paper is edited on Wednesday and read back. *)
Lemma edited_response_is_read_back_witness :
  exists row',
    result (getReviewRecordByID "2024-01-04T09:00:00.000Z" 1
              (disk (updateReviewRecordRawResponse wednesday 1 "edited"
                       filed)))
    = Returned (Some row') /\
    rec_rawAIResponse (row_record row') = "edited".
Proof.
  assert (Hnow : wednesday <> EmptyString) by discriminate.
  destruct (find (fun row => rec_id row =? 1) (records (opened wednesday filed)))
    as [existing|] eqn:Hfind; [|vm_compute in Hfind; discriminate].
  destruct (edited_response_is_read_back wednesday "2024-01-04T09:00:00.000Z"
              1 "edited" filed Hnow) as [_ Hedit].
  destruct (Hedit existing Hfind) as (_ & Hraw & _ & _ & _ & _ & row' & Hread
                                      & Hrow).
  exists row'. split; [exact Hread|]. now rewrite Hrow.
Defined.

End Edits.

Section EventLog.
Import JS Store Queries Reload Operations.
Local Open Scope Z_scope.

Lemma addRecordFolderLink_events store recordID folderID timestamp :
  events (addRecordFolderLink store recordID folderID timestamp)
  = events store.
Proof. unfold addRecordFolderLink. now destruct (existsb _ _). Qed.

Lemma ensureDefaultFolder_events now store :
  events (snd (ensureDefaultFolder now store)) = events store.
Proof.
  unfold ensureDefaultFolder.
  now destruct (findFolderByName store DEFAULT_FOLDER_NAME).
Qed.

Lemma normalizeMembership_events d now state recordID :
  events (fst (normalizeMembership d now state recordID))
  = events (fst state).
Proof.
  destruct state as [store changed]. unfold normalizeMembership.
  destruct (filter _ (recordFolderLinks store)); cbn [fst].
  - apply addRecordFolderLink_events.
  - now destruct (_ && _).
Qed.

Lemma normalizeRecordFolderMemberships_events now store recordIDs :
  events (snd (normalizeRecordFolderMemberships now store recordIDs))
  = events store.
Proof.
  unfold normalizeRecordFolderMemberships.
  fold (effectiveIDs store recordIDs).
  destruct (effectiveIDs store recordIDs) as [|i ids]; [reflexivity|].
  pose proof (ensureDefaultFolder_events now store) as Hd.
  destruct (ensureDefaultFolder now store) as [defaultFolder store1].
  cbn [snd] in Hd. rewrite <- Hd.
  assert (Hloop : forall l state,
            events (fst (fold_left
                           (normalizeMembership (folder_id defaultFolder) now)
                           l state)) = events (fst state)).
  { induction l as [|x l IH]; intros state; [reflexivity|]. cbn [fold_left].
    rewrite IH. apply normalizeMembership_events. }
  specialize (Hloop (i :: ids) (store1, false)).
  now destruct (fold_left _ (i :: ids) (store1, false)).
Qed.

Lemma ensureStoreIntegrity_events now store :
  events (snd (ensureStoreIntegrity now store)) = events store.
Proof.
  unfold ensureStoreIntegrity. cbv zeta.
  match goal with
  | |- context [normalizeRecordFolderMemberships now ?s None] =>
      pose proof (normalizeRecordFolderMemberships_events now s None) as Hn;
      destruct (normalizeRecordFolderMemberships now s None) as [c s']
  end.
  cbn [snd events withNextIDs] in *. rewrite Hn.
  cbn [events withFolders withLinks].
  rewrite ensureDefaultFolder_events. reflexivity.
Qed.

Lemma opened_events now file :
  events (opened now file)
  = match file with
    | Some raw => filterMap (normalizeStoreEvent now) (events raw)
    | None => []
    end.
Proof.
  destruct file as [raw|].
  - rewrite opened_some. now rewrite !ensureStoreIntegrity_events.
  - change (opened now None)
      with (snd (ensureStoreIntegrity now
                   (markStoreUpdated now
                      (snd (ensureStoreIntegrity now
                              (createEmptyStoreData now)))))).
    now rewrite !ensureStoreIntegrity_events.
Qed.

(** An event as [normalizeStoreEvent] leaves it. *)
Definition logged (e : JSONStoreEvent) : Prop :=
  0 < event_id e /\ event_eventName e <> EmptyString /\
  event_createdAt e <> EmptyString.

Lemma normalizeStoreEvent_fixed now e :
  logged e -> normalizeStoreEvent now e = Some e.
Proof.
  intros (Hid & Hn & Hc). unfold normalizeStoreEvent.
  replace (event_id e <=? 0) with false by (symmetry; now apply Z.leb_gt).
  rewrite (orElse_keeps _ _ Hn), (orElse_keeps _ _ Hc). now destruct e.
Qed.

Lemma opened_logged now file e :
  now <> EmptyString -> In e (events (opened now file)) -> logged e.
Proof.
  intros Hnow. rewrite opened_events. destruct file as [raw|]; [|intros []].
  intros Hin. apply filterMap_In in Hin. destruct Hin as (value & _ & Hv).
  unfold normalizeStoreEvent in Hv.
  destruct (event_id value <=? 0) eqn:Hid; [discriminate|].
  apply Z.leb_gt in Hid. injection Hv as <-. unfold logged.
  cbn [event_id event_eventName event_createdAt].
  split; [exact Hid|]. split; apply orElse_nonempty;
    [discriminate | exact Hnow].
Qed.

(** [trackReviewEvent] appends one event and leaves the folders, the records
    and the links as they are.  Read on the same day, the count of
    [getTodayAIExtractionCount] is one more than before when the event is an
    extraction that succeeded or failed, and the same otherwise. *)
Theorem extractions_of_the_day_are_counted now now' eventName payloadJSON
    file :
  now <> EmptyString -> slice now' 0 10 = slice now 0 10 ->
  let tracked := trackReviewEvent now eventName payloadJSON file in
  let counted :=
    Z.of_nat
      (List.length
         (filter (isExtractionOn (slice now 0 10))
                 (events (opened now file)))) in
  result (getTodayAIExtractionCount now file) = Returned counted /\
  result tracked = Returned tt /\
  folders (memory tracked) = folders (opened now file) /\
  records (memory tracked) = records (opened now file) /\
  recordFolderLinks (memory tracked) = recordFolderLinks (opened now file) /\
  List.length (events (memory tracked))
  = S (List.length (events (opened now file))) /\
  result (getTodayAIExtractionCount now' (disk tracked))
  = Returned
      (if String.eqb (trim eventName) "ai_extraction_success"
          || String.eqb (trim eventName) "ai_extraction_fail"
       then counted + 1 else counted).
Proof.
  intros Hnow Hday tracked counted.
  split; [unfold getTodayAIExtractionCount; now rewrite openStore_eq|].
  unfold tracked, trackReviewEvent. rewrite openStore_eq.
  cbn [allocateID]. cbn [result memory disk commit].
  unfold saveStoreData, markStoreUpdated.
  cbn [folders records recordFolderLinks events withStamps withEvents
       withNextIDs].
  split; [reflexivity|]. split; [reflexivity|]. split; [reflexivity|].
  split; [reflexivity|].
  split; [rewrite length_app; cbn [List.length]; lia|].
  set (added := {| event_id := _; event_eventName := _;
                   event_payloadJSON := payloadJSON;
                   event_createdAt := now |}).
  set (written := withStamps _ _ _ _).
  assert (Hevents : events written = (events (opened now file) ++ [added])%list)
    by reflexivity.
  assert (Hread : events (opened now' (Some written)) = events written).
  { rewrite opened_events.
    rewrite (filterMap_all (normalizeStoreEvent now') (fun e => e));
      [apply map_id|].
    intros e He. apply normalizeStoreEvent_fixed. rewrite Hevents in He.
    apply in_app_or in He. destruct He as [He|[<-|[]]].
    - now apply (opened_logged now file).
    - unfold logged, added. cbn [event_id event_eventName event_createdAt].
      split; [lia|]. split; [|exact Hnow].
      apply orElse_nonempty. discriminate. }
  unfold getTodayAIExtractionCount. rewrite openStore_eq. cbn [result leave].
  rewrite Hread, Hevents, Hday, filter_app, length_app. cbn [filter].
  f_equal. fold counted.
  assert (Hadded : isExtractionOn (slice now 0 10) added
                   = String.eqb (trim eventName) "ai_extraction_success"
                     || String.eqb (trim eventName) "ai_extraction_fail").
  { unfold isExtractionOn, added. cbn [event_eventName event_createdAt].
    rewrite String.eqb_refl, andb_true_r. unfold orElse.
    destruct (isEmpty (trim eventName)) eqn:He; [|reflexivity].
    apply isEmpty_true in He. now rewrite He. }
  rewrite Hadded.
  destruct (String.eqb (trim eventName) "ai_extraction_success"
            || String.eqb (trim eventName) "ai_extraction_fail");
    cbn [List.length]; unfold counted; lia.
Qed.

(** One extraction succeeds on a new store; it is counted later that day. *)
Lemma extractions_of_the_day_are_counted_witness :
  result (getTodayAIExtractionCount "2024-01-01T17:30:00.000Z"
            (disk (trackReviewEvent monday "ai_extraction_success" "{}" None)))
  = Returned 1.
Proof.
  assert (Hnow : monday <> EmptyString) by discriminate.
  assert (Hday : slice "2024-01-01T17:30:00.000Z" 0 10 = slice monday 0 10)
    by reflexivity.
  destruct (extractions_of_the_day_are_counted monday
              "2024-01-01T17:30:00.000Z" "ai_extraction_success" "{}" None
              Hnow Hday) as (_ & _ & _ & _ & _ & _ & Hcount).
  rewrite Hcount. vm_compute. reflexivity.
Defined.

End EventLog.

Section Search.
Import JS Store Queries.
Local Open Scope Z_scope.

Lemma toLowerCase_append a b :
  toLowerCase (a ++ b) = (toLowerCase a ++ toLowerCase b)%string.
Proof.
  induction a as [|c a IH]; [reflexivity|]. cbn [append toLowerCase].
  now rewrite IH.
Qed.

Lemma prefix_append_more t : forall a b,
  prefix t a = true -> prefix t (a ++ b) = true.
Proof.
  induction t as [|c t IH]; intros a b H.
  - now destruct (a ++ b)%string.
  - destruct a as [|d a]; [discriminate|]. simpl in *.
    destruct (ascii_dec c d); [now apply IH | discriminate].
Qed.

Lemma includes_append_more a b t :
  includes a t = true -> includes (a ++ b) t = true.
Proof.
  induction a as [|c a IH]; intros H.
  - rewrite includes_unfold in H. rewrite orb_false_r in H.
    apply includes_prefix. now apply (prefix_append_more t EmptyString b).
  - rewrite includes_unfold in H. apply orb_true_iff in H.
    destruct H as [H|H].
    + apply includes_prefix.
      now apply (prefix_append_more t (String c a) b).
    + cbn [append]. apply includes_cons. now apply IH.
Qed.

Lemma join_includes sep q part : forall parts,
  In part parts -> includes (toLowerCase part) q = true ->
  includes (toLowerCase (join sep parts)) q = true.
Proof.
  induction parts as [|p rest IH]; intros Hin Hq; [destruct Hin|].
  destruct rest as [|p' rest].
  - destruct Hin as [<-|[]]. exact Hq.
  - change (join sep (p :: p' :: rest))
      with (p ++ sep ++ join sep (p' :: rest))%string.
    rewrite !toLowerCase_append. destruct Hin as [<-|Hin].
    + now apply includes_append_more.
    + apply includes_append, includes_append. now apply IH.
Qed.

(** What [applyRecordFilters] returns was given to it, has the type asked
    for and is linked to the folder asked for.  A search finds every record
    (of those left by the other filters) that has the trimmed query,
    whatever its case, in one of its text fields, key findings or tags. *)
Theorem filters_select_and_search_finds localeCompare store records filters :
  (forall record,
     In record (applyRecordFilters localeCompare store records filters) ->
     In record records /\
     (forall wanted, filter_recordType filters = Some wanted ->
        rec_recordType record = wanted) /\
     (forall folderID, filter_folderID filters = Some folderID ->
        linkedIn (recordFolderLinks store) (rec_id record) folderID)) /\
  (forall record field,
     filter_recordType filters = None -> filter_folderID filters = None ->
     In record records ->
     In field
        ([ rec_title record; rec_authors record; rec_journal record;
           rec_publicationDate record; rec_abstractText record;
           rec_pdfAnnotationNotesText record; rec_researchBackground record;
           rec_literatureReview record; rec_researchMethods record;
           rec_researchConclusions record ]
         ++ rec_keyFindings record ++ rec_classificationTags record)%list ->
     includes (toLowerCase field)
              (toLowerCase (trim (filter_search filters))) = true ->
     In record (applyRecordFilters localeCompare store records filters)).
Proof.
  split.
  - intros record Hin. unfold applyRecordFilters in Hin. cbv zeta in Hin.
    assert (Hsearch :
      In record
         (match filter_folderID filters with
          | None =>
              match filter_recordType filters with
              | None => records
              | Some wanted =>
                  filter (fun row => sameType (rec_recordType row) wanted)
                         records
              end
          | Some targetFolderID =>
              filter
                (fun row =>
                   memZ (rec_id row)
                     (map link_recordID
                        (filter
                           (fun link => link_folderID link =? targetFolderID)
                           (recordFolderLinks store))))
                match filter_recordType filters with
                | None => records
                | Some wanted =>
                    filter (fun row => sameType (rec_recordType row) wanted)
                           records
                end
          end)).
    { destruct (isEmpty _); [exact Hin|]. now apply filter_In in Hin. }
    clear Hin.
    assert (Hfolder :
      In record
         (match filter_recordType filters with
          | None => records
          | Some wanted =>
              filter (fun row => sameType (rec_recordType row) wanted) records
          end) /\
      (forall folderID, filter_folderID filters = Some folderID ->
         linkedIn (recordFolderLinks store) (rec_id record) folderID)).
    { destruct (filter_folderID filters) as [target|];
        [|split; [exact Hsearch | discriminate]].
      apply filter_In in Hsearch. destruct Hsearch as [Hin Hmem].
      split; [exact Hin|]. intros folderID [= <-].
      apply memZ_In, in_map_iff in Hmem.
      destruct Hmem as (link & Hr & Hl). apply filter_In in Hl.
      destruct Hl as [Hl Hf]. apply Z.eqb_eq in Hf. now exists link. }
    destruct Hfolder as [Htype Hfolder].
    split; [|split; [|exact Hfolder]].
    + destruct (filter_recordType filters);
        [now apply filter_In in Htype | exact Htype].
    + intros wanted Hw. rewrite Hw in Htype. apply filter_In in Htype.
      destruct Htype as [_ Hsame]. unfold sameType in Hsame.
      apply Bool.eqb_prop in Hsame.
      destruct (rec_recordType record), wanted; try reflexivity;
        discriminate.
  - intros record field Htype Hfolder Hin Hfield Hq.
    unfold applyRecordFilters. cbv zeta. rewrite Htype, Hfolder.
    destruct (isEmpty _); [exact Hin|]. apply filter_In.
    split; [exact Hin|]. unfold haystack.
    apply in_app_or in Hfield. destruct Hfield as [Hfield|Hfield].
    + apply (join_includes _ _ field); [|exact Hq].
      cbn [In] in *. tauto.
    + apply in_app_or in Hfield. destruct Hfield as [Hfield|Hfield].
      * apply (join_includes _ _ (join "," (rec_keyFindings record)));
          [cbn [In]; tauto|].
        now apply (join_includes _ _ field).
      * apply (join_includes _ _ (join "," (rec_classificationTags record)));
          [cbn [In]; tauto|].
        now apply (join_includes _ _ field).
Qed.

End Search.

Section Listing.
Import JS Store Queries.
Local Open Scope Z_scope.

Lemma In_skipn_list {A : Type} (x : A) n : forall l,
  In x (skipn n l) -> In x l.
Proof.
  induction n as [|n IH]; intros [|y l]; cbn [skipn]; try trivial.
  intros H. right. now apply IH.
Qed.

Lemma paginateRecords_incl {A : Type} (rows : list A) filters x :
  In x (paginateRecords rows filters) -> In x rows.
Proof.
  unfold paginateRecords.
  destruct (normalizePositiveInteger _) as [limit|].
  - intros H. apply Chunker.In_firstn in H. revert H. apply In_skipn_list.
  - destruct (0 <? _); [apply In_skipn_list | trivial].
Qed.

Lemma length_paginateRecords {A : Type} (rows : list A) filters :
  (List.length (paginateRecords rows filters) <= List.length rows)%nat /\
  (filter_limit filters = None -> filter_offset filters = None ->
   paginateRecords rows filters = rows).
Proof.
  unfold paginateRecords. split.
  - destruct (normalizePositiveInteger _) as [limit|].
    + rewrite length_firstn, length_skipn. lia.
    + destruct (0 <? _); [rewrite length_skipn; lia | lia].
  - now intros -> ->.
Qed.

(** [listReviewRecords] returns no more rows than [countReviewRecords]
    counts, and as many when no page is asked for.  Every row is a record of
    the store that passes the filters, without its raw response and with at
    least one folder; neither function writes beyond what the load writes. *)
Theorem listing_agrees_with_count localeCompare now filters file :
  exists rows count,
    result (listReviewRecords localeCompare now filters file) = Returned rows
    /\
    result (countReviewRecords localeCompare now filters file)
    = Returned count /\
    Z.of_nat (List.length rows) <= count /\
    (filter_limit filters = None -> filter_offset filters = None ->
     Z.of_nat (List.length rows) = count) /\
    (forall row, In row rows ->
       rec_rawAIResponse (row_record row) = EmptyString /\
       row_folderIDs row <> [] /\
       row_folderID row = hd_error (row_folderIDs row) /\
       exists record,
         In record
            (applyRecordFilters localeCompare (opened now file)
               (records (opened now file)) filters) /\
         row_record row = withRawAIResponse record EmptyString) /\
    disk (listReviewRecords localeCompare now filters file)
    = afterLoad now file /\
    disk (countReviewRecords localeCompare now filters file)
    = afterLoad now file.
Proof.
  unfold listReviewRecords, countReviewRecords. rewrite openStore_eq.
  cbn [result disk leave]. set (store := opened now file).
  set (kept := applyRecordFilters localeCompare store (records store) filters).
  do 2 eexists. split; [reflexivity|]. split; [reflexivity|].
  assert (Hsorted : List.length (sortRecords kept filters) = List.length kept).
  { apply Permutation_length. unfold sortRecords. apply Ranker.sortBy_perm. }
  destruct (length_paginateRecords (sortRecords kept filters) filters)
    as [Hle Hall].
  split; [rewrite length_map; lia|].
  split; [intros Hl Ho; rewrite length_map, (Hall Hl Ho); lia|].
  split; [|split; reflexivity].
  intros row Hrow. apply in_map_iff in Hrow.
  destruct Hrow as (record & <- & Hin).
  apply paginateRecords_incl in Hin.
  assert (Hkept : In record kept).
  { revert Hin. apply Permutation_in. unfold sortRecords.
    apply Ranker.sortBy_perm. }
  cbn [row_record row_folderIDs row_folderID mapRecordWithFolders].
  split; [reflexivity|]. split; [|split; [reflexivity|]].
  - destruct (sortFolders _) as [|f fs]; discriminate.
  - now exists record.
Qed.

End Listing.

Section Folders.
Import JS Store Queries Operations.
Local Open Scope Z_scope.

Lemma findFolderByID_none store id :
  (forall g, In g (folders store) -> folder_id g <> id) ->
  findFolderByID store id = None.
Proof.
  intros H. unfold findFolderByID.
  destruct (find _ (folders store)) as [g|] eqn:Hfind; [|reflexivity].
  apply find_some in Hfind. destruct Hfind as [Hin Hid].
  apply Z.eqb_eq in Hid. now apply H in Hin.
Qed.

(** On a store whose counters are at most [MAX_SAFE_INTEGER]:
    [createReviewFolder] with a name that is empty once trimmed throws and
    writes nothing.  With a name no folder has (trimmed, whatever the case)
    it appends a folder with that name, trimmed and cut to 100 characters,
    under an id that is at most [MAX_SAFE_INTEGER] and greater than that of
    every folder of the store; in the store it leaves, the new folder is the
    one found under its name and under its id, and every folder that was
    found under an id still is; the records and the links are as they were,
    and the store is written. *)
Theorem new_folder_gets_a_fresh_id now name file :
  safeIDs (opened now file) ->
  (isEmpty (normalizeFolderName name) = true ->
   (exists message,
      result (createReviewFolder now name file) = Thrown message) /\
   disk (createReviewFolder now name file) = afterLoad now file) /\
  (isEmpty (normalizeFolderName name) = false ->
   findFolderByName (opened now file) (normalizeFolderName name) = None ->
   let created :=
     {| folder_id := Z.max 1 (next_folder (nextIDs (opened now file)));
        folder_name := normalizeFolderName name;
        folder_createdAt := now; folder_updatedAt := now |} in
   let after := memory (createReviewFolder now name file) in
   result (createReviewFolder now name file) = Returned created /\
   folders after = (folders (opened now file) ++ [created])%list /\
   folder_id created <= MAX_SAFE_INTEGER /\
   (forall folder, In folder (folders (opened now file)) ->
      folder_id folder < folder_id created) /\
   (String.length (folder_name created) <= 100)%nat /\
   findFolderByName after (folder_name created) = Some created /\
   findFolderByID after (folder_id created) = Some created /\
   (forall id folder,
      findFolderByID (opened now file) id = Some folder ->
      findFolderByID after id = Some folder) /\
   records after = records (opened now file) /\
   recordFolderLinks after = recordFolderLinks (opened now file) /\
   disk (createReviewFolder now name file) = Some after).
Proof.
  intros (Hsafe & _).
  destruct (opened_ready now file) as [d Hready].
  assert (Hfresh : forall folder, In folder (folders (opened now file)) ->
            folder_id folder
            < Z.max 1 (next_folder (nextIDs (opened now file)))).
  { intros folder Hin. pose proof (ready_next_folder Hready folder Hin). lia. }
  unfold createReviewFolder. rewrite openStore_eq. split.
  - intros ->. cbn [result disk throw]. split; [eexists|]; reflexivity.
  - intros Hne Hnone. rewrite Hne, Hnone.
    cbn [allocateID]. cbn [result memory disk commit].
    unfold saveStoreData, markStoreUpdated.
    cbn [folders records recordFolderLinks withStamps withFolders
         withNextIDs getNext].
    split; [reflexivity|]. split; [reflexivity|].
    split; [cbn [folder_id]; unfold MAX_SAFE_INTEGER in *; lia|].
    split; [exact Hfresh|].
    split; [cbn [folder_name]; apply length_normalizeFolderName|].
    split.
    { rewrite findFolderByName_find in *.
      cbn [folders withStamps withFolders withNextIDs].
      cbn [folder_name]. rewrite (find_app_none _ _ _ Hnone). cbn [find].
      unfold hasKey, keyOf. cbn [folder_name]. now rewrite String.eqb_refl. }
    split.
    { unfold findFolderByID.
      cbn [folders withStamps withFolders withNextIDs folder_id].
      rewrite find_app_none.
      - cbn [find folder_id]. now rewrite Z.eqb_refl.
      - apply findFolderByID_none. intros g Hg. apply Hfresh in Hg. lia. }
    split.
    { intros id folder Hfound. unfold findFolderByID in *.
      cbn [folders withStamps withFolders withNextIDs].
      now apply find_app_found. }
    repeat split.
Qed.

(** "Robotics" on an empty store: the folder gets the id 2, after the
    default folder. *)
Lemma new_folder_gets_a_fresh_id_witness :
  safeIDs (opened monday None) /\
  exists created,
    result (createReviewFolder monday "Robotics" None) = Returned created /\
    folder_id created = 2 /\ folder_name created = "Robotics".
Proof.
  assert (Hsafe : safeIDs (opened monday None))
    by (repeat split; apply Z.leb_le; vm_compute; reflexivity).
  split; [exact Hsafe|].
  destruct (new_folder_gets_a_fresh_id monday "Robotics" None Hsafe)
    as [_ Hmade].
  destruct Hmade as (Hret & _); [reflexivity | vm_compute; reflexivity|].
  eexists. split; [exact Hret|]. split; vm_compute; reflexivity.
Defined.

End Folders.

Section Removal.
Import JS Store Queries Operations.
Local Open Scope Z_scope.

(** The folders after the normalisation of the links: those before, and
    possibly a new default folder, whose id is the next one. *)
Lemma normalizeRecordFolderMemberships_folders now store recordIDs folder :
  In folder
     (folders (snd (normalizeRecordFolderMemberships now store recordIDs))) ->
  In folder (folders store) \/
  folder_id folder = Z.max 1 (next_folder (nextIDs store)).
Proof.
  destruct (effectiveIDs store recordIDs) as [|i ids] eqn:Hids.
  - rewrite normalizeRecordFolderMemberships_idle by exact Hids. now left.
  - assert (Hne : effectiveIDs store recordIDs <> [])
      by (rewrite Hids; discriminate).
    destruct (normalizeRecordFolderMemberships_spec now store recordIDs Hne)
      as (Hf & _).
    rewrite Hf.
    destruct (ensureDefaultFolder_spec now store)
      as (_ & _ & _ & _ & [[_ ->]|(_ & Hfs & Hid & _)]); [now left|].
    rewrite Hfs. intros Hin. apply in_app_or in Hin.
    destruct Hin as [Hin|[<-|[]]]; [now left | now right].
Qed.

Lemma normalizeRecordFolderMemberships_keeps_folders now store recordIDs
    folder :
  In folder (folders store) ->
  In folder
     (folders (snd (normalizeRecordFolderMemberships now store recordIDs))).
Proof.
  destruct (effectiveIDs store recordIDs) as [|i ids] eqn:Hids.
  - now rewrite normalizeRecordFolderMemberships_idle by exact Hids.
  - assert (Hne : effectiveIDs store recordIDs <> [])
      by (rewrite Hids; discriminate).
    destruct (normalizeRecordFolderMemberships_spec now store recordIDs Hne)
      as (Hf & _).
    rewrite Hf.
    destruct (ensureDefaultFolder_spec now store)
      as (_ & _ & _ & _ & [[_ ->]|(_ & Hfs & _)]); [trivial|].
    rewrite Hfs. intros Hin. apply in_or_app. now left.
Qed.

(** The links after the normalisation: those before, and links to a folder
    of the store it leaves. *)
Lemma normalizeRecordFolderMemberships_links now store recordIDs link :
  In link
     (recordFolderLinks
        (snd (normalizeRecordFolderMemberships now store recordIDs))) ->
  In link (recordFolderLinks store) \/
  In (link_folderID link)
     (map folder_id
        (folders (snd (normalizeRecordFolderMemberships now store recordIDs)))).
Proof.
  intros Hin.
  destruct (normalizeRecordFolderMemberships_from now store recordIDs link Hin)
    as [Hold|(d & Hd & Hid)]; [now left | right].
  rewrite Hid. apply in_map. rewrite findFolderByName_find in Hd.
  now apply find_some in Hd.
Qed.

(** On a store whose counters are at most [MAX_SAFE_INTEGER]:
    [deleteReviewFolder] of a folder of the store that is not named as the
    default folder removes the folders with its id and every link to it, and
    deletes no record; the other folders stay, and every folder of the store
    written has an id of at most [MAX_SAFE_INTEGER]. *)
Theorem deleted_folder_is_gone now folderID file folder :
  safeIDs (opened now file) ->
  findFolderByID (opened now file) folderID = Some folder ->
  folder_name folder <> DEFAULT_FOLDER_NAME ->
  let after := memory (deleteReviewFolder now folderID file) in
  result (deleteReviewFolder now folderID file) = Returned tt /\
  (forall g, In g (folders after) -> folder_id g <= MAX_SAFE_INTEGER) /\
  findFolderByID after folderID = None /\
  (forall link, In link (recordFolderLinks after) ->
     link_folderID link <> folderID) /\
  map rec_id (records after) = map rec_id (records (opened now file)) /\
  (forall other, In other (folders (opened now file)) ->
     folder_id other <> folderID -> In other (folders after)) /\
  disk (deleteReviewFolder now folderID file) = Some after.
Proof.
  intros (Hsafe & _) Hfound Hname. cbv zeta.
  destruct (opened_ready now file) as [d Hready].
  pose proof (findFolderByID_In _ _ _ Hfound) as [Hfin Hfid].
  pose proof (ready_next_folder Hready folder Hfin) as Hnext.
  unfold deleteReviewFolder. rewrite openStore_eq, Hfound.
  unfold isProtectedName. apply String.eqb_neq in Hname. rewrite Hname.
  set (store := opened now file) in *.
  set (store1 := withFolders (withLinks store _) _).
  set (affected := getRecordIDsByFolderIDsInternal store [folderID]).
  set (store2 := snd (normalizeRecordFolderMemberships now store1
                        (Some affected))).
  cbn [result memory disk commit]. unfold saveStoreData, markStoreUpdated.
  cbn [folders records recordFolderLinks withStamps].
  destruct (touchRecords_frame store2 affected now) as [Hfs Hls].
  assert (Hfolders : forall g, In g (folders store2) -> folder_id g <> folderID).
  { intros g Hg.
    destruct (normalizeRecordFolderMemberships_folders now store1
                (Some affected) g Hg) as [Hold|Hnew].
    - unfold store1 in Hold. cbn [folders withFolders withLinks] in Hold.
      apply filter_In in Hold. destruct Hold as [_ Hne].
      now apply negb_true_iff, Z.eqb_neq in Hne.
    - unfold store1 in Hnew. cbn [nextIDs withFolders withLinks] in Hnew.
      lia. }
  split; [reflexivity|].
  split.
  { cbn [folders withStamps]. rewrite Hfs. intros g Hg.
    destruct (normalizeRecordFolderMemberships_folders now store1
                (Some affected) g Hg) as [Hold|Hnew].
    - unfold store1 in Hold. cbn [folders withFolders withLinks] in Hold.
      apply filter_In in Hold. destruct Hold as [Hold _].
      pose proof (ready_next_folder Hready g Hold). lia.
    - unfold store1 in Hnew. cbn [nextIDs withFolders withLinks] in Hnew.
      unfold MAX_SAFE_INTEGER in *. lia. }
  split; [|split; [|split; [|split]]].
  - apply findFolderByID_none. cbn [folders withStamps]. rewrite Hfs.
    exact Hfolders.
  - rewrite Hls. intros link Hl.
    destruct (normalizeRecordFolderMemberships_links now store1
                (Some affected) link Hl) as [Hold|Hnew].
    + unfold store1 in Hold.
      cbn [recordFolderLinks withFolders withLinks] in Hold.
      apply filter_In in Hold. destruct Hold as [_ Hne].
      now apply negb_true_iff, Z.eqb_neq in Hne.
    + apply in_map_iff in Hnew. destruct Hnew as (g & <- & Hg).
      now apply Hfolders.
  - rewrite touchRecords_ids. unfold store2.
    now rewrite normalizeRecordFolderMemberships_records.
  - intros other Hother Hne. rewrite Hfs.
    apply normalizeRecordFolderMemberships_keeps_folders.
    unfold store1. cbn [folders withFolders withLinks]. apply filter_In.
    split; [exact Hother|]. now apply negb_true_iff, Z.eqb_neq.
  - reflexivity.
Qed.

(** The folder "Robotics", which holds the paper, is deleted. *)
Lemma deleted_folder_is_gone_witness :
  findFolderByID (memory (deleteReviewFolder wednesday 2 filed)) 2 = None.
Proof.
  destruct (findFolderByID (opened wednesday filed) 2) as [folder|] eqn:Hfind;
    [|vm_compute in Hfind; discriminate].
  assert (Hname : folder_name folder <> DEFAULT_FOLDER_NAME).
  { vm_compute in Hfind. injection Hfind as <-. vm_compute. discriminate. }
  assert (Hsafe : safeIDs (opened wednesday filed))
    by (repeat split; apply Z.leb_le; vm_compute; reflexivity).
  destruct (deleted_folder_is_gone wednesday 2 filed folder Hsafe Hfind Hname)
    as (_ & _ & Hgone & _).
  exact Hgone.
Defined.

(** [removeReviewRecordsFromFolder] from a folder of the store that is not
    the default folder leaves no record given linked to the folder, deletes
    no record and no folder, and touches no link of the other records. *)
Theorem removed_records_leave_the_folder now recordIDs folderID file folder
    defaultFolder :
  normalizeIDList recordIDs <> [] ->
  findFolderByID (opened now file) folderID = Some folder ->
  folder_name folder <> DEFAULT_FOLDER_NAME ->
  findFolderByName (opened now file) DEFAULT_FOLDER_NAME = Some defaultFolder ->
  folder_id defaultFolder <> folderID ->
  let after :=
    memory (removeReviewRecordsFromFolder now recordIDs folderID file) in
  result (removeReviewRecordsFromFolder now recordIDs folderID file)
  = Returned tt /\
  (forall recordID, In recordID recordIDs ->
     ~ linkedIn (recordFolderLinks after) recordID folderID) /\
  (forall link, ~ In (link_recordID link) recordIDs ->
     (In link (recordFolderLinks after) <->
      In link (recordFolderLinks (opened now file)))) /\
  map rec_id (records after) = map rec_id (records (opened now file)) /\
  folders after = folders (opened now file) /\
  disk (removeReviewRecordsFromFolder now recordIDs folderID file)
  = Some after.
Proof.
  intros Hids Hfound Hname Hdefault Hother. cbv zeta.
  pose proof (findFolderByID_In _ _ _ Hfound) as [Hfin Hfid].
  unfold removeReviewRecordsFromFolder. rewrite openStore_eq.
  destruct (normalizeIDList recordIDs) as [|i rest] eqn:Hnorm;
    [now destruct Hids|].
  assert (Hmem : forall x, In x (i :: rest) <-> In x recordIDs /\ 0 < x)
    by (intros x; rewrite <- Hnorm; apply normalizeIDList_In).
  set (ids := i :: rest) in *. rewrite Hfound.
  unfold isProtectedName. apply String.eqb_neq in Hname. rewrite Hname.
  set (store := opened now file) in *.
  set (store1 := withLinks store _).
  set (store2 := snd (normalizeRecordFolderMemberships now store1 (Some ids))).
  cbn [result memory disk commit]. unfold saveStoreData, markStoreUpdated.
  cbn [folders records recordFolderLinks withStamps].
  destruct (touchRecords_frame store2 ids now) as [Hfs Hls].
  assert (Hdef1 : ensureDefaultFolder now store1 = (defaultFolder, store1)).
  { apply ensureDefaultFolder_found. exact Hdefault. }
  assert (Hne : effectiveIDs store1 (Some ids) <> []).
  { unfold ids. cbn [effectiveIDs]. fold ids. rewrite <- Hnorm.
    rewrite Reload.normalizeIDList_idempotent. now rewrite Hnorm. }
  destruct (normalizeRecordFolderMemberships_spec now store1 (Some ids) Hne)
    as (Hf2 & Hr2 & _ & _ & _ & _ & Hfrom & Hkeep).
  rewrite Hdef1 in Hf2, Hfrom. cbn [fst snd] in Hf2, Hfrom.
  fold store2 in Hf2, Hr2, Hfrom, Hkeep.
  assert (Heff : forall x, In x (effectiveIDs store1 (Some ids)) <->
                           In x recordIDs /\ 0 < x).
  { intros x. unfold ids. cbn [effectiveIDs]. fold ids. rewrite <- Hnorm.
    rewrite Reload.normalizeIDList_idempotent. apply normalizeIDList_In. }
  split; [reflexivity|]. split; [|split; [|split; [|split]]].
  - rewrite Hls. intros recordID Hgiven (link & Hl & Hr & Hf).
    apply Hfrom in Hl. destruct Hl as [Hl|[_ Hd]]; [|congruence].
    unfold store1 in Hl. cbn [recordFolderLinks withLinks] in Hl.
    apply filter_In in Hl. destruct Hl as [Hl Hkept].
    apply negb_true_iff, andb_false_iff in Hkept.
    destruct Hkept as [Hkept|Hkept].
    + apply Z.eqb_neq in Hkept. congruence.
    + apply memZ_false in Hkept. apply Hkept. apply Hmem.
      split; [congruence|].
      destruct (opened_ready now file) as [d Hready].
      exact (proj2 (ready_link_bounds d store link Hready Hl)).
  - rewrite Hls. intros link Hout. split.
    + intros Hl. apply Hfrom in Hl. destruct Hl as [Hl|[Hin _]].
      * unfold store1 in Hl. cbn [recordFolderLinks withLinks] in Hl.
        now apply filter_In in Hl.
      * apply Heff in Hin. tauto.
    + intros Hl. apply Hkeep.
      * rewrite Heff. tauto.
      * unfold store1. cbn [recordFolderLinks withLinks]. apply filter_In.
        split; [exact Hl|]. apply negb_true_iff, andb_false_iff. right.
        apply memZ_false. intros Hin. apply Hmem in Hin. tauto.
  - rewrite touchRecords_ids. now rewrite Hr2.
  - rewrite Hfs, Hf2. reflexivity.
  - reflexivity.
Qed.

(** The paper is taken out of "Robotics". *)
Lemma removed_records_leave_the_folder_witness :
  ~ linkedIn
      (recordFolderLinks
         (memory (removeReviewRecordsFromFolder wednesday [1] 2 filed))) 1 2.
Proof.
  destruct (findFolderByID (opened wednesday filed) 2) as [folder|] eqn:Hfind;
    [|vm_compute in Hfind; discriminate].
  destruct (findFolderByName (opened wednesday filed) DEFAULT_FOLDER_NAME)
    as [defaultFolder|] eqn:Hdefault; [|vm_compute in Hdefault; discriminate].
  assert (Hids : normalizeIDList [1] <> []) by (vm_compute; discriminate).
  assert (Hname : folder_name folder <> DEFAULT_FOLDER_NAME).
  { vm_compute in Hfind. injection Hfind as <-. vm_compute. discriminate. }
  assert (Hother : folder_id defaultFolder <> 2).
  { vm_compute in Hdefault. injection Hdefault as <-. vm_compute.
    discriminate. }
  destruct (removed_records_leave_the_folder wednesday [1] 2 filed folder
              defaultFolder Hids Hfind Hname Hdefault Hother)
    as (_ & Hout & _).
  apply Hout. now left.
Defined.

End Removal.

Section Filing.
Import JS Store Queries Operations.
Local Open Scope Z_scope.

(** The folder a new record is filed under: the one given, or the default
    folder. *)
Definition targetOf (folderID : FolderArg) (defaultFolder : JSONStoreFolder)
  : Z :=
  match folderID with
  | FolderNumber id => id
  | _ => folder_id defaultFolder
  end.

(** A record linked to one folder at most, once its memberships are
    normalised, is in the folder [target] alone. *)
Lemma filed_once now store defaultFolder rid target storeB :
  0 < rid ->
  (forall link, In link (recordFolderLinks store) ->
     link_recordID link <> rid) ->
  folders storeB = folders store ->
  (forall link, In link (recordFolderLinks storeB) ->
     In link (recordFolderLinks store) \/
     (link_recordID link = rid /\ link_folderID link = target)) ->
  (forall link, In link (recordFolderLinks store) ->
     In link (recordFolderLinks storeB)) ->
  (target = folder_id defaultFolder \/
   linkedIn (recordFolderLinks storeB) rid target) ->
  ensureDefaultFolder now storeB = (defaultFolder, storeB) ->
  let final := snd (normalizeRecordFolderMemberships now storeB
                      (Some [rid])) in
  linkedIn (recordFolderLinks final) rid target /\
  (forall link, In link (recordFolderLinks final) ->
     link_recordID link = rid -> link_folderID link = target) /\
  (forall link, link_recordID link <> rid ->
     (In link (recordFolderLinks final) <->
      In link (recordFolderLinks store))) /\
  folders final = folders store.
Proof.
  intros Hrid Hnolink HfB HfromB HkeepB Hgiven HdefB. cbv zeta.
  assert (Hne : effectiveIDs storeB (Some [rid]) <> []).
  { cbn [effectiveIDs]. unfold normalizeIDList.
    cbn [filter]. replace (0 <? rid) with true
      by (symmetry; now apply Z.ltb_lt).
    discriminate. }
  assert (Heff : forall x, In x (effectiveIDs storeB (Some [rid]))
                           <-> x = rid).
  { intros x. cbn [effectiveIDs]. rewrite normalizeIDList_In. cbn [In].
    split; [intros [[H|[]] _]; now symmetry|].
    intros ->. split; [now left | exact Hrid]. }
  destruct (normalizeRecordFolderMemberships_spec now storeB
              (Some [rid]) Hne)
    as (Hf & _ & _ & Hfd & Hsettled & _ & Hfrom & Hkeep).
  rewrite HdefB in Hf, Hfd, Hsettled, Hfrom. cbn [fst snd] in *.
  set (final := snd (normalizeRecordFolderMemberships now storeB
                       (Some [rid]))) in *.
  assert (Hall : forall link, In link (recordFolderLinks final) ->
            link_recordID link = rid -> link_folderID link = target).
  { intros link Hl Hr.
    destruct (Hfrom link Hl) as [Hold|[_ Hd]].
    - destruct (HfromB link Hold) as [Hstore|[_ Ht]]; [|exact Ht].
      now apply Hnolink in Hstore.
    - (* a link to the default folder *)
      destruct (Z.eq_dec target (folder_id defaultFolder)) as [->|Hother];
        [exact Hd|].
      destruct Hgiven as [Hgiven|Hgiven]; [contradiction|].
      destruct Hgiven as (mine & Hm & Hmr & Hmf).
      assert (Hkept : In mine (recordFolderLinks final)).
      { apply normalizeRecordFolderMemberships_keeps; [exact Hm|].
        rewrite HdefB. cbn [fst]. congruence. }
      destruct (Hsettled rid (proj2 (Heff rid) eq_refl)) as [_ Honly].
      rewrite (Honly target); [exact Hd| |].
      + exists link. tauto.
      + exists mine. tauto. }
  split; [|split; [exact Hall|split; [|exact (eq_trans Hf HfB)]]].
  - destruct (Hsettled rid (proj2 (Heff rid) eq_refl))
      as [[f (link & Hl & Hr & Hf')] _].
    exists link. split; [exact Hl|]. split; [exact Hr|]. now apply Hall.
  - intros link Hr. split.
    + intros Hl. destruct (Hfrom link Hl) as [Hold|[Hin _]].
      * destruct (HfromB link Hold) as [Hstore|[Hrid' _]];
          [exact Hstore | contradiction].
      * apply Heff in Hin. contradiction.
    + intros Hl. apply Hkeep; [rewrite Heff; exact Hr|]. now apply HkeepB.
Qed.

Lemma find_snoc_false {A : Type} (test : A -> bool) x l :
  test x = false -> find test (l ++ [x]) = find test l.
Proof.
  intros Hx. induction l as [|y l IH]; cbn [app find]; [now rewrite Hx|].
  now rewrite IH.
Qed.

(** The same, after [addRecordFolderLink] to a folder. *)
Lemma linked_then_filed_once now store defaultFolder rid target storeA :
  0 < rid ->
  (forall link, In link (recordFolderLinks store) ->
     link_recordID link <> rid) ->
  folders storeA = folders store ->
  recordFolderLinks storeA = recordFolderLinks store ->
  findFolderByName store DEFAULT_FOLDER_NAME = Some defaultFolder ->
  let final :=
    snd (normalizeRecordFolderMemberships now
           (addRecordFolderLink storeA rid target now) (Some [rid])) in
  linkedIn (recordFolderLinks final) rid target /\
  (forall link, In link (recordFolderLinks final) ->
     link_recordID link = rid -> link_folderID link = target) /\
  (forall link, link_recordID link <> rid ->
     (In link (recordFolderLinks final) <->
      In link (recordFolderLinks store))) /\
  folders final = folders store.
Proof.
  intros Hrid Hnolink HfA HlA Hdefault.
  apply (filed_once now store defaultFolder rid target); try assumption.
  - rewrite <- HfA. exact (proj1 (addRecordFolderLink_frame storeA rid _ now)).
  - intros link Hl. apply addRecordFolderLink_In in Hl. rewrite HlA in Hl.
    destruct Hl as [Hl|Hl]; [left; exact Hl | right; exact Hl].
  - intros link Hl. rewrite <- HlA in Hl.
    exact (addRecordFolderLink_keeps storeA rid _ now link Hl).
  - right. apply addRecordFolderLink_linked.
  - apply ensureDefaultFolder_found. rewrite findFolderByName_find.
    destruct (addRecordFolderLink_frame storeA rid target now) as (-> & _).
    rewrite HfA. exact Hdefault.
Qed.

(** On a store whose counters are at most [MAX_SAFE_INTEGER]:
    [upsertReviewRecord] for an item the store has no literature record of
    appends a record under an id that is at most [MAX_SAFE_INTEGER] and
    greater than that of every record of the store, links it to the folder
    given, or to the default folder when none is given, and to no other
    folder; the links of the other records and the folders stay. *)
Theorem new_record_is_filed_once now draft folderID file row defaultFolder :
  safeIDs (opened now file) ->
  findFolderByName (opened now file) DEFAULT_FOLDER_NAME = Some defaultFolder ->
  find (isLiteratureOf (draft_zoteroItemID draft)) (records (opened now file))
  = None ->
  result (upsertReviewRecord now draft folderID file) = Returned row ->
  let after := memory (upsertReviewRecord now draft folderID file) in
  let id := rec_id (row_record row) in
  let target := targetOf folderID defaultFolder in
  (id <= MAX_SAFE_INTEGER /\
   forall record, In record (records (opened now file)) -> rec_id record < id)
  /\
  records after = (records (opened now file) ++ [row_record row])%list /\
  linkedIn (recordFolderLinks after) id target /\
  (forall link, In link (recordFolderLinks after) -> link_recordID link = id ->
     link_folderID link = target) /\
  (forall link, link_recordID link <> id ->
     (In link (recordFolderLinks after) <->
      In link (recordFolderLinks (opened now file)))) /\
  folders after = folders (opened now file).
Proof.
  intros (_ & Hsafe & _) Hdefault Hnew Hret. cbv zeta.
  pose proof (upsertReviewRecord_returned now draft folderID file row Hret)
    as Hwritten. cbn zeta in Hwritten. rewrite Hnew in Hwritten.
  destruct Hwritten as (_ & Hrow & Hrecords).
  destruct (opened_ready now file) as [d Hready].
  assert (d = defaultFolder)
    by (pose proof (ready_default Hready); congruence).
  subst d.
  set (store := opened now file) in *.
  set (rid := Z.max 1 (next_record (nextIDs store))) in *.
  assert (Hid : rec_id (row_record row) = rid) by now rewrite Hrow.
  rewrite Hid.
  assert (Hpos : 0 < rid) by (unfold rid; lia).
  assert (Hfresh : forall record, In record (records store) ->
                                  rec_id record < rid).
  { intros record Hin. pose proof (ready_next_record Hready record Hin).
    unfold rid. lia. }
  assert (Hnolink : forall link, In link (recordFolderLinks store) ->
                                 link_recordID link <> rid).
  { intros link Hl Heq. pose proof (ready_link_record Hready link Hl) as Hr.
    apply in_map_iff in Hr. destruct Hr as (record & Hrid & Hin).
    apply Hfresh in Hin. lia. }
  assert (Hmax : rid <= MAX_SAFE_INTEGER)
    by (unfold rid, MAX_SAFE_INTEGER in *; lia).
  split; [split; [exact Hmax | exact Hfresh]|].
  split; [now rewrite Hrecords, Hrow|].
  revert Hret. unfold upsertReviewRecord. rewrite openStore_eq.
  fold store. rewrite Hnew. cbn [allocateID getNext]. fold rid.
  set (made := recordOfDraft rid (draft_zoteroItemID draft) draft now now).
  set (storeA := withRecords _ (_ ++ [made])).
  assert (HdefA : ensureDefaultFolder now storeA = (defaultFolder, storeA)).
  { apply ensureDefaultFolder_found. exact Hdefault. }
  change (rec_id made) with rid.
  destruct folderID as [| |given]; unfold resolveTargetFolderID.
  - intros _. cbn [memory targetOf].
    apply (filed_once now store defaultFolder rid); try assumption;
      try reflexivity; try tauto.
  - rewrite HdefA. intros _. cbn [memory targetOf].
    now apply (linked_then_filed_once now store defaultFolder rid).
  - destruct (findFolderByID storeA given) as [folder|] eqn:Hfound;
      [|discriminate].
    pose proof (findFolderByID_In _ _ _ Hfound) as [_ Hfid].
    intros _. cbn [memory targetOf]. rewrite Hfid.
    now apply (linked_then_filed_once now store defaultFolder rid).
Qed.

(** The paper, new to the store, is filed under "Robotics". *)
Lemma new_record_is_filed_once_witness :
  exists row,
    result (upsertReviewRecord tuesday paper (FolderNumber 2) shelved)
    = Returned row /\
    linkedIn
      (recordFolderLinks
         (memory (upsertReviewRecord tuesday paper (FolderNumber 2) shelved)))
      (rec_id (row_record row)) 2.
Proof.
  destruct (result (upsertReviewRecord tuesday paper (FolderNumber 2) shelved))
    as [row|] eqn:Hrow; [|vm_compute in Hrow; discriminate].
  destruct (findFolderByName (opened tuesday shelved) DEFAULT_FOLDER_NAME)
    as [defaultFolder|] eqn:Hdefault; [|vm_compute in Hdefault; discriminate].
  assert (Hnew : find (isLiteratureOf (draft_zoteroItemID paper))
                      (records (opened tuesday shelved)) = None)
    by (vm_compute; reflexivity).
  assert (Hsafe : safeIDs (opened tuesday shelved))
    by (repeat split; apply Z.leb_le; vm_compute; reflexivity).
  destruct (new_record_is_filed_once tuesday paper (FolderNumber 2) shelved
              row defaultFolder Hsafe Hdefault Hnew Hrow)
    as (_ & _ & Hlinked & _).
  exists row. split; [reflexivity | exact Hlinked].
Defined.

(** On a store whose counters are at most [MAX_SAFE_INTEGER]: a
    [createFolderSummaryRecord] that returned appended one record, of type
    [folderSummary] and of no item, under an id that is at most
    [MAX_SAFE_INTEGER] and greater than that of every record of the store;
    its sources are the positive ids given, each once;
    it is linked to the folder given, or to the default folder when none is
    given, and to no other; the literature record of every item is the one
    it was. *)
Theorem folder_summary_is_filed_apart now folderID folderName summaryText
    sourceRows aiProvider aiModel file row defaultFolder :
  safeIDs (opened now file) ->
  findFolderByName (opened now file) DEFAULT_FOLDER_NAME = Some defaultFolder ->
  result (createFolderSummaryRecord now folderID folderName summaryText
            sourceRows aiProvider aiModel file) = Returned row ->
  let after :=
    memory (createFolderSummaryRecord now folderID folderName summaryText
              sourceRows aiProvider aiModel file) in
  let summary := row_record row in
  let target := targetOf folderID defaultFolder in
  records after = (records (opened now file) ++ [summary])%list /\
  (rec_id summary <= MAX_SAFE_INTEGER /\
   forall record, In record (records (opened now file)) ->
     rec_id record < rec_id summary) /\
  rec_recordType summary = folderSummary /\
  rec_zoteroItemID summary = 0 /\
  rec_literatureReview summary = trim summaryText /\
  NoDup (rec_sourceRecordIDs summary) /\
  (forall id, In id (rec_sourceRecordIDs summary) <->
     In id (map fst sourceRows) /\ 0 < id) /\
  (forall item,
     find (isLiteratureOf item) (records after)
     = find (isLiteratureOf item) (records (opened now file))) /\
  linkedIn (recordFolderLinks after) (rec_id summary) target /\
  (forall link, In link (recordFolderLinks after) ->
     link_recordID link = rec_id summary -> link_folderID link = target) /\
  (forall link, link_recordID link <> rec_id summary ->
     (In link (recordFolderLinks after) <->
      In link (recordFolderLinks (opened now file)))) /\
  folders after = folders (opened now file).
Proof.
  intros (_ & Hsafe & _) Hdefault. cbv zeta.
  destruct (opened_ready now file) as [d Hready].
  assert (d = defaultFolder)
    by (pose proof (ready_default Hready); congruence).
  subst d.
  unfold createFolderSummaryRecord. rewrite openStore_eq.
  set (store := opened now file) in *.
  cbn [allocateID getNext].
  set (rid := Z.max 1 (next_record (nextIDs store))) in *.
  set (made := {| rec_id := rid; rec_recordType := folderSummary |}).
  set (storeA := withRecords _ (_ ++ [made])).
  change (rec_id made) with rid.
  assert (Hpos : 0 < rid) by (unfold rid; lia).
  assert (Hfresh : forall record, In record (records store) ->
                                  rec_id record < rid).
  { intros record Hin. pose proof (ready_next_record Hready record Hin).
    unfold rid. lia. }
  assert (Hnolink : forall link, In link (recordFolderLinks store) ->
                                 link_recordID link <> rid).
  { intros link Hl Heq. pose proof (ready_link_record Hready link Hl) as Hr.
    apply in_map_iff in Hr. destruct Hr as (record & Hrid & Hin).
    apply Hfresh in Hin. lia. }
  assert (HdefA : ensureDefaultFolder now storeA = (defaultFolder, storeA)).
  { apply ensureDefaultFolder_found. exact Hdefault. }
  assert (Hfinish : forall target,
    let final :=
      snd (normalizeRecordFolderMemberships now
             (addRecordFolderLink storeA rid target now) (Some [rid])) in
    records final = (records store ++ [made])%list).
  { intros target. cbv zeta. rewrite normalizeRecordFolderMemberships_records.
    now destruct (addRecordFolderLink_frame storeA rid target now)
      as (_ & -> & _). }
  assert (Hfind : forall item,
            find (isLiteratureOf item) (records store ++ [made])
            = find (isLiteratureOf item) (records store)).
  { intros item. now apply find_snoc_false. }
  assert (Hshape : forall target,
    target = targetOf folderID defaultFolder ->
    let final :=
      snd (normalizeRecordFolderMemberships now
             (addRecordFolderLink storeA rid target now) (Some [rid])) in
    records final = (records store ++ [made])%list /\
    (rid <= MAX_SAFE_INTEGER /\
     forall record, In record (records store) -> rec_id record < rid) /\
    rec_recordType made = folderSummary /\
    rec_zoteroItemID made = 0 /\
    rec_literatureReview made = trim summaryText /\
    NoDup (rec_sourceRecordIDs made) /\
    (forall id, In id (rec_sourceRecordIDs made) <->
       In id (map fst sourceRows) /\ 0 < id) /\
    (forall item,
       find (isLiteratureOf item) (records final)
       = find (isLiteratureOf item) (records store)) /\
    linkedIn (recordFolderLinks final) rid target /\
    (forall link, In link (recordFolderLinks final) ->
       link_recordID link = rid -> link_folderID link = target) /\
    (forall link, link_recordID link <> rid ->
       (In link (recordFolderLinks final) <->
        In link (recordFolderLinks store))) /\
    folders final = folders store).
  { intros target Htarget. cbv zeta.
    split; [apply Hfinish|].
    split; [split; [unfold rid, MAX_SAFE_INTEGER in *; lia | exact Hfresh]|].
    split; [reflexivity|]. split; [reflexivity|]. split; [reflexivity|].
    split; [apply Reload.uniqFrom_NoDup|].
    split; [intros id; apply normalizeIDList_In|].
    split; [intros item; rewrite Hfinish; apply Hfind|].
    now apply (linked_then_filed_once now store defaultFolder rid). }
  destruct folderID as [| |given]; unfold resolveTargetFolderID.
  - rewrite HdefA. intros Hret. injection Hret as <-.
    cbn [memory row_record mapRecordWithFolders withRawAIResponse commit].
    exact (Hshape (folder_id defaultFolder) eq_refl).
  - rewrite HdefA. intros Hret. injection Hret as <-.
    cbn [memory row_record mapRecordWithFolders withRawAIResponse commit].
    exact (Hshape (folder_id defaultFolder) eq_refl).
  - destruct (findFolderByID storeA given) as [folder|] eqn:Hfound;
      [|discriminate].
    pose proof (findFolderByID_In _ _ _ Hfound) as [_ Hfid].
    intros Hret. injection Hret as <-.
    cbn [memory row_record mapRecordWithFolders withRawAIResponse commit].
    rewrite Hfid. exact (Hshape given eq_refl).
Qed.

(** A summary of "Robotics" that names the paper as its source. *)
Lemma folder_summary_is_filed_apart_witness :
  find (isLiteratureOf 7)
       (records
          (memory (createFolderSummaryRecord wednesday (FolderNumber 2)
                     "Robotics" "A summary." [(1, 7)] "provider" "model"
                     filed)))
  = find (isLiteratureOf 7) (records (opened wednesday filed)).
Proof.
  destruct (result (createFolderSummaryRecord wednesday (FolderNumber 2)
                      "Robotics" "A summary." [(1, 7)] "provider" "model"
                      filed))
    as [row|] eqn:Hrow; [|vm_compute in Hrow; discriminate].
  destruct (findFolderByName (opened wednesday filed) DEFAULT_FOLDER_NAME)
    as [defaultFolder|] eqn:Hdefault; [|vm_compute in Hdefault; discriminate].
  assert (Hsafe : safeIDs (opened wednesday filed))
    by (repeat split; apply Z.leb_le; vm_compute; reflexivity).
  destruct (folder_summary_is_filed_apart wednesday (FolderNumber 2)
              "Robotics" "A summary." [(1, 7)] "provider" "model" filed row
              defaultFolder Hsafe Hdefault Hrow)
    as (_ & _ & _ & _ & _ & _ & _ & Hfind & _).
  apply Hfind.
Defined.

End Filing.

Section Merging.
Import JS Store Queries Operations.
Local Open Scope Z_scope.

(** Two folders, the paper in the first. *)
Definition twoShelves : File :=
  disk (upsertReviewRecord tuesday paper (FolderNumber 2)
          (disk (createReviewFolder monday "Vision" shelved))).

(** A [mergeReviewFolders] that returned, on a store whose folders have
    distinct ids and whose default folder bears the default name, into a
    folder other than the default one: the folder returned is in the store,
    the other folders given are gone with every link to them, every record
    that was in one of the folders given is in the folder returned, and no
    record is deleted. *)
Theorem merged_folders_move_their_records now folderIDs newFolderName file
    target defaultFolder :
  NoDup (map folder_id (folders (opened now file))) ->
  findFolderByName (opened now file) DEFAULT_FOLDER_NAME = Some defaultFolder ->
  folder_name defaultFolder = DEFAULT_FOLDER_NAME ->
  result (mergeReviewFolders now folderIDs newFolderName file)
  = Returned target ->
  folder_id target <> folder_id defaultFolder ->
  let after := memory (mergeReviewFolders now folderIDs newFolderName file) in
  In target (folders after) /\
  (forall id, In id folderIDs -> id <> 0 -> id <> folder_id target ->
     findFolderByID after id = None) /\
  (forall link, In link (recordFolderLinks (opened now file)) ->
     In (link_folderID link) folderIDs ->
     linkedIn (recordFolderLinks after) (link_recordID link)
              (folder_id target)) /\
  (forall link, In link (recordFolderLinks after) ->
     In (link_folderID link) folderIDs -> link_folderID link <> 0 ->
     link_folderID link = folder_id target) /\
  map rec_id (records after) = map rec_id (records (opened now file)) /\
  disk (mergeReviewFolders now folderIDs newFolderName file) = Some after.
Proof.
  intros Hids Hdefault Hdname Hret Hother. cbv zeta. revert Hret.
  unfold mergeReviewFolders. rewrite openStore_eq.
  destruct (opened_ready now file) as [d Hready].
  assert (d = defaultFolder)
    by (pose proof (ready_default Hready); congruence).
  subst d.
  set (store := opened now file) in *.
  set (validIDs := uniq (filter (fun id => negb (id =? 0)) folderIDs)).
  assert (Hvalid : forall id, In id validIDs <-> In id folderIDs /\ id <> 0).
  { intros id. unfold validIDs. rewrite uniq_In, filter_In, negb_true_iff.
    now rewrite Z.eqb_neq. }
  destruct (_ <? 2)%nat; [discriminate|].
  destruct (filter _ (filterMap (findFolderByID store) validIDs))
    as [|p ps] eqn:Hprotected; [|discriminate].
  assert (Hsafe : forall g, In g (folders store) -> In (folder_id g) validIDs ->
                            isProtectedName (folder_name g) = false).
  { intros g Hg Hv. destruct (isProtectedName (folder_name g)) eqn:Hp;
      [|reflexivity].
    exfalso.
    assert (Hin : In g (filter (fun f => isProtectedName (folder_name f))
                          (filterMap (findFolderByID store) validIDs))).
    { apply filter_In. split; [|exact Hp]. apply filterMap_In.
      exists (folder_id g). split; [exact Hv|].
      destruct (findFolderByID store (folder_id g)) as [g'|] eqn:Hfind.
      - apply findFolderByID_In in Hfind. destruct Hfind as [Hg' Hid].
        f_equal. apply (NoDup_map_inj folder_id (folders store)); auto.
      - unfold findFolderByID in Hfind. apply (find_none _ _ Hfind) in Hg.
        now rewrite Z.eqb_refl in Hg. }
    rewrite Hprotected in Hin. destruct Hin. }
  destruct (isEmpty (normalizeFolderName newFolderName)); [discriminate|].
  destruct (ready_tidy Hready) as ([Hfs Hrs] & Hnd & Hkeys).
  destruct (ready_default_key defaultFolder store Hready) as [Hdin Hdkey].
  assert (Hdprot : isProtectedName (folder_name defaultFolder) = true)
    by (unfold isProtectedName; rewrite Hdname; apply String.eqb_refl).
  (* the destination folder *)
  assert (Hdest :
    let dest :=
      match findFolderByName store (normalizeFolderName newFolderName) with
      | Some folder => (folder, store)
      | None =>
          let '(id, store0) := allocateID store forFolder in
          let folder :=
            {| folder_id := id;
               folder_name := normalizeFolderName newFolderName;
               folder_createdAt := now; folder_updatedAt := now |} in
          (folder, withFolders store0 (folders store0 ++ [folder]))
      end in
    records (snd dest) = records store /\
    recordFolderLinks (snd dest) = recordFolderLinks store /\
    In (fst dest) (folders (snd dest)) /\
    (forall g, In g (folders (snd dest)) ->
       In g (folders store) \/ g = fst dest) /\
    findFolderByName (snd dest) DEFAULT_FOLDER_NAME = Some defaultFolder /\
    0 < folder_id (fst dest)).
  { cbn zeta.
    destruct (findFolderByName store (normalizeFolderName newFolderName))
      as [existing|] eqn:Hname; cbn [fst snd allocateID].
    - rewrite findFolderByName_find in Hname. apply find_hasKey_In in Hname.
      destruct Hname as [Hin _].
      repeat (split; [reflexivity || assumption || (intros; now left)|]).
      now apply Hfs.
    - cbn [records recordFolderLinks folders withFolders withNextIDs
           folder_id].
      split; [reflexivity|]. split; [reflexivity|].
      split; [apply in_or_app; right; now left|].
      split; [intros g Hg; apply in_app_or in Hg;
              destruct Hg as [Hg|[<-|[]]]; [now left | now right]|].
      split; [|lia].
      rewrite findFolderByName_find. cbn [folders withFolders withNextIDs].
      apply find_app_found. rewrite <- findFolderByName_find.
      exact Hdefault. }
  cbn zeta in Hdest.
  destruct (match findFolderByName store (normalizeFolderName newFolderName)
            with Some folder => _ | None => _ end) as [newFolder storeA].
  cbn [fst snd] in Hdest.
  destruct Hdest as (HrA & HlA & HtA & HfA & HdA & HposA).
  set (affected := getRecordIDsByFolderIDsInternal storeA validIDs).
  pose proof (addLinks_spec (fun _ _ => true) (folder_id newFolder) now
                affected storeA (fun _ _ _ => eq_refl)) as Hadd.
  cbv beta iota zeta in Hadd.
  set (storeB := fold_left _ affected storeA) in *.
  destruct Hadd as (HfB & HrB & HnB & HkeepB & HfromB & HaddB).
  set (sources := filter (fun id => negb (id =? folder_id newFolder)) validIDs).
  assert (Hsources : forall id, In id sources <->
                                In id validIDs /\ id <> folder_id newFolder).
  { intros id. unfold sources. rewrite filter_In, negb_true_iff.
    now rewrite Z.eqb_neq. }
  set (storeC := match sources with [] => storeB | _ :: _ => _ end).
  assert (HC : records storeC = records storeB /\
               folders storeC
               = filter (fun g => negb (memZ (folder_id g) sources)
                                  || isProtectedName (folder_name g))
                        (folders storeB) /\
               recordFolderLinks storeC
               = filter (fun link => negb (memZ (link_folderID link) sources))
                        (recordFolderLinks storeB)).
  { unfold storeC. destruct sources as [|s ss] eqn:Hsrc.
    - split; [reflexivity|].
      split; symmetry; apply Reload.filter_all; reflexivity.
    - now cbn [records folders recordFolderLinks withFolders withLinks]. }
  clearbody storeC. destruct HC as (HrC & HfC & HlC).
  intros [= <-].
  assert (HdefC : ensureDefaultFolder now storeC = (defaultFolder, storeC)).
  { apply ensureDefaultFolder_found. rewrite findFolderByName_find, HfC, HfB.
    apply find_filter_kept.
    - now rewrite <- findFolderByName_find.
    - rewrite Hdprot. apply orb_true_r. }
  set (storeD := snd (normalizeRecordFolderMemberships now storeC
                        (Some affected))).
  assert (HD : folders storeD = folders storeC /\
               records storeD = records storeC /\
               (forall link, In link (recordFolderLinks storeD) ->
                  In link (recordFolderLinks storeC) \/
                  link_folderID link = folder_id defaultFolder) /\
               (forall link, In link (recordFolderLinks storeC) ->
                  link_folderID link <> folder_id defaultFolder ->
                  In link (recordFolderLinks storeD))).
  { split; [|split; [|split]].
    - unfold storeD.
      destruct (effectiveIDs storeC (Some affected)) as [|i ids] eqn:Heff.
      + now rewrite normalizeRecordFolderMemberships_idle.
      + assert (Hne : effectiveIDs storeC (Some affected) <> [])
          by (rewrite Heff; discriminate).
        destruct (normalizeRecordFolderMemberships_spec now storeC
                    (Some affected) Hne) as (Hf & _).
        now rewrite HdefC in Hf.
    - apply normalizeRecordFolderMemberships_records.
    - intros link Hl.
      destruct (normalizeRecordFolderMemberships_from now storeC
                  (Some affected) link Hl) as [Hold|(g & Hg & Hid)];
        [now left | right].
      fold storeD in Hg. rewrite Hid. f_equal.
      assert (HfD : folders storeD = folders storeC).
      { unfold storeD.
        destruct (effectiveIDs storeC (Some affected)) as [|i ids] eqn:Heff.
        - now rewrite normalizeRecordFolderMemberships_idle.
        - assert (Hne : effectiveIDs storeC (Some affected) <> [])
            by (rewrite Heff; discriminate).
          destruct (normalizeRecordFolderMemberships_spec now storeC
                      (Some affected) Hne) as (Hf & _).
          now rewrite HdefC in Hf. }
      rewrite findFolderByName_find, HfD in Hg.
      pose proof (ensureDefaultFolder_spec now storeC) as (Hfound & _).
      rewrite HdefC in Hfound. cbn [fst snd] in Hfound.
      rewrite findFolderByName_find in Hfound. congruence.
    - intros link Hl Hne.
      apply normalizeRecordFolderMemberships_keeps; [exact Hl|].
      now rewrite HdefC. }
  destruct HD as (HfD & HrD & HfromD & HkeepD).
  cbn [result memory disk commit]. unfold saveStoreData, markStoreUpdated.
  cbn [folders records recordFolderLinks withStamps].
  destruct (touchRecords_frame storeD affected now) as [Hfs' Hls'].
  assert (Hfinal : forall g, In g (folders storeD) ->
            ~ In (folder_id g) sources).
  { intros g Hg Hsrc. rewrite HfD, HfC in Hg. apply filter_In in Hg.
    destruct Hg as [Hg Hkeep]. rewrite HfB in Hg.
    apply orb_true_iff in Hkeep. destruct Hkeep as [Hkeep|Hkeep].
    - apply negb_true_iff, memZ_false in Hkeep. contradiction.
    - apply Hsources in Hsrc. destruct Hsrc as [Hv Hne].
      destruct (HfA g Hg) as [Hold| ->]; [|now apply Hne].
      rewrite (Hsafe g Hold Hv) in Hkeep. discriminate. }
  split; [|split; [|split; [|split; [|split]]]].
  - rewrite Hfs', HfD, HfC. apply filter_In. rewrite HfB.
    split; [exact HtA|]. apply orb_true_iff. left.
    apply negb_true_iff, memZ_false. intros Hsrc. apply Hsources in Hsrc.
    tauto.
  - intros id Hin Hnz Hne. apply findFolderByID_none.
    cbn [folders withStamps]. rewrite Hfs'. intros g Hg Hid.
    apply (Hfinal g Hg). apply Hsources. rewrite Hid.
    split; [apply Hvalid; tauto | exact Hne].
  - rewrite Hls'. intros link Hl Hf.
    destruct (ready_link_bounds defaultFolder store link Hready Hl)
      as [[Hpos _] _].
    assert (Haff : In (link_recordID link) affected).
    { apply getRecordIDsByFolderIDsInternal_In. exists link. rewrite HlA.
      split; [exact Hl|]. split; [reflexivity|].
      split; [apply Hvalid; split; [exact Hf | lia] | exact Hpos]. }
    destruct (HaddB (link_recordID link) Haff eq_refl)
      as (added & Ha & Har & Haf).
    exists added. split; [|tauto].
    apply HkeepD; [|congruence]. rewrite HlC. apply filter_In.
    split; [exact Ha|]. apply negb_true_iff, memZ_false.
    intros Hsrc. apply Hsources in Hsrc. tauto.
  - rewrite Hls'. intros link Hl Hf Hnz.
    destruct (Z.eq_dec (link_folderID link) (folder_id newFolder))
      as [Heq|Hne]; [exact Heq|]. exfalso.
    assert (Hsrc : In (link_folderID link) sources)
      by (apply Hsources; split; [apply Hvalid; tauto | exact Hne]).
    destruct (HfromD link Hl) as [Hold|Hd].
    + rewrite HlC in Hold. apply filter_In in Hold.
      destruct Hold as [_ Hkeep].
      apply negb_true_iff, memZ_false in Hkeep. contradiction.
    + apply Hsources in Hsrc. destruct Hsrc as [Hv _]. rewrite Hd in Hv.
      rewrite (Hsafe defaultFolder Hdin Hv) in Hdprot. discriminate.
  - rewrite touchRecords_ids, HrD, HrC, HrB, HrA. reflexivity.
  - reflexivity.
Qed.

(** Both folders are merged into a new one. *)
Lemma merged_folders_move_their_records_witness :
  findFolderByID
    (memory (mergeReviewFolders wednesday [2; 3] "Perception" twoShelves)) 2
  = None.
Proof.
  destruct (result (mergeReviewFolders wednesday [2; 3] "Perception"
                      twoShelves))
    as [target|] eqn:Htarget; [|vm_compute in Htarget; discriminate].
  destruct (findFolderByName (opened wednesday twoShelves) DEFAULT_FOLDER_NAME)
    as [defaultFolder|] eqn:Hdefault; [|vm_compute in Hdefault; discriminate].
  assert (Hids : NoDup (map folder_id (folders (opened wednesday twoShelves)))).
  { vm_compute. repeat constructor; cbn; intuition discriminate. }
  assert (Hname : folder_name defaultFolder = DEFAULT_FOLDER_NAME).
  { vm_compute in Hdefault. injection Hdefault as <-. reflexivity. }
  assert (Hother : folder_id target <> folder_id defaultFolder).
  { vm_compute in Hdefault. injection Hdefault as <-.
    vm_compute in Htarget. injection Htarget as <-. vm_compute.
    discriminate. }
  assert (Hnot : 2 <> folder_id target).
  { vm_compute in Htarget. injection Htarget as <-. vm_compute.
    discriminate. }
  destruct (merged_folders_move_their_records wednesday [2; 3] "Perception"
              twoShelves target defaultFolder Hids Hdefault Hname Htarget
              Hother) as (_ & Hgone & _).
  apply Hgone; [now left | discriminate | exact Hnot].
Defined.

End Merging.

Section Deleting.
Import JS Store Queries.
Local Open Scope Z_scope.

Lemma map_filter_comm {A B : Type} (f : A -> B) (p : B -> bool) l :
  map f (filter (fun x => p (f x)) l) = filter p (map f l).
Proof.
  induction l as [|x l IH]; [reflexivity|]. cbn [filter map].
  destruct (p (f x)); cbn [map]; now rewrite IH.
Qed.

(** [deleteReviewRecords] returns the number of distinct ids given that are
    ids of records; it removes the records with these ids and their links,
    and leaves the folders and the other links as they are.  When the ids of
    the records are distinct, the store has that many records fewer.  When
    no id given is the id of a record it returns 0 and writes nothing. *)
Theorem deleted_records_are_counted now recordIDs file :
  let store := opened now file in
  let after := memory (deleteReviewRecords now recordIDs file) in
  exists removed,
    result (deleteReviewRecords now recordIDs file)
    = Returned (Z.of_nat (List.length removed)) /\
    NoDup removed /\
    (forall id, In id removed <->
       In id recordIDs /\ In id (map rec_id (records store))) /\
    (forall record, In record (records after) -> ~ In (rec_id record) removed)
    /\
    map rec_id (records after)
    = filter (fun id => negb (memZ id removed)) (map rec_id (records store)) /\
    recordFolderLinks after
    = filter (fun link => negb (memZ (link_recordID link) removed))
             (recordFolderLinks store) /\
    folders after = folders store /\
    (NoDup (map rec_id (records store)) ->
     (List.length (records after) + List.length removed
      = List.length (records store))%nat) /\
    (removed = [] ->
     after = store /\
     disk (deleteReviewRecords now recordIDs file) = afterLoad now file).
Proof.
  cbv zeta. unfold deleteReviewRecords. rewrite openStore_eq.
  set (store := opened now file).
  set (removed := filter (fun id => memZ id (map rec_id (records store)))
                         (normalizeIDList recordIDs)).
  exists removed.
  destruct (opened_ready now file) as [d Hready]. fold store in Hready.
  assert (Hin : forall id, In id removed <->
                  In id recordIDs /\ In id (map rec_id (records store))).
  { intros id. unfold removed. rewrite filter_In, normalizeIDList_In, memZ_In.
    split; [tauto|]. intros [H1 H2]. split; [|exact H2].
    split; [exact H1|]. exact (ready_record_positive d store id Hready H2). }
  assert (Hnd : NoDup removed).
  { unfold removed. apply NoDup_filter. unfold normalizeIDList, uniq.
    apply Reload.uniqFrom_NoDup. }
  destruct removed as [|r rest] eqn:Hremoved.
  - cbn [result memory disk leave List.length filter].
    split; [reflexivity|]. split; [exact Hnd|]. split; [exact Hin|].
    split; [intros record _ []|].
    split; [symmetry; apply Reload.filter_all; reflexivity|].
    split; [symmetry; apply Reload.filter_all; reflexivity|].
    split; [reflexivity|]. split; [intros _; cbn [List.length]; lia|].
    intros _. split; reflexivity.
  - assert (Hne : r :: rest <> []) by discriminate.
    rewrite <- Hremoved in *. clear Hremoved.
    cbn [result memory disk commit]. unfold saveStoreData, markStoreUpdated.
    cbn [records folders recordFolderLinks withStamps withRecords withLinks].
    set (kept := filter (fun record => negb (memZ (rec_id record) removed))
                        (records store)).
    assert (Hpruned : forall removedItems,
              map rec_id (map (pruneSources removed removedItems now) kept)
              = map rec_id kept).
    { intros removedItems. rewrite map_map. apply map_ext.
      intros record. unfold pruneSources. now destruct (_ || _). }
    split; [reflexivity|]. split; [exact Hnd|]. split; [exact Hin|].
    split; [|split; [|split; [reflexivity|split; [reflexivity|split]]]].
    + intros record Hrec Hrem.
      assert (Hid : In (rec_id record) (map rec_id kept)).
      { rewrite <- (Hpruned
          (map rec_zoteroItemID
             (filter (fun record => memZ (rec_id record) removed
                                    && (0 <? rec_zoteroItemID record))
                     (records store)))).
        now apply in_map. }
      apply in_map_iff in Hid. destruct Hid as (k & Hk & Hkin).
      apply filter_In in Hkin. destruct Hkin as [_ Hout].
      apply negb_true_iff, memZ_false in Hout. apply Hout. now rewrite Hk.
    + rewrite Hpruned. unfold kept.
      apply (map_filter_comm rec_id (fun id => negb (memZ id removed))).
    + intros Hids. rewrite length_map.
      pose proof (filter_length (fun record => memZ (rec_id record) removed)
                    (records store)) as Hsplit.
      cbv beta in Hsplit. fold kept in Hsplit.
      assert (Hsame : List.length
                        (filter (fun record => memZ (rec_id record) removed)
                                (records store)) = List.length removed).
      { rewrite <- (length_map rec_id). apply Permutation_length.
        apply NoDup_Permutation; [now apply NoDup_map_filter | exact Hnd|].
        intros id. rewrite Hin, in_map_iff. split.
        - intros (record & <- & Hrec). apply filter_In in Hrec.
          destruct Hrec as [Hrec Hmem]. apply memZ_In, Hin in Hmem.
          split; [tauto | now apply in_map].
        - intros [Hgiven Hrec]. apply in_map_iff in Hrec.
          destruct Hrec as (record & <- & Hrec). exists record.
          split; [reflexivity|]. apply filter_In. split; [exact Hrec|].
          apply memZ_In, Hin. split; [exact Hgiven | now apply in_map]. }
      lia.
    + intros Hnil. contradiction.
Qed.

End Deleting.

Section Assigning.
Import JS Store Queries.
Local Open Scope Z_scope.

(** The links the loop of [assignReviewRecordsFolder] adds are links of
    identifiers it picked. *)
Lemma addLinks_picked (pick : JSONStoreData -> Z -> bool) folderID timestamp
    ids :
  forall store,
  (forall store recordID,
     records (addRecordFolderLink store recordID folderID timestamp)
     = records store ->
     pick (addRecordFolderLink store recordID folderID timestamp) = pick store) ->
  forall link,
    In link
       (recordFolderLinks
          (fold_left (fun store recordID =>
                        if pick store recordID
                        then addRecordFolderLink store recordID folderID
                               timestamp
                        else store) ids store)) ->
    In link (recordFolderLinks store) \/
    (pick store (link_recordID link) = true /\ link_folderID link = folderID).
Proof.
  induction ids as [|i ids IH]; intros store Hpick link; cbn [fold_left];
    [now left|].
  set (store1 := if pick store i
                 then addRecordFolderLink store i folderID timestamp
                 else store).
  assert (Hp1 : pick store1 = pick store).
  { unfold store1. destruct (pick store i); [|reflexivity].
    apply Hpick. apply addRecordFolderLink_frame. }
  intros Hl. apply (IH store1 Hpick) in Hl. rewrite Hp1 in Hl.
  destruct Hl as [Hl|Hl]; [|now right].
  unfold store1 in Hl. destruct (pick store i) eqn:Hi; [|now left].
  apply addRecordFolderLink_In in Hl.
  destruct Hl as [Hl|[Hr Hf]]; [now left|]. right. now rewrite Hr.
Qed.

(** [assignReviewRecordsFolder] to a folder of the store other than the
    default one deletes no record and no folder.  A record of the store is
    afterwards in a folder other than the default one exactly when it was
    in it before, or the folder is the one given and the record is among
    those given: the folders it had are kept.  A positive id given that is
    no record's is written with a link to the default folder. *)
Theorem assigned_records_keep_their_folders now recordIDs folderID file
    folder defaultFolder :
  findFolderByID (opened now file) folderID = Some folder ->
  findFolderByName (opened now file) DEFAULT_FOLDER_NAME = Some defaultFolder ->
  folderID <> folder_id defaultFolder ->
  let assigned :=
    assignReviewRecordsFolder now recordIDs (FolderNumber folderID) file in
  let after := memory assigned in
  result assigned = Returned tt /\
  folders after = folders (opened now file) /\
  map rec_id (records after) = map rec_id (records (opened now file)) /\
  (forall record other,
     In record (records (opened now file)) ->
     other <> folder_id defaultFolder ->
     (linkedIn (recordFolderLinks after) (rec_id record) other <->
      linkedIn (recordFolderLinks (opened now file)) (rec_id record) other \/
      (other = folderID /\ In (rec_id record) recordIDs))) /\
  (forall id,
     In id recordIDs -> 0 < id ->
     ~ In id (map rec_id (records (opened now file))) ->
     linkedIn (recordFolderLinks after) id (folder_id defaultFolder)).
Proof.
  intros Hfound Hdef Hother. cbv zeta.
  destruct (opened_ready now file) as [d0 Hready].
  pose proof (findFolderByID_In _ _ _ Hfound) as [_ Hfid].
  unfold assignReviewRecordsFolder. rewrite openStore_eq.
  destruct (normalizeIDList recordIDs) as [|i rest] eqn:Hids.
  - cbn [leave result memory].
    assert (Hnone : forall id, In id recordIDs -> 0 < id -> False).
    { intros id Hin Hpos. pose proof (normalizeIDList_nil _ Hids _ Hin). lia. }
    split; [reflexivity|]. split; [reflexivity|]. split; [reflexivity|].
    split.
    + intros record other Hrec Hne. split; [now left|].
      intros [Hl|[_ Hin]]; [exact Hl|]. exfalso. apply (Hnone _ Hin).
      apply (ready_record_positive d0 (opened now file)); [exact Hready|].
      now apply in_map.
    + intros id Hin Hpos _. destruct (Hnone id Hin Hpos).
  - assert (Hmem : forall x, In x (i :: rest) <-> In x recordIDs /\ 0 < x)
      by (intros x; rewrite <- Hids; apply normalizeIDList_In).
    set (ids := i :: rest) in *. unfold resolveTargetFolderID.
    rewrite Hfound. set (store := opened now file) in *.
    set (pick := fun (store : JSONStoreData) id =>
                   existsb (fun record => rec_id record =? id)
                           (records store)).
    assert (Hpick : forall s0 r0,
              records (addRecordFolderLink s0 r0 (folder_id folder) now)
              = records s0 ->
              pick (addRecordFolderLink s0 r0 (folder_id folder) now)
              = pick s0).
    { intros s0 r0 H. unfold pick. now rewrite H. }
    pose proof (addLinks_spec pick (folder_id folder) now ids store Hpick)
      as Hadd.
    pose proof (addLinks_picked pick (folder_id folder) now ids store Hpick)
      as Hpicked.
    cbn zeta in Hadd.
    destruct Hadd as (HfB & HrB & HnB & HkeepB & HfromB & HaddB).
    fold pick.
    set (storeB := fold_left _ ids store) in *.
    assert (HdefB : ensureDefaultFolder now storeB = (defaultFolder, storeB)).
    { apply ensureDefaultFolder_found. rewrite findFolderByName_find, HfB.
      exact Hdef. }
    assert (Hne : effectiveIDs storeB (Some ids) <> []).
    { unfold ids. cbn [effectiveIDs]. fold ids. rewrite <- Hids.
      rewrite Reload.normalizeIDList_idempotent. now rewrite Hids. }
    assert (Heff : forall x, In x (effectiveIDs storeB (Some ids)) <->
                             In x recordIDs /\ 0 < x).
    { intros x. unfold ids. cbn [effectiveIDs]. fold ids. rewrite <- Hids.
      rewrite Reload.normalizeIDList_idempotent. apply normalizeIDList_In. }
    destruct (normalizeRecordFolderMemberships_spec now storeB (Some ids) Hne)
      as (Hf2 & Hr2 & _ & _ & Hsettled & _ & Hfrom & _).
    rewrite HdefB in Hf2, Hsettled, Hfrom. cbn [fst snd] in Hf2, Hsettled, Hfrom.
    set (store2 := snd (normalizeRecordFolderMemberships now storeB (Some ids)))
      in *.
    assert (Hkeep : forall link, In link (recordFolderLinks storeB) ->
              link_folderID link <> folder_id defaultFolder ->
              In link (recordFolderLinks store2)).
    { intros link Hl Hnd.
      apply normalizeRecordFolderMemberships_keeps; [exact Hl|].
      rewrite HdefB. exact Hnd. }
    cbn [result memory commit]. unfold markStoreUpdated.
    cbn [folders records recordFolderLinks withStamps].
    destruct (touchRecords_frame store2 ids now) as [Hfs Hls].
    assert (Hisrecord : forall id,
              pick store id = true <-> In id (map rec_id (records store))).
    { intros id. unfold pick. rewrite in_map_iff. split.
      - intros H. apply existsb_exists in H. destruct H as (r & Hin & Hr).
        apply Z.eqb_eq in Hr. now exists r.
      - intros (r & Hr & Hin). apply existsb_exists. exists r.
        split; [exact Hin | now apply Z.eqb_eq]. }
    split; [reflexivity|]. split; [now rewrite Hfs, Hf2, HfB|].
    split; [now rewrite touchRecords_ids, Hr2, HrB|]. split.
    + intros record other Hrec Hnd. rewrite Hls. split.
      * intros (link & Hl & Hr & Hf).
        destruct (Hfrom link Hl) as [Hl'|[_ Hd]]; [|congruence].
        destruct (HfromB link Hl') as [Hold|[Hin Hto]].
        -- left. now exists link.
        -- right. split; [congruence|]. rewrite <- Hr. now apply Hmem.
      * intros [(link & Hl & Hr & Hf)|[-> Hin]].
        -- exists link. split; [|tauto]. apply Hkeep; [|congruence].
           now apply HkeepB.
        -- assert (Hpos : 0 < rec_id record).
           { apply (ready_record_positive d0 store); [exact Hready|].
             now apply in_map. }
           destruct (HaddB (rec_id record)) as (link & Hl & Hr & Hf).
           ++ apply Hmem. tauto.
           ++ apply Hisrecord. now apply in_map.
           ++ exists link. split; [|split; [exact Hr | congruence]].
              apply Hkeep; [exact Hl | congruence].
    + intros id Hin Hpos Hnot. rewrite Hls.
      destruct (Hsettled id (proj2 (Heff id) (conj Hin Hpos)))
        as [[f (link & Hl & Hr & Hf)] _].
      exists link. split; [exact Hl|]. split; [exact Hr|].
      destruct (Hfrom link Hl) as [Hl'|[_ Hd]]; [|exact Hd].
      exfalso. apply Hnot.
      destruct (Hpicked link Hl') as [Hold|[Hp _]].
      * rewrite <- Hr. exact (ready_link_record Hready link Hold).
      * rewrite <- Hr. now apply Hisrecord.
Qed.

(** The paper, in "Robotics", is assigned to "Vision" too, together with an
    id that is no record's. *)
Lemma assigned_records_keep_their_folders_witness :
  linkedIn
    (recordFolderLinks
       (memory (assignReviewRecordsFolder Operations.wednesday [1; 9]
                  (FolderNumber 3)
                  (disk (createReviewFolder Operations.monday "Vision"
                           Operations.filed)))))
    1 2 /\
  linkedIn
    (recordFolderLinks
       (memory (assignReviewRecordsFolder Operations.wednesday [1; 9]
                  (FolderNumber 3)
                  (disk (createReviewFolder Operations.monday "Vision"
                           Operations.filed)))))
    9 1.
Proof.
  set (file := disk (createReviewFolder Operations.monday "Vision"
                       Operations.filed)).
  destruct (findFolderByID (opened Operations.wednesday file) 3)
    as [folder|] eqn:Hfind; [|vm_compute in Hfind; discriminate].
  destruct (findFolderByName (opened Operations.wednesday file)
              DEFAULT_FOLDER_NAME)
    as [defaultFolder|] eqn:Hdefault; [|vm_compute in Hdefault; discriminate].
  assert (Hid : folder_id defaultFolder = 1).
  { vm_compute in Hdefault. now injection Hdefault as <-. }
  assert (Hother : 3 <> folder_id defaultFolder) by (rewrite Hid; lia).
  destruct (records (opened Operations.wednesday file))
    as [|record others] eqn:Hrecords; [vm_compute in Hrecords; discriminate|].
  assert (Hrec : rec_id record = 1).
  { vm_compute in Hrecords. now injection Hrecords as <- _. }
  assert (Hnone : others = []).
  { vm_compute in Hrecords. now injection Hrecords as _ <-. }
  destruct (assigned_records_keep_their_folders Operations.wednesday [1; 9] 3
              file folder defaultFolder Hfind Hdefault Hother)
    as (_ & _ & _ & Hkept & Hdangling).
  split.
  - assert (Hin : In record (records (opened Operations.wednesday file)))
      by (rewrite Hrecords; now left).
    assert (Hne : 2 <> folder_id defaultFolder) by (rewrite Hid; lia).
    destruct (Hkept record 2 Hin Hne) as [_ Hback]. rewrite Hrec in Hback.
    apply Hback. left. vm_compute.
    eexists. split; [left; reflexivity|]. split; reflexivity.
  - rewrite Hid in Hdangling. apply Hdangling; [right; now left | lia |].
    rewrite Hrecords, Hnone. cbn [map In]. rewrite Hrec. intros [H|[]].
    discriminate.
Defined.

End Assigning.

(** ** Batched embedding requests ([reviewAI.ts]) and the pages of the
    manager ([reviewManager.ts]) *)

Module Batches.
Import JS Store Queries.

(** [Math.max(1, Math.min(100, Math.floor(Number(n) || 1)))] for a setting
    that is an integer. *)
Definition batchSizeOf (embeddingBatchNum : Z) : nat :=
  Z.to_nat
    (Z.max 1 (Z.min 100 (if (embeddingBatchNum =? 0)%Z then 1%Z
                         else embeddingBatchNum))).

(** The values of [i] in [for (i = 0; i < len; i += size)]. *)
Definition loopStarts (size len : nat) : list nat :=
  map (fun j => j * size) (seq 0 ((len + size - 1) / size)).

(** [inputs.slice(i, i + size)] on an array. *)
Definition sliceOf {A : Type} (l : list A) (i j : nat) : list A :=
  firstn (j - i) (skipn i l).

(** The loop of [fetchOpenAIEmbeddingsInBatches]; [fetch] is
    [fetchOpenAIEmbeddings] with the settings and the timeout, which returns
    the vectors of a batch or throws. *)
Fixpoint fetchFrom {V : Type} (fetch : list string -> Result (list V))
    (size : nat) (inputs : list string) (starts : list nat)
    (vectors : list V) : Result (list V) :=
  match starts with
  | [] => Returned vectors
  | i :: rest =>
      match fetch (sliceOf inputs i (i + size)) with
      | Returned next => fetchFrom fetch size inputs rest (vectors ++ next)
      | Thrown message => Thrown message
      end
  end.

Definition fetchOpenAIEmbeddingsInBatches {V : Type}
    (fetch : list string -> Result (list V)) (embeddingBatchNum : Z)
    (inputs : list string) : Result (list V) :=
  let batchSize := batchSizeOf embeddingBatchNum in
  fetchFrom fetch batchSize inputs (loopStarts batchSize (List.length inputs))
            [].

(** [getTotalPages] of the manager, on integers: [Math.ceil(t / s)] is
    [(t + s - 1) / s] there. *)
Definition getTotalPages (totalRows pageSize : Z) : Z :=
  let safeSize := Z.max 1 (if (pageSize =? 0)%Z then 1 else pageSize)%Z in
  let safeTotal := Z.max 0 totalRows in
  Z.max 1 ((safeTotal + safeSize - 1) / safeSize)%Z.

(** The page [refreshManagerData] shows: [state.page] brought between 1 and
    the number of pages. *)
Definition shownPage (page totalPages : Z) : Z :=
  Z.min (Z.max 1 page) totalPages.

(** *** Slices that tile a list *)

Lemma slices_tile {A : Type} (size : nat) : forall n (l : list A),
  List.length l <= n * size ->
  List.concat (map (fun j => firstn size (skipn (j * size) l)) (seq 0 n)) = l.
Proof.
  induction n as [|n IH]; intros l Hlen.
  - destruct l; [reflexivity | cbn in Hlen; lia].
  - cbn [seq map List.concat]. rewrite <- seq_shift, map_map.
    cbn [Nat.mul skipn Nat.add].
    transitivity (firstn size l ++ skipn size l)%list;
      [|apply firstn_skipn].
    f_equal.
    rewrite <- (IH (skipn size l)) at 1.
    + f_equal. apply map_ext. intros j. f_equal.
      rewrite skipn_skipn. f_equal. lia.
    + rewrite length_skipn. lia.
Qed.

Lemma ceiling_covers len size : 0 < size -> len <= (len + size - 1) / size * size.
Proof.
  intros Hsize.
  pose proof (Nat.mul_succ_div_gt (len + size - 1) size ltac:(lia)) as H.
  nia.
Qed.

Lemma ceiling_tight len size j :
  0 < size -> j < (len + size - 1) / size -> j * size < len.
Proof.
  intros Hsize Hj.
  pose proof (Nat.Div0.mul_div_le (len + size - 1) size) as H.
  nia.
Qed.

Lemma batchSizeOf_bounds n : 1 <= batchSizeOf n <= 100.
Proof. unfold batchSizeOf. destruct (n =? 0)%Z; lia. Qed.

Lemma fetchFrom_all {V : Type} (answer : list string -> list V) size inputs :
  forall starts vectors,
  fetchFrom (fun batch => Returned (answer batch)) size inputs starts vectors
  = Returned
      (vectors ++
       List.concat (map (fun i => answer (sliceOf inputs i (i + size))) starts))%list.
Proof.
  induction starts as [|i rest IH]; intros vectors; cbn [fetchFrom map List.concat].
  - now rewrite app_nil_r.
  - rewrite IH. now rewrite app_assoc.
Qed.

Lemma fetchFrom_thrown {V : Type} (fetch : list string -> Result (list V))
    size inputs message :
  forall starts vectors i,
  In i starts -> fetch (sliceOf inputs i (i + size)) = Thrown message ->
  exists first,
    fetchFrom fetch size inputs starts vectors = Thrown first.
Proof.
  induction starts as [|j rest IH]; intros vectors i Hin Hthrown;
    [destruct Hin|]. cbn [fetchFrom].
  destruct (fetch (sliceOf inputs j (j + size))) as [next|m] eqn:Hj;
    [|now exists m].
  destruct Hin as [->|Hin]; [congruence|].
  exact (IH (vectors ++ next)%list i Hin Hthrown).
Qed.

(** The batches [fetchOpenAIEmbeddingsInBatches] asks for hold between 1
    and 100 inputs each and, one after the other, are the inputs.  When
    every request answers one vector per input, the vectors come back one
    per input, in the order of the inputs; when a request throws, the whole
    call throws. *)
Theorem batches_keep_the_order_of_the_inputs (V : Type) embeddingBatchNum
    (inputs : list string) :
  let size := batchSizeOf embeddingBatchNum in
  let starts := loopStarts size (List.length inputs) in
  List.concat (map (fun i => sliceOf inputs i (i + size)) starts) = inputs /\
  (forall i, In i starts ->
     1 <= List.length (sliceOf inputs i (i + size)) <= 100) /\
  (forall embed : string -> V,
     fetchOpenAIEmbeddingsInBatches (fun batch => Returned (map embed batch))
       embeddingBatchNum inputs
     = Returned (map embed inputs)) /\
  (forall (fetch : list string -> Result (list V)) i message,
     In i starts -> fetch (sliceOf inputs i (i + size)) = Thrown message ->
     exists first,
       fetchOpenAIEmbeddingsInBatches fetch embeddingBatchNum inputs
       = Thrown first).
Proof.
  cbv zeta. set (size := batchSizeOf embeddingBatchNum).
  pose proof (batchSizeOf_bounds embeddingBatchNum) as Hsize. fold size in Hsize.
  assert (Hslice : forall i, sliceOf inputs i (i + size)
                             = firstn size (skipn i inputs)).
  { intros i. unfold sliceOf. f_equal. lia. }
  assert (Htile : List.concat (map (fun i => sliceOf inputs i (i + size))
                            (loopStarts size (List.length inputs))) = inputs).
  { unfold loopStarts. rewrite map_map.
    rewrite (map_ext _ (fun j => firstn size (skipn (j * size) inputs)))
      by (intros j; apply Hslice).
    apply slices_tile. apply ceiling_covers. lia. }
  split; [exact Htile|]. split; [|split].
  - intros i Hi. unfold loopStarts in Hi. apply in_map_iff in Hi.
    destruct Hi as (j & <- & Hj). apply in_seq in Hj.
    rewrite Hslice, length_firstn, length_skipn.
    pose proof (ceiling_tight (List.length inputs) size j ltac:(lia)
                  ltac:(lia)). lia.
  - intros embed. unfold fetchOpenAIEmbeddingsInBatches. fold size.
    rewrite (fetchFrom_all (map embed)). cbn [app]. f_equal.
    rewrite <- Htile at 2. rewrite concat_map, map_map. reflexivity.
  - intros fetch i message Hi Hthrown.
    unfold fetchOpenAIEmbeddingsInBatches. fold size.
    exact (fetchFrom_thrown fetch size inputs message _ [] i Hi Hthrown).
Qed.

Local Open Scope Z_scope.

(** The pages the manager shows, from 1 to [getTotalPages] of the count,
    hold every row once, in order; there is always a page 1, and the page
    shown is one of them. *)
Theorem pages_of_the_manager_cover_the_rows {A : Type} (rows : list A)
    (pageSize : Z) (filtersOf : Z -> ReviewListFilters) :
  0 < pageSize ->
  (forall page,
     filter_limit (filtersOf page) = Some pageSize /\
     filter_offset (filtersOf page) = Some ((page - 1) * pageSize)) ->
  let totalPages := getTotalPages (Z.of_nat (List.length rows)) pageSize in
  1 <= totalPages /\
  List.concat
    (map (fun page => paginateRecords rows (filtersOf page))
         (map (fun j => Z.of_nat j + 1) (seq 0 (Z.to_nat totalPages))))
  = rows /\
  (forall page, totalPages < page ->
     paginateRecords rows (filtersOf page) = []) /\
  (forall page, 1 <= shownPage page totalPages <= totalPages).
Proof.
  intros Hsize Hfilters. cbv zeta.
  set (totalPages := getTotalPages (Z.of_nat (List.length rows)) pageSize).
  assert (Hpage : forall page, 1 <= page ->
            paginateRecords rows (filtersOf page)
            = firstn (Z.to_nat pageSize)
                (skipn (Z.to_nat (page - 1) * Z.to_nat pageSize) rows)).
  { intros page Hp. destruct (Hfilters page) as [Hl Ho].
    unfold paginateRecords. rewrite Hl, Ho.
    cbn [normalizePositiveInteger normalizeNonNegativeInteger].
    replace (0 <? pageSize) with true by (symmetry; now apply Z.ltb_lt).
    replace (0 <=? (page - 1) * pageSize) with true
      by (symmetry; apply Z.leb_le; nia).
    f_equal. f_equal. rewrite Z2Nat.inj_mul by lia. reflexivity. }
  assert (Htotal : totalPages
                   = Z.max 1 ((Z.of_nat (List.length rows) + pageSize - 1)
                              / pageSize)).
  { unfold totalPages, getTotalPages.
    replace (pageSize =? 0) with false by (symmetry; apply Z.eqb_neq; lia).
    rewrite (Z.max_r 0 (Z.of_nat (List.length rows))) by lia.
    now rewrite (Z.max_r 1 pageSize) by lia. }
  assert (Hcovers : (List.length rows
                     <= Z.to_nat totalPages * Z.to_nat pageSize)%nat).
  { assert (H : Z.of_nat (List.length rows) <= totalPages * pageSize).
    { rewrite Htotal.
      pose proof (Z.mul_succ_div_gt
                    (Z.of_nat (List.length rows) + pageSize - 1) pageSize
                    ltac:(lia)) as Hq.
      set (q := (Z.of_nat (List.length rows) + pageSize - 1) / pageSize)
        in *.
      assert (Z.of_nat (List.length rows) <= q * pageSize) by lia.
      assert (q <= Z.max 1 q) by lia. nia. }
    apply Nat2Z.inj_le. rewrite Nat2Z.inj_mul, !Z2Nat.id by lia. exact H. }
  split; [rewrite Htotal; lia|]. split; [|split].
  - rewrite map_map.
    rewrite (map_ext_in _
               (fun j => firstn (Z.to_nat pageSize)
                           (skipn (j * Z.to_nat pageSize) rows))).
    + now apply slices_tile.
    + intros j _. rewrite Hpage by lia. do 3 f_equal. lia.
  - intros page Hbeyond.
    assert (Hone : 1 <= totalPages) by (rewrite Htotal; lia).
    rewrite Hpage by lia.
    rewrite skipn_all2; [now destruct (Z.to_nat pageSize)|].
    assert (Z.to_nat totalPages <= Z.to_nat (page - 1))%nat by lia.
    nia.
  - intros page. unfold shownPage.
    assert (Hone : 1 <= totalPages) by (rewrite Htotal; lia). lia.
Qed.

(** Five rows on pages of two: three pages. *)
Lemma pages_of_the_manager_cover_the_rows_witness :
  List.concat
    (map (fun page =>
            paginateRecords [10; 20; 30; 40; 50]
              (pageOf (Some 2) (Some ((page - 1) * 2))))
         [1; 2; 3])
  = [10; 20; 30; 40; 50].
Proof.
  assert (Hsize : 0 < 2) by lia.
  destruct (pages_of_the_manager_cover_the_rows [10; 20; 30; 40; 50] 2
              (fun page => pageOf (Some 2) (Some ((page - 1) * 2))) Hsize
              (fun page => conj eq_refl eq_refl))
    as (_ & Hcover & _).
  exact Hcover.
Defined.

End Batches.

Section ChunkCount.
Import JS Chunker.

(** No white space at either end. *)
Definition trimmed (chunks : list string) : Prop :=
  Forall (fun chunk => trim chunk = chunk) chunks.

(** Twelve paragraphs that do not fit two by two, then one that is split. *)
Definition thirteen : string :=
  let paragraph := (repeatChar "a" 1000 ++ blankLine)%string in
  (paragraph ++ paragraph ++ paragraph ++ paragraph ++ paragraph ++ paragraph
   ++ paragraph ++ paragraph ++ paragraph ++ paragraph ++ paragraph
   ++ paragraph ++ repeatChar "b" 2000)%string.

Lemma trimmed_snoc chunks chunk :
  trimmed chunks -> trimmed (chunks ++ [trim chunk]).
Proof.
  intros H. apply Forall_app. split; [exact H|].
  constructor; [apply trim_idempotent | constructor].
Qed.

Lemma trimmed_filter test chunks : trimmed chunks -> trimmed (filter test chunks).
Proof.
  unfold trimmed. rewrite !Forall_forall. intros H x Hx.
  apply filter_In in Hx. now apply H.
Qed.

Lemma trimmed_firstn n chunks : trimmed chunks -> trimmed (firstn n chunks).
Proof.
  unfold trimmed. rewrite !Forall_forall. intros H x Hx.
  apply H. revert Hx. apply In_firstn.
Qed.

Lemma flush_trimmed chunks current :
  trimmed chunks -> trimmed (fst (flush chunks current)).
Proof.
  intros H. unfold flush. cbn [fst].
  destruct (truthy (trim current)); [now apply trimmed_snoc | exact H].
Qed.

Lemma flush_length chunks current :
  List.length (fst (flush chunks current)) <= S (List.length chunks).
Proof.
  unfold flush. cbn [fst]. destruct (truthy (trim current)); [|lia].
  rewrite length_app. cbn [List.length]. lia.
Qed.

Lemma hardSplit_trimmed starts paragraph :
  forall chunks, trimmed chunks ->
  trimmed (fst (hardSplit starts paragraph chunks)).
Proof.
  induction starts as [|i rest IH]; intros chunks H; cbn [hardSplit];
    [exact H|].
  destruct (EMBEDDING_MAX_CHUNKS <=? _); cbn [fst].
  - now apply trimmed_snoc.
  - apply IH. now apply trimmed_snoc.
Qed.

Lemma hardSplit_length starts paragraph :
  forall chunks, List.length chunks < EMBEDDING_MAX_CHUNKS ->
  let '(after, returned) := hardSplit starts paragraph chunks in
  if returned then List.length after <= EMBEDDING_MAX_CHUNKS
  else List.length after < EMBEDDING_MAX_CHUNKS.
Proof.
  induction starts as [|i rest IH]; intros chunks H; cbn [hardSplit];
    [exact H|].
  destruct (EMBEDDING_MAX_CHUNKS <=? _) eqn:Hfull.
  - rewrite length_app in *. cbn [List.length] in *. lia.
  - apply IH. apply Nat.leb_gt in Hfull. exact Hfull.
Qed.

Lemma sliceStarts_first len :
  0 < len -> exists rest, sliceStarts len = 0 :: rest.
Proof.
  intros Hlen. unfold sliceStarts.
  assert (Hq : 0 < (len + EMBEDDING_CHUNK_CHARS - 1) / EMBEDDING_CHUNK_CHARS).
  { apply Nat.div_str_pos. unfold EMBEDDING_CHUNK_CHARS. lia. }
  destruct ((len + EMBEDDING_CHUNK_CHARS - 1) / EMBEDDING_CHUNK_CHARS)
    as [|q]; [lia|].
  cbn [seq map]. now eexists.
Qed.

(** After a pending [current] is flushed, the hard split returns with at
    most one chunk more than the limit. *)
Lemma hardSplit_from_flush len paragraph chunks :
  0 < len -> List.length chunks <= EMBEDDING_MAX_CHUNKS ->
  let '(after, returned) := hardSplit (sliceStarts len) paragraph chunks in
  if returned then List.length after <= S EMBEDDING_MAX_CHUNKS
  else List.length after < EMBEDDING_MAX_CHUNKS.
Proof.
  intros Hlen H. destruct (sliceStarts_first len Hlen) as [rest ->].
  cbn [hardSplit].
  destruct (EMBEDDING_MAX_CHUNKS <=? _) eqn:Hfull.
  - rewrite length_app. cbn [List.length]. lia.
  - apply Nat.leb_gt in Hfull.
    pose proof (hardSplit_length rest paragraph _ Hfull) as Hrest.
    destruct (hardSplit rest paragraph _) as [after returned].
    destruct returned; lia.
Qed.

Lemma finish_length chunks current :
  List.length (finish chunks current) <= EMBEDDING_MAX_CHUNKS.
Proof. unfold finish. apply firstn_le_length. Qed.

Lemma finish_trimmed chunks current :
  trimmed chunks -> trimmed (finish chunks current).
Proof.
  intros H. unfold finish. apply trimmed_firstn, trimmed_filter.
  destruct (_ && _); [now apply flush_trimmed | exact H].
Qed.

Lemma filter_shorter {A : Type} (test : A -> bool) l n :
  List.length l <= n -> List.length (filter test l) <= n.
Proof. pose proof (filter_length_le test l). lia. Qed.

Lemma packParagraphs_length paragraphs :
  forall chunks current,
  List.length chunks < EMBEDDING_MAX_CHUNKS ->
  List.length (packParagraphs paragraphs chunks current)
  <= S EMBEDDING_MAX_CHUNKS.
Proof.
  induction paragraphs as [|paragraph rest IH]; intros chunks current H;
    cbn [packParagraphs].
  - pose proof (finish_length chunks current). lia.
  - destruct (3 * EMBEDDING_CHUNK_CHARS <? 2 * String.length paragraph)
      eqn:Hlong.
    + apply Nat.ltb_lt in Hlong.
      assert (Hlen : 0 < String.length paragraph) by lia.
      assert (Hflushed :
                List.length
                  (fst (if truthy current then flush chunks current
                        else (chunks, current)))
                <= EMBEDDING_MAX_CHUNKS).
      { destruct (truthy current); cbn [fst]; [|lia].
        pose proof (flush_length chunks current). lia. }
      destruct (if truthy current then flush chunks current
                else (chunks, current)) as [flushed pending].
      cbn [fst] in Hflushed.
      pose proof (hardSplit_from_flush (String.length paragraph) paragraph
                    flushed Hlen Hflushed) as Hsplit.
      destruct (hardSplit _ paragraph flushed) as [after returned].
      destruct returned; [now apply filter_shorter | now apply IH].
    + set (candidate := if truthy current then _ else paragraph).
      assert (Hnext :
                List.length
                  (fst (if (EMBEDDING_CHUNK_CHARS <? String.length candidate)
                           && truthy current
                        then (fst (flush chunks current), paragraph)
                        else (chunks, candidate)))
                <= EMBEDDING_MAX_CHUNKS).
      { destruct (_ && _); cbn [fst]; [|lia].
        pose proof (flush_length chunks current). lia. }
      destruct (if (EMBEDDING_CHUNK_CHARS <? String.length candidate)
                   && truthy current
                then (fst (flush chunks current), paragraph)
                else (chunks, candidate)) as [next pending].
      cbn [fst] in Hnext.
      destruct (EMBEDDING_MAX_CHUNKS <=? List.length next) eqn:Hfull.
      * pose proof (finish_length next pending). lia.
      * apply IH. now apply Nat.leb_gt in Hfull.
Qed.

Lemma packParagraphs_trimmed paragraphs :
  forall chunks current,
  trimmed chunks -> trimmed (packParagraphs paragraphs chunks current).
Proof.
  induction paragraphs as [|paragraph rest IH]; intros chunks current H;
    cbn [packParagraphs].
  - now apply finish_trimmed.
  - destruct (3 * EMBEDDING_CHUNK_CHARS <? 2 * String.length paragraph).
    + assert (Hflushed :
                trimmed
                  (fst (if truthy current then flush chunks current
                        else (chunks, current)))).
      { destruct (truthy current); [now apply flush_trimmed | exact H]. }
      destruct (if truthy current then flush chunks current
                else (chunks, current)) as [flushed pending].
      cbn [fst] in Hflushed.
      pose proof (hardSplit_trimmed (sliceStarts (String.length paragraph))
                    paragraph flushed Hflushed) as Hsplit.
      destruct (hardSplit _ paragraph flushed) as [after returned].
      cbn [fst] in Hsplit.
      destruct returned; [now apply trimmed_filter | now apply IH].
    + set (candidate := if truthy current then _ else paragraph).
      assert (Hnext :
                trimmed
                  (fst (if (EMBEDDING_CHUNK_CHARS <? String.length candidate)
                           && truthy current
                        then (fst (flush chunks current), paragraph)
                        else (chunks, candidate)))).
      { destruct (_ && _); cbn [fst]; [now apply flush_trimmed | exact H]. }
      destruct (if (EMBEDDING_CHUNK_CHARS <? String.length candidate)
                   && truthy current
                then (fst (flush chunks current), paragraph)
                else (chunks, candidate)) as [next pending].
      cbn [fst] in Hnext.
      destruct (EMBEDDING_MAX_CHUNKS <=? List.length next);
        [now apply finish_trimmed | now apply IH].
Qed.

Lemma packParagraphs_truthy paragraphs :
  forall chunks current chunk,
  In chunk (packParagraphs paragraphs chunks current) -> truthy chunk = true.
Proof.
  assert (Hfinish : forall chunks current chunk,
            In chunk (finish chunks current) -> truthy chunk = true).
  { intros chunks current chunk Hin. unfold finish in Hin.
    apply In_firstn in Hin. now apply filter_In in Hin. }
  induction paragraphs as [|paragraph rest IH]; intros chunks current chunk;
    cbn [packParagraphs]; [apply Hfinish|].
  destruct (3 * EMBEDDING_CHUNK_CHARS <? 2 * String.length paragraph).
  - destruct (if truthy current then flush chunks current
              else (chunks, current)) as [flushed pending].
    destruct (hardSplit _ paragraph flushed) as [after returned].
    destruct returned; [|apply IH].
    intros Hin. now apply filter_In in Hin.
  - destruct (if _ && truthy current
              then (fst (flush chunks current), paragraph)
              else (chunks, _)) as [next pending].
    destruct (EMBEDDING_MAX_CHUNKS <=? List.length next);
      [apply Hfinish | apply IH].
Qed.

(** [chunkTextForEmbedding] returns at most 13 chunks, one more than
    [EMBEDDING_MAX_CHUNKS]; every chunk has at least one character and no
    white space at either end.  Thirteen chunks are returned for twelve
    paragraphs of 1000 characters followed by one of 2000 characters. *)
Theorem chunks_are_few_and_not_empty text :
  List.length (chunkTextForEmbedding text) <= S EMBEDDING_MAX_CHUNKS /\
  (forall chunk, In chunk (chunkTextForEmbedding text) ->
     0 < String.length chunk /\ trim chunk = chunk) /\
  List.length (chunkTextForEmbedding thirteen) = S EMBEDDING_MAX_CHUNKS.
Proof.
  split; [|split].
  - unfold chunkTextForEmbedding. destruct (isEmpty _); [cbn; lia|].
    apply packParagraphs_length. cbn. unfold EMBEDDING_MAX_CHUNKS. lia.
  - intros chunk Hin. unfold chunkTextForEmbedding in Hin.
    destruct (isEmpty _); [destruct Hin|]. split.
    + apply packParagraphs_truthy in Hin. destruct chunk; [discriminate|].
      cbn. lia.
    + assert (H : trimmed (packParagraphs
                             (paragraphsOf (normalizeAttachmentText text)) []
                             EmptyString))
        by (apply packParagraphs_trimmed; constructor).
      unfold trimmed in H. rewrite Forall_forall in H. now apply H.
  - vm_compute. reflexivity.
Qed.

End ChunkCount.

(** ** The CSV export ([reviewStore.ts]) *)

Module CSV.
Import JS Store Queries.
















(** *** Reading the text back *)



























End CSV.

(** ** The attachment text, once normalised ([reviewAI.ts]) *)

Section CleanText.
Import JS Chunker.

Definition one (c : ascii) : string := String c EmptyString.
Definition two (c d : ascii) : string := String c (String d EmptyString).
Definition three (c d e : ascii) : string :=
  String c (String d (String e EmptyString)).

Lemma prefix_head a t b s :
  prefix (String a t) (String b s) = Ascii.eqb a b && prefix t s.
Proof.
  cbn [prefix]. destruct (ascii_dec a b) as [->|Hne].
  - now rewrite Ascii.eqb_refl.
  - apply Ascii.eqb_neq in Hne. now rewrite Hne.
Qed.

Lemma prefix_all s : prefix EmptyString s = true.
Proof. now destruct s. Qed.

Lemma prefix_one c s :
  prefix (one c) s
  = match s with String b _ => Ascii.eqb c b | EmptyString => false end.
Proof.
  destruct s as [|b s]; [reflexivity|]. unfold one.
  now rewrite prefix_head, prefix_all, andb_true_r.
Qed.

Lemma prefix_LF s : prefix (one LF) s = startsWithLF s.
Proof.
  rewrite prefix_one. destruct s as [|b s]; [reflexivity|].
  cbn [startsWithLF]. unfold isLF. apply Ascii.eqb_sym.
Qed.

Lemma includes_tail c s t :
  includes (String c s) t = false -> includes s t = false.
Proof.
  rewrite includes_unfold. intros H. now apply orb_false_iff in H.
Qed.

Lemma includes_trimStart s t :
  includes s t = false -> includes (trimStart s) t = false.
Proof.
  induction s as [|c r IH]; intros H; [exact H|]. cbn [trimStart].
  destruct (isWhite c); [|exact H]. apply IH. now apply includes_tail in H.
Qed.

Lemma prefix_trimEnd s : forall t,
  prefix t (trimEnd s) = true -> prefix t s = true.
Proof.
  induction s as [|c r IH]; intros t H; [exact H|].
  destruct t as [|a t]; [reflexivity|]. cbn [trimEnd] in H.
  destruct (isWhite c && isEmpty (trimEnd r)); [discriminate|].
  rewrite prefix_head in *. apply andb_true_iff in H. destruct H as [-> H].
  now rewrite (IH t H).
Qed.

Lemma includes_trimEnd s t :
  includes s t = false -> includes (trimEnd s) t = false.
Proof.
  induction s as [|c r IH]; intros H; [exact H|].
  rewrite includes_unfold in H. apply orb_false_iff in H.
  destruct H as [Hp Hr]. cbn [trimEnd].
  destruct (isWhite c && isEmpty (trimEnd r)) eqn:Hdrop.
  - rewrite includes_unfold, orb_false_r.
    destruct t as [|a t]; [|reflexivity]. now rewrite prefix_all in Hp.
  - rewrite includes_unfold. apply orb_false_iff. split; [|now apply IH].
    destruct (prefix t (String c (trimEnd r))) eqn:Hpre; [|reflexivity].
    assert (Hfull : prefix t (String c r) = true).
    { apply prefix_trimEnd. cbn [trimEnd]. now rewrite Hdrop. }
    congruence.
Qed.

Lemma includes_trim s t : includes s t = false -> includes (trim s) t = false.
Proof. intros H. unfold trim. now apply includes_trimEnd, includes_trimStart. Qed.

(** A pass that only deletes characters brings in no character. *)
Lemma includes_one c s :
  includes s (one c)
  = match s with
    | EmptyString => false
    | String b r => Ascii.eqb c b || includes r (one c)
    end.
Proof.
  rewrite includes_unfold, prefix_one. destruct s; [reflexivity|reflexivity].
Qed.

Lemma stripBlanksBeforeLF_one c s :
  includes s (one c) = false ->
  includes (stripBlanksBeforeLF s) (one c) = false.
Proof.
  induction s as [|b r IH]; intros H; [exact H|].
  rewrite includes_one in H. apply orb_false_iff in H. destruct H as [Hb Hr].
  cbn [stripBlanksBeforeLF].
  destruct (isBlank b && startsWithLF (dropBlanks r)); [now apply IH|].
  rewrite includes_one, Hb. now apply IH.
Qed.

Lemma collapseLF_one c s : forall run,
  includes s (one c) = false -> includes (collapseLF run s) (one c) = false.
Proof.
  induction s as [|b r IH]; intros run H; [exact H|].
  rewrite includes_one in H. apply orb_false_iff in H. destruct H as [Hb Hr].
  cbn [collapseLF].
  destruct (isLF b); [destruct (run <? 2)|];
    try (rewrite includes_one, Hb); now apply IH.
Qed.

Lemma replaceNUL_clean s : includes (replaceNUL s) (one NUL) = false.
Proof.
  induction s as [|b r IH]; [reflexivity|]. cbn [replaceNUL].
  rewrite includes_one, IH, orb_false_r.
  destruct (Ascii.eqb b NUL) eqn:Hb; [reflexivity|].
  now rewrite Ascii.eqb_sym.
Qed.

(** The first blank of a run that ends in a line feed is deleted, so what
    is left starts with a line feed exactly when the text without its
    leading blanks does. *)
Lemma startsWithLF_stripBlanksBeforeLF s :
  startsWithLF (stripBlanksBeforeLF s) = startsWithLF (dropBlanks s).
Proof.
  induction s as [|b r IH]; [reflexivity|].
  cbn [stripBlanksBeforeLF dropBlanks].
  destruct (isBlank b) eqn:Hb; cbn [andb].
  - destruct (startsWithLF (dropBlanks r)) eqn:Hr; [now rewrite IH|].
    cbn [startsWithLF]. unfold isLF, isBlank in *.
    destruct (Ascii.eqb b LF) eqn:Hlf; [|reflexivity].
    apply Ascii.eqb_eq in Hlf. subst b. discriminate.
  - reflexivity.
Qed.

Lemma prefix_two b s :
  prefix (two b LF) s
  = match s with
    | String c r => Ascii.eqb b c && startsWithLF r
    | EmptyString => false
    end.
Proof.
  destruct s as [|c r]; [reflexivity|]. unfold two.
  rewrite prefix_head. f_equal. apply prefix_LF.
Qed.

Lemma stripBlanksBeforeLF_clean b s :
  isBlank b = true ->
  includes (stripBlanksBeforeLF s) (two b LF) = false.
Proof.
  intros Hb. induction s as [|c r IH]; [reflexivity|].
  cbn [stripBlanksBeforeLF].
  destruct (isBlank c && startsWithLF (dropBlanks r)) eqn:Hdrop;
    [exact IH|].
  rewrite includes_unfold, IH, orb_false_r, prefix_two.
  rewrite startsWithLF_stripBlanksBeforeLF.
  destruct (Ascii.eqb b c) eqn:Hbc; [|reflexivity].
  apply Ascii.eqb_eq in Hbc. subst c. rewrite Hb in Hdrop. exact Hdrop.
Qed.

Lemma startsWithLF_collapseLF s :
  startsWithLF (collapseLF 0 s) = startsWithLF s.
Proof.
  destruct s as [|c r]; [reflexivity|]. cbn [collapseLF startsWithLF].
  destruct (isLF c) eqn:Hc; cbn [Nat.ltb Nat.leb startsWithLF]; exact Hc
    || now rewrite Hc.
Qed.

Lemma collapseLF_blank b s : forall run,
  isBlank b = true ->
  includes s (two b LF) = false ->
  includes (collapseLF run s) (two b LF) = false.
Proof.
  induction s as [|c r IH]; intros run Hb H; [exact H|].
  rewrite includes_unfold, prefix_two in H. apply orb_false_iff in H.
  destruct H as [Hp Hr]. cbn [collapseLF].
  destruct (isLF c) eqn:Hc.
  - assert (Hbc : Ascii.eqb b c = false).
    { destruct (Ascii.eqb b c) eqn:Hbc; [|reflexivity].
      apply Ascii.eqb_eq in Hbc. subst c. unfold isBlank, isLF in *.
      apply Ascii.eqb_eq in Hc. subst b. discriminate. }
    destruct (run <? 2); [|now apply IH].
    rewrite includes_unfold, prefix_two, Hbc. now apply IH.
  - rewrite includes_unfold, prefix_two, startsWithLF_collapseLF, Hp.
    now apply IH.
Qed.

Lemma prefix_three s :
  prefix (three LF LF LF) s
  = match s with
    | String c r => isLF c && prefix (two LF LF) r
    | EmptyString => false
    end.
Proof.
  destruct s as [|c r]; [reflexivity|]. unfold three.
  rewrite prefix_head. unfold isLF. now rewrite (Ascii.eqb_sym LF c).
Qed.

Lemma prefix_feeds s :
  prefix (two LF LF) s
  = match s with
    | String c r => isLF c && startsWithLF r
    | EmptyString => false
    end.
Proof.
  rewrite prefix_two. destruct s as [|c r]; [reflexivity|].
  unfold isLF. now rewrite (Ascii.eqb_sym LF c).
Qed.

(** Of a run of line feeds two are kept at most. *)
Lemma collapseLF_clean s : forall run,
  includes (collapseLF run s) (three LF LF LF) = false /\
  (2 <= run -> startsWithLF (collapseLF run s) = false) /\
  (run = 1 -> prefix (two LF LF) (collapseLF run s) = false).
Proof.
  induction s as [|c r IH]; intros run; [now repeat split|].
  cbn [collapseLF]. destruct (isLF c) eqn:Hc.
  - destruct (IH (S run)) as (Hin & Hstart & Hpair).
    destruct (run <? 2) eqn:Hrun.
    + apply Nat.ltb_lt in Hrun.
      assert (Hnext : prefix (two LF LF) (collapseLF (S run) r) = false).
      { destruct run as [|[|run]]; [now apply Hpair | | lia].
        rewrite prefix_feeds.
        pose proof (Hstart ltac:(lia)) as Hno.
        destruct (collapseLF 2 r) as [|d o]; [reflexivity|].
        cbn [startsWithLF] in Hno. now rewrite Hno. }
      split; [|split].
      * rewrite includes_unfold, prefix_three, Hc, Hnext, Hin. reflexivity.
      * lia.
      * intros ->. rewrite prefix_feeds, Hc. cbn [andb].
        now apply Hstart.
    + apply Nat.ltb_ge in Hrun. split; [exact Hin|]. split.
      * intros _. apply Hstart. lia.
      * lia.
  - destruct (IH 0) as (Hin & _ & _). split; [|split].
    + now rewrite includes_unfold, prefix_three, Hc, Hin.
    + intros _. cbn [startsWithLF]. exact Hc.
    + intros _. now rewrite prefix_feeds, Hc.
Qed.

(** The text [normalizeAttachmentText] returns holds no NUL, no three line
    feeds in a row and no blank or tab right before a line feed, and has no
    white space at either end.  A carriage return followed by a line feed
    can remain: the text is not always a fixed point of the function. *)
Theorem normalized_text_is_clean text :
  let clean := normalizeAttachmentText text in
  includes clean (one NUL) = false /\
  includes clean (three LF LF LF) = false /\
  includes clean (two SP LF) = false /\
  includes clean (two TAB LF) = false /\
  trim clean = clean /\
  exists other,
    includes (normalizeAttachmentText other) (two CR LF) = true /\
    normalizeAttachmentText (normalizeAttachmentText other)
    <> normalizeAttachmentText other.
Proof.
  cbv zeta. unfold normalizeAttachmentText.
  split; [|split; [|split; [|split; [|split]]]].
  - apply includes_trim, collapseLF_one, stripBlanksBeforeLF_one,
      replaceNUL_clean.
  - apply includes_trim. apply collapseLF_clean.
  - apply includes_trim, collapseLF_blank; [reflexivity|].
    now apply stripBlanksBeforeLF_clean.
  - apply includes_trim, collapseLF_blank; [reflexivity|].
    now apply stripBlanksBeforeLF_clean.
  - apply trim_idempotent.
  - exists (String "a" (String CR (String CR (String LF (String "b" EmptyString))))).
    split; [vm_compute; reflexivity|]. vm_compute. discriminate.
Qed.

End CleanText.

(** ** The endpoints of the OpenAI-compatible API ([reviewAI.ts]) *)

Module Endpoints.
Import JS Store.

Definition SLASH : ascii := "/"%char.

(** The last character. *)
Fixpoint lastOf (s : string) : option ascii :=
  match s with
  | EmptyString => None
  | String c EmptyString => Some c
  | String _ r => lastOf r
  end.

Fixpoint dropLast (s : string) : string :=
  match s with
  | EmptyString => EmptyString
  | String _ EmptyString => EmptyString
  | String c r => String c (dropLast r)
  end.

(** The replacement of [/\/$/] by the empty string: one slash at the end is
    dropped. *)
Definition stripSlash (s : string) : string :=
  match lastOf s with
  | Some c => if Ascii.eqb c SLASH then dropLast s else s
  | None => s
  end.

(** [s.endsWith(t)]: [t] is [s] or ends what follows the first character of
    [s]. *)
Fixpoint endsWith (s t : string) : bool :=
  String.eqb s t ||
  match s with
  | EmptyString => false
  | String _ r => endsWith r t
  end.

(** [base]: [api || "https://api.openai.com"], trimmed, without a slash at
    the end. *)
Definition baseOf (api : string) : string :=
  stripSlash (trim (orElse api "https://api.openai.com")).

Definition buildOpenAIChatEndpoint (api : string) : string :=
  let base := baseOf api in
  if endsWith base "/v1/chat/completions" then base
  else if endsWith base "/chat/completions" then base
  else if endsWith base "/v1" then base ++ "/chat/completions"
  else base ++ "/v1/chat/completions".

Definition buildOpenAIEmbeddingsEndpoint (api : string) : string :=
  let base := baseOf api in
  if endsWith base "/v1/embeddings" then base
  else if endsWith base "/embeddings" then base
  else if endsWith base "/v1" then base ++ "/embeddings"
  else base ++ "/v1/embeddings".

(** *** What ends a text *)

Lemma endsWith_unfold s t :
  endsWith s t
  = String.eqb s t ||
    match s with EmptyString => false | String _ r => endsWith r t end.
Proof. now destruct s. Qed.

Lemma endsWith_self s : endsWith s s = true.
Proof. rewrite endsWith_unfold. now rewrite String.eqb_refl. Qed.

Lemma endsWith_append a t : endsWith (a ++ t) t = true.
Proof.
  induction a as [|c a IH]; [apply endsWith_self|]. cbn [append].
  rewrite endsWith_unfold, IH. apply orb_true_r.
Qed.

Lemma endsWith_trans s : forall t u,
  endsWith s t = true -> endsWith t u = true -> endsWith s u = true.
Proof.
  induction s as [|c r IH]; intros t u Hst Htu; rewrite endsWith_unfold in Hst;
    apply orb_true_iff in Hst; destruct Hst as [Hst|Hst];
    try discriminate.
  - apply String.eqb_eq in Hst. now subst t.
  - apply String.eqb_eq in Hst. now subst t.
  - rewrite endsWith_unfold, (IH t u Hst Htu). apply orb_true_r.
Qed.

Lemma lastOf_cons c r :
  r <> EmptyString -> lastOf (String c r) = lastOf r.
Proof. destruct r; [contradiction | reflexivity]. Qed.

Lemma lastOf_append a b : b <> EmptyString -> lastOf (a ++ b) = lastOf b.
Proof.
  intros Hb. induction a as [|c a IH]; [reflexivity|]. cbn [append].
  rewrite lastOf_cons; [exact IH|]. destruct a; [exact Hb | discriminate].
Qed.

Lemma endsWith_last s : forall t,
  t <> EmptyString -> endsWith s t = true -> lastOf s = lastOf t.
Proof.
  induction s as [|c r IH]; intros t Ht H; rewrite endsWith_unfold in H;
    apply orb_true_iff in H; destruct H as [H|H]; try discriminate.
  - apply String.eqb_eq in H. now subst t.
  - apply String.eqb_eq in H. now subst t.
  - rewrite lastOf_cons; [now apply IH|].
    intros ->. rewrite endsWith_unfold in H. cbn in H.
    rewrite orb_false_r in H. destruct t; [contradiction | discriminate].
Qed.

Lemma trimEnd_black s c :
  lastOf s = Some c -> isWhite c = false -> trimEnd s = s.
Proof.
  induction s as [|d r IH]; intros Hlast Hc; [reflexivity|].
  cbn [trimEnd]. destruct r as [|e r].
  - cbn in Hlast. injection Hlast as ->. cbn [trimEnd]. now rewrite Hc.
  - rewrite lastOf_cons in Hlast by discriminate. rewrite (IH Hlast Hc).
    cbn [isEmpty]. now rewrite andb_false_r.
Qed.

Lemma trim_black s c :
  startsBlack s = true -> lastOf s = Some c -> isWhite c = false ->
  trim s = s.
Proof.
  intros Hstart Hlast Hc. unfold trim. rewrite (trimStart_black s Hstart).
  exact (trimEnd_black s c Hlast Hc).
Qed.

Lemma startsBlack_dropLast s :
  startsBlack s = true -> startsBlack (dropLast s) = true.
Proof. destruct s as [|c [|d r]]; auto. Qed.

Lemma startsBlack_baseOf api : startsBlack (baseOf api) = true.
Proof.
  unfold baseOf, stripSlash.
  assert (H : startsBlack (trim (orElse api "https://api.openai.com")) = true)
    by apply trimEnd_startsBlack, trimStart_startsBlack.
  destruct (lastOf _) as [c|]; [|exact H].
  destruct (Ascii.eqb c SLASH); [now apply startsBlack_dropLast | exact H].
Qed.

Lemma startsBlack_append a b :
  startsBlack a = true -> startsBlack b = true -> startsBlack (a ++ b) = true.
Proof. destruct a; auto. Qed.

Section Completion.

(** The path of the service, [/chat/completions] or [/embeddings]. *)
Variable path : string.
Variable final : ascii.
Hypothesis path_last : lastOf path = Some final.
Hypothesis final_black : isWhite final = false.
Hypothesis final_plain : Ascii.eqb final SLASH = false.
Hypothesis final_letter : final <> "1"%char.
Hypothesis path_black : startsBlack path = true.

Definition endpointFor (api : string) : string :=
  let base := baseOf api in
  if endsWith base ("/v1" ++ path) then base
  else if endsWith base path then base
  else if endsWith base "/v1" then base ++ path
  else base ++ "/v1" ++ path.

Lemma path_filled : path <> EmptyString.
Proof. intros H. rewrite H in path_last. discriminate. Qed.

Lemma endpointFor_ends api : endsWith (endpointFor api) path = true.
Proof.
  unfold endpointFor.
  destruct (endsWith (baseOf api) ("/v1" ++ path)) eqn:Hfull.
  - apply (endsWith_trans _ ("/v1" ++ path)); [exact Hfull|].
    apply (endsWith_append "/v1" path).
  - destruct (endsWith (baseOf api) path) eqn:Hshort; [exact Hshort|].
    destruct (endsWith (baseOf api) "/v1").
    + apply endsWith_append.
    + change (baseOf api ++ "/v1" ++ path)%string
        with (baseOf api ++ ("/v1" ++ path))%string.
      apply (endsWith_trans _ ("/v1" ++ path)); [apply endsWith_append|].
      apply (endsWith_append "/v1" path).
Qed.

Lemma endpointFor_black api : startsBlack (endpointFor api) = true.
Proof.
  unfold endpointFor. pose proof (startsBlack_baseOf api) as Hbase.
  destruct (endsWith (baseOf api) ("/v1" ++ path)); [exact Hbase|].
  destruct (endsWith (baseOf api) path); [exact Hbase|].
  destruct (endsWith (baseOf api) "/v1");
    apply startsBlack_append; auto.
Qed.

Lemma endpointFor_fixed api : endpointFor (endpointFor api) = endpointFor api.
Proof.
  pose proof (endpointFor_ends api) as Hends.
  pose proof (endpointFor_black api) as Hblack.
  pose proof (endsWith_last _ _ path_filled Hends) as Hlast.
  rewrite path_last in Hlast.
  set (e := endpointFor api) in *.
  assert (He : e <> EmptyString).
  { intros H. rewrite H in Hlast. discriminate. }
  assert (Hbase : baseOf e = e).
  { unfold baseOf. rewrite (orElse_keeps _ _ He).
    rewrite (trim_black e final Hblack Hlast final_black).
    unfold stripSlash. now rewrite Hlast, final_plain. }
  unfold endpointFor at 1. rewrite Hbase, Hends.
  now destruct (endsWith e ("/v1" ++ path)).
Qed.

Lemma endpointFor_versioned api :
  endsWith (baseOf api) "/v1" = true ->
  endpointFor api = (baseOf api ++ path)%string.
Proof.
  intros Hv1. unfold endpointFor. rewrite Hv1.
  pose proof (endsWith_last _ "/v1" ltac:(discriminate) Hv1) as Hlast.
  assert (Hnot : forall t, endsWith t path = true ->
                           endsWith (baseOf api) t = false).
  { intros t Ht. destruct (endsWith (baseOf api) t) eqn:H; [|reflexivity].
    pose proof (endsWith_trans _ _ _ H Ht) as Hpath.
    apply (endsWith_last _ _ path_filled) in Hpath.
    rewrite Hlast, path_last in Hpath. injection Hpath as Hpath.
    now destruct final_letter. }
  rewrite (Hnot ("/v1" ++ path)%string (endsWith_append "/v1" path)).
  now rewrite (Hnot path (endsWith_self path)).
Qed.

End Completion.

(** The endpoint for chat ends with [/chat/completions] and the endpoint
    for embeddings with [/embeddings], whatever the setting; an endpoint
    they returned, given as the setting, is returned as it is; a base that
    ends with [/v1] (also followed by one slash) is completed without a
    second [/v1]; with no setting the endpoints are those of
    [https://api.openai.com]. *)
Theorem endpoints_are_completed_once api :
  endsWith (buildOpenAIChatEndpoint api) "/chat/completions" = true /\
  endsWith (buildOpenAIEmbeddingsEndpoint api) "/embeddings" = true /\
  buildOpenAIChatEndpoint (buildOpenAIChatEndpoint api)
  = buildOpenAIChatEndpoint api /\
  buildOpenAIEmbeddingsEndpoint (buildOpenAIEmbeddingsEndpoint api)
  = buildOpenAIEmbeddingsEndpoint api /\
  (endsWith (baseOf api) "/v1" = true ->
   buildOpenAIChatEndpoint api = (baseOf api ++ "/chat/completions")%string /\
   buildOpenAIEmbeddingsEndpoint api = (baseOf api ++ "/embeddings")%string) /\
  (api = EmptyString ->
   buildOpenAIChatEndpoint api
   = "https://api.openai.com/v1/chat/completions" /\
   buildOpenAIEmbeddingsEndpoint api = "https://api.openai.com/v1/embeddings").
Proof.
  assert (Hs : lastOf "/chat/completions" = Some "s"%char) by reflexivity.
  assert (Hg : lastOf "/embeddings" = Some "s"%char) by reflexivity.
  assert (Hblack : isWhite "s" = false) by reflexivity.
  assert (Hplain : Ascii.eqb "s" SLASH = false) by reflexivity.
  assert (Hletter : "s"%char <> "1"%char) by discriminate.
  change (buildOpenAIChatEndpoint api)
    with (endpointFor "/chat/completions" api).
  change (buildOpenAIEmbeddingsEndpoint api)
    with (endpointFor "/embeddings" api).
  change (buildOpenAIChatEndpoint (endpointFor "/chat/completions" api))
    with (endpointFor "/chat/completions"
            (endpointFor "/chat/completions" api)).
  change (buildOpenAIEmbeddingsEndpoint (endpointFor "/embeddings" api))
    with (endpointFor "/embeddings" (endpointFor "/embeddings" api)).
  split; [apply endpointFor_ends|].
  split; [apply endpointFor_ends|].
  split; [now apply (endpointFor_fixed "/chat/completions" "s"%char)|].
  split; [now apply (endpointFor_fixed "/embeddings" "s"%char)|].
  split.
  - intros Hv1. split.
    + now apply (endpointFor_versioned "/chat/completions" "s"%char).
    + now apply (endpointFor_versioned "/embeddings" "s"%char).
  - intros ->. split; reflexivity.
Qed.

End Endpoints.
